(* ===== verification/_CoqProject ===== *)
-Q . S2P
Prelude.v
JsString.v
Octets.v
Hlc.v
Values.v
Encryption.v
StoredFile.v
Ids.v
KeySource.v
Crdt.v
Convergence.v
JsMap.v
LocalStore.v
Wire.v
Observation.v
Adapter.v
Codec.v
Session.v
QueryCache.v
MergeStore.v
Manifest.v
Flush.v
Pull.v
Frame.v
Compaction.v
Rehydrate.v
ChangeEffects.v
LocalWrites.v
Promises.v
Engine.v
Files.v
Queue.v
Batch.v
AutoCompact.v
CatchUp.v
Mesh.v
Connect.v
Credentials.v
Relay.v
Routes.v
RowStore.v
Worker.v
Grants.v
Requests.v
Quota.v
OctetDocs.v
Cloudflare.v
Notify.v
CloudMesh.v
CloudCompaction.v
Recovery.v
Invitation.v
Handshake.v
QueueLoss.v
StaleCache.v
