(* ===== verification/Prelude.v ===== *)
(** * Interocitor: a verification of the core synchronisation protocol

    Interocitor keeps application tables in a local store on every device and
    synchronises them through a folder on a file host: a
    device publishes each local change as an immutable file and merges the files
    of the others.  This development models the TypeScript of
    [src/packages/core/src] (paths below are relative to it) and proves what the
    protocol promises: replicas that have merged the same changes agree, no change
    is lost between the local write and the remote file, no file is merged
    before it is due or deleted before it is covered by a snapshot, and the engine's
    background work neither loses data nor stops unnoticed.  It also models the file
    host that the repository ships, the mesh server of [src/packages/workers/src]
    (paths below that start with [workers/] are relative to [src/packages], without
    their [src] folder), and proves that it keeps what the protocol asks of a host:
    a request stays inside its mesh, published objects are not replaced, access only
    narrows, and sealed files and quotas are enforced.

    ** The parts, from the data upwards

    - Prelude.v (this file): JavaScript numbers, results, the monad [M S] of stateful
      code that can throw (a rejected promise keeps the mutations made before it),
      loops, tactics and generic lemmas.
    - JsString.v: the string operations of the language, with their order.
    - Octets.v: bytes as integers, their big-endian numerals, base58 and base64 text
      ([crypto/base64.ts]).
    - Hlc.v: [core/hlc.ts].  Clocks, their serialised form, the guard against clocks
      from the future.
    - Values.v, Crdt.v, Convergence.v: the data of [core/types.ts] and the merge
      of [core/crdt.ts] ([applyOp], [mergeColumn], [upsertRow], [deleteRow],
      [applyChangeEntry]); what histories converge.
    - Encryption.v: [crypto/encryption.ts] and [crypto/compression.ts]: keys and their
      text, the envelope formats, the inflation limit.  The class [WebCrypto] has what the
      platform computes (AES-GCM, DEFLATE, HMAC, SHA-256, UTF-8, JSON), with its laws.
    - StoredFile.v: [core/stored-file.ts], the frame of an uploaded file.  Ids.v:
      [core/ids.ts] and [core/row-id.ts].
    - KeySource.v: [crypto/key-source.ts] and [storage/credential-store.ts].  The class
      [MeshKeySource] is what the engine asks of a source; two sources are its instances.
    - JsMap.v, LocalStore.v: [storage/memory-store.ts], with the outbox, the pending
      batch and the [meta] records.  The class [MetaStore] is the part of it
      that the ledger and the codec use.
    - Wire.v: the remote documents, [core/retention.ts], [paths()] of
      [core/internals.ts], and the class [Platform]: JSON text, UTF-8, AES-GCM and
      SHA-256, of which only round trips and injectivity are assumed.
    - Observation.v: [core/change-observation.ts], the ledger of processed files.
    - Adapter.v: the class [StorageOps] (the calls of a remote), the class [StorageAdapter]
      (any remote, with what the protocol relies on), the class [ReliableAdapter]
      (a remote that does not fail while it is up), and [adapters/memory.ts],
      which is an instance of all three.
    - Codec.v: [core/codec.ts].
    - Session.v: the context objects that the engine hands to the protocol functions, as
      one record; [poisonRemote] and [ensureRowsCached] of [core/sync-engine.ts].
    - MergeStore.v: merging through the row cache refines merging in the store, whose row objects
      the cache shares.
    - Manifest.v: [core/manifest.ts].  Flush.v: [core/flush.ts].  Pull.v:
      [core/pull.ts].  Compaction.v, Rehydrate.v: [core/compaction.ts].
      Frame.v: which remote objects each of these may touch.
    - ChangeEffects.v: [core/change-effects.ts].
    - LocalWrites.v, Engine.v, Queue.v, Batch.v, Promises.v, AutoCompact.v,
      CatchUp.v, Mesh.v, Connect.v, QueueLoss.v, Files.v, Credentials.v, Relay.v:
      [core/sync-engine.ts].  LocalWrites.v
      has the rows a local write makes; Engine.v the state of the engine and its operations
      (writes, batches, flush, offline quarantine, pull, rehydrate, compact, remote access
      decisions); AutoCompact.v the three schedules of background compaction
      and Promises.v the promises they share; Mesh.v joining another mesh and a later
      life of the same one; Connect.v the connection sequence, its fast path, disconnecting and
      a change of remote; Files.v uploaded files; Credentials.v the initialisation of the
      engine with its key; Relay.v polling and the pulls that relay messages ask for; the
      others their theorems.
    - QueryCache.v, StaleCache.v: the query and row caches of the engine with the cache keys
      of [core/table.ts], as a state machine whose steps interleave with writes.
    - Routes.v: [workers/paths.ts] and the routing table of [workers/worker.ts]: addresses,
      object paths, cache keys, the kinds of object.
    - RowStore.v: [workers/schema.ts], [workers/ops.ts], [workers/maintenance.ts] and
      [workers/mesh-info.ts]: the two tables and the cache of the server, each SQL statement
      a function on the rows, each operation ([opPut], [opPutImmutable], [opList],
      [evictIdleMeshes], ...) with its statements in their order.
    - Worker.v: the handlers and the middleware of [workers/worker.ts], with
      [workers/access-control.ts] and [workers/upload-policy.ts], composed as [createWorker]
      composes them into [worker_fetch] and [worker_scheduled].  Requests.v has what a
      request does to the store as a whole, Quota.v uploaded files.
    - Grants.v: the signed grants of [workers/access-control.ts], and their chains.
    - Cloudflare.v: [adapters/cloudflare.ts] and [adapters/http-status.ts], the adapter for
      the mesh server, over a [fetch] that is a class.  CloudMesh.v puts [worker_fetch] and a
      network that loses requests and answers behind that [fetch]; CloudCompaction.v runs the
      compaction of the engine over both.  OctetDocs.v writes every remote document as
      octets, for runs of the whole system.
    - Notify.v: the relay object of [workers/relay.ts] and the subscription of
      [adapters/cloudflare.ts], with their sockets and timers.
    - Recovery.v: [crypto/recovery.ts], the wrapper of a mesh's credentials under a phrase.
      The class [RecoveryCrypto] adds what the platform computes for it, and that bytes are octets.
    - Invitation.v, Handshake.v: the pairing of two devices ([handshake/]): profiles, codes and
      links, and the exchange of both sides over any adapter, with the class [Ecdh].

    A protocol function takes the remote, the local store and the clock through a
    [Session]; the engine is an [Engine] record around a session, and lifts a session
    step with [sess], a store step with [store].  The functions that call each
    other in the code call each other here: [flushQueued] calls [doFlush],
    which calls [quarantineExpiredOfflineWrites], [doLoadOrCreateManifest] and
    [flushPrimary]; [pullNow] calls [pull], which calls [applyChangeEntry] on rows it has
    cached, and which are the store's own; [compact_locked] calls [pullNow] and [compact].

    ** What the theorems show

    - Merging: upsert histories converge in any order, deletes commute where they
      can, a second delivery is silent, the cached merge refines the store (one that
      fails leaves the store half merged), and a local write is the merge of the operation it publishes.  Where convergence
      fails is proved too, on concrete histories.
    - Clocks: monotone, bounded by the skew limit, and ordered by their stamps.
    - Local changes: the store conserves operations, a batch is one change, a flush
      publishes every change and over any remote never loses one, and
      offline quarantine withholds every write.
    - Remote files: receipts precede publication, a pull gives a receipt to
      exactly the files it has merged and in an order the listing cannot
      influence, a compaction deletes only what its snapshot covers, and a
      rehydration recovers what was compacted, where the columns hold JSON values (dates, NaN and
      undefined do not survive JSON).
    - Observations: what an observer of changes is told is the whole difference that a merge
      has made, row by row and column by column.
    - Validation: a manifest that is loaded is valid, the mesh identity is pinned,
      payloads round-trip.
    - Time: a compaction completes over a reliable remote, a pull restores at
      most one snapshot, a retention check always comes back; an immediate
      background compaction waits for itself and never ends.
    - Meshes: joining separates two meshes, a later life is refilled with every row, and
      is asked for at most once; the fast path of a connection skips nothing.
    - Caches: a cached answer is the store's, once every write is announced.
    - Relay and polling: one polling loop at a time; what the server announces reaches the
      sockets within a second, a subscription always has a socket or a retry on its way, and every
      relay message is followed by a pull that starts after it.
    - Keys and files: an envelope that opens was sealed under the key, a store keeps one
      key, credentials that cannot be reached mint nothing, an uploaded file reads back, and a
      sealed one is replaced or deleted only under its key.
    - Identifiers: device ids sort by their time; a mesh id is valid exactly when the
      authority issued it.
    - The mesh server: a request to a mesh leaves every other mesh and every recovery wrapper
      as they were; an immutable object, once written, keeps its bytes until it is deleted; a
      reader's requests change nothing; an eviction takes exactly the idle roots; the manifest
      pointer never goes back; uploaded files are a map guarded by seals, within the quota; a
      chain of grants only narrows.
    - The adapter with the server behind it: over a network that loses requests and answers,
      the mesh server is the storage that the protocol asks for, except that it keeps the first bytes of
      an immutable object and deletes a path with what is below it.
    - Recovery phrases: a phrase unwraps what its words wrapped, and nothing that was not
      sealed under it.
    - Pairing: a code or link says what was put in; over a working relay the credentials arrive,
      however the waits of the two devices interleave; over any relay nothing is taken or given
      beyond what both profiles agree on.
    - What goes wrong, each proved on the code as it is: a restoration while remote
      access is paused erases the queue, a device that survives an eviction misses the
      snapshot, a restored clock is behind its rows, a restored snapshot reaches no
      cached query, and a compaction that is retried over the mesh server loses what was written in
      between.

    ** Conventions and bounds

    Strings are sequences of code units below 256; the server's bodies are their UTF-8
    octets.  Numbers are integers, exact below
    [2^53], or [NaN].  Time ([Date.now()]), random rolls and fresh identifiers are
    arguments ([Env], [Host]).  Operations that the code runs under a lock are
    atomic; the interleavings that remain are sequences of such operations
    ([StoreAction], [World], [rstep]).  A remote call may fail after it has taken
    effect.  The only fuels are that of [pullNow], whose recursion restores a snapshot
    and pulls again: two levels are enough when a snapshot has the epoch of the
    manifest that names it, and any amount for a writer ([pull_comes_to_an_end]); that of [pollFor], one call for
    every millisecond of its timeout ([poll_fuel]);
    digits of numbers use the bit length.  A batch of statements is taken to succeed: the answers of the server when
    its database fails are not covered.  A server request is one step: the check of
    a quota and the write that follows it are not interleaved with another request's, which the
    code does not exclude.  The database's own limits on the length of a [LIKE] pattern are not
    modelled.

    ** Not modelled

    In a connection, a stage that exceeds its deadline ends the attempt, and what it was
    doing goes on in later steps.  Left out are the typed table handles, the observer callback of
    remote changes, logging, and error messages; [core/table.ts], [core/reader.ts],
    [core/connected-stores.ts]; [crypto/signing.ts]; the other network adapters; of the mesh server, the response headers and the stores over R2 and S3, whose laws are the class
    [BodyStoreLaws]; and the packages web and react, which wrap this core for their
    platforms. *)

From stdpp Require Export base tactics list gmap strings sorting numbers option.
From Stdlib Require Export Lia.

(** ** JavaScript numbers

    The program only computes with integers, apart from the [NaN] that
    [parseInt] and [Date.parse] give on malformed text.  [Num z] is the
    integer [z]; the theorems that need exactness bound [z] by
    [Number.MAX_SAFE_INTEGER]. *)
Inductive jsnum :=
  | NaN
  | Num (z : Z).

#[global] Instance jsnum_eq_dec : EqDecision jsnum.
Proof. solve_decision. Defined.

Definition num_lift2 (f : Z → Z → Z) (a b : jsnum) : jsnum :=
  match a, b with Num x, Num y => Num (f x y) | _, _ => NaN end.
Definition num_rel2 (f : Z → Z → bool) (a b : jsnum) : bool :=
  match a, b with Num x, Num y => f x y | _, _ => false end.

(** [+], [-], [Math.max] and [Math.min] give [NaN] as soon as an operand is
    [NaN]; [<], [>] and [===] are then false. *)
Definition num_add := num_lift2 Z.add.
Definition num_sub := num_lift2 Z.sub.
Definition num_max := num_lift2 Z.max.
Definition num_min := num_lift2 Z.min.
Definition num_eqb := num_rel2 Z.eqb.
Definition num_ltb := num_rel2 Z.ltb.
Definition num_gtb (a b : jsnum) : bool := num_ltb b a.
Definition num_leb := num_rel2 Z.leb.
Definition num_geb (a b : jsnum) : bool := num_leb b a.
(** [Number.isFinite]. *)
Definition num_finite (a : jsnum) : bool :=
  match a with Num _ => true | NaN => false end.

(** [Number.MAX_SAFE_INTEGER + 1]: below it every integer is a double. *)
Definition safe_bound : Z := 2 ^ 53.
Definition safe_int (z : Z) : Prop := (0 ≤ z < safe_bound)%Z.

(** ** Results, and state passing with exceptions

    An [async] function is a function from the state it mutates to a result and the
    state it leaves behind: a rejected promise keeps the mutations made before
    the throw. *)
Inductive remoteAccessKind :=
  | Unauthenticated | Forbidden | NotFound | RateLimited | PolicyUnavailable.
#[global] Instance remoteAccessKind_eq_dec : EqDecision remoteAccessKind.
Proof. solve_decision. Defined.

(** Why credentials could not be read, and what went wrong with them. *)
Inductive credentialFailure := Unavailable | Unreadable.
#[global] Instance credentialFailure_eq_dec : EqDecision credentialFailure.
Proof. solve_decision. Defined.
Inductive credentialError :=
  | AccessFailed (status : credentialFailure)
  | PersistenceFailed (operation : string)
  | ContractInvalid
  | ReplacementRequired
  | CredentialMismatch (storedMeshId activeMeshId : string).
#[global] Instance credentialError_eq_dec : EqDecision credentialError.
Proof. solve_decision. Defined.

Inductive error :=
  | JsError (message : string)
  | RangeErr (message : string)
  | RemoteAccessErr (kind : remoteAccessKind) (status : Z) (retryAfterMs : option Z)
  | MeshEncryptionMismatchErr (expectedMode actualMode : bool)
  | CredentialErr (kind : credentialError).
#[global] Instance error_eq_dec : EqDecision error.
Proof. solve_decision. Defined.

Inductive result (A : Type) :=
  | Ok (a : A)
  | Throw (e : error).
Arguments Ok {_} _.
Arguments Throw {_} _.

#[global] Instance result_ret : MRet result := @Ok.
#[global] Instance result_bind : MBind result := λ A B f m,
  match m with Ok a => f a | Throw e => Throw e end.

Definition M (S A : Type) : Type := S → result A * S.

#[global] Instance M_ret S : MRet (M S) := λ A a s, (Ok a, s).
#[global] Instance M_bind S : MBind (M S) := λ A B f m s,
  match m s with
  | (Ok a, s') => f a s'
  | (Throw e, s') => (Throw e, s')
  end.

Definition throw {S A} (e : error) : M S A := λ s, (Throw e, s).
Definition gets {S A} (f : S → A) : M S A := λ s, (Ok (f s), s).
Definition modify {S} (f : S → S) : M S () := λ s, (Ok (), f s).
(** [try { m } catch (e) { h(e) }]. *)
Definition catch {S A} (m : M S A) (h : error → M S A) : M S A := λ s,
  match m s with
  | (Ok a, s') => (Ok a, s')
  | (Throw e, s') => h e s'
  end.
Definition lift {S A} (r : result A) : M S A := λ s, (r, s).
(** [for (const x of xs) { f(x) }]; a throw ends the loop. *)
Fixpoint for_each {S A} (f : A → M S ()) (xs : list A) : M S () :=
  match xs with
  | [] => mret ()
  | x :: xs => f x;; for_each f xs
  end.
(** A statement guarded by an [if] without [else]. *)
Definition when {S} (b : bool) (m : M S ()) : M S () := if b then m else mret ().

Definition is_ok {A} (r : result A) : bool := match r with Ok _ => true | Throw _ => false end.

(** ** Tactics and hints *)
Create HintDb interocitor.
#[export] Hint Constants Transparent : interocitor.

(** Unfold the monad one layer and reduce. *)
Ltac munfold :=
  unfold mbind, mret, M_bind, M_ret, result_bind, result_ret, throw, gets, modify, catch, lift,
    when in *; simpl in *.

(** Case analysis on every boolean or option the goal branches on. *)
Ltac split_matches :=
  repeat case_match; simplify_eq/=; try done.

Ltac jsnum_cases :=
  repeat match goal with
         | a : jsnum |- _ => destruct a
         end; simpl in *.

(** ** Sequencing lemmas *)
Section monad_laws.
Context {S : Type}.
Implicit Types s : S.

Lemma bind_ok {A B} (m : M S A) (f : A → M S B) s a s' :
  m s = (Ok a, s') → (m ≫= f) s = f a s'.
Proof. intros H. unfold mbind, M_bind. by rewrite H. Qed.

Lemma bind_throw {A B} (m : M S A) (f : A → M S B) s e s' :
  m s = (Throw e, s') → (m ≫= f) s = (Throw e, s').
Proof. intros H. unfold mbind, M_bind. by rewrite H. Qed.

Lemma catch_ok {A} (m : M S A) h s a s' : m s = (Ok a, s') → catch m h s = (Ok a, s').
Proof. intros E. unfold catch. by rewrite E. Qed.

Lemma bind_ok_inv {A B} (m : M S A) (f : A → M S B) s b s' :
  (m ≫= f) s = (Ok b, s') → ∃ a s1, m s = (Ok a, s1) ∧ f a s1 = (Ok b, s').
Proof.
  unfold mbind, M_bind. destruct (m s) as [[a|e] s1]; intros; [eauto|done].
Qed.

Lemma for_each_app {A} (f : A → M S ()) xs ys s :
  for_each f (xs ++ ys) s = (for_each f xs;; for_each f ys) s.
Proof.
  revert s. induction xs as [|x xs IH]; intros s; simpl; [done|].
  unfold mbind, M_bind. destruct (f x s) as [[]?]; [|done].
  by rewrite IH.
Qed.

(** A loop body that keeps [I] keeps it to the end of the loop. *)
Lemma for_each_inv {A} (I : S → Prop) (f : A → M S ()) xs s r s' :
  (∀ x s r s', x ∈ xs → I s → f x s = (r, s') → I s') →
  I s → for_each f xs s = (r, s') → I s'.
Proof.
  revert s. induction xs as [|x xs IH]; intros s Hf HI; simpl; [by intros [= _ <-]|].
  unfold mbind, M_bind. destruct (f x s) as [[[]|e] s1] eqn:E.
  - intros. eapply IH; [|eapply Hf; [left|done|done]|done].
    intros. eapply Hf; [by right|done..].
  - intros [= _ <-]. eapply Hf; [left|done|done].
Qed.
End monad_laws.

#[export] Hint Resolve bind_ok bind_throw : interocitor.

(** A filter that every element passes. *)
Lemma filter_all {A} (P : A → Prop) `{∀ x, Decision (P x)} (l : list A) :
  Forall P l → filter P l = l.
Proof.
  induction 1 as [|x l Hx Hl IH]; [done|]. rewrite filter_cons_True by done. by rewrite IH.
Qed.

(** ** Folds over permuted inputs

    A left fold whose steps commute on the states satisfying [I] does not
    depend on the order of its inputs. *)
Lemma foldl_inv {A B} (I : A → Prop) (P : B → Prop) (f : A → B → A) :
  (∀ a b, I a → P b → I (f a b)) →
  ∀ l a, I a → Forall P l → I (foldl f a l).
Proof.
  intros HI l. induction l as [|b l IH]; intros a Ha Hl; simpl; [done|].
  apply Forall_cons_1 in Hl as [??]. apply IH; auto.
Qed.

Lemma foldl_perm {A B} (I : A → Prop) (P : B → Prop) (f : A → B → A) :
  (∀ a b, I a → P b → I (f a b)) →
  (∀ a b1 b2, I a → P b1 → P b2 → f (f a b1) b2 = f (f a b2) b1) →
  ∀ l1 l2, l1 ≡ₚ l2 → ∀ a, I a → Forall P l1 → foldl f a l1 = foldl f a l2.
Proof.
  intros HI Hc. induction 1 as [|b l1 l2 Hp IH|b1 b2 l|l1 l2 l3 Hp1 IH1 Hp2 IH2];
    intros a Ha Hl; simpl.
  - done.
  - apply Forall_cons_1 in Hl as [??]. apply IH; auto.
  - apply Forall_cons_1 in Hl as [? Hl]. apply Forall_cons_1 in Hl as [??]. by rewrite Hc.
  - rewrite IH1 by done. apply IH2; [done|]. by rewrite <- Hp1.
Qed.

(** ** [Array.prototype.sort] with a comparator

    A stable sort: an element is placed after every element it does not
    compare below. *)
Section js_sort.
Context {A : Type} (cmp : A → A → jsnum).

Fixpoint sort_insert (x : A) (l : list A) : list A :=
  match l with
  | [] => [x]
  | y :: l => if num_ltb (cmp x y) (Num 0) then x :: y :: l else y :: sort_insert x l
  end.
Definition js_sort (l : list A) : list A := foldl (λ acc x, sort_insert x acc) [] l.

Lemma sort_insert_perm x l : sort_insert x l ≡ₚ x :: l.
Proof.
  induction l as [|y l IH]; simpl; [done|]. case_match; [done|]. rewrite IH. constructor.
Qed.

Lemma js_sort_perm l : js_sort l ≡ₚ l.
Proof.
  unfold js_sort. rewrite <- (app_nil_r l) at 2. generalize (@nil A).
  induction l as [|x l IH]; intros acc; simpl; [done|].
  rewrite IH, sort_insert_perm. by rewrite Permutation_middle.
Qed.

(** On the elements satisfying [P] the comparator is a total order. *)
Context (P : A → Prop) (le : A → A → Prop).
Context (le_lt : ∀ x y, P x → P y → num_ltb (cmp x y) (Num 0) = true → le x y).
Context (le_nlt : ∀ x y, P x → P y → num_ltb (cmp x y) (Num 0) = false → le y x).
Context (le_trans : ∀ x y z, P x → P y → P z → le x y → le y z → le x z).

Lemma sort_insert_sorted x l :
  P x → Forall P l → StronglySorted le l → StronglySorted le (sort_insert x l).
Proof.
  intros Hx Hl Hs. induction Hs as [|y l Hs IH Hy]; simpl; [by repeat constructor|].
  apply Forall_cons_1 in Hl as [Hpy Hl]. destruct (num_ltb _ _) eqn:E.
  - constructor; [by constructor|]. constructor; [by apply le_lt|].
    rewrite list.Forall_forall in Hy, Hl |- *. intros z Hz. apply le_trans with y; auto.
  - constructor; [by apply IH|]. rewrite sort_insert_perm. constructor; [by apply le_nlt|done].
Qed.

Lemma js_sort_sorted l : Forall P l → StronglySorted le (js_sort l).
Proof.
  intros Hl. unfold js_sort.
  assert (Forall P (@nil A) ∧ StronglySorted le (@nil A)) as Hacc by by split; constructor.
  revert Hacc. generalize (@nil A). induction Hl as [|x l Hx Hl IH]; simpl; [by intros ? [??]|].
  intros acc [Ha Hs]. apply IH. split; [rewrite sort_insert_perm; by constructor|].
  by apply sort_insert_sorted.
Qed.

(** Two sorted lists with the same elements are the same list. *)
Lemma sorted_perm_unique l1 l2 :
  (∀ x y, P x → P y → le x y → le y x → x = y) →
  Forall P l1 → StronglySorted le l1 → StronglySorted le l2 → l1 ≡ₚ l2 → l1 = l2.
Proof.
  intros Hanti. revert l2. induction l1 as [|x l1 IH]; intros l2 HP H1 H2 Hp.
  { by apply Permutation_nil_l in Hp. }
  destruct l2 as [|y l2]; [by apply Permutation_nil_r in Hp|].
  pose proof HP as [Hpx Hpl]%Forall_cons_1.
  assert (Forall P (y :: l2)) as [Hpy _]%Forall_cons_1 by by rewrite <- Hp.
  apply StronglySorted_inv in H1 as [H1 Hx]. apply StronglySorted_inv in H2 as [H2 Hy].
  assert (x = y) as <-.
  { assert (x ∈ y :: l2) as [->|Hin1]%elem_of_cons by (rewrite <- Hp; left); [done|].
    assert (y ∈ x :: l1) as [->|Hin2]%elem_of_cons by (rewrite Hp; left); [done|].
    rewrite list.Forall_forall in Hx, Hy. apply Hanti; auto. }
  f_equal. apply IH; [done..|]. by apply Permutation_cons_inv in Hp.
Qed.

(** The sorted list does not depend on the order of the input. *)
Lemma js_sort_unique l1 l2 :
  (∀ x y, P x → P y → le x y → le y x → x = y) →
  Forall P l1 → l1 ≡ₚ l2 → js_sort l1 = js_sort l2.
Proof.
  intros Hanti HP Hp. apply sorted_perm_unique; [done|..].
  - by rewrite js_sort_perm.
  - by apply js_sort_sorted.
  - apply js_sort_sorted. by rewrite <- Hp.
  - by rewrite !js_sort_perm.
Qed.
End js_sort.

(** ** Updating a map from the entries of another *)
Lemma foldl_partial_alter_lookup {V W} (F : V → option W → option W)
    (d : gmap string V) (m : gmap string W) k :
  foldl (λ m kv, partial_alter (F kv.2) kv.1 m) m (map_to_list d) !! k =
    match d !! k with Some v => F v (m !! k) | None => m !! k end.
Proof.
  assert (∀ l : list (string * V), NoDup l.*1 → ∀ m : gmap string W,
    foldl (λ m kv, partial_alter (F kv.2) kv.1 m) m l !! k =
      match (list_to_map l : gmap string V) !! k with
      | Some v => F v (m !! k) | None => m !! k end) as Hgen.
  { induction l as [|[k' v] l IH]; intros Hnd m'; simpl; [done|].
    apply list.NoDup_cons in Hnd as [Hk Hnd]. rewrite (IH Hnd).
    destruct (decide (k' = k)) as [->|Hne].
    - rewrite lookup_insert_eq, lookup_partial_alter_eq.
      by rewrite (not_elem_of_list_to_map_1 _ _ Hk).
    - by rewrite lookup_insert_ne, lookup_partial_alter_ne by done. }
  rewrite Hgen by apply NoDup_fst_map_to_list. by rewrite list_to_map_to_list.
Qed.

(** ** Two-state invariants

    [keeps R m]: whatever [m] returns, the state it leaves is related to the
    state it started in. *)
Definition keeps {S A} (R : S → S → Prop) (m : M S A) : Prop :=
  ∀ s r s', m s = (r, s') → R s s'.

Section keeps.
Context {S : Type} (R : S → S → Prop) `{!PreOrder R}.

Lemma keeps_ret {A} (a : A) : keeps R (mret a).
Proof. by intros s r s' [= _ <-]. Qed.
Lemma keeps_lift {A} (x : result A) : keeps R (lift x).
Proof. by intros s r s' [= _ <-]. Qed.
Lemma keeps_throw {A} e : keeps R (throw e : M S A).
Proof. by intros s r s' [= _ <-]. Qed.
Lemma keeps_gets {A} (f : S → A) : keeps R (gets f).
Proof. by intros s r s' [= _ <-]. Qed.
Lemma keeps_bind {A B} (m : M S A) (f : A → M S B) :
  keeps R m → (∀ a, keeps R (f a)) → keeps R (m ≫= f).
Proof.
  intros Hm Hf s r s'. unfold mbind, M_bind. destruct (m s) as [[a|e] s1] eqn:E.
  - intros E'. transitivity s1; [by eapply Hm|by eapply Hf].
  - intros [= _ <-]. by eapply Hm.
Qed.
Lemma keeps_catch {A} (m : M S A) h : keeps R m → (∀ e, keeps R (h e)) → keeps R (catch m h).
Proof.
  intros Hm Hh s r s'. unfold catch. destruct (m s) as [[a|e] s1] eqn:E.
  - intros [= _ <-]. by eapply Hm.
  - intros E'. transitivity s1; [by eapply Hm|by eapply Hh].
Qed.
Lemma keeps_when b (m : M S ()) : keeps R m → keeps R (when b m).
Proof. intros Hm. destruct b; [done|apply keeps_ret]. Qed.
Lemma keeps_for_each {A} (f : A → M S ()) xs :
  (∀ x, x ∈ xs → keeps R (f x)) → keeps R (for_each f xs).
Proof.
  induction xs as [|x xs IH]; intros Hf; simpl; [apply keeps_ret|].
  apply keeps_bind; [apply Hf; left|]. intros _. apply IH. intros y Hy. apply Hf. by right.
Qed.
End keeps.
#[export] Hint Resolve keeps_ret keeps_lift keeps_throw keeps_gets keeps_bind keeps_catch
  keeps_when keeps_for_each : interocitor.

(** Walk through a computation built from the combinators; [leaf] handles the calls. *)
Ltac keeps_walk leaf :=
  repeat first
    [ progress intros
    | apply _
    | solve [leaf]
    | apply keeps_bind | apply keeps_catch | apply keeps_when
    | apply keeps_ret | apply keeps_lift | apply keeps_throw | apply keeps_gets
    | match goal with |- keeps _ (match ?x with _ => _ end) => destruct x end
    | match goal with |- keeps _ (let '(_, _) := ?x in _) => destruct x end ].
