(* ===== verification/JsString.v ===== *)
(** * JavaScript strings

    The string operations the core uses: [slice], [indexOf], [lastIndexOf],
    [startsWith], [padStart], [Number.prototype.toString(radix)], [parseInt] and
    the relational order.  A JavaScript string is a sequence of UTF-16 code units;
    the model keeps the code units below 256, one [ascii] each, which covers
    every string the engine builds itself (clock stamps, identifiers, paths).
    All comparisons are on code units, as in the language. *)

From S2P Require Import Prelude.
From Stdlib Require Import Ascii.
From Stdlib Require String.

Open Scope stdpp_scope.

(** ** Definitions *)

Definition str_ltb (a b : string) : bool :=
  match String.compare a b with Lt => true | _ => false end.

(** [""] is the one falsy string. *)
Definition truthy (s : string) : bool := negb (String.eqb s "").

Fixpoint str_drop (n : nat) (s : string) : string :=
  match n, s with
  | O, _ => s
  | S n, String _ s => str_drop n s
  | S _, EmptyString => ""
  end.
Fixpoint str_take (n : nat) (s : string) : string :=
  match n, s with
  | O, _ => ""
  | S n, String c s => String c (str_take n s)
  | S _, EmptyString => ""
  end.

(** [s.slice(i, j)]: a negative bound counts from the end. *)
Definition slice_bound (len i : Z) : Z :=
  if (i <? 0)%Z then Z.max 0 (len + i) else Z.min i len.
Definition slice (s : string) (i j : Z) : string :=
  let len := Z.of_nat (String.length s) in
  let from := slice_bound len i in
  let to := slice_bound len j in
  str_take (Z.to_nat (to - from)) (str_drop (Z.to_nat from) s).
(** [s.slice(i)]. *)
Definition slice_from (s : string) (i : Z) : string :=
  slice s i (Z.of_nat (String.length s)).

Definition startsWith (s p : string) : bool := String.prefix p s.

Fixpoint index_of (p s : string) : option nat :=
  if String.prefix p s then Some 0
  else match s with
       | EmptyString => None
       | String _ s => S <$> index_of p s
       end.
Fixpoint last_index_of (p s : string) : option nat :=
  match s with
  | EmptyString => if String.prefix p s then Some 0 else None
  | String _ s' =>
      match last_index_of p s' with
      | Some i => Some (S i)
      | None => if String.prefix p s then Some 0 else None
      end
  end.
Definition or_minus_one (o : option nat) : Z :=
  match o with Some i => Z.of_nat i | None => (-1)%Z end.
(** [s.indexOf(p, from)] and [s.lastIndexOf(p)]. *)
Definition indexOf (s p : string) (from : Z) : Z :=
  let n := Z.to_nat (Z.max 0 from) in
  or_minus_one ((λ i, n + i)%nat <$> index_of p (str_drop n s)).
Definition lastIndexOf (s p : string) : Z := or_minus_one (last_index_of p s).

(** [s.charCodeAt(i)], [None] past the end. *)
Definition char_at (s : string) (i : nat) : option ascii := String.get i s.

Fixpoint str_repeat (n : nat) (c : ascii) : string :=
  match n with O => "" | S n => String c (str_repeat n c) end.
Definition padStart (s : string) (w : nat) (c : ascii) : string :=
  str_repeat (w - String.length s) c +:+ s.

(** Digits of radix at most 16, lower case. *)
Definition digit_char (d : Z) : ascii :=
  if (d <? 10)%Z then ascii_of_nat (48 + Z.to_nat d) else ascii_of_nat (87 + Z.to_nat d).
Definition char_code (c : ascii) : Z := Z.of_nat (nat_of_ascii c).
Definition digit_val (r : Z) (c : ascii) : option Z :=
  let k := char_code c in
  let d := if (48 <=? k)%Z && (k <=? 57)%Z then Some (k - 48)%Z
           else if (97 <=? k)%Z && (k <=? 122)%Z then Some (k - 87)%Z
           else if (65 <=? k)%Z && (k <=? 90)%Z then Some (k - 55)%Z
           else None in
  match d with Some d => if (d <? r)%Z then Some d else None | None => None end.

(** [n.toString(radix)] of an integer: the fuel is the bit length, which bounds
    the number of digits in every radix. *)
Fixpoint to_digits (fuel : nat) (r z : Z) (acc : string) : string :=
  match fuel with
  | O => acc
  | S fuel =>
      let acc' := String (digit_char (z mod r)) acc in
      if (z / r =? 0)%Z then acc' else to_digits fuel r (z / r) acc'
  end.
Definition nat_toString (r z : Z) : string :=
  to_digits (S (Z.to_nat (Z.log2 z))) r z "".
Definition num_toString (r : Z) (n : jsnum) : string :=
  match n with
  | NaN => "NaN"
  | Num z => if (z <? 0)%Z then String "-" (nat_toString r (- z)) else nat_toString r z
  end.

(** [parseInt(s, radix)]: leading white space, a sign, for radix 16 an optional
    [0x], then the longest run of digits; [NaN] when there is none. *)
Definition is_space (c : ascii) : bool :=
  let k := char_code c in ((9 <=? k) && (k <=? 13) || (k =? 32) || (k =? 160))%Z.
Fixpoint trim_start (s : string) : string :=
  match s with
  | String c s' => if is_space c then trim_start s' else s
  | EmptyString => ""
  end.
Fixpoint parse_digits (r : Z) (s : string) (acc : option Z) : option Z :=
  match s with
  | EmptyString => acc
  | String c s =>
      match digit_val r c with
      | Some d => parse_digits r s (Some (default 0 acc * r + d)%Z)
      | None => acc
      end
  end.
Definition strip_0x (r : Z) (s : string) : string :=
  if (r =? 16)%Z && (String.prefix "0x" s || String.prefix "0X" s)
  then str_drop 2 s else s.
Definition parseInt (s : string) (r : Z) : jsnum :=
  let s := trim_start s in
  let '(neg, s) := match s with
                   | String c s' =>
                       if Ascii.eqb c "-" then (true, s')
                       else if Ascii.eqb c "+" then (false, s') else (false, s)
                   | EmptyString => (false, s)
                   end in
  match parse_digits r (strip_0x r s) None with
  | Some z => Num (if neg then - z else z)%Z
  | None => NaN
  end.

(** ** Lemmas: append, take, drop, search *)

Fixpoint str_forall (P : ascii → bool) (s : string) : bool :=
  match s with EmptyString => true | String c s => P c && str_forall P s end.

Lemma str_app_cons c a b : String c a +:+ b = String c (a +:+ b).
Proof. done. Qed.
Lemma str_app_nil_l b : "" +:+ b = b.
Proof. done. Qed.
Lemma str_app_nil_r a : a +:+ "" = a.
Proof. induction a as [|c a IH]; [done|]. by rewrite str_app_cons, IH. Qed.
Lemma str_app_assoc a b c : (a +:+ b) +:+ c = a +:+ (b +:+ c).
Proof. induction a as [|x a IH]; [done|]. by rewrite !str_app_cons, IH. Qed.
Lemma str_length_app a b : String.length (a +:+ b) = String.length a + String.length b.
Proof. induction a as [|c a IH]; [done|]. rewrite str_app_cons. simpl. by rewrite IH. Qed.
Lemma str_take_app a b : str_take (String.length a) (a +:+ b) = a.
Proof. induction a as [|c a IH]; [by destruct b|]. rewrite str_app_cons. simpl. by rewrite IH. Qed.
Lemma str_drop_app a b : str_drop (String.length a) (a +:+ b) = b.
Proof. induction a as [|c a IH]; [done|]. rewrite str_app_cons. simpl. by rewrite IH. Qed.
Lemma str_drop_app_S a c b : str_drop (S (String.length a)) (a +:+ String c b) = b.
Proof. induction a as [|x a IH]; [by destruct b|]. rewrite str_app_cons. simpl. apply IH. Qed.
Lemma str_take_all n s : String.length s ≤ n → str_take n s = s.
Proof.
  revert n. induction s as [|c s IH]; intros [|n]; simpl; intros; try done; try lia.
  by rewrite IH by lia.
Qed.
Lemma str_forall_app P a b : str_forall P (a +:+ b) = str_forall P a && str_forall P b.
Proof.
  induction a as [|c a IH]; [done|]. rewrite str_app_cons. simpl. by rewrite IH, andb_assoc.
Qed.
Lemma str_length_repeat n c : String.length (str_repeat n c) = n.
Proof. induction n; simpl; congruence. Qed.
Lemma padStart_length s w c : (w ≤ String.length (padStart s w c))%nat.
Proof. unfold padStart. rewrite str_length_app, str_length_repeat. lia. Qed.
Lemma str_get_app_r a b i : String.get (String.length a + i) (a +:+ b) = String.get i b.
Proof. induction a as [|c a IH]; [done|]. rewrite str_app_cons. apply IH. Qed.
Lemma str_get_app_l a b i :
  i < String.length a → String.get i (a +:+ b) = String.get i a.
Proof.
  revert i. induction a as [|c a IH]; intros i; [simpl; lia|].
  rewrite str_app_cons. destruct i; simpl; [done|]. intros. apply IH. lia.
Qed.
Lemma str_get_forall P s i c :
  str_forall P s = true → String.get i s = Some c → P c = true.
Proof.
  revert i. induction s as [|x s IH]; intros i; simpl; [done|].
  intros [??]%andb_true_iff. destruct i; [by intros [= ->]|]. by apply IH.
Qed.
Create Rewrite HintDb interocitor_str.
#[export] Hint Rewrite str_length_app str_length_repeat str_app_assoc : interocitor_str.

(** A one-character search stops at the first occurrence. *)
Lemma index_of_char c a b :
  str_forall (λ x, negb (Ascii.eqb x c)) a = true →
  index_of (String c "") (a +:+ String c b) = Some (String.length a).
Proof.
  induction a as [|x a IH].
  - intros _. rewrite str_app_nil_l. simpl. destruct (ascii_dec c c); [by destruct b|done].
  - simpl. intros [Hx Ha]%andb_true_iff. rewrite ?str_app_cons. simpl.
    destruct (ascii_dec c x) as [->|].
    + by rewrite Ascii.eqb_refl in Hx.
    + by rewrite IH.
Qed.

Lemma slice_bound_nonneg len i : (0 ≤ i)%Z → slice_bound len i = Z.min i len.
Proof. intros. unfold slice_bound. destruct (Z.ltb_spec i 0); [lia|done]. Qed.

Lemma slice_nonneg s i j :
  i ≤ j → j ≤ String.length s →
  slice s (Z.of_nat i) (Z.of_nat j) = str_take (j - i) (str_drop i s).
Proof.
  intros. unfold slice. rewrite !slice_bound_nonneg by lia.
  replace (Z.to_nat _) with (j - i) by lia. f_equal. f_equal. lia.
Qed.

Lemma slice_app_l a b : slice (a +:+ b) 0 (Z.of_nat (String.length a)) = a.
Proof.
  rewrite (slice_nonneg _ 0) by (rewrite ?str_length_app; lia).
  rewrite Nat.sub_0_r. apply str_take_app.
Qed.
Lemma slice_app_mid a b c :
  slice (a +:+ b +:+ c) (Z.of_nat (String.length a))
        (Z.of_nat (String.length a) + Z.of_nat (String.length b)) = b.
Proof.
  rewrite <- Nat2Z.inj_add, slice_nonneg by (rewrite ?str_length_app; lia).
  replace (_ - _) with (String.length b) by lia.
  by rewrite str_drop_app, str_take_app.
Qed.
Lemma slice_from_app a b :
  slice_from (a +:+ b) (Z.of_nat (String.length a)) = b.
Proof.
  unfold slice_from. rewrite slice_nonneg by (rewrite ?str_length_app; lia).
  rewrite str_drop_app. apply str_take_all. rewrite str_length_app. lia.
Qed.

(** The last occurrence of [p]: nothing that starts with it follows. *)
Lemma last_index_of_app p a b :
  String.prefix p b = true →
  (∀ i, 0 < i → i ≤ String.length b → String.prefix p (str_drop i b) = false) →
  last_index_of p (a +:+ b) = Some (String.length a).
Proof.
  intros Hp Hno.
  assert (∀ s, (∀ i, i ≤ String.length s → String.prefix p (str_drop i s) = false) →
               last_index_of p s = None) as Hnone.
  { induction s as [|c s IH]; intros Hs; cbn [last_index_of].
    - pose proof (Hs 0 (le_n _)) as E. simpl str_drop in E. by rewrite E.
    - rewrite IH by (intros i ?; apply (Hs (S i)); simpl; lia).
      pose proof (Hs 0 (Nat.le_0_l _)) as E. simpl str_drop in E. by rewrite E. }
  induction a as [|x a IH].
  - rewrite str_app_nil_l. destruct b as [|c b]; cbn [last_index_of]; [by rewrite Hp|].
    rewrite Hnone by (intros i ?; apply (Hno (S i)); simpl; lia). by rewrite Hp.
  - rewrite str_app_cons. cbn [last_index_of]. by rewrite IH.
Qed.

Lemma prefix_app p s : String.prefix p (p +:+ s) = true.
Proof.
  induction p as [|c p IH]; [by destruct s|]. rewrite str_app_cons. simpl.
  by destruct (ascii_dec c c).
Qed.

(** ** Lemmas: numerals

    [dstr ds] is the numeral with the digits [ds], most significant first, and
    [dval r ds] its value. *)
Fixpoint dstr (ds : list Z) : string :=
  match ds with [] => "" | d :: ds => String (digit_char d) (dstr ds) end.
Fixpoint dval (r : Z) (ds : list Z) : Z :=
  match ds with [] => 0 | d :: ds => d * r ^ Z.of_nat (length ds) + dval r ds end.
Definition digits_ok (r : Z) (ds : list Z) : Prop := Forall (λ d, 0 ≤ d < r)%Z ds.

Lemma digit_cases d : (0 ≤ d < 16)%Z → d ∈ [0;1;2;3;4;5;6;7;8;9;10;11;12;13;14;15]%Z.
Proof. intros. rewrite !elem_of_cons. lia. Qed.

Ltac digit_bash d :=
  let H := fresh in
  assert (d ∈ [0;1;2;3;4;5;6;7;8;9;10;11;12;13;14;15]%Z) as H by (apply digit_cases; lia);
  rewrite !elem_of_cons in H; destruct_or!; [subst d..|by apply not_elem_of_nil in H].

Lemma digit_val_char r d : (0 ≤ d < r)%Z → (r ≤ 16)%Z → digit_val r (digit_char d) = Some d.
Proof.
  intros ??.
  digit_bash d; unfold digit_val;
    match goal with |- context [char_code ?c] =>
      let v := eval vm_compute in (char_code c) in change (char_code c) with v end;
    simpl; case_match; first [done|lia].
Qed.

Lemma digit_char_code d :
  (0 ≤ d < 16)%Z → char_code (digit_char d) = (if d <? 10 then 48 + d else 87 + d)%Z.
Proof. intros. digit_bash d; done. Qed.

Lemma digit_char_compare d e :
  (0 ≤ d < 16)%Z → (0 ≤ e < 16)%Z →
  Ascii.compare (digit_char d) (digit_char e) = (d ?= e)%Z.
Proof. intros. digit_bash d; digit_bash e; done. Qed.

Lemma digit_char_not_dash d : (0 ≤ d < 16)%Z → Ascii.eqb (digit_char d) "-" = false.
Proof. intros. digit_bash d; done. Qed.
Lemma digit_char_not_space d : (0 ≤ d < 16)%Z → is_space (digit_char d) = false.
Proof. intros. digit_bash d; done. Qed.
Lemma digit_char_not_sign d :
  (0 ≤ d < 16)%Z → digit_char d ≠ "-"%char ∧ digit_char d ≠ "+"%char
    ∧ digit_char d ≠ "x"%char ∧ digit_char d ≠ "X"%char.
Proof. intros. digit_bash d; done. Qed.

Lemma dstr_app a b : dstr (a ++ b) = dstr a +:+ dstr b.
Proof. induction a as [|d a IH]; [done|]. simpl. by rewrite str_app_cons, IH. Qed.
Lemma dstr_length ds : String.length (dstr ds) = length ds.
Proof. induction ds; simpl; congruence. Qed.
Lemma dstr_no_dash ds r :
  digits_ok r ds → (r ≤ 16)%Z → str_forall (λ x, negb (Ascii.eqb x "-")) (dstr ds) = true.
Proof.
  intros Hds ?. induction Hds as [|d ds Hd _ IH]; [done|]. simpl.
  by rewrite IH, digit_char_not_dash by lia.
Qed.
Lemma dval_zeros r n ds : dval r (replicate n 0%Z ++ ds) = dval r ds.
Proof. induction n; simpl; [done|]. lia. Qed.
Lemma dstr_zeros n : dstr (replicate n 0%Z) = str_repeat n "0".
Proof. induction n as [|n IH]; simpl; [done|]. by rewrite IH. Qed.

Lemma dval_app r a b :
  (0 ≤ r)%Z → dval r (a ++ b) = (dval r a * r ^ Z.of_nat (length b) + dval r b)%Z.
Proof.
  intros. induction a as [|d a IH]; simpl; [done|].
  rewrite IH, length_app, Nat2Z.inj_add, Z.pow_add_r by lia. ring.
Qed.

Lemma dval_bounds r ds :
  (2 ≤ r)%Z → digits_ok r ds → (0 ≤ dval r ds < r ^ Z.of_nat (length ds))%Z.
Proof.
  intros Hr Hds. induction Hds as [|d ds Hd _ IH]; [simpl; lia|].
  simpl length. simpl dval. rewrite Nat2Z.inj_succ, Z.pow_succ_r by lia.
  assert (0 < r ^ Z.of_nat (length ds))%Z by (apply Z.pow_pos_nonneg; lia). nia.
Qed.

(** The loop of [to_digits] produces the digits of [z], without a leading zero. *)
Lemma to_digits_spec r : (2 ≤ r ≤ 16)%Z → ∀ fuel z acc,
  (0 ≤ z < r ^ Z.of_nat fuel)%Z → (0 < fuel) →
  ∃ ds, to_digits fuel r z acc = dstr ds +:+ acc ∧ digits_ok r ds ∧ dval r ds = z ∧
        (∀ k, 0 < k → (z < r ^ Z.of_nat k)%Z → length ds ≤ k) ∧ 0 < length ds.
Proof.
  intros Hr. induction fuel as [|fuel IH]; intros z acc Hz Hfuel; [lia|]. simpl.
  pose proof (Z.mod_pos_bound z r ltac:(lia)) as Hm.
  pose proof (Z.div_mod z r ltac:(lia)) as Hdm.
  destruct (Z.eqb_spec (z / r) 0) as [Hq|Hq].
  - exists [(z mod r)%Z]. split_and!; simpl; [done|by apply Forall_singleton|lia|intros; lia|lia].
  - assert (0 ≤ z / r)%Z by (apply Z.div_pos; lia).
    assert (z / r < r ^ Z.of_nat fuel)%Z.
    { apply Z.div_lt_upper_bound; [lia|].
      rewrite Nat2Z.inj_succ, Z.pow_succ_r in Hz by lia. lia. }
    destruct fuel as [|fuel]; [simpl in *; lia|].
    destruct (IH (z / r)%Z (String (digit_char (z mod r)) acc)) as (ds & -> & Hds & Hv & Hl & Hp);
      [lia|lia|].
    exists (ds ++ [(z mod r)%Z]). split_and!.
    + by rewrite dstr_app, str_app_assoc.
    + by apply Forall_app_2; [|apply Forall_singleton].
    + rewrite dval_app, Hv by lia. simpl. lia.
    + intros k Hk Hzk. rewrite length_app. simpl.
      destruct k as [|[|k]]; [lia| |].
      * exfalso. apply Hq. apply Z.div_small. simpl in Hzk. lia.
      * assert (length ds ≤ S k); [|lia]. apply Hl; [lia|].
        apply Z.div_lt_upper_bound; [lia|].
        rewrite Nat2Z.inj_succ, Z.pow_succ_r in Hzk by lia. lia.
    + rewrite length_app. simpl. lia.
Qed.

(** [z.toString(r).padStart(w, "0")] is a numeral of value [z], of width exactly
    [w] when [z] fits and wider when it does not. *)
Lemma padded_numeral r w z : (2 ≤ r ≤ 16)%Z → (0 ≤ z)%Z → 0 < w →
  ∃ ds, padStart (nat_toString r z) w "0" = dstr ds ∧ digits_ok r ds ∧ dval r ds = z ∧
        (if (z <? r ^ Z.of_nat w)%Z then length ds = w else w < length ds).
Proof.
  intros Hr Hz Hw. unfold nat_toString.
  destruct (to_digits_spec r Hr (S (Z.to_nat (Z.log2 z))) z "") as (ds & -> & Hds & Hv & Hl & Hp).
  { split; [lia|]. rewrite Nat2Z.inj_succ, Z2Nat.id by apply Z.log2_nonneg.
    destruct (Z.eq_dec z 0%Z) as [->|]; [simpl; lia|].
    apply Z.lt_le_trans with (2 ^ Z.succ (Z.log2 z))%Z; [apply Z.log2_spec; lia|].
    apply Z.pow_le_mono_l. lia. }
  { lia. }
  rewrite str_app_nil_r. exists (replicate (w - length ds) 0%Z ++ ds). split_and!.
  - unfold padStart. by rewrite dstr_length, dstr_app, dstr_zeros.
  - apply Forall_app_2; [|done]. apply Forall_replicate. lia.
  - by rewrite dval_zeros.
  - rewrite length_app, length_replicate.
    destruct (Z.ltb_spec z (r ^ Z.of_nat w)).
    + assert (length ds ≤ w) by (apply Hl; lia). lia.
    + assert (w < length ds); [|lia].
      apply Nat.nle_gt. intros Hle.
      pose proof (dval_bounds r ds ltac:(lia) Hds).
      assert (r ^ Z.of_nat (length ds) ≤ r ^ Z.of_nat w)%Z by (apply Z.pow_le_mono_r; lia). lia.
Qed.

(** Reading a numeral back; parsing stops at the first non-digit. *)
Lemma parse_digits_dstr r ds acc : (2 ≤ r ≤ 16)%Z → digits_ok r ds → ds ≠ [] →
  parse_digits r (dstr ds) acc =
    Some (default 0 acc * r ^ Z.of_nat (length ds) + dval r ds)%Z.
Proof.
  intros Hr Hds. revert acc. induction Hds as [|d ds Hd Hds IH]; [done|]. intros acc _.
  simpl. rewrite digit_val_char by lia.
  destruct ds as [|e ds]; [simpl; f_equal; lia|].
  rewrite IH by done. simpl length. simpl default. f_equal.
  rewrite !Nat2Z.inj_succ, !Z.pow_succ_r by lia. lia.
Qed.

Lemma parseInt_dstr r ds : (2 ≤ r ≤ 16)%Z → digits_ok r ds → ds ≠ [] →
  parseInt (dstr ds) r = Num (dval r ds).
Proof.
  intros Hr Hds Hne. unfold parseInt.
  assert (trim_start (dstr ds) = dstr ds) as ->.
  { destruct Hds as [|d ds Hd _]; [done|]. simpl. by rewrite digit_char_not_space by lia. }
  assert (strip_0x r (dstr ds) = dstr ds) as Hstrip.
  { unfold strip_0x. destruct (_ && _) eqn:E; [exfalso|done].
    apply andb_true_iff in E as [_ [E|E]%orb_true_iff];
      apply String.prefix_correct in E;
      (destruct Hds as [|d ds Hd Hds]; [done|]); (destruct Hds as [|d' ds Hd' Hds]; [done|]);
      cbn in E; injection E as _ E;
      by destruct (digit_char_not_sign d') as (?&?&?&?); [lia|]. }
  destruct Hds as [|d ds Hd Hds]; [done|]. cbn [dstr].
  destruct (digit_char_not_sign d) as (H1&H2&_&_); [lia|].
  rewrite (proj2 (Ascii.eqb_neq _ _) H1), (proj2 (Ascii.eqb_neq _ _) H2).
  change (String (digit_char d) (dstr ds)) with (dstr (d :: ds)). rewrite !Hstrip.
  by rewrite parse_digits_dstr by (done || by constructor).
Qed.

(** ** Lemmas: the order on strings *)

Lemma ascii_compare_refl c : Ascii.compare c c = Eq.
Proof. apply N.compare_refl. Qed.

Lemma str_compare_refl s : String.compare s s = Eq.
Proof. induction s as [|c s IH]; simpl; [done|]. by rewrite ascii_compare_refl. Qed.

Lemma str_compare_eq a b : String.compare a b = Eq ↔ a = b.
Proof. split; [apply String.compare_eq_iff|intros ->; apply str_compare_refl]. Qed.

Lemma str_compare_app_l a x y : String.compare (a +:+ x) (a +:+ y) = String.compare x y.
Proof.
  induction a as [|c a IH]; [done|]. rewrite !str_app_cons. simpl.
  by rewrite ascii_compare_refl.
Qed.

(** Numerals of the same width compare as their values. *)
Lemma dstr_compare r a b x y : (2 ≤ r ≤ 16)%Z → digits_ok r a → digits_ok r b →
  length a = length b →
  String.compare (dstr a +:+ x) (dstr b +:+ y) =
    match (dval r a ?= dval r b)%Z with Eq => String.compare x y | c => c end.
Proof.
  intros Hr Ha. revert b. induction Ha as [|d a Hd Ha IH]; intros b Hb Hlen.
  { destruct b; [done|]. simpl in Hlen. lia. }
  destruct Hb as [|e b He Hb]; [done|]. simpl in Hlen. injection Hlen as Hlen.
  cbn [dstr dval]. rewrite !str_app_cons. cbn [String.compare].
  rewrite digit_char_compare by lia.
  pose proof (dval_bounds r a ltac:(lia) Ha). pose proof (dval_bounds r b ltac:(lia) Hb).
  rewrite Hlen in *. set (p := (r ^ Z.of_nat (length b))%Z) in *.
  destruct (Z.compare_spec d e) as [->|?|?].
  - rewrite IH by done. by rewrite <- Zplus_compare_compat_l || rewrite Z.add_compare_mono_l.
  - destruct (Z.compare_spec (d * p + dval r a) (e * p + dval r b)); [nia|done|nia].
  - destruct (Z.compare_spec (d * p + dval r a) (e * p + dval r b)); [nia|nia|done].
Qed.

Lemma str_compare_antisym a b : String.compare a b = CompOpp (String.compare b a).
Proof. apply String.compare_antisym. Qed.

Lemma str_compare_trans_lt a b c :
  String.compare a b = Lt → String.compare b c = Lt → String.compare a c = Lt.
Proof.
  revert b c. induction a as [|x a IH]; intros [|y b] [|z c]; simpl; try done.
  destruct (Ascii.compare x y) eqn:Exy; try done; intros H1;
    destruct (Ascii.compare y z) eqn:Eyz; try done; intros H2.
  - apply Ascii.compare_eq_iff in Exy as ->. rewrite Eyz. eauto.
  - apply Ascii.compare_eq_iff in Exy as ->. by rewrite Eyz.
  - apply Ascii.compare_eq_iff in Eyz as ->. by rewrite Exy.
  - unfold Ascii.compare in *. rewrite N.compare_lt_iff in Exy, Eyz.
    by rewrite (proj2 (N.compare_lt_iff _ _) (N.lt_trans _ _ _ Exy Eyz)).
Qed.

(** ** Lemmas: characters of prefixes *)
Lemma prefix_get p s i c :
  String.prefix p s = true → String.get i p = Some c → String.get i s = Some c.
Proof.
  revert s i. induction p as [|x p IH]; intros [|y s] i; simpl; try done.
  destruct (ascii_dec x y) as [->|]; [|done]. destruct i; [done|]. apply IH.
Qed.
Lemma get_str_drop i j s : String.get j (str_drop i s) = String.get (i + j) s.
Proof.
  revert s. induction i as [|i IH]; intros [|c s]; simpl; done.
Qed.
Lemma str_take_drop k s : s = str_take k s +:+ str_drop k s.
Proof.
  revert s. induction k as [|k IH]; intros [|c s]; [done..|].
  simpl. rewrite str_app_cons. by rewrite <- IH.
Qed.
Lemma slice_prefix s j : ∃ rest, s = slice s 0 j +:+ rest.
Proof.
  unfold slice. replace (slice_bound (Z.of_nat (String.length s)) 0) with 0%Z.
  - simpl str_drop. eexists. apply str_take_drop.
  - unfold slice_bound. simpl. lia.
Qed.

(** ** Lemmas: file names *)

(** The characters of a decimal numeral. *)
Lemma to_digits_forall (P : ascii → bool) fuel z acc :
  (∀ d, (0 ≤ d < 10)%Z → P (digit_char d) = true) →
  str_forall P acc = true → str_forall P (to_digits fuel 10 z acc) = true.
Proof.
  intros Hd. revert z acc. induction fuel as [|fuel IH]; intros z acc Hacc; simpl; [done|].
  assert (str_forall P (String (digit_char (z mod 10)) acc) = true) as Hacc'.
  { simpl. rewrite Hd by (apply Z.mod_pos_bound; lia). done. }
  case_match; [done|]. by apply IH.
Qed.
Lemma numeral_forall (P : ascii → bool) z :
  P "-"%char = true → (∀ d, (0 ≤ d < 10)%Z → P (digit_char d) = true) →
  str_forall P (num_toString 10 (Num z)) = true.
Proof.
  intros Hm Hd. assert (∀ n, str_forall P (nat_toString 10 n) = true) as Hn.
  { intros n. by apply to_digits_forall. }
  unfold num_toString. destruct (z <? 0)%Z; [|apply Hn]. cbn [str_forall]. by rewrite Hm, Hn.
Qed.

(** [path.slice(path.lastIndexOf(c) + 1)]: the name after the last separator. *)
Lemma after_last_separator c a b :
  str_forall (λ x, negb (Ascii.eqb x c)) b = true →
  slice_from (a +:+ String c b) (lastIndexOf (a +:+ String c b) (String c "") + 1) = b.
Proof.
  intros Hb. unfold lastIndexOf. rewrite last_index_of_app.
  - simpl. replace (Z.of_nat (String.length a) + 1)%Z
      with (Z.of_nat (String.length (a +:+ String c ""))) by (rewrite str_length_app; simpl; lia).
    replace (a +:+ String c b) with ((a +:+ String c "") +:+ b) by by rewrite str_app_assoc.
    apply slice_from_app.
  - simpl. destruct (ascii_dec c c); [by destruct b|done].
  - intros [|i] Hi _; [lia|]. simpl. revert Hb. clear Hi. revert i.
    induction b as [|x b IH]; intros i; [by destruct i|]. simpl. intros [Hx Hb]%andb_true_iff.
    destruct i; [|by apply IH]. simpl. destruct (ascii_dec c x) as [->|]; [|done].
    by rewrite Ascii.eqb_refl in Hx.
Qed.

(** ** Lemmas: numerals and separators *)
Lemma nat_numeral z : (0 ≤ z)%Z →
  ∃ ds, nat_toString 10 z = dstr ds ∧ digits_ok 10 ds ∧ dval 10 ds = z ∧ ds ≠ [].
Proof.
  intros Hz. unfold nat_toString.
  destruct (to_digits_spec 10 ltac:(lia) (S (Z.to_nat (Z.log2 z))) z "") as (ds & -> & Hds & Hv & _ & Hp).
  { split; [lia|]. rewrite Nat2Z.inj_succ, Z2Nat.id by apply Z.log2_nonneg.
    destruct (Z.eq_dec z 0%Z) as [->|]; [simpl; lia|].
    apply Z.lt_le_trans with (2 ^ Z.succ (Z.log2 z))%Z; [apply Z.log2_spec; lia|].
    apply Z.pow_le_mono_l. lia. }
  { lia. }
  exists ds. rewrite str_app_nil_r. split_and!; [done..|]. intros ->. simpl in Hp. lia.
Qed.

(** A number is read back from its decimal form. *)
Lemma parse_numeral n : parseInt (num_toString 10 n) 10 = n.
Proof.
  destruct n as [|z]; [done|]. unfold num_toString. destruct (Z.ltb_spec z 0).
  - destruct (nat_numeral (- z)) as (ds & -> & Hds & Hv & Hne); [lia|].
    unfold parseInt. cbn [trim_start is_space]. simpl.
    rewrite (parse_digits_dstr 10 ds) by (done || lia). simpl. f_equal. lia.
  - destruct (nat_numeral z) as (ds & -> & Hds & Hv & Hne); [lia|].
    rewrite (parseInt_dstr 10 ds) by (done || lia). by rewrite Hv.
Qed.
#[global] Instance num_toString_inj : Inj (=) (=) (num_toString 10).
Proof. intros a b E. by rewrite <- (parse_numeral a), E, parse_numeral. Qed.

(** Strings without the separator are told apart by it. *)
Definition free_of (c : ascii) (s : string) : bool := str_forall (λ x, negb (Ascii.eqb x c)) s.
Arguments free_of c%_char s%_string.
Lemma free_of_app c a b : free_of c (a +:+ b) = free_of c a && free_of c b.
Proof. apply str_forall_app. Qed.
Lemma free_of_cons c x s : free_of c (String x s) = negb (Ascii.eqb x c) && free_of c s.
Proof. done. Qed.
(** Cutting at the last separator, when nothing after it has one. *)
Lemma last_separator c a b : free_of c b = true →
  last_index_of (String c "") (a +:+ String c b) = Some (String.length a).
Proof.
  intros Hb. apply last_index_of_app.
  - simpl. destruct (ascii_dec c c); [by destruct b|done].
  - intros [|i] Hi _; [lia|]. cbn [str_drop]. clear Hi. revert i.
    induction b as [|x b IH]; intros i; [by destruct i|].
    rewrite free_of_cons in Hb. apply andb_true_iff in Hb as [Hx%negb_true_iff Hb].
    destruct i; [|by apply IH]. apply Ascii.eqb_neq in Hx. cbn [str_drop String.prefix].
    by destruct (ascii_dec c x) as [->|].
Qed.
Lemma cut_at_separator c a b : free_of c b = true →
  lastIndexOf (a +:+ String c b) (String c "") = Z.of_nat (String.length a) ∧
  slice (a +:+ String c b) 0 (Z.of_nat (String.length a)) = a ∧
  slice_from (a +:+ String c b) (Z.of_nat (String.length a) + 1) = b.
Proof.
  intros Hb. split; [|split].
  - unfold lastIndexOf. by rewrite last_separator.
  - apply slice_app_l.
  - replace (a +:+ String c b) with ((a +:+ String c "") +:+ b) by by rewrite str_app_assoc.
    replace (Z.of_nat (String.length a) + 1)%Z with (Z.of_nat (String.length (a +:+ String c "")))
      by (rewrite str_length_app; simpl; lia). apply slice_from_app.
Qed.
(** Every text with a separator is cut at its last one. *)
Lemma last_separator_cut c s n : last_index_of (String c "") s = Some n →
  ∃ a b, s = a +:+ String c b ∧ free_of c b = true.
Proof.
  revert n. induction s as [|x s IH]; intros n; [done|]. cbn [last_index_of].
  destruct (last_index_of (String c "") s) as [m|] eqn:E.
  - intros _. destruct (IH m eq_refl) as (a & b & -> & Hb). by exists (String x a), b.
  - destruct (String.prefix (String c "") (String x s)) eqn:Ep; [|done]. intros _.
    cbn [String.prefix] in Ep. destruct (ascii_dec c x) as [<-|]; [|done]. exists "", s. split; [done|].
    clear Ep IH n. induction s as [|x s IH]; [done|]. cbn [last_index_of] in E.
    destruct (last_index_of (String c "") s) eqn:E'; [done|]. rewrite free_of_cons, IH by done. rewrite andb_true_r.
    destruct (Ascii.eqb_spec x c) as [->|]; [|done]. cbn [String.prefix] in E.
    destruct (ascii_dec c c); [by destruct s|done].
Qed.
Lemma separator_inj c a b x y : free_of c a = true → free_of c b = true →
  a +:+ String c x = b +:+ String c y → a = b ∧ x = y.
Proof.
  intros Ha Hb E. pose proof (index_of_char c a x Ha) as Hi. rewrite E, index_of_char in Hi by done.
  injection Hi as Hlen. pose proof (f_equal (str_take (String.length a)) E) as E1.
  pose proof (f_equal (str_drop (S (String.length a))) E) as E2.
  rewrite str_drop_app_S in E2. rewrite str_take_app in E1. rewrite <- Hlen in E1, E2.
  rewrite str_take_app in E1. by rewrite str_drop_app_S in E2.
Qed.
Lemma separator_absent c a b y : free_of c a = true → a ≠ b +:+ String c y.
Proof.
  intros Ha ->. rewrite free_of_app in Ha. apply andb_true_iff in Ha as [_ Ha].
  unfold free_of in Ha. simpl in Ha. by rewrite Ascii.eqb_refl in Ha.
Qed.

(** [parts.join(sep)]. *)
Fixpoint join (sep : string) (parts : list string) : string :=
  match parts with
  | [] => ""
  | [p] => p
  | p :: parts => p +:+ sep +:+ join sep parts
  end.
Lemma join_cons2 sep p q parts : join sep (p :: q :: parts) = p +:+ sep +:+ join sep (q :: parts).
Proof. done. Qed.

Lemma join_inj c l l' :
  Forall (λ p, free_of c p = true) l → Forall (λ p, free_of c p = true) l' →
  l ≠ [] → l' ≠ [] → join (String c "") l = join (String c "") l' → l = l'.
Proof.
  intros Hl. revert l'. induction Hl as [|p l Hp Hl IH]; [done|]. intros l' Hl' _.
  destruct Hl' as [|p' l' Hp' Hl']; [done|]. intros _.
  destruct l as [|q l], l' as [|q' l'].
  - simpl. by intros ->.
  - rewrite join_cons2. simpl join at 1. intros E. by apply separator_absent in E.
  - rewrite join_cons2. simpl join at 2. intros E. symmetry in E. by apply separator_absent in E.
  - rewrite !join_cons2. change (String c "" +:+ ?s) with (String c s).
    intros [-> E]%separator_inj; [|done..]. f_equal. by apply IH.
Qed.
