(* ===== verification/Octets.v ===== *)
(** * Byte strings and their text forms
    ([packages/core/src/crypto/base64.ts] and the base58 part of
     [packages/core/src/crypto/encryption.ts])

    A byte is an integer below 256 and a [Uint8Array] a list of them. *)

From S2P Require Import Prelude JsString.
From Stdlib Require Import Ascii.
From Stdlib Require String.

Open Scope stdpp_scope.

Definition octet (b : Z) : Prop := (0 ≤ b < 256)%Z.
Definition octets (bytes : list Z) : Prop := Forall octet bytes.

(** ** Big-endian numbers *)
Definition be_value (bytes : list Z) : Z := foldl (λ num b, num * 256 + b)%Z 0%Z bytes.
(** [n] bytes of [num], least significant last, and what is left of it. *)
Fixpoint be_split (n : nat) (num : Z) (acc : list Z) : list Z * Z :=
  match n with
  | O => (acc, num)
  | S n => be_split n (Z.shiftr num 8) (Z.land num 255 :: acc)
  end.

Lemma be_value_snoc bytes b : be_value (bytes ++ [b]) = (be_value bytes * 256 + b)%Z.
Proof. unfold be_value. by rewrite foldl_app. Qed.
Lemma be_value_nonneg bytes : octets bytes → (0 ≤ be_value bytes)%Z.
Proof.
  induction bytes as [|b bytes IH] using rev_ind; [done|].
  intros [Hb [H1 _]%Forall_cons_1]%Forall_app. rewrite be_value_snoc. unfold octet in H1.
  apply IH in Hb. lia.
Qed.
(** Splitting undoes the value. *)
Lemma be_split_value bytes acc : octets bytes →
  be_split (length bytes) (be_value bytes) acc = (bytes ++ acc, 0%Z).
Proof.
  revert acc. induction bytes as [|b bytes IH] using rev_ind; intros acc Hb; [done|].
  apply Forall_app in Hb as [Hb [H1 _]%Forall_cons_1]. unfold octet in H1.
  rewrite length_app, Nat.add_comm. simpl. rewrite be_value_snoc, Z.shiftr_div_pow2 by lia.
  change 255%Z with (Z.ones 8). rewrite Z.land_ones by lia. change (2 ^ 8)%Z with 256%Z.
  rewrite Z.div_add_l, Z.div_small, Z.add_0_r by lia.
  rewrite Z.add_comm, Z.mod_add, Z.mod_small by lia. rewrite IH by done. by rewrite <- app_assoc.
Qed.
(** Every split is octets, as many as asked for, and misses nothing but what is left. *)
Lemma be_split_spec n num acc : (0 ≤ num)%Z →
  ∃ bytes, be_split n num acc = (bytes ++ acc, Z.shiftr num (8 * Z.of_nat n)) ∧
    octets bytes ∧ length bytes = n ∧ (num = Z.shiftr num (8 * Z.of_nat n) * 2 ^ (8 * Z.of_nat n) + be_value bytes)%Z.
Proof.
  revert num acc. induction n as [|n IH]; intros num acc Hnum.
  { exists []. split; [by rewrite Z.shiftr_0_r|]. split; [constructor|]. split; [done|].
    rewrite Z.shiftr_0_r. change (be_value []) with 0%Z. simpl. lia. }
  simpl be_split. destruct (IH (Z.shiftr num 8) (Z.land num 255 :: acc)) as (bytes & -> & Ho & Hl & Hv);
    [by apply Z.shiftr_nonneg|].
  rewrite Z.shiftr_shiftr in Hv |- * by lia.
  replace (8 + 8 * Z.of_nat n)%Z with (8 * Z.of_nat (S n))%Z in * by lia.
  exists (bytes ++ [Z.land num 255]). split; [by rewrite <- app_assoc|].
  assert (Z.land num 255 = num mod 256)%Z as El by (change 255%Z with (Z.ones 8); by rewrite Z.land_ones).
  split; [apply Forall_app; split; [done|]; apply Forall_singleton; unfold octet; rewrite El;
    by apply Z.mod_pos_bound|].
  split; [rewrite length_app; simpl; lia|]. rewrite be_value_snoc, El.
  rewrite Z.shiftr_div_pow2 in Hv by lia. change (2 ^ 8)%Z with 256%Z in Hv.
  replace (2 ^ (8 * Z.of_nat (S n)))%Z with (2 ^ (8 * Z.of_nat n) * 256)%Z.
  - pose proof (Z.div_mod num 256 ltac:(lia)). nia.
  - replace (8 * Z.of_nat (S n))%Z with (8 * Z.of_nat n + 8)%Z by lia. by rewrite Z.pow_add_r by lia.
Qed.

(** ** Base58 (Bitcoin alphabet) *)
Definition BASE58_ALPHABET : string := "123456789ABCDEFGHJKLMNPQRSTUVWXYZabcdefghijkmnopqrstuvwxyz".
Definition KEY_BYTES : nat := 32.

(** [ALPHABET[i]] and [ALPHABET.indexOf(c)]. *)
Definition letter (alphabet : string) (i : Z) : ascii := default "?"%char (char_at alphabet (Z.to_nat i)).
Definition letter_index (alphabet : string) (c : ascii) : option Z :=
  Z.of_nat <$> index_of (String c "") alphabet.

(** The loop over [num]: the bit length bounds the number of digits. *)
Fixpoint base58_digits (fuel : nat) (num : Z) (result : string) : string :=
  match fuel with
  | O => result
  | S fuel =>
      if (0 <? num)%Z
      then base58_digits fuel (num / 58) (String (letter BASE58_ALPHABET (num mod 58)) result)
      else result
  end.
Fixpoint leading_ones (bytes : list Z) (result : string) : string :=
  match bytes with
  | b :: bytes => if (b =? 0)%Z then leading_ones bytes (String "1" result) else result
  | [] => result
  end.
Definition base58Encode (bytes : list Z) : string :=
  let num := be_value bytes in
  leading_ones bytes (base58_digits (S (Z.to_nat (Z.log2 num))) num "").

Fixpoint base58_value (str : string) (num : Z) : result Z :=
  match str with
  | EmptyString => Ok num
  | String c str =>
      match letter_index BASE58_ALPHABET c with
      | None => Throw (JsError ("Invalid base58 character: " +:+ String c ""))
      | Some idx => base58_value str (num * 58 + idx)%Z
      end
  end.
Definition base58Decode (str : string) : result (list Z) :=
  num ← base58_value str 0;
  let '(bytes, rest) := be_split KEY_BYTES num [] in
  if (0 <? rest)%Z then Throw (JsError "Invalid mesh key: decodes to more than 32 bytes") else Ok bytes.

(** *** Reading base58 back *)
Lemma letter_index_letter i : (0 ≤ i < 58)%Z →
  letter_index BASE58_ALPHABET (letter BASE58_ALPHABET i) = Some i.
Proof.
  intros Hi. assert (Forall (λ n, letter_index BASE58_ALPHABET (letter BASE58_ALPHABET (Z.of_nat n)) =
    Some (Z.of_nat n)) (seq 0 58)) as H by (repeat constructor).
  rewrite list.Forall_forall in H. specialize (H (Z.to_nat i)). rewrite Z2Nat.id in H by lia.
  apply H, elem_of_seq. lia.
Qed.
Lemma base58_digits_value fuel num acc : (0 ≤ num < 58 ^ Z.of_nat fuel)%Z →
  ∃ k, (0 ≤ k)%Z ∧ ∀ n0, base58_value (base58_digits fuel num acc) n0 = base58_value acc (n0 * k + num)%Z.
Proof.
  revert num acc. induction fuel as [|fuel IH]; intros num acc Hnum.
  { exists 1%Z. split; [lia|]. intros n0. simpl in *. f_equal. lia. }
  simpl. destruct (Z.ltb_spec 0 num).
  - destruct (IH (num / 58)%Z (String (letter BASE58_ALPHABET (num mod 58)) acc)) as (k & Hk & IHk).
    { split; [apply Z.div_pos; lia|]. apply Z.div_lt_upper_bound; [lia|].
      rewrite Nat2Z.inj_succ, Z.pow_succ_r in Hnum by lia. lia. }
    exists (k * 58)%Z. split; [lia|]. intros n0. rewrite IHk. cbn [base58_value].
    rewrite letter_index_letter by (apply Z.mod_pos_bound; lia). f_equal.
    pose proof (Z.div_mod num 58 ltac:(lia)). lia.
  - exists 1%Z. split; [lia|]. intros n0. f_equal. lia.
Qed.
Lemma leading_ones_value bytes s : base58_value (leading_ones bytes s) 0 = base58_value s 0.
Proof.
  revert s. induction bytes as [|b bytes IH]; intros s; simpl; [done|].
  destruct (b =? 0)%Z; [|done]. rewrite IH. cbn [base58_value].
  change (letter_index BASE58_ALPHABET "1") with (Some 0%Z). done.
Qed.
Lemma base58_encode_value bytes : octets bytes →
  base58_value (base58Encode bytes) 0 = Ok (be_value bytes).
Proof.
  intros Hb. apply be_value_nonneg in Hb as Hn. unfold base58Encode. rewrite leading_ones_value.
  destruct (base58_digits_value (S (Z.to_nat (Z.log2 (be_value bytes)))) (be_value bytes) "") as (k & _ & ->).
  - split; [done|]. rewrite Nat2Z.inj_succ, Z2Nat.id by apply Z.log2_nonneg.
    destruct (Z.eq_dec (be_value bytes) 0%Z) as [->|]; [simpl; lia|].
    apply Z.lt_le_trans with (2 ^ Z.succ (Z.log2 (be_value bytes)))%Z; [apply Z.log2_spec; lia|].
    apply Z.pow_le_mono_l. lia.
  - done.
Qed.

Lemma base58_roundtrip bytes : octets bytes → length bytes = KEY_BYTES →
  base58Decode (base58Encode bytes) = Ok bytes.
Proof.
  intros Hb Hl. unfold base58Decode, mbind, result_bind. rewrite base58_encode_value by done.
  rewrite <- Hl, be_split_value, app_nil_r by done. done.
Qed.
(** What is decoded is a key. *)
Lemma base58_decode_key s bytes : base58Decode s = Ok bytes → octets bytes ∧ length bytes = KEY_BYTES.
Proof.
  unfold base58Decode, mbind, result_bind. destruct (base58_value s 0) as [num|] eqn:E; [|done].
  assert (0 ≤ num)%Z as Hnum.
  { assert (∀ s n num, (0 ≤ n)%Z → base58_value s n = Ok num → (0 ≤ num)%Z) as Hv; [|by eapply (Hv s 0%Z)].
    clear. induction s as [|c s IH]; intros n num Hn; simpl; [by intros [= <-]|].
    unfold letter_index. destruct (index_of _ _) as [i|]; simpl; [|done]. apply IH. lia. }
  destruct (be_split_spec KEY_BYTES num [] Hnum) as (l & -> & Ho & Hl & _). rewrite app_nil_r.
  by destruct (0 <? _)%Z; intros [= <-].
Qed.

(** Base58 text has no white space. *)
Lemma base58_no_space bytes : str_forall (λ c, negb (is_space c)) (base58Encode bytes) = true.
Proof.
  assert (∀ i, negb (is_space (letter BASE58_ALPHABET i)) = true) as Hletter.
  { intros i. unfold letter, char_at. destruct (String.get (Z.to_nat i) BASE58_ALPHABET) as [c|] eqn:E; [|done].
    by eapply (str_get_forall (λ c, negb (is_space c)) BASE58_ALPHABET). }
  assert (∀ fuel num acc, str_forall (λ c, negb (is_space c)) acc = true →
    str_forall (λ c, negb (is_space c)) (base58_digits fuel num acc) = true) as Hd.
  { induction fuel as [|fuel IH]; intros num acc Ha; simpl; [done|]. destruct (0 <? num)%Z; [|done].
    apply IH. simpl. by rewrite Hletter. }
  unfold base58Encode. cbv zeta. generalize (Hd (S (Z.to_nat (Z.log2 (be_value bytes)))) (be_value bytes) "" eq_refl).
  generalize (base58_digits (S (Z.to_nat (Z.log2 (be_value bytes)))) (be_value bytes) "").
  induction bytes as [|b bytes IH]; intros s Hs; simpl; [done|]. destruct (b =? 0)%Z; [|done].
  apply IH. simpl. by rewrite Hs.
Qed.

(** ** Base64

    [btoa] and [atob] work on 24-bit groups; the native codecs of the runtime, which the code
    prefers when they exist, give the same text and accept it. *)
Definition BASE64_ALPHABET : string := "ABCDEFGHIJKLMNOPQRSTUVWXYZabcdefghijklmnopqrstuvwxyz0123456789+/".
Definition sextet (n : Z) (shift : Z) : ascii := letter BASE64_ALPHABET (Z.land (Z.shiftr n shift) 63).

(** [btoa]: the input is the binary string of the bytes. *)
Fixpoint btoa (bytes : list Z) : string :=
  match bytes with
  | a :: b :: c :: bytes =>
      let n := (a * 65536 + b * 256 + c)%Z in
      String (sextet n 18) (String (sextet n 12) (String (sextet n 6) (String (sextet n 0) (btoa bytes))))
  | [a; b] =>
      let n := (a * 65536 + b * 256)%Z in
      String (sextet n 18) (String (sextet n 12) (String (sextet n 6) "="))
  | [a] => let n := (a * 65536)%Z in String (sextet n 18) (String (sextet n 12) "==")
  | [] => ""
  end.

(** [atob]: white space is dropped, up to two paddings of a text whose length is a multiple
    of four, then a length of one more than that is an error. *)
Fixpoint str_filter (P : ascii → bool) (s : string) : string :=
  match s with
  | EmptyString => ""
  | String c s => if P c then String c (str_filter P s) else str_filter P s
  end.
Definition is_ascii_space (c : ascii) : bool :=
  existsb (Ascii.eqb c) [" "; "009"; "010"; "012"; "013"]%char.
Definition drop_suffix (c : ascii) (s : string) : string :=
  let n := (String.length s - 1)%nat in
  if bool_decide (String.get n s = Some c) then str_take n s else s.
Definition unpadded (s : string) : string :=
  if (String.length s mod 4 =? 0)%nat then drop_suffix "=" (drop_suffix "=" s) else s.

Fixpoint sextets (s : string) : result (list Z) :=
  match s with
  | EmptyString => Ok []
  | String c s =>
      match letter_index BASE64_ALPHABET c with
      | None => Throw (JsError "The string to be decoded is not correctly encoded.")
      | Some i => l ← sextets s; Ok (i :: l)
      end
  end.
Fixpoint group_octets (l : list Z) : list Z :=
  match l with
  | p :: q :: r :: t :: l =>
      let n := (p * 262144 + q * 4096 + r * 64 + t)%Z in
      Z.shiftr n 16 :: Z.land (Z.shiftr n 8) 255 :: Z.land n 255 :: group_octets l
  | [p; q; r] =>
      let n := (p * 262144 + q * 4096 + r * 64)%Z in [Z.shiftr n 16; Z.land (Z.shiftr n 8) 255]
  | [p; q] => [Z.shiftr (p * 262144 + q * 4096) 16]
  | _ => []
  end.
Definition atob (text : string) : result (list Z) :=
  let s := unpadded (str_filter (λ c, negb (is_ascii_space c)) text) in
  if (String.length s mod 4 =? 1)%nat
  then Throw (JsError "The string to be decoded is not correctly encoded.")
  else l ← sextets s; Ok (group_octets l).

Definition bytesToBase64 (bytes : list Z) : string := btoa bytes.
Definition base64ToBytes (text : string) : result (list Z) := atob text.

(** [replaceAll] of one character by another, and [replace(/=+$/, "")]. *)
Fixpoint replace_char (c d : ascii) (s : string) : string :=
  match s with
  | EmptyString => ""
  | String x s => String (if Ascii.eqb x c then d else x) (replace_char c d s)
  end.
Fixpoint strip_padding (s : string) : string :=
  match s with
  | EmptyString => ""
  | String c s =>
      match strip_padding s with
      | EmptyString => if Ascii.eqb c "=" then "" else String c ""
      | s' => String c s'
      end
  end.
Definition bytesToBase64Url (bytes : list Z) : string :=
  strip_padding (replace_char "/" "_" (replace_char "+" "-" (bytesToBase64 bytes))).
Definition base64UrlToBytes (text : string) : result (list Z) :=
  let standard := replace_char "_" "/" (replace_char "-" "+" text) in
  atob (standard +:+ str_repeat ((4 - String.length standard mod 4) mod 4) "=").

Example base64_example : bytesToBase64Url [251; 239; 190; 1]%Z = "----AQ" ∧
  base64UrlToBytes "----AQ" = Ok [251; 239; 190; 1]%Z ∧ base64ToBytes "++++AQ==" = Ok [251; 239; 190; 1]%Z.
Proof. by split_and!; vm_compute. Qed.

(** *** Reading base64 back *)
Definition letters (ds : list Z) : string := foldr (λ d s, String (letter BASE64_ALPHABET d) s) "" ds.
Definition sextets_ok (ds : list Z) : Prop := Forall (λ d, 0 ≤ d < 64)%Z ds.
Fixpoint bytes_sextets (bytes : list Z) : list Z :=
  let six n k := Z.land (Z.shiftr n k) 63 in
  match bytes with
  | a :: b :: c :: bytes =>
      let n := (a * 65536 + b * 256 + c)%Z in six n 18%Z :: six n 12%Z :: six n 6%Z :: six n 0%Z :: bytes_sextets bytes
  | [a; b] => let n := (a * 65536 + b * 256)%Z in [six n 18%Z; six n 12%Z; six n 6%Z]
  | [a] => let n := (a * 65536)%Z in [six n 18%Z; six n 12%Z]
  | [] => []
  end.
Definition padding (n : nat) : string := str_repeat ((4 - n mod 4) mod 4) "=".

(** Induction over groups of three. *)
Lemma triples_ind (P : list Z → Prop) : P [] → (∀ a, P [a]) → (∀ a b, P [a; b]) →
  (∀ a b c l, P l → P (a :: b :: c :: l)) → ∀ l, P l.
Proof.
  intros H0 H1 H2 H3. fix IH 1. intros [|a [|b [|c l]]]; [done|apply H1|apply H2|apply H3, IH].
Qed.

Lemma land_63 n : Z.land n 63 = (n mod 64)%Z.
Proof. change 63%Z with (Z.ones 6). by rewrite Z.land_ones. Qed.
Lemma land_255 n : Z.land n 255 = (n mod 256)%Z.
Proof. change 255%Z with (Z.ones 8). by rewrite Z.land_ones. Qed.
Ltac by_parts := rewrite ?land_63, ?land_255, ?Z.shiftr_div_pow2, ?Z.shiftr_0_r by lia;
  change (2 ^ 18)%Z with 262144%Z; change (2 ^ 16)%Z with 65536%Z; change (2 ^ 12)%Z with 4096%Z;
  change (2 ^ 8)%Z with 256%Z; change (2 ^ 6)%Z with 64%Z;
  Z.div_mod_to_equations; lia.

Lemma bytes_sextets_ok bytes : sextets_ok (bytes_sextets bytes).
Proof.
  assert (∀ n k, 0 ≤ Z.land (Z.shiftr n k) 63 < 64)%Z as Hs.
  { intros n k. rewrite land_63. by apply Z.mod_pos_bound. }
  induction bytes as [|a|a b|a b c l IH] using triples_ind; simpl; unfold sextets_ok in *; repeat (constructor; [apply Hs|]);
    done || constructor.
Qed.
Lemma group_sextets bytes : octets bytes → group_octets (bytes_sextets bytes) = bytes.
Proof.
  unfold octets. induction bytes as [|a|a b|a b c l IH] using triples_ind; [done|..];
    intros Hb; repeat (apply Forall_cons_1 in Hb as [? Hb]); unfold octet in *;
    cbn [bytes_sextets group_octets].
  - f_equal. by_parts.
  - f_equal; [|f_equal]; by_parts.
  - rewrite IH by done. f_equal; [|f_equal; [|f_equal]]; by_parts.
Qed.
Lemma btoa_letters bytes :
  btoa bytes = letters (bytes_sextets bytes) +:+ padding (length (bytes_sextets bytes)).
Proof.
  induction bytes as [|a|a b|a b c l IH] using triples_ind; [done..|].
  cbn [btoa bytes_sextets]. rewrite IH. unfold padding. simpl length.
  replace (S (S (S (S (length (bytes_sextets l)))))) with (length (bytes_sextets l) + 1 * 4)%nat by lia.
  by rewrite Nat.Div0.mod_add.
Qed.

(** A character of the alphabet: read back, and none of the characters the text forms treat apart. *)
Definition plain_letter (c : ascii) : Prop :=
  is_ascii_space c = false ∧ c ≠ "="%char ∧ c ≠ "-"%char ∧ c ≠ "_"%char.
Lemma base64_letter d : (0 ≤ d < 64)%Z →
  letter_index BASE64_ALPHABET (letter BASE64_ALPHABET d) = Some d ∧ plain_letter (letter BASE64_ALPHABET d).
Proof.
  intros Hd.
  assert (Forall (λ n, letter_index BASE64_ALPHABET (letter BASE64_ALPHABET (Z.of_nat n)) = Some (Z.of_nat n) ∧
    plain_letter (letter BASE64_ALPHABET (Z.of_nat n))) (seq 0 64)) as H.
  { simpl. repeat (constructor; [by repeat split|]). constructor. }
  rewrite list.Forall_forall in H. specialize (H (Z.to_nat d)). rewrite Z2Nat.id in H by lia.
  apply H, elem_of_seq. lia.
Qed.

Lemma letters_length ds : String.length (letters ds) = length ds.
Proof. induction ds as [|d ds IH]; simpl; [done|]. by rewrite IH. Qed.
Lemma sextets_letters ds : sextets_ok ds → sextets (letters ds) = Ok ds.
Proof.
  induction 1 as [|d ds Hd _ IH]; [done|]. simpl. destruct (base64_letter d Hd) as [-> _]. simpl.
  unfold mbind, result_bind. by rewrite IH.
Qed.
Lemma filter_app P a b : str_filter P (a +:+ b) = str_filter P a +:+ str_filter P b.
Proof. induction a as [|x a IH]; [done|]. rewrite str_app_cons. simpl. rewrite IH. by destruct (P x). Qed.
Lemma replace_app c d a b : replace_char c d (a +:+ b) = replace_char c d a +:+ replace_char c d b.
Proof. induction a as [|x a IH]; [done|]. rewrite !str_app_cons. simpl. by rewrite IH. Qed.
Lemma letters_kept ds : sextets_ok ds → str_filter (λ c, negb (is_ascii_space c)) (letters ds) = letters ds.
Proof.
  induction 1 as [|d ds Hd _ IH]; [done|]. simpl. destruct (base64_letter d Hd) as [_ [-> _]]. simpl.
  by rewrite IH.
Qed.
Lemma letters_url_back ds : sextets_ok ds →
  replace_char "_" "/" (replace_char "-" "+" (replace_char "/" "_" (replace_char "+" "-" (letters ds)))) = letters ds.
Proof.
  induction 1 as [|d ds Hd _ IH]; [done|]. simpl. destruct (base64_letter d Hd) as [_ (_ & _ & Hm & Hu)].
  rewrite IH. f_equal. destruct (Ascii.eqb_spec (letter BASE64_ALPHABET d) "+"%char) as [->|]; [done|].
  destruct (Ascii.eqb_spec (letter BASE64_ALPHABET d) "/"%char) as [->|]; [done|].
  destruct (Ascii.eqb_spec (letter BASE64_ALPHABET d) "-"%char) as [|]; [done|].
  by destruct (Ascii.eqb_spec (letter BASE64_ALPHABET d) "_"%char).
Qed.
Lemma replace_length c d s : String.length (replace_char c d s) = String.length s.
Proof. induction s as [|x s IH]; simpl; [done|]. by rewrite IH. Qed.

(** Padding is removed, and nothing else is. *)
Lemma strip_padding_app s n : free_of "=" s = true → strip_padding (s +:+ str_repeat n "=") = s.
Proof.
  intros Hs. induction s as [|c s IH].
  - rewrite str_app_nil_l. clear Hs. induction n as [|n IH]; simpl; [done|]. by rewrite IH.
  - apply andb_true_iff in Hs as [Hc Hs]. rewrite str_app_cons. simpl. rewrite (IH Hs).
    destruct s; [|done]. by destruct (Ascii.eqb c "=").
Qed.
Lemma url_free_of_padding ds : sextets_ok ds →
  free_of "=" (replace_char "/" "_" (replace_char "+" "-" (letters ds))) = true.
Proof.
  induction 1 as [|d ds Hd _ IH]; [done|]. destruct (base64_letter d Hd) as [_ (_ & He & _)].
  cbn [letters foldr replace_char]. fold (letters ds). rewrite free_of_cons, IH, andb_true_r.
  destruct (Ascii.eqb_spec (letter BASE64_ALPHABET d) "+"%char) as [_|_]; [done|].
  destruct (Ascii.eqb_spec (letter BASE64_ALPHABET d) "/"%char) as [_|_]; [done|].
  by apply negb_true_iff, Ascii.eqb_neq.
Qed.
Lemma drop_suffix_one c s : drop_suffix c (s +:+ String c "") = s.
Proof.
  unfold drop_suffix. rewrite str_length_app. simpl.
  replace (String.length s + 1 - 1)%nat with (String.length s + 0)%nat by lia.
  rewrite str_get_app_r. simpl. rewrite bool_decide_true by done.
  rewrite Nat.add_0_r. apply str_take_app.
Qed.
Lemma drop_suffix_none c s : free_of c s = true → drop_suffix c s = s.
Proof.
  intros Hs. unfold drop_suffix. case_bool_decide as Hg; [|done].
  apply (str_get_forall _ _ _ _ Hs) in Hg. by rewrite Ascii.eqb_refl in Hg.
Qed.
Lemma unpadded_padding s : free_of "=" s = true → (String.length s mod 4 ≠ 1)%nat →
  unpadded (s +:+ padding (String.length s)) = s.
Proof.
  intros Hs Hl. unfold padding, unpadded. rewrite str_length_app, str_length_repeat.
  assert (((String.length s + (4 - String.length s mod 4) mod 4) mod 4 =? 0)%nat = true) as ->.
  { apply Nat.eqb_eq. rewrite Nat.Div0.add_mod_idemp_r. pose proof (Nat.div_mod (String.length s) 4 ltac:(lia)).
    pose proof (Nat.mod_upper_bound (String.length s) 4 ltac:(lia)).
    replace (String.length s + (4 - String.length s mod 4))%nat with ((String.length s / 4 + 1) * 4)%nat by lia.
    apply Nat.Div0.mod_mul. }
  pose proof (Nat.mod_upper_bound (String.length s) 4 ltac:(lia)).
  destruct (String.length s mod 4)%nat as [|[|[|[|n]]]] eqn:En; [|done| | |lia]; simpl.
  - rewrite str_app_nil_r. by rewrite !drop_suffix_none by (rewrite ?drop_suffix_none; done).
  - change (String "=" (String "=" "")) with (String "=" "" +:+ String "=" "").
    by rewrite <- str_app_assoc, !drop_suffix_one.
  - rewrite drop_suffix_one. by apply drop_suffix_none.
Qed.

Lemma sextets_length bytes : (length (bytes_sextets bytes) mod 4 ≠ 1)%nat.
Proof.
  induction bytes as [|a|a b|a b c l IH] using triples_ind; [done..|]. simpl length.
  replace (S (S (S (S (length (bytes_sextets l)))))) with (length (bytes_sextets l) + 1 * 4)%nat by lia.
  by rewrite Nat.Div0.mod_add.
Qed.
Lemma letters_free ds : sextets_ok ds → free_of "=" (letters ds) = true.
Proof.
  induction 1 as [|d ds Hd _ IH]; [done|]. destruct (base64_letter d Hd) as [_ (_ & He & _)].
  cbn [letters foldr]. fold (letters ds). rewrite free_of_cons, IH, andb_true_r. by apply negb_true_iff, Ascii.eqb_neq.
Qed.
Lemma atob_letters bytes : octets bytes →
  atob (letters (bytes_sextets bytes) +:+ padding (length (bytes_sextets bytes))) = Ok bytes.
Proof.
  intros Hb. pose proof (bytes_sextets_ok bytes) as Hs. unfold atob. rewrite filter_app, letters_kept by done.
  assert (∀ n, str_filter (λ c, negb (is_ascii_space c)) (str_repeat n "=") = str_repeat n "=") as Hp.
  { induction n as [|n IH]; simpl; [done|]. by rewrite IH. }
  assert (unpadded (letters (bytes_sextets bytes) +:+ padding (length (bytes_sextets bytes))) =
    letters (bytes_sextets bytes)) as Eu.
  { rewrite <- letters_length. apply unpadded_padding; [by apply letters_free|].
    rewrite letters_length. apply sextets_length. }
  unfold padding in Eu |- *. rewrite Hp, Eu, letters_length.
  destruct (Nat.eqb_spec (length (bytes_sextets bytes) mod 4) 1) as [E|_]; [by apply sextets_length in E|].
  unfold mbind, result_bind. rewrite sextets_letters by done. by rewrite group_sextets.
Qed.

Lemma base64_roundtrip bytes : octets bytes → base64ToBytes (bytesToBase64 bytes) = Ok bytes.
Proof. intros Hb. unfold base64ToBytes, bytesToBase64. rewrite btoa_letters. by apply atob_letters. Qed.
Lemma base64Url_roundtrip bytes : octets bytes → base64UrlToBytes (bytesToBase64Url bytes) = Ok bytes.
Proof.
  intros Hb. pose proof (bytes_sextets_ok bytes) as Hs. unfold base64UrlToBytes, bytesToBase64Url, bytesToBase64.
  rewrite btoa_letters, !replace_app. unfold padding.
  assert (∀ c d n, c ≠ "="%char → replace_char c d (str_repeat n "=") = str_repeat n "=") as Hp.
  { intros c d n Hc. induction n as [|n IH]; [done|]. cbn [str_repeat replace_char]. rewrite IH.
    destruct (Ascii.eqb_spec "=" c); [congruence|done]. }
  rewrite !Hp, strip_padding_app by (done || by apply url_free_of_padding).
  rewrite letters_url_back, letters_length by done. by apply atob_letters.
Qed.
