(* ===== verification/Hlc.v ===== *)
(** * Hybrid logical clocks ([packages/core/src/core/hlc.ts])

    The clock record, its operations with the wall clock [Date.now()] passed in,
    the serialised form that names change files and stamps columns, and the two
    comparisons.  The main results are that serialisation round-trips, that the
    comparison of serialised stamps agrees with the comparison of clocks on every
    pair of clocks (including those whose counter overflows four hex digits), that
    the clock is monotone, and what the guard against future clocks does and does
    not cover. *)

From S2P Require Import Prelude JsString.
From Stdlib Require Import Ascii.
From Stdlib Require String.

Open Scope stdpp_scope.

(** ** Definitions *)

Record HLC := mkHLC { ts : jsnum; counter : jsnum; nodeId : string }.
#[global] Instance HLC_eq_dec : EqDecision HLC.
Proof. solve_decision. Defined.

Definition HLC_MAX_FUTURE_SKEW_MS : Z := 5 * 60 * 1000.

Definition hlcInit (wall : Z) (nodeId : string) : HLC := mkHLC (Num wall) (Num 0) nodeId.

Definition hlcNow (wall : Z) (local : HLC) : HLC :=
  if num_gtb (Num wall) (ts local)
  then mkHLC (Num wall) (Num 0) (nodeId local)
  else mkHLC (ts local) (num_add (counter local) (Num 1)) (nodeId local).

Definition hlcReceive (wall : Z) (local remote : HLC) : HLC :=
  let safeRemoteTs := num_min (ts remote) (Num (wall + HLC_MAX_FUTURE_SKEW_MS)) in
  let maxTs := num_max (num_max (Num wall) (ts local)) safeRemoteTs in
  let counter' :=
    if num_eqb maxTs (ts local) && num_eqb maxTs (ts remote)
    then num_add (num_max (counter local) (counter remote)) (Num 1)
    else if num_eqb maxTs (ts local) then num_add (counter local) (Num 1)
    else if num_eqb maxTs safeRemoteTs then num_add (counter remote) (Num 1)
    else Num 0 in
  mkHLC maxTs counter' (nodeId local).

Definition hlcCompare (a b : HLC) : jsnum :=
  if negb (num_eqb (ts a) (ts b)) then num_sub (ts a) (ts b)
  else if negb (num_eqb (counter a) (counter b)) then num_sub (counter a) (counter b)
  else if str_ltb (nodeId a) (nodeId b) then Num (-1)
  else if str_ltb (nodeId b) (nodeId a) then Num 1
  else Num 0.

Definition DASH : ascii := "-".

Definition hlcSerialize (h : HLC) : string :=
  padStart (num_toString 10 (ts h)) 15 "0" +:+ "-" +:+
  padStart (num_toString 16 (counter h)) 4 "0" +:+ "-" +:+ nodeId h.

Definition hlcParse (s : string) : HLC :=
  let firstDash := indexOf s "-" 0 in
  let secondDash := indexOf s "-" (firstDash + 1) in
  mkHLC (parseInt (slice s 0 firstDash) 10)
        (parseInt (slice s (firstDash + 1) secondDash) 16)
        (slice_from s (secondDash + 1)).

(** The fast path's test on one operand. *)
Definition dashed (s : string) : bool :=
  bool_decide (char_at s 15 = Some DASH) && bool_decide (char_at s 20 = Some DASH).

Definition hlcCompareStr (a b : string) : jsnum :=
  if dashed a && dashed b
  then if str_ltb a b then Num (-1) else if str_ltb b a then Num 1 else Num 0
  else hlcCompare (hlcParse a) (hlcParse b).

(** ** Clocks the engine can issue *)

Definition hlc_valid (h : HLC) : Prop :=
  match ts h, counter h with
  | Num t, Num c => safe_int t ∧ safe_int c
  | _, _ => False
  end.
#[global] Instance hlc_valid_dec h : Decision (hlc_valid h).
Proof. destruct h as [[|t] [|c] n]; unfold hlc_valid, safe_int; simpl; apply _. Defined.

(** A stamp some valid clock serialises to. *)
Definition canonical (s : string) : Prop := ∃ h, hlc_valid h ∧ s = hlcSerialize h.

(** The sign of a comparison result, [None] for [NaN]. *)
Definition num_sign (n : jsnum) : option comparison :=
  match n with Num z => Some (z ?= 0)%Z | NaN => None end.

(** The lexicographic order on valid clocks. *)
Definition clock_cmp (a b : HLC) : comparison :=
  match ts a, ts b, counter a, counter b with
  | Num ta, Num tb, Num ca, Num cb =>
      match (ta ?= tb)%Z with
      | Eq => match (ca ?= cb)%Z with Eq => String.compare (nodeId a) (nodeId b) | c => c end
      | c => c
      end
  | _, _, _, _ => Eq
  end.

(** ** The serialised form *)

Lemma hlc_valid_inv h : hlc_valid h →
  ∃ t c n, h = mkHLC (Num t) (Num c) n ∧ safe_int t ∧ safe_int c.
Proof. destruct h as [[|t] [|c] n]; simpl; [done..|]. intros [??]. by exists t, c, n. Qed.

(** The two numerals of a serialised valid clock. *)
Lemma serialize_shape t c n : safe_int t → safe_int c →
  ∃ dt dc, hlcSerialize (mkHLC (Num t) (Num c) n) = dstr dt +:+ "-" +:+ dstr dc +:+ "-" +:+ n ∧
    digits_ok 10 dt ∧ dval 10 dt = t ∧ digits_ok 16 dc ∧ dval 16 dc = c ∧
    (if (t <? 10 ^ 15)%Z then length dt = 15 else 15 < length dt) ∧
    (if (c <? 16 ^ 4)%Z then length dc = 4 else 4 < length dc).
Proof.
  intros [Ht _] [Hc _]. unfold hlcSerialize. simpl.
  rewrite (proj2 (Z.ltb_ge t 0) Ht), (proj2 (Z.ltb_ge c 0) Hc).
  destruct (padded_numeral 10 15 t) as (dt & -> & ? & ? & ?); [lia..|].
  destruct (padded_numeral 16 4 c) as (dc & -> & ? & ? & ?); [lia..|].
  by exists dt, dc.
Qed.

Lemma numeral_nonempty (ds : list Z) w (b : bool) :
  0 < w → (if b then length ds = w else w < length ds) → ds ≠ [].
Proof. destruct b, ds; simpl; intros; (lia || done). Qed.

Lemma dash_app x : "-" +:+ x = String "-" x.
Proof. done. Qed.

Lemma parse_numerals dt dc n :
  digits_ok 10 dt → digits_ok 16 dc → dt ≠ [] → dc ≠ [] →
  hlcParse (dstr dt +:+ "-" +:+ dstr dc +:+ "-" +:+ n) =
    mkHLC (Num (dval 10 dt)) (Num (dval 16 dc)) n.
Proof.
  intros Hdt Hdc Hnt Hnc. set (s := dstr dt +:+ _).
  assert (indexOf s "-" 0 = Z.of_nat (length dt)) as E1.
  { unfold indexOf, s. simpl str_drop. rewrite !dash_app.
    rewrite index_of_char by (eapply dstr_no_dash; [done|lia]). simpl. by rewrite dstr_length. }
  assert (indexOf s "-" (Z.of_nat (length dt) + 1) =
            Z.of_nat (length dt) + 1 + Z.of_nat (length dc))%Z as E2.
  { unfold indexOf, s. replace (Z.to_nat _) with (S (String.length (dstr dt)))
      by (rewrite dstr_length; lia).
    rewrite !dash_app, str_drop_app_S.
    rewrite index_of_char by (eapply dstr_no_dash; [done|lia]). simpl. rewrite !dstr_length. lia. }
  unfold hlcParse. rewrite E1, E2. f_equal.
  - rewrite <- dstr_length. unfold s. rewrite slice_app_l. apply parseInt_dstr; done || lia.
  - unfold s. rewrite <- str_app_assoc.
    replace (Z.of_nat (length dt) + 1)%Z with (Z.of_nat (String.length (dstr dt +:+ "-")))
      by (rewrite str_length_app, dstr_length; simpl; lia).
    rewrite <- (dstr_length dc), slice_app_mid. apply parseInt_dstr; done || lia.
  - unfold s. rewrite <- !str_app_assoc.
    replace (Z.of_nat (length dt) + 1 + _ + 1)%Z
      with (Z.of_nat (String.length ((((dstr dt +:+ "-") +:+ dstr dc) +:+ "-"))))
      by (rewrite !str_length_app, !dstr_length; simpl; lia).
    apply slice_from_app.
Qed.

Lemma parse_serialize h : hlc_valid h → hlcParse (hlcSerialize h) = h.
Proof.
  intros (t & c & n & -> & Ht & Hc)%hlc_valid_inv.
  destruct (serialize_shape t c n Ht Hc) as (dt & dc & -> & ? & Hvt & ? & Hvc & ? & ?).
  rewrite parse_numerals by (done || (eapply numeral_nonempty; [|done]; lia)).
  by rewrite Hvt, Hvc.
Qed.

Lemma serialize_inj a b :
  hlc_valid a → hlc_valid b → hlcSerialize a = hlcSerialize b → a = b.
Proof. intros Ha Hb E. by rewrite <- (parse_serialize a), <- (parse_serialize b), E. Qed.

(** The fast path applies exactly to the clocks that fit the fixed widths. *)
Lemma dashed_serialize t c n : safe_int t → safe_int c →
  dashed (hlcSerialize (mkHLC (Num t) (Num c) n)) = (t <? 10 ^ 15)%Z && (c <? 16 ^ 4)%Z.
Proof.
  intros Ht Hc.
  destruct (serialize_shape t c n Ht Hc) as (dt & dc & -> & Hdt & _ & Hdc & _ & Hlt & Hlc).
  assert (∀ ds r i, digits_ok r ds → (r ≤ 16)%Z → String.get i (dstr ds) ≠ Some DASH) as Hdig.
  { intros ds r i Hds Hr Hget. pose proof (dstr_no_dash ds r Hds Hr) as Hall.
    pose proof (str_get_forall _ _ _ _ Hall Hget) as Hc'. done. }
  unfold dashed, char_at. destruct (Z.ltb_spec t (10 ^ 15)); simpl.
  - assert (∀ i x, String.get (15 + i) (dstr dt +:+ x) = String.get i x) as Hskip.
    { intros i x. rewrite <- Hlt, <- dstr_length. apply str_get_app_r. }
    rewrite (Hskip 0), (Hskip 5), !dash_app. cbn [String.get].
    rewrite (bool_decide_true (Some "-"%char = Some DASH)) by done. cbn [andb].
    destruct (Z.ltb_spec c (16 ^ 4)).
    + change 4 with (4 + 0). rewrite <- Hlc, <- dstr_length, str_get_app_r. done.
    + apply bool_decide_false. rewrite str_get_app_l by (rewrite dstr_length; lia).
      eapply Hdig; [done|lia].
  - rewrite bool_decide_false; [done|].
    rewrite str_get_app_l by (rewrite dstr_length; lia). eapply Hdig; [done|lia].
Qed.

(** ** The order *)

Lemma num_sign_sub x y : num_sign (num_sub (Num x) (Num y)) = Some (x ?= y)%Z.
Proof. simpl. f_equal. by destruct (Z.compare_spec (x - y) 0), (Z.compare_spec x y); try lia. Qed.

Lemma str_cmp_sign a b :
  num_sign (if str_ltb a b then Num (-1) else if str_ltb b a then Num 1 else Num 0)
  = Some (String.compare a b).
Proof.
  unfold str_ltb. rewrite (str_compare_antisym b a).
  by destruct (String.compare a b) eqn:E.
Qed.

Lemma compare_cmp a b : hlc_valid a → hlc_valid b →
  num_sign (hlcCompare a b) = Some (clock_cmp a b).
Proof.
  intros (t & c & n & -> & _)%hlc_valid_inv (t' & c' & n' & -> & _)%hlc_valid_inv.
  unfold hlcCompare, clock_cmp. cbn [ts counter nodeId]. unfold num_eqb, num_rel2.
  destruct (Z.eqb_spec t t') as [->|]; cbn [negb].
  - rewrite Z.compare_refl. destruct (Z.eqb_spec c c') as [->|]; cbn [negb].
    + rewrite Z.compare_refl. apply str_cmp_sign.
    + rewrite num_sign_sub. by destruct (Z.compare_spec c c').
  - rewrite num_sign_sub. by destruct (Z.compare_spec t t').
Qed.

Lemma compareStr_cmp a b : hlc_valid a → hlc_valid b →
  num_sign (hlcCompareStr (hlcSerialize a) (hlcSerialize b)) = Some (clock_cmp a b).
Proof.
  intros Ha Hb. unfold hlcCompareStr. destruct (_ && _) eqn:E.
  - rewrite str_cmp_sign. f_equal.
    apply hlc_valid_inv in Ha as (t & c & n & -> & Ht & Hc).
    apply hlc_valid_inv in Hb as (t' & c' & n' & -> & Ht' & Hc').
    rewrite !dashed_serialize in E by done. apply andb_true_iff in E as [[E1 E2]%andb_true_iff [E3 E4]%andb_true_iff].
    destruct (serialize_shape t c n) as (dt & dc & -> & ? & Hvt & ? & Hvc & Hl1 & Hl2); [done..|].
    destruct (serialize_shape t' c' n') as (dt' & dc' & -> & ? & Hvt' & ? & Hvc' & Hl3 & Hl4); [done..|].
    rewrite E1 in Hl1. rewrite E2 in Hl2. rewrite E3 in Hl3. rewrite E4 in Hl4.
    rewrite (dstr_compare 10) by (done || lia || congruence).
    rewrite (str_compare_app_l "-"), (dstr_compare 16) by (done || lia || congruence).
    by rewrite (str_compare_app_l "-"), Hvt, Hvc, Hvt', Hvc'.
  - rewrite !parse_serialize by done. by apply compare_cmp.
Qed.

Lemma clock_cmp_antisym a b : clock_cmp a b = CompOpp (clock_cmp b a).
Proof.
  destruct a as [[|t] [|c] n], b as [[|t'] [|c'] n']; unfold clock_cmp; simpl; try done.
  rewrite (Z.compare_antisym t' t), (Z.compare_antisym c' c), (str_compare_antisym n n').
  by destruct (t' ?= t)%Z, (c' ?= c)%Z, (String.compare n' n).
Qed.

Lemma clock_cmp_eq a b : hlc_valid a → hlc_valid b → clock_cmp a b = Eq ↔ a = b.
Proof.
  intros (t & c & n & -> & _)%hlc_valid_inv (t' & c' & n' & -> & _)%hlc_valid_inv.
  unfold clock_cmp. simpl. split.
  - destruct (Z.compare_spec t t') as [->| |]; try done.
    destruct (Z.compare_spec c c') as [->| |]; try done. by intros ->%str_compare_eq.
  - intros [= -> -> ->]. rewrite !Z.compare_refl. apply str_compare_refl.
Qed.

Lemma clock_cmp_trans a b c :
  hlc_valid a → hlc_valid b → hlc_valid c →
  clock_cmp a b = Lt → clock_cmp b c = Lt → clock_cmp a c = Lt.
Proof.
  intros (t1 & c1 & n1 & -> & _)%hlc_valid_inv (t2 & c2 & n2 & -> & _)%hlc_valid_inv
    (t3 & c3 & n3 & -> & _)%hlc_valid_inv. unfold clock_cmp. simpl.
  destruct (Z.compare_spec t1 t2), (Z.compare_spec t2 t3), (Z.compare_spec t1 t3);
    try done; try lia.
  destruct (Z.compare_spec c1 c2), (Z.compare_spec c2 c3), (Z.compare_spec c1 c3);
    try done; try lia.
  apply str_compare_trans_lt.
Qed.

(** ** The interface of the clock to the rest of the engine

    A decidable strict order on the well-formed stamps, which the sign of the
    comparison function reports.  The merge engine, the ledger and the transfer
    steps are proved against this class only. *)
Class StampOrder (wf : string → Prop) (compare : string → string → jsnum) := {
  stamp_lt : string → string → Prop;
  stamp_gt_spec a b : wf a → wf b → num_gtb (compare a b) (Num 0) = true ↔ stamp_lt b a;
  stamp_lt_spec a b : wf a → wf b → num_ltb (compare a b) (Num 0) = true ↔ stamp_lt a b;
  stamp_le_spec a b : wf a → wf b → num_leb (compare a b) (Num 0) = true ↔ ¬ stamp_lt b a;
  stamp_irrefl a : wf a → ¬ stamp_lt a a;
  stamp_trans a b c : wf a → wf b → wf c → stamp_lt a b → stamp_lt b c → stamp_lt a c;
  stamp_total a b : wf a → wf b → stamp_lt a b ∨ a = b ∨ stamp_lt b a;
}.

(** Serialised valid clocks implement it. *)
#[global] Program Instance hlc_stamp_order : StampOrder canonical hlcCompareStr := {|
  stamp_lt a b := clock_cmp (hlcParse a) (hlcParse b) = Lt
|}.
Next Obligation.
  intros ? ? (a & Ha & ->) (b & Hb & ->). rewrite !parse_serialize by done.
  pose proof (compareStr_cmp a b Ha Hb) as E. rewrite (clock_cmp_antisym b a).
  destruct (hlcCompareStr _ _) as [|z]; [done|]. injection E as <-.
  unfold num_gtb, num_ltb. simpl.
  rewrite Z.ltb_lt. by destruct (Z.compare_spec z 0); simpl; split; intros; try done; lia.
Qed.
Next Obligation.
  intros ? ? (a & Ha & ->) (b & Hb & ->). rewrite !parse_serialize by done.
  pose proof (compareStr_cmp a b Ha Hb) as E.
  destruct (hlcCompareStr _ _) as [|z]; [done|]. injection E as <-.
  unfold num_ltb. simpl. rewrite Z.ltb_lt. apply iff_sym, Z.compare_lt_iff.
Qed.
Next Obligation.
  intros ? ? (a & Ha & ->) (b & Hb & ->). rewrite !parse_serialize by done.
  pose proof (compareStr_cmp a b Ha Hb) as E. rewrite (clock_cmp_antisym b a).
  destruct (hlcCompareStr _ _) as [|z]; [done|]. injection E as <-.
  unfold num_leb. simpl.
  rewrite Z.leb_le. by destruct (Z.compare_spec z 0); simpl; split; intros; try done; lia.
Qed.
Next Obligation.
  intros ? (a & Ha & ->). rewrite parse_serialize by done.
  by rewrite (proj2 (clock_cmp_eq a a Ha Ha) eq_refl).
Qed.
Next Obligation.
  intros ? ? ? (a & Ha & ->) (b & Hb & ->) (c & Hc & ->). rewrite !parse_serialize by done.
  by apply clock_cmp_trans.
Qed.
Next Obligation.
  intros ? ? (a & Ha & ->) (b & Hb & ->). rewrite !parse_serialize by done.
  rewrite (clock_cmp_antisym b a). destruct (clock_cmp a b) eqn:E; [|by left|by right; right].
  right; left. f_equal. by apply clock_cmp_eq.
Qed.

#[global] Arguments stamp_lt : simpl never.
#[global] Arguments num_gtb : simpl never.
#[global] Arguments num_ltb : simpl never.
#[global] Arguments num_leb : simpl never.
#[global] Arguments hlcCompareStr : simpl never.
#[global] Arguments truthy : simpl never.

(** Consequences shared by the clients of the class. *)
Section stamp_facts.
Context `{SO : StampOrder wf cmp}.

Lemma stamp_asym a b : wf a → wf b → stamp_lt a b → ¬ stamp_lt b a.
Proof. intros Ha Hb H1 H2. apply (stamp_irrefl a Ha). by apply stamp_trans with b. Qed.

Lemma stamp_not_lt a b : wf a → wf b → ¬ stamp_lt a b → a = b ∨ stamp_lt b a.
Proof. intros Ha Hb H. destruct (stamp_total a b) as [|[]]; auto. done. Qed.

Lemma stamp_lt_le_trans a b c : wf a → wf b → wf c →
  stamp_lt a b → ¬ stamp_lt c b → stamp_lt a c.
Proof.
  intros ??? H1 [->|H2]%stamp_not_lt; [done| |done..]. by apply stamp_trans with b.
Qed.

Lemma stamp_le_trans a b c : wf a → wf b → wf c →
  ¬ stamp_lt b a → ¬ stamp_lt c b → ¬ stamp_lt c a.
Proof.
  intros ??? H1 H2 H3. destruct (stamp_total a b) as [Hab|[->|]]; [done..| |done|done].
  apply H2. by apply stamp_trans with a.
Qed.

(** The four tests of the code, as a case analysis. *)
Lemma stamp_tests a b : wf a → wf b →
  (stamp_lt a b ∧ num_gtb (cmp a b) (Num 0) = false ∧ num_ltb (cmp a b) (Num 0) = true ∧
     num_leb (cmp a b) (Num 0) = true) ∨
  (a = b ∧ num_gtb (cmp a b) (Num 0) = false ∧ num_ltb (cmp a b) (Num 0) = false ∧
     num_leb (cmp a b) (Num 0) = true) ∨
  (stamp_lt b a ∧ num_gtb (cmp a b) (Num 0) = true ∧ num_ltb (cmp a b) (Num 0) = false ∧
     num_leb (cmp a b) (Num 0) = false).
Proof.
  intros Ha Hb. pose proof (stamp_gt_spec a b Ha Hb). pose proof (stamp_lt_spec a b Ha Hb).
  pose proof (stamp_le_spec a b Ha Hb). rewrite <- !not_true_iff_false.
  destruct (stamp_total a b Ha Hb) as [|[->|]]; [left|right; left|right; right].
  - pose proof (stamp_asym a b Ha Hb). tauto.
  - pose proof (stamp_irrefl b Hb). tauto.
  - pose proof (stamp_asym b a Hb Ha). tauto.
Qed.
End stamp_facts.

Lemma canonical_serialize h : hlc_valid h → canonical (hlcSerialize h).
Proof. by exists h. Qed.
#[export] Hint Resolve canonical_serialize : interocitor.

(** An executable test for canonical stamps. *)
Definition canonicalb (s : string) : bool :=
  bool_decide (hlc_valid (hlcParse s)) && String.eqb (hlcSerialize (hlcParse s)) s.
Lemma canonicalb_spec s : canonicalb s = true ↔ canonical s.
Proof.
  unfold canonicalb. rewrite andb_true_iff, bool_decide_eq_true, String.eqb_eq. split.
  - intros [Hv E]. by exists (hlcParse s).
  - intros (h & Hv & ->). by rewrite parse_serialize.
Qed.

(** A stamp is never the empty (falsy) string. *)
Lemma serialize_truthy h : truthy (hlcSerialize h) = true.
Proof.
  unfold truthy. destruct (String.eqb_spec (hlcSerialize h) "") as [E|]; [|done].
  apply (f_equal String.length) in E. unfold hlcSerialize in E.
  rewrite str_length_app in E. simpl String.length in E at 3.
  pose proof (padStart_length (num_toString 10 (ts h)) 15 "0"). lia.
Qed.
Lemma canonical_truthy s : canonical s → truthy s = true.
Proof. intros (h & _ & ->). apply serialize_truthy. Qed.
#[export] Hint Resolve serialize_truthy canonical_truthy : interocitor.

(** ** Monotonicity *)

(** Room for one more increment of the counter. *)
Definition counter_room (h : HLC) : Prop :=
  match counter h with Num c => (c + 1 < safe_bound)%Z | NaN => False end.

Lemma hlcNow_valid wall h : safe_int wall → hlc_valid h → counter_room h → hlc_valid (hlcNow wall h).
Proof.
  intros Hw (t & c & n & -> & Ht & Hc)%hlc_valid_inv Hr. unfold counter_room in Hr. simpl in Hr.
  unfold hlcNow, num_gtb, num_ltb. simpl. case_match; unfold hlc_valid, safe_int in *; simpl; lia.
Qed.

Lemma hlcNow_gt wall h : hlc_valid h → clock_cmp h (hlcNow wall h) = Lt.
Proof.
  intros (t & c & n & -> & _)%hlc_valid_inv. unfold hlcNow, num_gtb, num_ltb. simpl.
  destruct (Z.ltb_spec t wall); unfold clock_cmp; simpl.
  - by rewrite (proj2 (Z.compare_lt_iff t wall)).
  - rewrite Z.compare_refl. by rewrite (proj2 (Z.compare_lt_iff c (c + 1))) by lia.
Qed.

Lemma hlcReceive_shape wall t c n t' c' n' :
  let m := Z.max (Z.max wall t) (Z.min t' (wall + HLC_MAX_FUTURE_SKEW_MS)) in
  hlcReceive wall (mkHLC (Num t) (Num c) n) (mkHLC (Num t') (Num c') n') =
    mkHLC (Num m)
      (Num (if (m =? t) && (m =? t') then Z.max c c' + 1
            else if m =? t then c + 1
            else if m =? Z.min t' (wall + HLC_MAX_FUTURE_SKEW_MS) then c' + 1 else 0))%Z n.
Proof. simpl. unfold hlcReceive. simpl. by repeat case_match. Qed.

Lemma hlcReceive_gt_local wall l r :
  hlc_valid l → hlc_valid r → clock_cmp l (hlcReceive wall l r) = Lt.
Proof.
  intros (t & c & n & -> & _)%hlc_valid_inv (t' & c' & n' & -> & _)%hlc_valid_inv.
  rewrite hlcReceive_shape. set (m := Z.max _ _). assert (t ≤ m)%Z by lia. clearbody m.
  unfold clock_cmp. simpl. destruct (Z.compare_spec t m); [subst|done|lia].
  rewrite Z.eqb_refl. simpl. destruct (Z.eqb_spec m t'); simpl.
  - by rewrite (proj2 (Z.compare_lt_iff c _)) by lia.
  - by rewrite (proj2 (Z.compare_lt_iff c _)) by lia.
Qed.

Lemma hlcReceive_gt_remote wall l r t' :
  hlc_valid l → hlc_valid r → ts r = Num t' → (t' ≤ wall + HLC_MAX_FUTURE_SKEW_MS)%Z →
  clock_cmp r (hlcReceive wall l r) = Lt.
Proof.
  intros (t & c & n & -> & _)%hlc_valid_inv (t'' & c' & n' & -> & _)%hlc_valid_inv.
  simpl. intros [= ->] Hskew. rewrite hlcReceive_shape.
  rewrite (Z.min_l t') by lia. set (m := Z.max _ _). assert (t' ≤ m)%Z by lia. clearbody m.
  unfold clock_cmp. simpl. destruct (Z.compare_spec t' m); [subst|done|lia].
  rewrite Z.eqb_refl, andb_true_r. destruct (Z.eqb_spec m t); simpl.
  - by rewrite (proj2 (Z.compare_lt_iff c' _)) by lia.
  - by rewrite (proj2 (Z.compare_lt_iff c' _)) by lia.
Qed.

Lemma hlcReceive_valid wall l r :
  hlc_valid l → hlc_valid r → counter_room l → counter_room r →
  safe_int wall → (wall + HLC_MAX_FUTURE_SKEW_MS < safe_bound)%Z →
  hlc_valid (hlcReceive wall l r).
Proof.
  intros (t & c & n & -> & Ht & Hc)%hlc_valid_inv (t' & c' & n' & -> & Ht' & Hc')%hlc_valid_inv.
  unfold counter_room. simpl. intros. rewrite hlcReceive_shape.
  unfold hlc_valid, safe_int in *. simpl. repeat case_match; lia.
Qed.

(** ** A clock that absorbed a malformed stamp *)

(** A numeral of at least [10 ^ k] has a non-zero digit before its last [k]. *)
Lemma dval_take_pos r ds k :
  (2 ≤ r)%Z → digits_ok r ds → k ≤ length ds →
  (r ^ Z.of_nat k ≤ dval r ds)%Z → (0 < dval r (take (length ds - k) ds))%Z.
Proof.
  intros Hr Hds Hk Hv. rewrite <- (take_drop (length ds - k) ds) in Hv at 1.
  rewrite dval_app, length_drop in Hv by lia.
  replace (length ds - (length ds - k)) with k in Hv by lia.
  pose proof (dval_bounds r (drop (length ds - k) ds) Hr (Forall_drop _ _ _ Hds)) as Hb.
  rewrite length_drop in Hb. replace (length ds - (length ds - k)) with k in Hb by lia. nia.
Qed.

Lemma nan_stamp_below c n t c' n' :
  (0 ≤ c < 16 ^ 4)%Z → (1000 ≤ t < 10 ^ 15)%Z → (0 ≤ c' < 16 ^ 4)%Z →
  hlcCompareStr (hlcSerialize (mkHLC NaN (Num c) n)) (hlcSerialize (mkHLC (Num t) (Num c') n'))
    = Num (-1).
Proof.
  intros Hc Ht Hc'.
  assert (safe_int t) as Hst by (unfold safe_int, safe_bound; lia).
  assert (safe_int c') as Hsc' by (unfold safe_int, safe_bound; lia).
  unfold hlcCompareStr. rewrite dashed_serialize by done.
  rewrite (proj2 (Z.ltb_lt t (10 ^ 15))), (proj2 (Z.ltb_lt c' (16 ^ 4))) by lia.
  destruct (padded_numeral 16 4 c) as (dc & Edc & _ & _ & Hldc); [lia..|].
  rewrite (proj2 (Z.ltb_lt c _)) in Hldc by lia.
  assert (hlcSerialize (mkHLC NaN (Num c) n) =
            dstr (replicate 12 0%Z) +:+ "NaN-" +:+ dstr dc +:+ "-" +:+ n) as ->.
  { unfold hlcSerialize. cbn [ts counter num_toString nodeId].
    rewrite (proj2 (Z.ltb_ge c 0)), Edc by lia. done. }
  assert (dashed (dstr (replicate 12 0%Z) +:+ "NaN-" +:+ dstr dc +:+ "-" +:+ n) = true) as ->.
  { unfold dashed, char_at. destruct dc as [|? [|? [|? [|? [|]]]]]; done. }
  destruct (serialize_shape t c' n') as (dt & dc' & -> & Hdt & Hvt & _ & _ & Hlt & _); [done..|].
  rewrite (proj2 (Z.ltb_lt t (10 ^ 15))) in Hlt by lia. simpl andb. cbv iota.
  unfold str_ltb. rewrite <- (take_drop 12 dt), dstr_app, str_app_assoc.
  rewrite (dstr_compare 10);
    [|lia|by repeat constructor|by apply Forall_take|by rewrite length_take, Hlt].
  pose proof (dval_take_pos 10 dt 3 ltac:(lia) Hdt ltac:(lia) ltac:(lia)) as Hpos.
  rewrite Hlt in Hpos. change (15 - 3) with 12 in Hpos.
  change (dval 10 (replicate 12 0%Z)) with 0%Z.
  by rewrite (proj2 (Z.compare_lt_iff 0 _) Hpos).
Qed.

(** ** Properties *)

(** a stamp read back is the clock that was written, for every clock whose
    components are safe integers and every node identifier, dashes included;
    so distinct clocks never share a stamp. *)
Theorem hlc_stamp_roundtrip (h h' : HLC) :
  hlc_valid h → hlc_valid h' →
  hlcParse (hlcSerialize h) = h ∧ (hlcSerialize h = hlcSerialize h' → h = h').
Proof. intros Hh Hh'. split; [by apply parse_serialize|by apply serialize_inj]. Qed.

(** comparing two stamps gives the same verdict as comparing the two clocks,
    whether the lexicographic fast path applies or one of them outgrew the
    fixed widths and the code falls back to parsing. *)
Theorem hlc_compare_str_agrees (a b : HLC) :
  hlc_valid a → hlc_valid b →
  num_sign (hlcCompareStr (hlcSerialize a) (hlcSerialize b)) = num_sign (hlcCompare a b).
Proof. intros. by rewrite compareStr_cmp, compare_cmp. Qed.

(** C38: a tick is strictly after the clock it ticks; a receive is strictly after
    the local clock, strictly after the remote clock when that is at most five
    minutes ahead of the wall clock, and never takes the local time further
    than five minutes past the wall clock. *)
Theorem hlc_monotone_and_bounded (wall t t' : Z) (l r : HLC) :
  hlc_valid l → hlc_valid r → ts l = Num t → ts r = Num t' →
  num_gtb (hlcCompare (hlcNow wall l) l) (Num 0) = true ∧
  num_gtb (hlcCompare (hlcReceive wall l r) l) (Num 0) = true ∧
  ((t' ≤ wall + HLC_MAX_FUTURE_SKEW_MS)%Z →
     num_gtb (hlcCompare (hlcReceive wall l r) r) (Num 0) = true) ∧
  ∃ m, ts (hlcReceive wall l r) = Num m ∧
       (Z.max wall t ≤ m ≤ Z.max t (wall + HLC_MAX_FUTURE_SKEW_MS))%Z.
Proof.
  intros Hl Hr Htl Htr.
  assert (∀ a b, (∃ x y, ts a = Num x ∧ counter a = Num y) → hlc_valid b →
            clock_cmp b a = Lt → num_gtb (hlcCompare a b) (Num 0) = true) as Hgt.
  { intros [ta ca na] b (x & y & Hx & Hy) (tb & cb & nb & -> & _)%hlc_valid_inv.
    simpl in Hx, Hy. subst. unfold clock_cmp, hlcCompare, num_gtb, num_ltb, num_eqb. simpl.
    destruct (Z.compare_spec tb x) as [->|?|?]; try done.
    - rewrite Z.eqb_refl. simpl. destruct (Z.compare_spec cb y) as [->|?|?]; try done.
      + rewrite Z.eqb_refl. simpl. unfold str_ltb. intros E.
        by rewrite (str_compare_antisym na nb), E.
      + intros _. destruct (Z.eqb_spec y cb); [lia|]. simpl. by apply Z.ltb_lt; lia.
    - intros _. destruct (Z.eqb_spec x tb); [lia|]. simpl. by apply Z.ltb_lt; lia. }
  pose proof Hl as (tl & cl & nl & -> & _)%hlc_valid_inv.
  pose proof Hr as (tr & cr & nr & -> & _)%hlc_valid_inv.
  split_and!.
  - apply Hgt; [|done|by apply hlcNow_gt].
    unfold hlcNow, num_gtb, num_ltb. simpl. case_match; simpl; eauto.
  - apply Hgt; [|done|by apply hlcReceive_gt_local]. rewrite hlcReceive_shape. simpl. eauto.
  - intros Hs. apply Hgt; [|done|by eapply hlcReceive_gt_remote].
    rewrite hlcReceive_shape. simpl. eauto.
  - rewrite hlcReceive_shape. simpl in *. simplify_eq. eexists. split; [done|].
    unfold HLC_MAX_FUTURE_SKEW_MS. lia.
Qed.

(** the guard against peers with a bad clock does not cover a stamp that
    does not parse.  Receiving one leaves the local time [NaN]; every later tick
    keeps it [NaN] whatever the wall clock says; and a stamp issued by such a
    clock orders before every stamp of a valid clock (from one second after the
    epoch on), so writes made with it lose every merge. *)
Theorem hlc_malformed_remote_poisons (wall : Z) (l r : HLC) (walls : list Z) :
  ts r = NaN →
  ts (foldl (λ h w, hlcNow w h) (hlcReceive wall l r) walls) = NaN ∧
  counter (hlcReceive wall l r) = Num 0 ∧
  ∀ c t c' n', (0 ≤ c < 16 ^ 4)%Z → (1000 ≤ t < 10 ^ 15)%Z → (0 ≤ c' < 16 ^ 4)%Z →
    hlcCompareStr (hlcSerialize (mkHLC NaN (Num c) (nodeId l)))
                  (hlcSerialize (mkHLC (Num t) (Num c') n')) = Num (-1).
Proof.
  intros Hr.
  assert (ts (hlcReceive wall l r) = NaN ∧ counter (hlcReceive wall l r) = Num 0) as [Ht Hc].
  { destruct l as [[|] ? ?], r as [? ? ?]; simpl in Hr; subst; done. }
  split_and!; [|done|intros; by apply nan_stamp_below].
  clear Hc. revert Ht. generalize (hlcReceive wall l r).
  induction walls as [|w walls IH]; simpl; intros h Hh; [done|]. apply IH.
  unfold hlcNow. rewrite Hh. done.
Qed.

Lemma hlc_stamp_roundtrip_witness :
  hlcParse "001711785600000-0000-dev-x1" = mkHLC (Num 1711785600000) (Num 0) "dev-x1".
Proof.
  destruct (hlc_stamp_roundtrip (mkHLC (Num 1711785600000) (Num 0) "dev-x1")
              (mkHLC (Num 1711785600000) (Num 1) "dev-x1")) as [H _];
    [by vm_compute|by vm_compute|exact H].
Defined.

Lemma hlc_compare_str_agrees_witness :
  num_sign (hlcCompareStr "001711785600000-10000-a" "001711785600000-ffff-b") = Some Gt.
Proof.
  etransitivity;
    [exact (hlc_compare_str_agrees (mkHLC (Num 1711785600000) (Num 65536) "a")
              (mkHLC (Num 1711785600000) (Num 65535) "b") ltac:(by vm_compute) ltac:(by vm_compute))
    |vm_compute; reflexivity].
Defined.

Lemma hlc_monotone_and_bounded_witness :
  num_gtb (hlcCompare (hlcReceive 1000 (mkHLC (Num 1000) (Num 3) "a") (mkHLC (Num 1500) (Num 7) "b"))
             (mkHLC (Num 1500) (Num 7) "b")) (Num 0) = true.
Proof.
  destruct (hlc_monotone_and_bounded 1000 1000 1500 (mkHLC (Num 1000) (Num 3) "a")
              (mkHLC (Num 1500) (Num 7) "b")) as (_ & _ & H & _);
    [by vm_compute|by vm_compute|done|done|apply H; by vm_compute].
Defined.

Lemma hlc_malformed_remote_poisons_witness :
  ts (hlcNow 1711785700000 (hlcReceive 1711785600000 (mkHLC (Num 1711785600000) (Num 0) "dev")
        (hlcParse "not-a-stamp"))) = NaN.
Proof.
  destruct (hlc_malformed_remote_poisons 1711785600000 (mkHLC (Num 1711785600000) (Num 0) "dev")
              (hlcParse "not-a-stamp") [1711785700000%Z]) as [H _]; [by vm_compute|exact H].
Defined.
