(* ===== verification/Values.v ===== *)
(** * Column values and the replicated data types
    ([packages/core/src/core/types.ts], the equality of [crdt.ts] and
    [change-effects.ts])

    The values an application can put in a column, the structural equality the
    merge engine uses to tell a repeated write from a conflicting one, and the
    records that travel between endpoints. *)

From S2P Require Import Prelude JsString Hlc.
From Stdlib Require String.

Open Scope stdpp_scope.

(** ** Values *)

#[local] Set Warnings "-register-all".

(** An object is its list of own fields in enumeration order; keys are
    distinct in every object the language can build. *)
Inductive jsval :=
  | VUndefined
  | VNull
  | VBool (b : bool)
  | VNum (n : jsnum)
  | VStr (s : string)
  | VDate (time : jsnum)
  | VArr (items : list jsval)
  | VObj (fields : list (string * jsval)).

Fixpoint assoc {A} (k : string) (l : list (string * A)) : option A :=
  match l with
  | [] => None
  | (k', v) :: l => if String.eqb k k' then Some v else assoc k l
  end.

(** [v.k] on a parsed value: [undefined] when it has no such field. *)
Definition field (k : string) (v : jsval) : jsval :=
  match v with VObj fs => default VUndefined (assoc k fs) | _ => VUndefined end.

(** The values that JSON text reproduces: [JSON.stringify] writes [undefined], [NaN] and dates
    as something else. *)
Fixpoint json_value (v : jsval) : bool :=
  match v with
  | VUndefined | VDate _ | VNum NaN => false
  | VNull | VBool _ | VNum _ | VStr _ => true
  | VArr l => (fix all (l : list jsval) : bool :=
                 match l with [] => true | x :: l => json_value x && all l end) l
  | VObj fs => (fix all (l : list (string * jsval)) : bool :=
                  match l with [] => true | (_, x) :: l => json_value x && all l end) fs
  end.

(** [Object.keys(o).sort()]. *)
Definition sorted_keys {A} (fields : list (string * A)) : list string :=
  merge_sort String.le fields.*1.

(** Structural equality.  Two operands that are one and the same object are
    also equal in the code by [Object.is]; on distinct objects the definition
    below is the code's.  Since the sorted key lists agree, visiting the fields
    of the left operand visits exactly the keys of both. *)
Fixpoint columnValuesEqual (left right : jsval) : bool :=
  match left, right with
  | VUndefined, VUndefined | VNull, VNull => true
  | VBool a, VBool b => Bool.eqb a b
  | VNum a, VNum b => bool_decide (a = b)
  | VStr a, VStr b => String.eqb a b
  | VDate a, VDate b => num_eqb a b
  | VArr a, VArr b =>
      (fix every (a b : list jsval) : bool :=
         match a, b with
         | [], [] => true
         | x :: a, y :: b => columnValuesEqual x y && every a b
         | _, _ => false
         end) a b
  | VObj a, VObj b =>
      bool_decide (sorted_keys a = sorted_keys b) &&
      (fix every (l : list (string * jsval)) : bool :=
         match l with
         | [] => true
         | (k, v) :: l =>
             match assoc k b with
             | Some w => columnValuesEqual v w && every l
             | None => false
             end
         end) a
  | _, _ => false
  end.

(** Values without an invalid date and with distinct keys in each object. *)
Fixpoint value_wf (v : jsval) : Prop :=
  match v with
  | VDate t => num_finite t = true
  | VArr l => (fix all (l : list jsval) : Prop :=
                 match l with [] => True | x :: l => value_wf x ∧ all l end) l
  | VObj fs => NoDup (fs.*1) ∧
               (fix all (l : list (string * jsval)) : Prop :=
                  match l with [] => True | (_, x) :: l => value_wf x ∧ all l end) fs
  | _ => True
  end.

Lemma jsval_nested_ind (P : jsval → Prop) :
  P VUndefined → P VNull → (∀ b, P (VBool b)) → (∀ n, P (VNum n)) → (∀ s, P (VStr s)) →
  (∀ t, P (VDate t)) → (∀ l, Forall P l → P (VArr l)) →
  (∀ fs, Forall (λ kv, P kv.2) fs → P (VObj fs)) → ∀ v, P v.
Proof.
  intros H1 H2 H3 H4 H5 H6 H7 H8. fix IH 1. intros [| |b|n|s|t|l|fs];
    [done|done|apply H3|apply H4|apply H5|apply H6|apply H7|apply H8].
  - induction l; constructor; auto.
  - induction fs as [|[k v] fs]; constructor; auto.
Qed.

Lemma assoc_nodup {A} (l : list (string * A)) k v :
  NoDup (l.*1) → (k, v) ∈ l → assoc k l = Some v.
Proof.
  induction l as [|[k' v'] l IH]; simpl; [by intros _ ?%not_elem_of_nil|].
  intros [Hk Hnd]%list.NoDup_cons [[= -> ->]|Hin]%elem_of_cons; [by rewrite String.eqb_refl|].
  destruct (String.eqb_spec k k') as [->|]; [|by apply IH].
  exfalso. apply Hk. apply list_elem_of_fmap. by exists (k', v).
Qed.

(** A value equals itself: redelivery of a write is never a conflict. *)
Lemma columnValuesEqual_refl v : value_wf v → columnValuesEqual v v = true.
Proof.
  induction v as [| |b|n|s|t|l IH|fs IH] using jsval_nested_ind; simpl; intros Hwf; try done.
  - by destruct b.
  - by apply bool_decide_true.
  - apply String.eqb_refl.
  - destruct t; [done|]. apply Z.eqb_refl.
  - induction IH as [|x l Hx Hl IHl]; [done|]. destruct Hwf as [??]. by rewrite Hx, IHl.
  - destruct Hwf as [Hnd Hwf]. rewrite bool_decide_true by done. simpl.
    assert (∀ l, l ⊆ fs → Forall (λ kv, value_wf kv.2 → columnValuesEqual kv.2 kv.2 = true) l →
      (fix all (l : list (string * jsval)) : Prop :=
         match l with [] => True | (_, x) :: l => value_wf x ∧ all l end) l →
      (fix every (l : list (string * jsval)) : bool :=
         match l with
         | [] => true
         | (k, v) :: l =>
             match assoc k fs with
             | Some w => columnValuesEqual v w && every l
             | None => false
             end
         end) l = true) as Hgen; [|by apply Hgen].
    induction l as [|[k v] l IHl]; intros Hsub Hall Hw; [done|].
    apply Forall_cons_1 in Hall as [Hv Hall]. destruct Hw as [Hwv Hw].
    rewrite (assoc_nodup fs k v) by (done || apply Hsub; left).
    simpl in Hv. rewrite Hv by done. apply IHl; [|done|done]. intros x Hx. apply Hsub. by right.
Qed.

(** ** Replicated records *)

Record ColumnEntry := mkColumn { value : jsval; hlc : string }.

Inductive Op :=
  | UpsertOp (table rowId : string) (columns : list (string * ColumnEntry))
  | DeleteOp (table rowId : string) (hlc : string).

Definition op_table (op : Op) : string :=
  match op with UpsertOp t _ _ => t | DeleteOp t _ _ => t end.
Definition op_rowId (op : Op) : string :=
  match op with UpsertOp _ r _ => r | DeleteOp _ r _ => r end.

Record ChangeEntry := mkChange {
  ce_id : string; ce_ts : Z; ce_device : string; ce_user : option string;
  ce_hlc : string; ce_ops : list Op }.

Record RowMeta := mkMeta {
  rm_table : string; rm_rowId : string; rm_deleted : bool;
  rm_deletedHlc : option string; rm_schemaVersion : Z;
  rm_owner : option string; rm_key : option string }.

Record Row := mkRow { _meta : RowMeta; payload : gmap string ColumnEntry }.

(** The in-memory state the merge engine mutates: table name, row id, row. *)
Abbreviation Tables := (gmap string (gmap string Row)).

Definition getRow (tables : Tables) (t r : string) : option Row :=
  tables !! t ≫= λ tbl, tbl !! r.

(** [table[rowId] = row], creating [tables[t]] first as [applyOp] does. *)
Definition setRow (tables : Tables) (t r : string) (row : Row) : Tables :=
  <[t := <[r := row]> (default ∅ (tables !! t))]> tables.

(** An optional string as the code tests it: absent and empty are falsy. *)
Definition opt_truthy (o : option string) : option string :=
  match o with Some s => if truthy s then Some s else None | None => None end.

Lemma getRow_setRow_eq tables t r row : getRow (setRow tables t r row) t r = Some row.
Proof. unfold getRow, setRow. rewrite lookup_insert_eq. simpl. apply lookup_insert_eq. Qed.

Lemma getRow_setRow_ne tables t r row t' r' :
  (t, r) ≠ (t', r') → getRow (setRow tables t r row) t' r' = getRow tables t' r'.
Proof.
  intros Hne. unfold getRow, setRow. destruct (decide (t = t')) as [<-|].
  - rewrite lookup_insert_eq. simpl. rewrite lookup_insert_ne by congruence.
    by destruct (tables !! t).
  - by rewrite lookup_insert_ne.
Qed.

Lemma setRow_setRow_eq tables t r row row' :
  setRow (setRow tables t r row) t r row' = setRow tables t r row'.
Proof. unfold setRow. rewrite lookup_insert_eq. simpl. by rewrite !insert_insert_eq. Qed.

Lemma setRow_comm tables t r row t' r' row' :
  (t, r) ≠ (t', r') →
  setRow (setRow tables t r row) t' r' row' = setRow (setRow tables t' r' row') t r row.
Proof.
  intros Hne. unfold setRow. destruct (decide (t = t')) as [<-|].
  - rewrite !lookup_insert_eq. simpl. rewrite !insert_insert_eq.
    by rewrite insert_insert_ne by congruence.
  - rewrite !lookup_insert_ne by done. by rewrite insert_insert_ne.
Qed.

Lemma opt_truthy_Some s : truthy s = true → opt_truthy (Some s) = Some s.
Proof. intros H. simpl. by rewrite H. Qed.

#[export] Hint Resolve columnValuesEqual_refl getRow_setRow_eq : interocitor.
