(* ===== verification/Encryption.v ===== *)
(** * Keys and envelopes
    ([packages/core/src/crypto/encryption.ts], [packages/core/src/crypto/compression.ts])

    The portable form of a mesh key, and the envelope every encrypted object is stored
    in.  Web Crypto, the DEFLATE codec, UTF-8 and JSON are the operations of the class
    [WebCrypto], with the laws their specifications give. *)

From S2P Require Import Prelude JsString Values Octets.
From Stdlib Require Import Ascii.
From Stdlib Require String.

Open Scope stdpp_scope.

Definition IV_LENGTH : nat := 12.
Definition PLAIN_FORMAT : Z := 2.
Definition DEFLATE_FORMAT : Z := 3.
Definition MIN_ENVELOPE_LENGTH : nat := 1 + IV_LENGTH + 16.
Definition JSON_ENVELOPE_VERSION : Z := 1.
Definition MAX_INFLATED_BYTES : Z := 256 * 1024 * 1024.

(** AES-GCM under a raw key: decryption undoes encryption, and succeeds on nothing but
    the encryption of what it returns, for the initialisation vector and the
    additional data fix the ciphertext and its tag of 16 bytes.  The DEFLATE codec streams
    chunks.  HKDF derives a key from key material and an info text, HMAC signs with it; of
    these and of SHA-256 nothing is assumed but the length of a signature. *)
Class WebCrypto := {
  gcm_encrypt : list Z → list Z → list Z → list Z → list Z;
  gcm_decrypt : list Z → list Z → list Z → list Z → result (list Z);
  deflate : list Z → list (list Z);
  inflate : list Z → result (list (list Z));
  utf8_encode : string → list Z;
  utf8_decode : list Z → string;
  json_parse : string → result jsval;
  json_stringify : jsval → string;
  hkdf_key : list Z → list Z → list Z;
  hmac_sign : list Z → list Z → list Z;
  sha256 : list Z → list Z;
  gcm_roundtrip k iv aad p : gcm_decrypt k iv aad (gcm_encrypt k iv aad p) = Ok p;
  gcm_authentic k iv aad c p : gcm_decrypt k iv aad c = Ok p → c = gcm_encrypt k iv aad p;
  gcm_length k iv aad p : length (gcm_encrypt k iv aad p) = (length p + 16)%nat;
  hmac_length k m : length (hmac_sign k m) = 32%nat;
  inflate_deflate p : ∃ chunks, inflate (concat (deflate p)) = Ok chunks ∧ concat chunks = p;
  utf8_roundtrip s : utf8_decode (utf8_encode s) = s;
  json_roundtrip v : json_value v = true → json_parse (json_stringify v) = Ok v }.

(** ** Compression *)

(** [collect]: the chunks of a stream, refused as soon as they exceed the limit. *)
Fixpoint collect (limit : option Z) (total : Z) (out : list Z) (chunks : list (list Z))
    : result (list Z) :=
  match chunks with
  | [] => Ok out
  | value :: chunks =>
      let total := (total + Z.of_nat (length value))%Z in
      if from_option (λ l, l <? total)%Z false limit
      then Throw (JsError "Compressed payload inflates past the limit")
      else collect limit total (out ++ value) chunks
  end.

(** ** Keys

    A [CryptoKey] is its bytes with what its holder may do: [ck_extractable] lets
    [exportKey] return them, and [ck_twin] says that this package imported the key and
    registered an HKDF base key of the same bytes for it. *)
Record MeshKey := mkMeshKey { ck_raw : list Z; ck_extractable : bool; ck_twin : bool }.

Section encryption.
Context `{WebCrypto}.

Definition deflateRaw (bytes : list Z) : result (list Z) := collect None 0 [] (deflate bytes).
Definition inflateRaw (bytes : list Z) : result (list Z) :=
  match (chunks ← inflate bytes; collect (Some MAX_INFLATED_BYTES) 0 [] chunks) with
  | Ok out => Ok out
  | Throw _ => Throw (JsError "Compressed payload is malformed")
  end.

(** AES keys are of 128, 192 or 256 bits. *)
Definition importKeyRaw (raw : list Z) (extractable : bool) : result MeshKey :=
  if bool_decide (length raw ∈ [16; 24; 32]%nat) then Ok (mkMeshKey raw extractable true)
  else Throw (JsError "DataError").
Definition exportKeyRaw (key : MeshKey) : result (list Z) :=
  if ck_extractable key then Ok (ck_raw key) else Throw (JsError "InvalidAccessError").
(** The HKDF base key is given by its bytes. *)
Definition meshKeyDerivationBase (key : MeshKey) : result (list Z) :=
  if ck_twin key then Ok (ck_raw key)
  else match exportKeyRaw key with
       | Ok raw => Ok raw
       | Throw _ => Throw (JsError "Cannot derive from this key")
       end.
(** The random bytes are arguments. *)
Definition generateKey (raw : list Z) (extractable : bool) : result MeshKey :=
  if extractable then Ok (mkMeshKey raw true false) else importKeyRaw raw false.
Definition generateMeshKeyMaterial (raw : list Z) : result (MeshKey * string) :=
  key ← importKeyRaw raw false; Ok (key, base58Encode raw).
Definition keyToPassphrase (key : MeshKey) : result string :=
  raw ← exportKeyRaw key; Ok (base58Encode raw).

(** [s.trim()]. *)
Fixpoint trim_end (s : string) : string :=
  match s with
  | EmptyString => ""
  | String c s =>
      match trim_end s with
      | EmptyString => if is_space c then "" else String c ""
      | s' => String c s'
      end
  end.
Definition trim (s : string) : string := trim_end (trim_start s).

Definition passphraseToKey (passphrase : string) (extractable : bool) : result MeshKey :=
  let trimmed := trim passphrase in
  if negb (truthy trimmed) then Throw (JsError "Invalid mesh key: empty")
  else
    raw ← base58Decode trimmed;
    if negb (String.eqb (base58Encode raw) trimmed)
    then Throw (JsError "Invalid mesh key: expected the canonical base58 encoding of 32 bytes")
    else importKeyRaw raw extractable.

Definition keyToShareUrl (raw : list Z) (baseUrl : string) : string :=
  baseUrl +:+ "#key=" +:+ bytesToBase64Url raw.

(** [hash.match(/key=([A-Za-z0-9_-]+)/)]: the leftmost match, as long as it can be. *)
Definition url_letter (c : ascii) : bool :=
  bool_decide (is_Some (letter_index BASE64_ALPHABET c)) && negb (Ascii.eqb c "+") && negb (Ascii.eqb c "/") ||
  Ascii.eqb c "-" || Ascii.eqb c "_".
Fixpoint take_while (P : ascii → bool) (s : string) : string :=
  match s with
  | String c s => if P c then String c (take_while P s) else ""
  | EmptyString => ""
  end.
Fixpoint match_key (s : string) : option string :=
  let here := if String.prefix "key=" s then take_while url_letter (str_drop 4 s) else "" in
  if truthy here then Some here
  else match s with EmptyString => None | String _ s => match_key s end.
Definition keyFromFragment (hash : string) : option (result (list Z)) :=
  base64UrlToBytes <$> match_key hash.

(** ** Envelopes

    Format byte, initialisation vector, ciphertext and tag; the format byte is the
    additional data. *)
Definition sealEnvelope (key : MeshKey) (iv plaintext : list Z) : result (list Z) :=
  compressed ← if (Z.of_nat (length plaintext) <=? MAX_INFLATED_BYTES)%Z
               then c ← deflateRaw plaintext; Ok (Some c) else Ok None;
  let '(format, body) :=
    match compressed with
    | Some c => if (length c <? length plaintext)%nat then (DEFLATE_FORMAT, c) else (PLAIN_FORMAT, plaintext)
    | None => (PLAIN_FORMAT, plaintext)
    end in
  Ok (format :: iv ++ gcm_encrypt (ck_raw key) iv [format] body).

Definition isJsonEnvelope (first : Z) : bool :=
  bool_decide (first ∈ [123; 32; 9; 10; 13]%Z).
Definition openJsonEnvelope (key : MeshKey) (bytes : list Z) : result (list Z) :=
  envelope ← json_parse (utf8_decode bytes);
  match envelope with
  | VNull | VUndefined => Throw (JsError "TypeError")
  | _ =>
      match field "v" envelope with
      | VNum (Num 1) =>
          match field "iv" envelope, field "ct" envelope with
          | VStr iv, VStr ct =>
              iv ← base64ToBytes iv;
              ct ← base64ToBytes ct;
              gcm_decrypt (ck_raw key) iv [] ct
          | _, _ => Throw (JsError "Envelope is malformed: iv and ct must be base64 strings")
          end
      | _ => Throw (JsError "Unknown envelope version")
      end
  end.
Definition openEnvelope (key : MeshKey) (bytes : list Z) : result (list Z) :=
  match bytes with
  | [] => Throw (JsError "Envelope is empty")
  | format :: rest =>
      if isJsonEnvelope format then openJsonEnvelope key bytes
      else if negb (format =? PLAIN_FORMAT)%Z && negb (format =? DEFLATE_FORMAT)%Z
      then Throw (JsError "Unknown envelope format")
      else if (length bytes <? MIN_ENVELOPE_LENGTH)%nat then Throw (JsError "Envelope is truncated")
      else
        plaintext ← gcm_decrypt (ck_raw key) (take IV_LENGTH rest) [format] (drop IV_LENGTH rest);
        if (format =? DEFLATE_FORMAT)%Z then inflateRaw plaintext else Ok plaintext
  end.

Definition encryptEntry (key : MeshKey) (iv : list Z) (plaintext : string) : result (list Z) :=
  sealEnvelope key iv (utf8_encode plaintext).
Definition decryptEntry (key : MeshKey) (envelope : list Z) : result string :=
  plaintext ← openEnvelope key envelope; Ok (utf8_decode plaintext).
Definition encryptBytes (key : MeshKey) (iv plaintext : list Z) : result (list Z) := sealEnvelope key iv plaintext.
Definition decryptBytes (key : MeshKey) (envelope : list Z) : result (list Z) := openEnvelope key envelope.
Definition verifyKey (key : MeshKey) (sampleEncrypted : list Z) : bool :=
  match decryptEntry key sampleEncrypted with Ok _ => true | Throw _ => false end.
End encryption.

(** ** Theory *)

(** Collecting keeps every byte, and refuses exactly what exceeds the limit. *)
Lemma collect_all total out chunks : collect None total out chunks = Ok (out ++ concat chunks).
Proof.
  revert total out. induction chunks as [|c chunks IH]; intros total out; simpl; [by rewrite app_nil_r|].
  by rewrite IH, <- app_assoc.
Qed.
Lemma collect_limit l total out chunks : (total ≤ l)%Z →
  collect (Some l) total out chunks =
    if (total + Z.of_nat (length (concat chunks)) <=? l)%Z then Ok (out ++ concat chunks)
    else Throw (JsError "Compressed payload inflates past the limit").
Proof.
  revert total out. induction chunks as [|c chunks IH]; intros total out Hl; cbn [concat collect from_option].
  { rewrite app_nil_r. by rewrite (proj2 (Z.leb_le _ _)) by (simpl; lia). }
  rewrite length_app, Nat2Z.inj_add. destruct (Z.ltb_spec l (total + Z.of_nat (length c))).
  - destruct (Z.leb_spec (total + (Z.of_nat (length c) + Z.of_nat (length (concat chunks)))) l); [lia|done].
  - rewrite IH by done. by rewrite <- app_assoc, Z.add_assoc.
Qed.

Section theory.
Context `{WebCrypto}.

Lemma deflateRaw_run p : deflateRaw p = Ok (concat (deflate p)).
Proof. unfold deflateRaw. by rewrite collect_all. Qed.
Lemma inflateRaw_deflate p : (Z.of_nat (length p) ≤ MAX_INFLATED_BYTES)%Z →
  inflateRaw (concat (deflate p)) = Ok p.
Proof.
  intros Hp. unfold inflateRaw, mbind, result_bind. destruct (inflate_deflate p) as (chunks & -> & Hc).
  rewrite collect_limit, Hc by done. by rewrite (proj2 (Z.leb_le _ _)) by lia.
Qed.
Lemma inflateRaw_bounded c p : inflateRaw c = Ok p → (Z.of_nat (length p) ≤ MAX_INFLATED_BYTES)%Z.
Proof.
  unfold inflateRaw, mbind, result_bind. destruct (inflate c) as [chunks|]; [|done].
  rewrite collect_limit, Z.add_0_l by done.
  destruct (Z.leb_spec (Z.of_nat (length (concat chunks))) MAX_INFLATED_BYTES); [|done]. by intros [= <-].
Qed.

(** What an envelope says: a format, an initialisation vector and the sealed body. *)
Lemma sealed_envelope key iv p : ∃ format body,
  sealEnvelope key iv p = Ok (format :: iv ++ gcm_encrypt (ck_raw key) iv [format] body) ∧
  (length body ≤ length p)%nat ∧
  ((format = PLAIN_FORMAT ∧ body = p) ∨ (format = DEFLATE_FORMAT ∧ inflateRaw body = Ok p)).
Proof.
  unfold sealEnvelope. destruct (Z.leb_spec (Z.of_nat (length p)) MAX_INFLATED_BYTES).
  - unfold mbind, result_bind. rewrite deflateRaw_run.
    destruct (Nat.ltb_spec (length (concat (deflate p))) (length p)).
    + eexists _, _. split; [done|]. split; [lia|]. right. split; [done|]. by apply inflateRaw_deflate.
    + eexists _, _. split; [done|]. split; [lia|]. by left.
  - eexists _, _. split; [done|]. split; [lia|]. by left.
Qed.

(** Opening an envelope of a binary format. *)
Lemma open_binary key format iv c : length iv = IV_LENGTH →
  format = PLAIN_FORMAT ∨ format = DEFLATE_FORMAT →
  openEnvelope key (format :: iv ++ c) =
    if (length c <? 16)%nat then Throw (JsError "Envelope is truncated")
    else plaintext ← gcm_decrypt (ck_raw key) iv [format] c;
         if (format =? DEFLATE_FORMAT)%Z then inflateRaw plaintext else Ok plaintext.
Proof.
  intros Hiv Hf. unfold openEnvelope.
  assert (isJsonEnvelope format = false ∧ negb (format =? PLAIN_FORMAT)%Z && negb (format =? DEFLATE_FORMAT)%Z = false)
    as [-> ->] by (by destruct Hf as [-> | ->]).
  rewrite take_app_length', drop_app_length' by done. cbn [length]. rewrite length_app, Hiv.
  unfold MIN_ENVELOPE_LENGTH, IV_LENGTH. by destruct (Nat.ltb_spec (S (12 + length c)) (1 + 12 + 16)),
    (Nat.ltb_spec (length c) 16); try lia.
Qed.

(** An envelope opens to what was sealed in it. *)
Lemma envelope_opens (key : MeshKey) (iv plaintext : list Z) :
  length iv = IV_LENGTH →
  ∃ envelope, encryptBytes key iv plaintext = Ok envelope ∧ decryptBytes key envelope = Ok plaintext ∧
    (length envelope ≤ length plaintext + MIN_ENVELOPE_LENGTH)%nat.
Proof.
  intros Hiv. unfold encryptBytes, decryptBytes.
  destruct (sealed_envelope key iv plaintext) as (format & body & -> & Hl & Hf).
  eexists. split; [done|]. split.
  - rewrite open_binary, gcm_length by (done || by destruct Hf as [[-> _]|[-> _]]; [left|right]).
    destruct (Nat.ltb_spec (length body + 16) 16); [lia|]. unfold mbind, result_bind. rewrite gcm_roundtrip.
    by destruct Hf as [[-> ->]|[-> Hf]].
  - cbn [length]. rewrite length_app, gcm_length, Hiv. unfold MIN_ENVELOPE_LENGTH, IV_LENGTH. lia.
Qed.

Lemma trim_end_none s : str_forall (λ c, negb (is_space c)) s = true → trim_end s = s.
Proof.
  induction s as [|c s IH]; [done|]. cbn [str_forall trim_end]. intros [Hc Hs]%andb_true_iff.
  rewrite IH by done. destruct s; [|done]. by apply negb_true_iff in Hc as ->.
Qed.
Lemma trim_none s : str_forall (λ c, negb (is_space c)) s = true → trim s = s.
Proof.
  intros Hs. unfold trim. assert (trim_start s = s) as ->.
  { destruct s as [|c s]; [done|]. simpl in *. apply andb_true_iff in Hs as [Hc _].
    by apply negb_true_iff in Hc as ->. }
  by apply trim_end_none.
Qed.
Lemma base58_nonempty raw : octets raw → length raw = KEY_BYTES → truthy (base58Encode raw) = true.
Proof.
  intros Ho Hl. unfold truthy. destruct (String.eqb_spec (base58Encode raw) "") as [E|]; [|done].
  pose proof (base58_roundtrip raw Ho Hl) as Hd. rewrite E in Hd. vm_compute in Hd. injection Hd as <-.
  by vm_compute in E.
Qed.
(** A fresh key and its portable form stand for each other. *)
Lemma minted_key raw : octets raw → length raw = KEY_BYTES →
  generateMeshKeyMaterial raw = Ok (mkMeshKey raw false true, base58Encode raw) ∧
  passphraseToKey (base58Encode raw) false = Ok (mkMeshKey raw false true).
Proof.
  intros Ho Hl. assert (importKeyRaw raw false = Ok (mkMeshKey raw false true)) as Hi.
  { unfold importKeyRaw. rewrite Hl. by rewrite bool_decide_true by (simpl; set_solver). }
  split; [unfold generateMeshKeyMaterial; by rewrite Hi|].
  unfold passphraseToKey. rewrite trim_none by apply base58_no_space. rewrite base58_nonempty by done. simpl.
  unfold mbind, result_bind. rewrite base58_roundtrip by done. by rewrite String.eqb_refl.
Qed.
End theory.

(** ** Properties *)

(** An envelope opens to what was sealed.  Whatever the plaintext (compressible or not,
    empty, or larger than the inflation limit), sealing succeeds, opening with the same key
    returns it, and the envelope is at most 29 bytes longer. *)
Theorem envelope_roundtrip `{WebCrypto} (key : MeshKey) (iv plaintext : list Z) :
  length iv = IV_LENGTH →
  ∃ envelope, encryptBytes key iv plaintext = Ok envelope ∧ decryptBytes key envelope = Ok plaintext ∧
    (length envelope ≤ length plaintext + MIN_ENVELOPE_LENGTH)%nat.
Proof. apply envelope_opens. Qed.

(** Only what was sealed opens.  An envelope of a binary format that opens under a
    key is, byte for byte, its format, an initialisation vector and the encryption under that key, with the
    format authenticated, of the plaintext or of a compressed form that inflates to it; and a
    compressed envelope never yields more than the inflation limit. *)
Theorem opened_envelope_was_sealed `{WebCrypto} (key : MeshKey) (format : Z) (rest plaintext : list Z) :
  isJsonEnvelope format = false → decryptBytes key (format :: rest) = Ok plaintext →
  ∃ iv body, rest = iv ++ gcm_encrypt (ck_raw key) iv [format] body ∧ length iv = IV_LENGTH ∧
    ((format = PLAIN_FORMAT ∧ body = plaintext) ∨
     (format = DEFLATE_FORMAT ∧ inflateRaw body = Ok plaintext ∧
      (Z.of_nat (length plaintext) ≤ MAX_INFLATED_BYTES)%Z)).
Proof.
  intros Hj. unfold decryptBytes, openEnvelope. rewrite Hj.
  destruct (negb (format =? PLAIN_FORMAT)%Z && negb (format =? DEFLATE_FORMAT)%Z) eqn:Ef; [done|].
  destruct (Nat.ltb_spec (length (format :: rest)) MIN_ENVELOPE_LENGTH) as [|Hlen]; [done|].
  unfold mbind, result_bind. destruct (gcm_decrypt _ _ _ _) as [body|] eqn:Ed; [|done].
  apply gcm_authentic in Ed. intros E. exists (take IV_LENGTH rest), body.
  split; [by rewrite <- Ed, take_drop|]. split.
  { rewrite length_take. unfold MIN_ENVELOPE_LENGTH in Hlen. simpl in Hlen. unfold IV_LENGTH in *. lia. }
  destruct (Z.eqb_spec format DEFLATE_FORMAT) as [->|Hd].
  - right. split_and!; [done..|]. by eapply inflateRaw_bounded.
  - left. injection E as ->. split; [|done].
    destruct (Z.eqb_spec format PLAIN_FORMAT); [done|]. by destruct (Z.eqb_spec format DEFLATE_FORMAT).
Qed.

(** Only a key's own text is a key.  [passphraseToKey] accepts a text exactly when,
    without surrounding white space, it is the base58 form of 32 bytes, and then the key has those
    bytes: short or long texts, mistyped characters and padded forms are refused. *)
Theorem portable_key_is_canonical (passphrase : string) (extractable : bool) (key : MeshKey) :
  passphraseToKey passphrase extractable = Ok key ↔
  ∃ raw, octets raw ∧ length raw = KEY_BYTES ∧ trim passphrase = base58Encode raw ∧
         key = mkMeshKey raw extractable true.
Proof.
  unfold passphraseToKey, mbind, result_bind. split.
  - destruct (negb (truthy (trim passphrase))); [done|].
    destruct (base58Decode (trim passphrase)) as [raw|] eqn:E; [|done].
    apply base58_decode_key in E as [Ho Hl].
    destruct (String.eqb_spec (base58Encode raw) (trim passphrase)) as [Eb|]; [|done]. simpl.
    unfold importKeyRaw. case_bool_decide; [|done]. intros [= <-]. by exists raw.
  - intros (raw & Ho & Hl & -> & ->). rewrite base58_nonempty by done. simpl.
    rewrite base58_roundtrip, String.eqb_refl by done. simpl. unfold importKeyRaw. rewrite Hl.
    by rewrite bool_decide_true by (simpl; set_solver).
Qed.

(** ** Witnesses *)
(** A toy cipher: the plaintext, then a tag made of the additional data, the key and the vector; a toy
    codec that only compresses zeros. *)
Definition toy_tag (k iv aad : list Z) : list Z := take 16 (aad ++ k ++ iv ++ replicate 16 0%Z).
Definition toy_decrypt (k iv aad c : list Z) : result (list Z) :=
  let n := (length c - 16)%nat in
  if bool_decide (c = take n c ++ toy_tag k iv aad) then Ok (take n c)
  else Throw (JsError "OperationError").
Definition toy_deflate (p : list Z) : list (list Z) :=
  if bool_decide (p = replicate (length p) 0%Z) then [[1]; [Z.of_nat (length p)]]%Z else [0%Z :: p].
Definition toy_inflate (c : list Z) : result (list (list Z)) :=
  match c with
  | [1; n]%Z => Ok [replicate (Z.to_nat n) 0%Z]
  | 0%Z :: p => Ok [p]
  | _ => Throw (JsError "invalid stream")
  end.
Fixpoint char_codes (s : string) : list Z :=
  match s with EmptyString => [] | String c s => char_code c :: char_codes s end.
Definition from_codes (l : list Z) : string :=
  foldr (λ z s, String (ascii_of_nat (Z.to_nat z)) s) "" l.

Lemma toy_tag_length k iv aad : length (toy_tag k iv aad) = 16%nat.
Proof. unfold toy_tag. rewrite length_take, !length_app, length_replicate. lia. Qed.
Definition toy_sign (k m : list Z) : list Z := take 32 (take 16 m ++ take 16 k ++ replicate 32 0%Z).
Lemma toy_sign_length k m : length (toy_sign k m) = 32%nat.
Proof. unfold toy_sign. rewrite length_take, !length_app, length_replicate. lia. Qed.
(** *** A text form of every value, by way of a countable tree *)
#[local] Program Instance jsnum_countable : Countable jsnum :=
  inj_countable' (λ n, match n with NaN => None | Num z => Some z end)
    (λ o, match o with None => NaN | Some z => Num z end) _.
Next Obligation. by intros []. Qed.
Definition toy_leaf : Type := unit + bool + jsnum + string.
Fixpoint to_tree (v : jsval) : gen_tree toy_leaf :=
  match v with
  | VUndefined => GenNode 0 []
  | VNull => GenNode 1 []
  | VBool b => GenNode 2 [GenLeaf (inl (inl (inr b)))]
  | VNum n => GenNode 3 [GenLeaf (inl (inr n))]
  | VStr s => GenNode 4 [GenLeaf (inr s)]
  | VDate t => GenNode 5 [GenLeaf (inl (inr t))]
  | VArr l => GenNode 6 ((fix go (l : list jsval) := match l with [] => [] | x :: l => to_tree x :: go l end) l)
  | VObj fs => GenNode 7 ((fix go (l : list (string * jsval)) :=
      match l with [] => [] | (k, x) :: l => GenNode 8 [GenLeaf (inr k); to_tree x] :: go l end) fs)
  end.
Fixpoint of_tree (t : gen_tree toy_leaf) : jsval :=
  match t with
  | GenNode 1 _ => VNull
  | GenNode 2 [GenLeaf (inl (inl (inr b)))] => VBool b
  | GenNode 3 [GenLeaf (inl (inr n))] => VNum n
  | GenNode 4 [GenLeaf (inr s)] => VStr s
  | GenNode 5 [GenLeaf (inl (inr t))] => VDate t
  | GenNode 6 l => VArr ((fix go (l : list (gen_tree toy_leaf)) :=
      match l with [] => [] | t :: l => of_tree t :: go l end) l)
  | GenNode 7 l => VObj ((fix go (l : list (gen_tree toy_leaf)) :=
      match l with
      | GenNode 8 [GenLeaf (inr k); t] :: l => (k, of_tree t) :: go l
      | _ => []
      end) l)
  | _ => VUndefined
  end.
Lemma of_to_tree v : of_tree (to_tree v) = v.
Proof.
  induction v as [| |b|n|s|t|l IH|fs IH] using jsval_nested_ind; try done; simpl; f_equal.
  - induction IH as [|x l Hx _ IHl]; [done|]. by rewrite Hx, IHl.
  - induction IH as [|[k x] l Hx _ IHl]; [done|]. simpl in *. by rewrite Hx, IHl.
Qed.
Fixpoint bits (p : positive) : string :=
  match p with xI p => String "1" (bits p) | xO p => String "0" (bits p) | xH => "" end.
Fixpoint of_bits (s : string) : positive :=
  match s with
  | String c s => if Ascii.eqb c "1" then xI (of_bits s) else xO (of_bits s)
  | EmptyString => xH
  end.
Lemma of_bits_bits p : of_bits (bits p) = p.
Proof. induction p; simpl; congruence. Qed.
Definition toy_stringify (v : jsval) : string := bits (encode (to_tree v)).
Definition toy_parse (s : string) : result jsval :=
  match decode (of_bits s) with Some t => Ok (of_tree t) | None => Throw (JsError "SyntaxError") end.

#[local] Program Instance toy_crypto : WebCrypto := {
  gcm_encrypt k iv aad p := p ++ toy_tag k iv aad; gcm_decrypt := toy_decrypt;
  deflate := toy_deflate; inflate := toy_inflate; utf8_encode := char_codes; utf8_decode := from_codes;
  json_parse := toy_parse; json_stringify := toy_stringify;
  hkdf_key base info := base ++ info;
  hmac_sign := toy_sign; sha256 m := m }.
Next Obligation.
  intros k iv aad p. unfold toy_decrypt. rewrite length_app, toy_tag_length, Nat.add_sub, take_app_length.
  by rewrite bool_decide_true.
Qed.
Next Obligation. intros k iv aad c p. unfold toy_decrypt. case_bool_decide as E; [|done]. by intros [= <-]. Qed.
Next Obligation. intros k iv aad p. simpl. by rewrite length_app, toy_tag_length. Qed.
Next Obligation. intros k m. exact (toy_sign_length k m). Qed.
Next Obligation.
  intros p. unfold toy_deflate. case_bool_decide as E; simpl.
  - eexists. split; [done|]. simpl. by rewrite Nat2Z.id, app_nil_r.
  - eexists. split; [done|]. simpl. by rewrite !app_nil_r.
Qed.
Next Obligation.
  induction s as [|c s IH]; [done|]. simpl. unfold char_code.
  rewrite Nat2Z.id, ascii_nat_embedding. f_equal. exact IH.
Qed.
Next Obligation.
  intros v _. unfold toy_parse, toy_stringify. by rewrite of_bits_bits, decode_encode, of_to_tree.
Qed.

Definition toy_key : MeshKey := mkMeshKey (replicate 32 7%Z) false true.
Definition toy_iv : list Z := replicate 12 9%Z.
Lemma envelope_roundtrip_witness :
  ∃ envelope, encryptBytes toy_key toy_iv (replicate 40 0%Z) = Ok envelope ∧
    decryptBytes toy_key envelope = Ok (replicate 40 0%Z) ∧ (length envelope ≤ 69)%nat.
Proof. exact (envelope_roundtrip toy_key toy_iv (replicate 40 0%Z) eq_refl). Defined.

Definition toy_envelope : list Z := 3%Z :: toy_iv ++ [1; 40]%Z ++ toy_tag (ck_raw toy_key) toy_iv [3%Z].
Lemma opened_envelope_was_sealed_witness :
  ∃ body, inflateRaw body = Ok (replicate 40 0%Z).
Proof.
  destruct (opened_envelope_was_sealed toy_key 3 (tail toy_envelope) (replicate 40 0%Z)
    eq_refl (ltac:(by vm_compute))) as (iv & body & _ & _ & [[E _]|(_ & Hb & _)]);
    [discriminate E|]. exists body. exact Hb.
Defined.
(** The portable form of a key is accepted, and a chosen password is not. *)
Example portable_key_example :
  passphraseToKey (" " +:+ base58Encode (replicate 32 7%Z) +:+ " ") false = Ok toy_key ∧
  is_ok (passphraseToKey "hunter2" false) = false.
Proof. by split; vm_compute. Qed.
