(* ===== verification/StoredFile.v ===== *)
(** * Stored files
    ([packages/core/src/core/stored-file.ts], [packages/core/src/core/file-ref.ts])

    The stored form of a durable file: a frame of a JSON header and a body, sealed under
    the mesh key, at a name that hides the application path. *)

From S2P Require Import Prelude JsString Values Octets Encryption.
From Stdlib Require Import Ascii.
From Stdlib Require String.

Open Scope stdpp_scope.

(** ** Paths *)

(** [s.split(c)] for a one-character separator. *)
Fixpoint split_char (c : ascii) (s : string) : list string :=
  match s with
  | EmptyString => [""]
  | String x s =>
      if Ascii.eqb x c then "" :: split_char c s
      else match split_char c s with
           | [] => [String x ""]
           | p :: parts => String x p :: parts
           end
  end.
Definition cleanFilePath (path : string) : result string :=
  let clean := join "/" (List.filter truthy (split_char "/" path)) in
  if truthy clean then Ok clean else Throw (JsError "Stored object path must not be empty").

(** ** Headers and frames

    The header as read is whatever the stored JSON says; an absent field is [undefined]. *)
Record StoredFileHeader := mkFileHeader {
  sh_size : jsval; sh_digest : jsval; sh_contentType : jsval; sh_taint : jsval }.
Definition FRAME_VERSION : Z := 1.

Definition defined_field (k : string) (v : jsval) : list (string * jsval) :=
  match v with VUndefined => [] | _ => [(k, v)] end.
Definition frame_header (h : StoredFileHeader) : jsval :=
  VObj (("v", VNum (Num FRAME_VERSION)) :: defined_field "size" (sh_size h) ++ defined_field "digest" (sh_digest h) ++
        defined_field "contentType" (sh_contentType h) ++ defined_field "taint" (sh_taint h)).

(** [setUint32] and [getUint32], big-endian. *)
Definition uint32_bytes (n : Z) : list Z := (be_split 4 (n mod 2 ^ 32) []).1.

(** [b.toString(16).padStart(2, "0")], joined. *)
Definition hex_bytes (bytes : list Z) : string :=
  foldr (λ b s, padStart (num_toString 16 (Num b)) 2 "0" +:+ s) "" bytes.

Section stored_file.
Context `{WebCrypto}.

Definition encodeStoredFrame (header : StoredFileHeader) (body : list Z) : list Z :=
  let headerBytes := utf8_encode (json_stringify (frame_header header)) in
  uint32_bytes (Z.of_nat (length headerBytes)) ++ headerBytes ++ body.

Definition decodeStoredFrame (frame : list Z) : result (StoredFileHeader * list Z) :=
  if (length frame <? 4)%nat then Throw (JsError "Stored file frame is truncated")
  else
    let headerLength := be_value (take 4 frame) in
    if (Z.of_nat (length frame) <? 4 + headerLength)%Z
    then Throw (JsError "Stored file frame is truncated")
    else
      let rest := drop 4 frame in
      let n := Z.to_nat headerLength in
      parsed ← json_parse (utf8_decode (take n rest));
      match parsed with
      | VNull | VUndefined => Throw (JsError "TypeError")
      | _ =>
          match field "v" parsed with
          | VNum (Num 1) =>
              Ok (mkFileHeader (field "size" parsed) (field "digest" parsed)
                    (field "contentType" parsed) (field "taint" parsed), drop n rest)
          | _ => Throw (JsError "Unknown stored file frame version")
          end
      end.

Definition sealStoredFrame (meshKey : option MeshKey) (iv frame : list Z) : result (list Z) :=
  match meshKey with Some k => encryptBytes k iv frame | None => Ok frame end.
Definition openStoredFrame (meshKey : option MeshKey) (stored : list Z) : result (list Z) :=
  match meshKey with Some k => decryptBytes k stored | None => Ok stored end.

(** ** Names and guards *)
Definition PATH_INFO : list Z := utf8_encode "interocitor/durable-file-path/v1".
Definition GUARD_INFO : list Z := utf8_encode "interocitor/durable-file-guard/v1".
Definition deriveHmacKey (secret : MeshKey) (info : list Z) : result (list Z) :=
  base ← meshKeyDerivationBase secret; Ok (hkdf_key base info).
Definition deriveFilePathKey (meshKey : MeshKey) : result (list Z) := deriveHmacKey meshKey PATH_INFO.
Definition hmacHex (key : list Z) (text : string) : string := hex_bytes (hmac_sign key (utf8_encode text)).
Definition deriveFileGuard (sealKey : MeshKey) (objectName : string) : result string :=
  key ← deriveHmacKey sealKey GUARD_INFO; Ok (hmacHex key objectName).
Definition hideFilePath (pathKey : list Z) (path : string) : result string :=
  clean ← cleanFilePath path; Ok (hmacHex pathKey clean).
Definition sha256Hex (bytes : list Z) : string := hex_bytes (sha256 bytes).
End stored_file.

(** ** References ([file-ref.ts]) *)
Record FileRef := mkFileRef {
  fr_path : string; fr_digest : string; fr_size : jsval; fr_contentType : option string; fr_taint : option string }.
Inductive FileTarget := AtPath (path : string) | AtRef (ref : FileRef).
Definition fileTargetPath (t : FileTarget) : string :=
  match t with AtPath p => p | AtRef r => fr_path r end.
Definition expectedFileDigest (t : FileTarget) : option string :=
  match t with AtPath _ => None | AtRef r => Some (fr_digest r) end.

(** ** Theory *)
Lemma split_no_sep c s : Forall (λ p, free_of c p = true) (split_char c s).
Proof.
  induction s as [|x s IH]; simpl; [by repeat constructor|].
  destruct (Ascii.eqb x c) eqn:E; [by constructor|].
  destruct IH as [|p parts Hp IH]; constructor; try done; rewrite free_of_cons, E; [done|exact Hp].
Qed.
Lemma split_free c s : free_of c s = true → split_char c s = [s].
Proof.
  induction s as [|x s IH]; [done|]. rewrite free_of_cons. intros [Hx Hs]%andb_true_iff. simpl.
  apply negb_true_iff in Hx as ->. by rewrite IH.
Qed.
Lemma split_app c a b : free_of c a = true → split_char c (a +:+ String c b) = a :: split_char c b.
Proof.
  induction a as [|x a IH].
  - intros _. rewrite str_app_nil_l. simpl. by rewrite Ascii.eqb_refl.
  - rewrite free_of_cons. intros [Hx Ha]%andb_true_iff. rewrite str_app_cons. simpl.
    apply negb_true_iff in Hx as ->. by rewrite IH.
Qed.
Lemma split_join c parts : parts ≠ [] → Forall (λ p, free_of c p = true) parts →
  split_char c (join (String c "") parts) = parts.
Proof.
  intros Hne. induction 1 as [|p parts Hp Hparts IH]; [done|]. destruct parts as [|q parts].
  - by apply split_free.
  - rewrite join_cons2. change (String c "" +:+ ?s) with (String c s). rewrite split_app by done.
    by rewrite IH.
Qed.
Lemma split_cons c s : ∃ p parts, split_char c s = p :: parts.
Proof.
  induction s as [|x s (p & parts & E)]; simpl; [by eexists _, _|].
  destruct (Ascii.eqb x c); [by eexists _, _|]. rewrite E. by eexists _, _.
Qed.
Lemma join_split c s : join (String c "") (split_char c s) = s.
Proof.
  induction s as [|x s IH]; [done|]. cbn [split_char]. destruct (split_cons c s) as (p & parts & E). rewrite E in *.
  destruct (Ascii.eqb_spec x c) as [->|].
  - by rewrite join_cons2, IH.
  - destruct parts as [|q parts]; [by rewrite <- IH|]. rewrite join_cons2 in IH |- *. by rewrite <- IH, str_app_cons.
Qed.
Lemma filter_idempotent {A} (P : A → bool) l : List.filter P (List.filter P l) = List.filter P l.
Proof. induction l as [|x l IH]; simpl; [done|]. destruct (P x) eqn:E; simpl; [by rewrite E, IH|done]. Qed.

(** A clean path: its segments, none of them empty. *)
Lemma clean_segments path clean : cleanFilePath path = Ok clean →
  split_char "/" clean = List.filter truthy (split_char "/" path) ∧
  Forall (λ p, truthy p = true) (split_char "/" clean) ∧ truthy clean = true.
Proof.
  unfold cleanFilePath. destruct (truthy (join _ _)) eqn:Et; [|done]. intros [= <-].
  assert (split_char "/" (join "/" (List.filter truthy (split_char "/" path))) =
    List.filter truthy (split_char "/" path)) as E.
  { apply split_join; [by intros E; rewrite E in Et|].
    pose proof (split_no_sep "/" path) as Hs. rewrite list.Forall_forall in Hs |- *.
    intros p Hp%list_elem_of_In. apply filter_In in Hp as [Hp _]. by apply Hs, list_elem_of_In. }
  rewrite E. split; [done|]. split; [|done].
  apply list.Forall_forall. intros p Hp%list_elem_of_In. by apply filter_In in Hp as [_ Hp].
Qed.
Lemma clean_idempotent path clean : cleanFilePath path = Ok clean → cleanFilePath clean = Ok clean.
Proof.
  intros Hc. apply clean_segments in Hc as (E & _ & Ht). unfold cleanFilePath in *.
  rewrite E, filter_idempotent, <- E.
  by rewrite (join_split "/"), Ht.
Qed.

Lemma guard_truthy `{WebCrypto} key name g : deriveFileGuard key name = Ok g → truthy g = true.
Proof.
  unfold deriveFileGuard, mbind, result_bind. destruct (deriveHmacKey key GUARD_INFO) as [k|]; [|done].
  intros [= <-]. unfold hmacHex. pose proof (hmac_length k (utf8_encode name)) as Hl.
  destruct (hmac_sign k (utf8_encode name)) as [|b l]; [done|].
  destruct (padStart (num_toString 16 (Num b)) 2 "0" +:+ hex_bytes l) eqn:E.
  - apply (f_equal String.length) in E. rewrite str_length_app in E.
    pose proof (padStart_length (num_toString 16 (Num b)) 2 "0"). cbn [String.length] in E. lia.
  - change (hex_bytes (b :: l)) with (padStart (num_toString 16 (Num b)) 2 "0" +:+ hex_bytes l). by rewrite E.
Qed.

(** A frame gives its header and its body back. *)
Definition header_ok (h : StoredFileHeader) : bool :=
  forallb (λ v, match v with VUndefined => true | _ => json_value v end)
    [sh_size h; sh_digest h; sh_contentType h; sh_taint h].
Lemma uint32_value n : (0 ≤ n < 2 ^ 32)%Z → be_value (uint32_bytes n) = n ∧ length (uint32_bytes n) = 4%nat.
Proof.
  intros Hn. unfold uint32_bytes. rewrite Z.mod_small by done.
  destruct (be_split_spec 4 n [] ltac:(lia)) as (l & -> & _ & Hl & Hv). rewrite app_nil_r. simpl.
  split; [|done]. rewrite Z.shiftr_div_pow2 in Hv by lia. rewrite Z.div_small in Hv by lia. lia.
Qed.
Lemma field_skip k k' v rest : k ≠ k' → assoc k (defined_field k' v ++ rest) = assoc k rest.
Proof. intros Hk. destruct v; simpl; by rewrite ?(proj2 (String.eqb_neq k k')). Qed.
Lemma field_hit k v rest : assoc k rest = None → default VUndefined (assoc k (defined_field k v ++ rest)) = v.
Proof. intros Hr. destruct v; simpl; by rewrite ?String.eqb_refl, ?Hr. Qed.
Lemma frame_fields k s d c t : field k (frame_header (mkFileHeader s d c t)) =
  if String.eqb k "v" then VNum (Num FRAME_VERSION)
  else if String.eqb k "size" then s else if String.eqb k "digest" then d
  else if String.eqb k "contentType" then c else if String.eqb k "taint" then t else VUndefined.
Proof.
  unfold field, frame_header. cbn [sh_size sh_digest sh_contentType sh_taint assoc].
  rewrite <- (app_nil_r (defined_field "taint" t)).
  repeat (match goal with |- context [String.eqb k ?x] => destruct (String.eqb_spec k x) as [->|] end);
    try done; repeat first [rewrite field_skip by done]; try done;
    rewrite field_hit; try done; by rewrite !field_skip by done.
Qed.
Lemma frame_roundtrip `{WebCrypto} h body : header_ok h = true →
  (Z.of_nat (length (utf8_encode (json_stringify (frame_header h)))) < 2 ^ 32)%Z →
  decodeStoredFrame (encodeStoredFrame h body) = Ok (h, body).
Proof.
  intros Hok Hlen. unfold decodeStoredFrame, encodeStoredFrame.
  set (hb := utf8_encode (json_stringify (frame_header h))) in *.
  destruct (uint32_value (Z.of_nat (length hb)) ltac:(lia)) as [Hv Hl].
  rewrite !length_app, Hl. destruct (Nat.ltb_spec (4 + (length hb + length body)) 4); [lia|].
  rewrite take_app_length', drop_app_length', Hv by done.
  destruct (Z.ltb_spec (Z.of_nat (4 + (length hb + length body))) (4 + Z.of_nat (length hb))); [lia|].
  rewrite Nat2Z.id, take_app_length, drop_app_length. unfold mbind, result_bind, hb.
  rewrite utf8_roundtrip, json_roundtrip.
  - destruct h as [s d c t]. by rewrite (frame_fields "size" s d c t), (frame_fields "digest" s d c t),
      (frame_fields "contentType" s d c t), (frame_fields "taint" s d c t).
  - unfold header_ok in Hok. unfold frame_header. clear -Hok. destruct h as [s d c t]. cbn in *.
    rewrite !andb_true_iff in Hok. destruct Hok as (Hs & Hd & Hc & Ht & _).
    assert (∀ l1 l2, json_value (VObj l1) = true → json_value (VObj l2) = true →
      json_value (VObj (l1 ++ l2)) = true) as Happ.
    { induction l1 as [|[k v] l1 IH]; [done|]. simpl. intros l2 [-> H1]%andb_true_iff H2. by apply IH. }
    assert (∀ k v, match v with VUndefined => true | _ => json_value v end = true →
      json_value (VObj (defined_field k v)) = true) as Hf.
    { intros k v Hv. destruct v; try done; simpl in *; by rewrite ?Hv. }
    change (json_value (VObj (defined_field "size" s ++ defined_field "digest" d ++
      defined_field "contentType" c ++ defined_field "taint" t)) = true).
    repeat apply Happ; by apply Hf.
Qed.
