(* ===== verification/Ids.v ===== *)
(** * Identifiers
    ([packages/core/src/core/ids.ts], [packages/core/src/core/row-id.ts])

    The clock and the random bytes are arguments. *)

From S2P Require Import Prelude JsString Values Octets Encryption StoredFile.
From Stdlib Require Import Ascii.
From Stdlib Require String.

Open Scope stdpp_scope.

(** ** UUIDv7: 48 bits of milliseconds, then [rand], ten random bytes, with the version and the
    variant set in bytes 6 and 8 of the whole. *)
Definition with_version (b : Z) : Z := Z.lor (Z.land b 15) 112.
Definition with_variant (b : Z) : Z := Z.lor (Z.land b 63) 128.
Definition uuid_bytes (now : Z) (rand : list Z) : list Z :=
  alter with_variant 8 (alter with_version 6 ((be_split 6 now []).1 ++ rand)).
Definition uuidv7 (now : Z) (rand : list Z) : string :=
  let hex := hex_bytes (uuid_bytes now rand) in
  join "-" [slice hex 0 8; slice hex 8 12; slice hex 12 16; slice hex 16 20; slice hex 20 32].
Definition createDeviceId : Z → list Z → string := uuidv7.

(** [UUID_RE]: the text in five groups, the third led by the version, the fourth by the variant;
    letters of both cases. *)
Definition is_hex (c : ascii) : bool :=
  let n := char_code c in
  ((48 <=? n) && (n <=? 57) || (97 <=? n) && (n <=? 102) || (65 <=? n) && (n <=? 70))%Z.
Definition hex_group (n : nat) (s : string) : bool := (String.length s =? n)%nat && str_forall is_hex s.
Definition led_by (letters : list ascii) (s : string) : bool :=
  match s with String c _ => bool_decide (c ∈ letters) | EmptyString => false end.
Definition UUID_RE (s : string) : bool :=
  match split_char "-" s with
  | [a; b; c; d; e] =>
      hex_group 8 a && hex_group 4 b && hex_group 4 c && hex_group 4 d && hex_group 12 e &&
      led_by ["7"%char] c && led_by ["8"%char; "9"%char; "a"%char; "b"%char; "A"%char; "B"%char] d
  | _ => false
  end.
Definition isValidDeviceId (id : jsval) : bool :=
  match id with VStr s => UUID_RE s | _ => false end.

Section mesh_ids.
Context `{WebCrypto}.

(** The tag: eight bytes of the signature. *)
Definition computeTag (data : string) (secret : list Z) : string :=
  bytesToBase64Url (take 8 (hmac_sign secret (utf8_encode data))).
Definition issueMeshId (secret : list Z) (now : Z) (rand : list Z) : string :=
  let id := uuidv7 now rand in id +:+ "." +:+ computeTag id secret.
(** Equal lengths, and no difference in any place. *)
Fixpoint differences (a b : string) : Z :=
  match a, b with
  | String x a, String y b => Z.lor (Z.lxor (char_code x) (char_code y)) (differences a b)
  | _, _ => 0
  end.
Definition timingSafeEqual (a b : string) : bool :=
  (String.length a =? String.length b)%nat && (differences a b =? 0)%Z.
Definition parseMeshId (id : string) : option (string * string) :=
  let dot := lastIndexOf id "." in
  if (dot =? -1)%Z then None
  else
    let uuid := slice id 0 dot in
    let tag := slice_from id (dot + 1) in
    if negb (UUID_RE uuid) || negb (truthy tag) then None else Some (uuid, tag).
Definition isValidMeshId (id : jsval) (secret : list Z) : bool :=
  match id with
  | VStr id =>
      let dot := lastIndexOf id "." in
      if (dot =? -1)%Z then false
      else
        let uuid := slice id 0 dot in
        let tag := slice_from id (dot + 1) in
        if negb (UUID_RE uuid) || negb (truthy tag) then false
        else timingSafeEqual tag (computeTag uuid secret)
  | _ => false
  end.
End mesh_ids.

(** ** Row ids ([row-id.ts]): [randomUUID] when the platform has it, or the random bytes of
    five calls. *)
Definition createRowId (prefix : option string) (randomUUID : option string) (random : list (list Z)) : string :=
  let base := match randomUUID with
              | Some id => id
              | None => join "-" (hex_bytes <$> random)
              end in
  match opt_truthy prefix with Some p => p +:+ "_" +:+ base | None => base end.
(** The lengths of the five calls. *)
Definition row_random_lengths : list nat := [8; 4; 4; 4; 12].

(** ** Theory *)
Lemma be_value_cons b bytes : be_value (b :: bytes) = (b * 256 ^ Z.of_nat (length bytes) + be_value bytes)%Z.
Proof.
  induction bytes as [|c bytes IH] using rev_ind; [unfold be_value; simpl; lia|].
  rewrite app_comm_cons, !be_value_snoc, IH, length_app, Nat2Z.inj_add. simpl (Z.of_nat (length [c])).
  rewrite Z.pow_add_r by lia. lia.
Qed.
Lemma hex_app a b : hex_bytes (a ++ b) = hex_bytes a +:+ hex_bytes b.
Proof. induction a as [|x a IH]; simpl; [done|]. by rewrite IH, str_app_assoc. Qed.
(** The hexadecimal text of octets is their numeral. *)
Lemma hex_numeral bytes : octets bytes → ∃ ds, hex_bytes bytes = dstr ds ∧ digits_ok 16 ds ∧
  dval 16 ds = be_value bytes ∧ length ds = (2 * length bytes)%nat.
Proof.
  induction 1 as [|b bytes Hb _ (ds & E & Hds & Hv & Hl)]; [exists []; split_and!; try done; constructor|]. unfold octet in Hb.
  destruct (padded_numeral 16 2 b ltac:(lia) ltac:(lia) ltac:(lia)) as (d & Ed & Hd & Hdv & Hdl).
  destruct (Z.ltb_spec b (16 ^ Z.of_nat 2)); [|simpl in *; lia].
  exists (d ++ ds). split; [|split; [|split]].
  - change (hex_bytes (b :: bytes)) with (padStart (num_toString 16 (Num b)) 2 "0" +:+ hex_bytes bytes).
    assert (num_toString 16 (Num b) = nat_toString 16 b) as -> by (unfold num_toString; destruct (Z.ltb_spec b 0); [lia|done]).
    by rewrite Ed, E, dstr_app.
  - by apply Forall_app.
  - rewrite dval_app, Hdv, Hv, be_value_cons, Hl by lia. f_equal. f_equal. rewrite Nat2Z.inj_mul, Z.pow_mul_r by lia. done.
  - rewrite length_app, Hdl, Hl. simpl. lia.
Qed.

(** Facts about one octet are checked on all of them. *)
Lemma all_octets (P : Z → bool) : forallb P (Z.of_nat <$> seq 0 256) = true → ∀ b, octet b → P b = true.
Proof.
  rewrite forallb_forall. intros HP b Hb. apply HP, list_elem_of_In, list_elem_of_fmap.
  unfold octet in Hb. exists (Z.to_nat b). split; [lia|]. apply elem_of_seq. lia.
Qed.
Definition hex2 (b : Z) : string := padStart (num_toString 16 (Num b)) 2 "0".
Lemma marked_octet b : octet b →
  octet (with_version b) ∧ led_by ["7"%char] (hex2 (with_version b)) = true ∧
  octet (with_variant b) ∧
  led_by ["8"%char; "9"%char; "a"%char; "b"%char; "A"%char; "B"%char] (hex2 (with_variant b)) = true.
Proof.
  assert (∀ z, (0 <=? z)%Z && (z <? 256)%Z = true → octet z) as Ho by (unfold octet; lia).
  intros Hb. split_and!; [apply Ho|..|apply Ho|].
  - revert b Hb. apply (all_octets (λ b, (0 <=? with_version b)%Z && (with_version b <? 256)%Z)). by vm_compute.
  - revert b Hb. apply (all_octets (λ b, led_by ["7"%char] (hex2 (with_version b)))). by vm_compute.
  - revert b Hb. apply (all_octets (λ b, (0 <=? with_variant b)%Z && (with_variant b <? 256)%Z)). by vm_compute.
  - revert b Hb. apply (all_octets (λ b, led_by _ (hex2 (with_variant b)))). by vm_compute.
Qed.
Lemma hex2_group b : octet b → hex_group 2 (hex2 b) = true.
Proof. apply (all_octets (λ b, hex_group 2 (hex2 b))). by vm_compute. Qed.
Lemma hex_group_app n m a b : hex_group n a = true → hex_group m b = true → hex_group (n + m) (a +:+ b) = true.
Proof.
  unfold hex_group. rewrite !andb_true_iff, !Nat.eqb_eq, str_length_app, str_forall_app.
  intros [-> ->] [-> ->]. done.
Qed.
Lemma hex_group_bytes bytes : octets bytes → hex_group (2 * length bytes) (hex_bytes bytes) = true.
Proof.
  induction 1 as [|b bytes Hb _ IH]; [done|].
  change (hex_bytes (b :: bytes)) with (hex2 b +:+ hex_bytes bytes). cbn [length].
  replace (2 * S (length bytes))%nat with (2 + 2 * length bytes)%nat by lia.
  apply hex_group_app; [by apply hex2_group|done].
Qed.
Lemma hex_group_length n s : hex_group n s = true → String.length s = n.
Proof. unfold hex_group. by intros [?%Nat.eqb_eq _]%andb_true_iff. Qed.
Lemma hex_group_free n s : hex_group n s = true → free_of "-" s = true.
Proof.
  unfold hex_group, free_of. intros [_ Hs]%andb_true_iff. revert Hs. clear. induction s as [|c s IH]; [done|].
  cbn [str_forall]. intros [Hc Hs]%andb_true_iff. rewrite IH by done. destruct (Ascii.eqb_spec c "-"); [by subst|done].
Qed.
Lemma led_by_app l a b : led_by l a = true → led_by l (a +:+ b) = true.
Proof. by destruct a. Qed.

(** Cutting the text at its groups. *)
Lemma five_slices a b c d e : String.length a = 8%nat → String.length b = 4%nat → String.length c = 4%nat →
  String.length d = 4%nat → String.length e = 12%nat →
  let hex := a +:+ b +:+ c +:+ d +:+ e in
  join "-" [slice hex 0 8; slice hex 8 12; slice hex 12 16; slice hex 16 20; slice hex 20 32] = join "-" [a; b; c; d; e].
Proof.
  intros Hga Hgb Hgc Hgd Hge hex. subst hex. f_equal.
  assert (∀ p q s i j, Z.of_nat (String.length p) = i → (Z.of_nat (String.length p) + Z.of_nat (String.length q))%Z = j →
    slice (p +:+ q +:+ s) i j = q) as Hs by (intros p q s i j <- <-; apply slice_app_mid).
  repeat f_equal.
  - apply (Hs "" a); [done|]. rewrite Hga. done.
  - apply (Hs a b); rewrite ?Hga, ?Hgb; done.
  - rewrite <- str_app_assoc. apply (Hs (a +:+ b) c); rewrite ?str_length_app, ?Hga, ?Hgb, ?Hgc; done.
  - rewrite <- !str_app_assoc. rewrite (str_app_assoc _ d). apply (Hs _ d); rewrite ?str_length_app, ?Hga, ?Hgb, ?Hgc, ?Hgd; done.
  - rewrite <- (str_app_nil_r e) at 1. rewrite <- !str_app_assoc. rewrite (str_app_assoc _ e).
    apply (Hs _ e); rewrite ?str_length_app, ?Hga, ?Hgb, ?Hgc, ?Hgd, ?Hge; done.
Qed.

(** The text of a UUID: five groups of digits, of the time, of the marked bytes and of the rest. *)
Lemma uuid_text now rand : (0 ≤ now < 2 ^ 48)%Z → octets rand → length rand = 10%nat →
  ∃ ts a b c d e, uuidv7 now rand = join "-" [a; b; c; d; e] ∧
    a +:+ b = hex_bytes ts ∧ octets ts ∧ length ts = 6%nat ∧ be_value ts = now ∧
    hex_group 8 a = true ∧ hex_group 4 b = true ∧ hex_group 4 c = true ∧ hex_group 4 d = true ∧ hex_group 12 e = true ∧
    led_by ["7"%char] c = true ∧ led_by ["8"%char; "9"%char; "a"%char; "b"%char; "A"%char; "B"%char] d = true.
Proof.
  intros Hn Hr Hl. unfold uuidv7, uuid_bytes. destruct (be_split_spec 6 now [] ltac:(lia)) as (ts & E & Ho & Hlt & Hv).
  rewrite E, app_nil_r. cbn [fst]. rewrite Z.shiftr_div_pow2, Z.div_small, Z.mul_0_l, Z.add_0_l in Hv by lia.
  destruct rand as [|r0 [|r1 [|r2 [|r3 rest]]]]; try done. destruct ts as [|t0 [|t1 [|t2 [|t3 [|t4 [|t5 [|]]]]]]]; try done.
  apply Forall_cons_1 in Hr as [H0 Hr]. apply Forall_cons_1 in Hr as [H1 Hr].
  apply Forall_cons_1 in Hr as [H2 Hr]. apply Forall_cons_1 in Hr as [H3 Hr].
  destruct (marked_octet r0 H0) as (Hv1 & Hv2 & _ & _), (marked_octet r2 H2) as (_ & _ & Hw1 & Hw2).
  assert (octets [t0; t1; t2; t3] ∧ octets [t4; t5]) as [Ha Hb] by (apply (Forall_app _ [t0; t1; t2; t3] [t4; t5]); exact Ho).
  apply hex_group_bytes in Ha as Hga, Hb as Hgb. simpl (2 * _)%nat in Hga, Hgb.
  pose proof (hex_group_bytes [with_version r0; r1] ltac:(constructor; [done|constructor; [done|constructor]])) as Hgc.
  pose proof (hex_group_bytes [with_variant r2; r3] ltac:(constructor; [done|constructor; [done|constructor]])) as Hgd.
  pose proof (hex_group_bytes rest Hr) as Hge. simpl (2 * _)%nat in Hgc, Hgd. injection Hl as Hl. rewrite Hl in Hge. simpl (2 * 6)%nat in Hge.
  exists [t0; t1; t2; t3; t4; t5], (hex_bytes [t0; t1; t2; t3]), (hex_bytes [t4; t5]),
    (hex_bytes [with_version r0; r1]), (hex_bytes [with_variant r2; r3]), (hex_bytes rest).
  split; [|split_and!; try done; [by rewrite <- hex_app|by apply led_by_app|by apply led_by_app]].
  change (alter _ _ _) with ([t0; t1; t2; t3] ++ [t4; t5] ++ [with_version r0; r1] ++ [with_variant r2; r3] ++ rest).
  rewrite !hex_app. apply five_slices; by apply hex_group_length.
Qed.
Lemma uuid_split now rand : (0 ≤ now < 2 ^ 48)%Z → octets rand → length rand = 10%nat →
  UUID_RE (uuidv7 now rand) = true.
Proof.
  intros Hn Hr Hl. destruct (uuid_text now rand Hn Hr Hl) as
    (ts & a & b & c & d & e & -> & _ & _ & _ & _ & Ha & Hb & Hc & Hd & He & Hlc & Hld).
  unfold UUID_RE. rewrite split_join.
  - by rewrite Ha, Hb, Hc, Hd, He, Hlc, Hld.
  - done.
  - repeat constructor; by eapply hex_group_free.
Qed.
(** The order of texts cut by a dash at the same place is that of the texts. *)
Lemma compare_dashed a a' b b' x y : String.length a = String.length a' → String.length b = String.length b' →
  String.compare (a +:+ b) (a' +:+ b') = Lt → String.compare (a +:+ "-" +:+ b +:+ x) (a' +:+ "-" +:+ b' +:+ y) = Lt.
Proof.
  revert a'. induction a as [|c a IH]; intros [|c' a'] Ha Hb; try done.
  - rewrite !str_app_nil_l. intros Hc. rewrite !str_app_cons, !str_app_nil_l. cbn. clear Ha. revert b' Hb Hc.
    induction b as [|c b IH]; intros [|c' b'] Hb; try done. rewrite !str_app_cons. cbn.
    destruct (Ascii.compare c c'); try done. intros Hc. apply (IH b'); [by injection Hb|done].
  - rewrite !str_app_cons. cbn. destruct (Ascii.compare c c'); try done. apply IH; [by injection Ha|done].
Qed.
Lemma differences_zero a b : String.length a = String.length b → differences a b = 0%Z ↔ a = b.
Proof.
  assert (∀ a b, (0 ≤ differences a b)%Z) as Hnn.
  { clear. induction a as [|x a IH]; intros [|y b]; cbn; try lia.
    apply Z.lor_nonneg. split; [|apply IH]. apply Z.lxor_nonneg. unfold char_code. lia. }
  revert b. induction a as [|x a IH]; intros [|y b] Hl; try done. cbn. rewrite Z.lor_eq_0_iff, Z.lxor_eq_0_iff, IH by (by injection Hl).
  split.
  - intros [Hx ->]. f_equal. unfold char_code in Hx. apply Nat2Z.inj in Hx.
    by rewrite <- (ascii_nat_embedding x), <- (ascii_nat_embedding y), Hx.
  - by intros [= -> ->].
Qed.
Lemma timingSafeEqual_spec a b : timingSafeEqual a b = true ↔ a = b.
Proof.
  unfold timingSafeEqual. rewrite andb_true_iff, Nat.eqb_eq, Z.eqb_eq. split.
  - intros [Hl Hd]. by apply differences_zero.
  - intros ->. split; [done|]. by apply differences_zero.
Qed.
Lemma last_dot_cut id : lastIndexOf id "." ≠ (-1)%Z →
  id = slice id 0 (lastIndexOf id ".") +:+ "." +:+ slice_from id (lastIndexOf id "." + 1).
Proof.
  intros Hd. unfold lastIndexOf in Hd. destruct (last_index_of "." id) as [n|] eqn:E; [|done].
  destruct (last_separator_cut "." id n E) as (a & b & -> & Hb). destruct (cut_at_separator "." a b Hb) as (-> & -> & ->). done.
Qed.

(** A tag is eleven letters, none of them a dot. *)
Lemma url_free_of_dot ds : sextets_ok ds →
  free_of "." (replace_char "/" "_" (replace_char "+" "-" (letters ds))) = true.
Proof.
  induction 1 as [|d ds Hd _ IH]; [done|]. cbn [letters foldr replace_char]. fold (letters ds).
  rewrite free_of_cons, IH, andb_true_r. revert d Hd.
  assert (forallb (λ n, negb (Ascii.eqb (let x := letter BASE64_ALPHABET (Z.of_nat n) in
    let y := if Ascii.eqb x "+" then "-"%char else x in if Ascii.eqb y "/" then "_"%char else y) "."))
    (seq 0 64) = true) as H by by vm_compute.
  rewrite forallb_forall in H. intros d Hd. specialize (H (Z.to_nat d)). rewrite Z2Nat.id in H by lia.
  apply H, in_seq. lia.
Qed.
Lemma base64Url_letters bytes : bytesToBase64Url bytes =
  replace_char "/" "_" (replace_char "+" "-" (letters (bytes_sextets bytes))).
Proof.
  unfold bytesToBase64Url, bytesToBase64. rewrite btoa_letters, !replace_app. unfold padding.
  assert (∀ n, replace_char "/" "_" (replace_char "+" "-" (str_repeat n "=")) = str_repeat n "=") as ->
    by (induction n as [|n IH]; [done|]; simpl in *; by rewrite IH).
  apply strip_padding_app, url_free_of_padding, bytes_sextets_ok.
Qed.
Lemma computeTag_shape `{WebCrypto} data secret :
  String.length (computeTag data secret) = 11%nat ∧ free_of "." (computeTag data secret) = true.
Proof.
  unfold computeTag. rewrite base64Url_letters. split; [|apply url_free_of_dot, bytes_sextets_ok].
  rewrite !replace_length, letters_length. pose proof (hmac_length secret (utf8_encode data)) as Hl.
  by destruct (hmac_sign _ _) as [|? [|? [|? [|? [|? [|? [|? [|? l]]]]]]]].
Qed.
Lemma tag_truthy `{WebCrypto} data secret : truthy (computeTag data secret) = true.
Proof. destruct (computeTag_shape data secret) as [Hl _]. by destruct (computeTag data secret). Qed.

(** ** Properties *)

(** Device ids are well formed and sort by creation time.  An id made from any clock
    below 2^48 milliseconds and any ten random bytes passes [isValidDeviceId], and an id made at a later
    millisecond, whatever the random bytes, is the greater text. *)
Theorem device_ids_sort_by_time (now now' : Z) (rand rand' : list Z) :
  (0 ≤ now < now')%Z → (now' < 2 ^ 48)%Z → octets rand → octets rand' →
  length rand = 10%nat → length rand' = 10%nat →
  isValidDeviceId (VStr (createDeviceId now rand)) = true ∧
  str_ltb (createDeviceId now rand) (createDeviceId now' rand') = true.
Proof.
  intros Hn Hn' Hr Hr' Hl Hl'. split; [by apply uuid_split; [lia|..]|]. unfold createDeviceId, str_ltb.
  destruct (uuid_text now rand ltac:(lia) Hr Hl) as
    (ts & a & b & c & d & e & -> & Hab & Ho & Hlt & Hv & Ha & Hb & _).
  destruct (uuid_text now' rand' ltac:(lia) Hr' Hl') as
    (ts' & a' & b' & c' & d' & e' & -> & Hab' & Ho' & Hlt' & Hv' & Ha' & Hb' & _).
  rewrite !join_cons2. rewrite compare_dashed; [done| | |].
  - by rewrite (hex_group_length _ _ Ha), (hex_group_length _ _ Ha').
  - by rewrite (hex_group_length _ _ Hb), (hex_group_length _ _ Hb').
  - rewrite Hab, Hab'. destruct (hex_numeral ts Ho) as (ds & -> & Hd & Hdv & Hdl).
    destruct (hex_numeral ts' Ho') as (ds' & -> & Hd' & Hdv' & Hdl').
    rewrite <- (str_app_nil_r (dstr ds)), <- (str_app_nil_r (dstr ds')), (dstr_compare 16) by (try done; lia).
    rewrite Hdv, Hdv', Hv, Hv'. by rewrite (proj2 (Z.compare_lt_iff now now')) by lia.
Qed.

(** C36: Exactly the ids of the authority are valid.  An id passes [isValidMeshId] under a
    secret exactly when it is a UUID, a dot and the tag of that UUID under that secret; anything that
    is no string fails, what [issueMeshId] makes passes, and [parseMeshId] gives it back in its parts. *)
Theorem mesh_id_valid_iff_issued `{WebCrypto} (secret : list Z) :
  (∀ id, isValidMeshId id secret = true ↔
     ∃ uuid, UUID_RE uuid = true ∧ id = VStr (uuid +:+ "." +:+ computeTag uuid secret)) ∧
  (∀ now rand, (0 ≤ now < 2 ^ 48)%Z → octets rand → length rand = 10%nat →
     isValidMeshId (VStr (issueMeshId secret now rand)) secret = true ∧
     parseMeshId (issueMeshId secret now rand) = Some (uuidv7 now rand, computeTag (uuidv7 now rand) secret)).
Proof.
  assert (∀ uuid, UUID_RE uuid = true → let id := uuid +:+ "." +:+ computeTag uuid secret in
    isValidMeshId (VStr id) secret = true ∧ parseMeshId id = Some (uuid, computeTag uuid secret)) as Hok.
  { intros uuid Hu id. destruct (computeTag_shape uuid secret) as [_ Hf]. unfold isValidMeshId, parseMeshId.
    destruct (cut_at_separator "." uuid _ Hf) as (E1 & E2 & E3). change ("." +:+ computeTag uuid secret) with (String "." (computeTag uuid secret)) in id. fold id in E1, E2, E3. rewrite E1, E2, E3, Hu, tag_truthy.
    destruct (Z.eqb_spec (Z.of_nat (String.length uuid)) (-1)); [lia|]. cbn. by rewrite (proj2 (timingSafeEqual_spec _ _)). }
  split; [intros id; split|].
  - destruct id as [| | | |id| | |]; try done. unfold isValidMeshId.
    destruct (Z.eqb_spec (lastIndexOf id ".") (-1)) as [|Hd]; [done|]. pose proof (last_dot_cut id Hd) as Hc.
    destruct (UUID_RE (slice id 0 (lastIndexOf id "."))) eqn:Hu; [|done].
    destruct (truthy (slice_from id (lastIndexOf id "." + 1))); [|done]. cbn.
    intros Ht%timingSafeEqual_spec. exists (slice id 0 (lastIndexOf id ".")). rewrite <- Ht. by rewrite <- Hc.
  - intros (uuid & Hu & ->). by apply Hok.
  - intros now rand Hn Hr Hl. by apply Hok, uuid_split.
Qed.

(** The ids of an authority: its clock and random bytes at one call. *)
Section witness.
#[local] Existing Instance toy_crypto.
Example uuid_example : uuidv7 1700000000000 [1; 2; 3; 4; 5; 6; 7; 8; 9; 255]%Z = "018bcfe5-6800-7102-8304-0506070809ff".
Proof. by vm_compute. Qed.

Lemma device_ids_sort_by_time_witness :
  let id := createDeviceId 1700000000000 (repeat 255%Z 10) in
  isValidDeviceId (VStr id) = true ∧ str_ltb id (createDeviceId 1700000000001 (repeat 0%Z 10)) = true.
Proof.
  apply (device_ids_sort_by_time 1700000000000 1700000000001); [lia|lia|..|done|done];
    repeat constructor; unfold octet; lia.
Defined.

Lemma mesh_id_valid_iff_issued_witness :
  let id := issueMeshId [7%Z] 1700000000000 (repeat 255%Z 10) in
  isValidMeshId (VStr id) [7%Z] = true ∧
  parseMeshId id = Some (uuidv7 1700000000000 (repeat 255%Z 10), computeTag (uuidv7 1700000000000 (repeat 255%Z 10)) [7%Z]).
Proof.
  apply (proj2 (mesh_id_valid_iff_issued [7%Z])); [lia|repeat constructor; unfold octet; lia|done].
Defined.
End witness.

(** The fallback of [createRowId] is no UUID: [randomHex] counts bytes, two digits each, so its
    groups have twice the length of a UUID's. *)
Lemma row_id_fallback_is_no_uuid (random : list (list Z)) :
  length <$> random = row_random_lengths → Forall octets random →
  isValidDeviceId (VStr (createRowId None None random)) = false ∧
  String.length (createRowId None None random) = 68%nat.
Proof.
  intros Hl Ho. destruct random as [|a [|b [|c [|d [|e [|]]]]]]; try done. injection Hl as Ha Hb Hc Hd He.
  repeat (apply Forall_cons_1 in Ho as [? Ho]).
  assert (octets a ∧ octets b ∧ octets c ∧ octets d ∧ octets e) as (Hoa & Hob & Hoc & Hod & Hoe) by done.
  apply hex_group_bytes in Hoa, Hob, Hoc, Hod, Hoe. rewrite Ha in Hoa. rewrite Hb in Hob. rewrite Hc in Hoc.
  rewrite Hd in Hod. rewrite He in Hoe.
  apply hex_group_length in Hoa as La, Hob as Lb, Hoc as Lc, Hod as Ld, Hoe as Le.
  unfold createRowId. cbn [opt_truthy fmap list_fmap]. split.
  - unfold isValidDeviceId, UUID_RE. rewrite split_join; [|done|repeat constructor; by eapply hex_group_free].
    unfold hex_group at 1. by rewrite La.
  - rewrite !join_cons2. unfold join. rewrite !str_length_app, La, Lb, Lc, Ld, Le. done.
Qed.
