(* ===== verification/KeySource.v ===== *)
(** * Key sources and credential stores
    ([packages/core/src/crypto/key-source.ts], [packages/core/src/storage/credential-store.ts])

    Where the mesh key of a device comes from.  The credential store belongs to the
    host; the class [CredentialStore] has its operations and the class
    [HonestStore] what their contract says of them.  A key source is an instance of the
    class [MeshKeySource], over its own state and that of the store. *)

From S2P Require Import Prelude JsString Values Octets Encryption.
From Stdlib Require String.

Open Scope stdpp_scope.

(** ** Stores *)
Record StoredCredentials := mkCreds {
  cr_portableKey : string; cr_deviceId : string; cr_meshId : option string }.
(** [status] is whatever text the store reports. *)
Record MeshCredentialLoadResult := mkLoadResult {
  cl_status : string; cl_credentials : option StoredCredentials }.

(** [loadCredentialState] is optional; its result may be [undefined]. *)
Class CredentialStore (K : Type) := {
  cs_save : StoredCredentials → M K ();
  cs_load : M K (option StoredCredentials);
  cs_clear : M K ();
  loadCredentialState : option (M K (option MeshCredentialLoadResult)) }.

(** A store in which a read changes nothing and, when it returns, tells what is held: a
    [load] its record, a state read [present] with the record or [absent] when there is none.
    A failed save has saved or not. *)
Class HonestStore `{CredentialStore K} := {
  held : K → option StoredCredentials;
  load_honest k r k' : cs_load k = (r, k') → held k' = held k ∧ (∀ c, r = Ok c → c = held k);
  state_honest q k r k' : loadCredentialState = Some q → q k = (r, k') →
    held k' = held k ∧
    (∀ s c, r = Ok (Some (mkLoadResult s c)) → (s = "present" → c = held k) ∧ (s = "absent" → held k = None));
  save_held c k r k' : cs_save c k = (r, k') → held k' = Some c ∨ (held k' = held k ∧ r ≠ Ok ()) }.

Definition CREDENTIAL_STATUSES : list string := ["present"; "absent"; "unavailable"; "unreadable"].

(** What a read reports: credentials when they are [present], none when [absent]. *)
Definition has_portableKey (c : option StoredCredentials) : bool :=
  from_option (λ c, truthy (cr_portableKey c)) false c.
Definition access_failed {S B} (status : credentialFailure) : M S B := throw (CredentialErr (AccessFailed status)).

Section reading.
Context `{CredentialStore K}.
Definition readCredentialState (has_store : bool) : M K (option StoredCredentials) :=
  if negb has_store then mret None
  else match loadCredentialState with
       | None => credentials ← cs_load; mret (if has_portableKey credentials then credentials else None)
       | Some richLoad =>
           result ← catch richLoad (λ _, access_failed Unavailable);
           let status := cl_status <$> result in
           match result with
           | Some (mkLoadResult status credentials) =>
               if negb (bool_decide (status ∈ CREDENTIAL_STATUSES)) then access_failed Unreadable
               else if String.eqb status "unavailable" then access_failed Unavailable
               else if String.eqb status "unreadable" then access_failed Unreadable
               else if String.eqb status "present" && negb (has_portableKey credentials)
               then access_failed Unreadable
               else mret (if String.eqb status "present" then credentials else None)
           | None => access_failed Unreadable
           end
       end.
End reading.

(** ** Key sources *)
Record MeshKeyContext := mkContext {
  kx_dbName : string; kx_remotePath : string; kx_meshId : option string; kx_deviceId : string }.
Record MeshKeyMaterial := mkMaterial {
  mm_encrypted : bool; mm_key : option MeshKey; mm_portableKey : option string;
  mm_credentialStatus : option string }.

(** [ks_durable] is [None] when [credentialPersistence] is neither ["none"] nor ["durable"];
    [ks_loadPersistedCredentials] is optional. *)
Class MeshKeySource (W : Type) := {
  ks_durable : W → option bool;
  ks_load : MeshKeyContext → M W MeshKeyMaterial;
  ks_persist : MeshKeyContext → StoredCredentials → M W ();
  ks_clear : M W ();
  ks_loadPersistedCredentials : option (M W (option StoredCredentials)) }.

(** The state of the two sources of the package: the portable key they hold, and whether
    they were given a store. *)
Record PortablePassphraseKeySource := mkPortable {
  ps_portableKey : option string; ps_credentialStore : bool; ps_generateIfMissing : bool }.
Record BoundSharedKeySource := mkBound { bs_portableKey : option string; bs_credentialStore : bool }.

Section sources.
Context `{CredentialStore K}.

Definition on_store {S B} (m : M K B) : M (S * K) B := λ w, let '(r, k) := m w.2 in (r, (w.1, k)).
Definition on_source {S} (f : S → S) : M (S * K) () := modify (λ w, (f w.1, w.2)).

Definition setPortableKey (p : option string) (s : PortablePassphraseKeySource) : PortablePassphraseKeySource :=
  mkPortable p (ps_credentialStore s) (ps_generateIfMissing s).
Definition portable_load (context : MeshKeyContext) : M (PortablePassphraseKeySource * K) MeshKeyMaterial :=
  w ← gets fst;
  match opt_truthy (ps_portableKey w) with
  | Some p => mret (mkMaterial true None (Some p) (Some "present"))
  | None =>
      stored ← on_store (readCredentialState (ps_credentialStore w));
      match opt_truthy (cr_portableKey <$> stored) with
      | Some p =>
          on_source (setPortableKey (Some p));;
          mret (mkMaterial true None (Some p) (Some "present"))
      | None =>
          if negb (ps_generateIfMissing w) then mret (mkMaterial false None None (Some "absent"))
          else mret (mkMaterial true None None (Some "absent"))
      end
  end.
Definition portable_persist (context : MeshKeyContext) (credentials : StoredCredentials)
    : M (PortablePassphraseKeySource * K) () :=
  on_source (setPortableKey (Some (cr_portableKey credentials)));;
  w ← gets fst;
  when (ps_credentialStore w) (on_store (cs_save credentials)).
Definition portable_clear : M (PortablePassphraseKeySource * K) () :=
  on_source (setPortableKey None);;
  w ← gets fst;
  when (ps_credentialStore w) (on_store cs_clear).

#[global] Instance portable_source : MeshKeySource (PortablePassphraseKeySource * K) := {
  ks_durable w := Some (ps_credentialStore w.1);
  ks_load := portable_load; ks_persist := portable_persist; ks_clear := portable_clear;
  ks_loadPersistedCredentials := Some (w ← gets fst; on_store (readCredentialState (ps_credentialStore w))) }.

(** [derive] is the application's. *)
Definition bound_setPortableKey (p : option string) (s : BoundSharedKeySource) : BoundSharedKeySource :=
  mkBound p (bs_credentialStore s).
Definition bound_load (derive : MeshKeyContext → string → result MeshKeyMaterial) (context : MeshKeyContext)
    : M (BoundSharedKeySource * K) MeshKeyMaterial :=
  w ← gets fst;
  portableKey ← match opt_truthy (bs_portableKey w) with
                | Some p => mret (Some p)
                | None => stored ← on_store (readCredentialState (bs_credentialStore w));
                          mret (opt_truthy (cr_portableKey <$> stored))
                end;
  match portableKey with
  | None => mret (mkMaterial true None None (Some "absent"))
  | Some p =>
      on_source (bound_setPortableKey (Some p));;
      derived ← lift (derive context p);
      mret (mkMaterial (mm_encrypted derived) (mm_key derived) (mm_portableKey derived)
              (match mm_credentialStatus derived with Some s => Some s | None => Some "present" end))
  end.
Definition bound_persist (context : MeshKeyContext) (credentials : StoredCredentials)
    : M (BoundSharedKeySource * K) () :=
  on_source (bound_setPortableKey (Some (cr_portableKey credentials)));;
  w ← gets fst;
  when (bs_credentialStore w) (on_store (cs_save credentials)).
Definition bound_clear : M (BoundSharedKeySource * K) () :=
  on_source (bound_setPortableKey None);;
  w ← gets fst;
  when (bs_credentialStore w) (on_store cs_clear).
Definition bound_source (derive : MeshKeyContext → string → result MeshKeyMaterial)
    : MeshKeySource (BoundSharedKeySource * K) := {|
  ks_durable w := Some (bs_credentialStore w.1);
  ks_load := bound_load derive; ks_persist := bound_persist; ks_clear := bound_clear;
  ks_loadPersistedCredentials := Some (w ← gets fst; on_store (readCredentialState (bs_credentialStore w))) |}.
End sources.

(** ** Theory *)
Section theory.
Context `{HS : HonestStore K}.

(** A read changes nothing, and what it reports is what is held. *)
Lemma read_honest b k r k' : readCredentialState b k = (r, k') →
  held k' = held k ∧ (∀ c, r = Ok (Some c) → held k = Some c ∧ truthy (cr_portableKey c) = true) ∧
  (b = true → r = Ok None → has_portableKey (held k) = false).
Proof.
  unfold readCredentialState. destruct b; cbn [negb]; [|intros [= <- <-]; done].
  destruct loadCredentialState as [q|] eqn:Eq; unfold mbind, M_bind, catch.
  - destruct (q k) as [[[[s c]|]|e] k1] eqn:E; pose proof (state_honest q k _ _ Eq E) as [Hh Hs].
    + specialize (Hs s c eq_refl) as [Hp Ha]. unfold access_failed, throw.
      case_bool_decide as Hin; cbn [negb]; [|intros [= <- <-]; done].
      destruct (String.eqb_spec s "unavailable"); [intros [= <- <-]; done|].
      destruct (String.eqb_spec s "unreadable"); [intros [= <- <-]; done|].
      destruct (String.eqb_spec s "present") as [Es|]; cbn [andb].
      * destruct (has_portableKey c) eqn:Ec; cbn [negb]; [|intros [= <- <-]; done]. intros [= <- <-].
        specialize (Hp Es). subst c. split; [done|]. split.
        -- intros c [= Hc]. rewrite Hc in Ec. by rewrite Hc.
        -- intros _ [= Hc]. by rewrite Hc in Ec.
      * intros [= <- <-]. split; [done|]. split; [done|]. intros _ _.
        assert (s = "absent") as -> by (unfold CREDENTIAL_STATUSES in Hin; set_solver).
        by rewrite (Ha eq_refl).
    + intros [= <- <-]. done.
    + intros [= <- <-]. done.
  - destruct (cs_load k) as [[c|e] k1] eqn:E; pose proof (load_honest k _ _ E) as [Hh Hl];
      intros [= <- <-]; [|done]. specialize (Hl c eq_refl). subst c. split; [done|].
    destruct (has_portableKey (held k)) eqn:Ek; split; try done.
    + intros c [= Hc]. rewrite Hc in Ek. by rewrite Hc.
    + intros _ [= Hc]. by rewrite Hc in Ek.
Qed.
Lemma on_store_run {S B} (m : M K B) (w : S * K) r w' : on_store m w = (r, w') →
  ∃ k', m w.2 = (r, k') ∧ w' = (w.1, k').
Proof. unfold on_store. destruct (m w.2) as [r0 k']. intros [= <- <-]. eauto. Qed.
End theory.

(** A store that cannot be read. *)
Definition inaccessible (r : result (option MeshCredentialLoadResult)) : Prop :=
  match r with
  | Throw _ | Ok None => True
  | Ok (Some (mkLoadResult s c)) => s ≠ "absent" ∧ (s = "present" → has_portableKey c = false)
  end.
Lemma inaccessible_refused `{CredentialStore K} q k r k' :
  loadCredentialState = Some q → q k = (r, k') → inaccessible r →
  ∃ st, readCredentialState true k = (Throw (CredentialErr (AccessFailed st)), k').
Proof.
  intros Eq Er Hi. unfold readCredentialState. cbn [negb]. rewrite Eq. unfold mbind, M_bind, catch.
  rewrite Er. destruct r as [[[s c]|]|e]; [|by eexists..].
  destruct Hi as [Ha Hp]. unfold access_failed, throw.
  case_bool_decide as Hin; cbn [negb]; [|by eexists].
  destruct (String.eqb_spec s "unavailable"); [by eexists|].
  destruct (String.eqb_spec s "unreadable"); [by eexists|].
  destruct (String.eqb_spec s "present") as [->|].
  - rewrite Hp by done. by eexists.
  - exfalso. unfold CREDENTIAL_STATUSES in Hin. set_solver.
Qed.

(** ** A store in memory *)
Definition Vault : Type := option StoredCredentials.
#[global] Instance vault_store : CredentialStore Vault := {
  cs_save c := modify (λ _, Some c); cs_load := gets id; cs_clear := modify (λ _, None);
  loadCredentialState := Some (gets (λ v, Some (match v with
    | Some c => mkLoadResult "present" (Some c)
    | None => mkLoadResult "absent" None
    end))) }.
#[global] Program Instance vault_honest : HonestStore (K := Vault) := { held v := v }.
Next Obligation. intros v r v' [= <- <-]. split; [done|]. by intros c [= <-]. Qed.
Next Obligation.
  intros q v r v' [= <-] [= <- <-]. split; [done|]. intros s c [= Hs].
  destruct v as [c0|]; injection Hs as <- <-; by split.
Qed.
Next Obligation. intros c v r v' [= _ <-]. by left. Qed.
