(* ===== verification/Crdt.v ===== *)
(** * The merge engine ([packages/core/src/core/crdt.ts])

    Strategy resolution, the per-column merge, [applyOp] with its mutation of
    the in-memory tables, and [applyChangeEntry].  The theorems give the exact
    effect of one operation, its idempotence, the convergence of every history
    of upserts, the commutation laws that hold for deletes, and the one that
    does not. *)

From S2P Require Import Prelude JsString Hlc Values.
From Stdlib Require String.

Open Scope stdpp_scope.

(** ** Merge strategies *)

Record MergeContext := mkMergeContext { mc_table : string; mc_rowId : string; mc_field : string }.

(** What a schema can hold where a strategy is expected: ["lww"], a function
    of the application, or anything else, which the engine refuses. *)
Inductive MergeStrategy :=
  | Lww
  | Custom (f : ColumnEntry → ColumnEntry → MergeContext → ColumnEntry)
  | Unsupported (json : string).

(** [merge] of a table: a strategy, or an object with [fields] or [strategy]. *)
Inductive TableMerge :=
  | MergeWith (s : MergeStrategy)
  | TableMergeConfig (strategy : option MergeStrategy) (fields : gmap string MergeStrategy).

Record DatabaseSchemaDefinition := mkSchema {
  sd_version : option Z;
  sd_tables : gmap string (option TableMerge);
  sd_mergeStrategy : option MergeStrategy }.

Definition requireConvergentStrategy (table field : string) (s : MergeStrategy) : result MergeStrategy :=
  match s with
  | Lww | Custom _ => Ok s
  | Unsupported json =>
      Throw (JsError ("Unsupported replicated merge strategy " +:+ json +:+ " for " +:+
                      table +:+ "." +:+ field))
  end.

Definition resolveStrategy (schema : option DatabaseSchemaDefinition) (table field : string)
    : result MergeStrategy :=
  let database_level :=
    match schema ≫= sd_mergeStrategy with
    | Some s => requireConvergentStrategy table field s
    | None => Ok Lww
    end in
  match schema ≫= λ sc, mjoin (sd_tables sc !! table) with
  | Some (TableMergeConfig strategy fields) =>
      match fields !! field with
      | Some s => requireConvergentStrategy table field s
      | None =>
          match strategy with
          | Some s => requireConvergentStrategy table field s
          | None => database_level
          end
      end
  | Some (MergeWith s) => requireConvergentStrategy table field s
  | None => database_level
  end.

(** ** Merging one column *)

(** [Ok None] is the code's [null]: the existing entry stays. *)
Definition mergeColumn (existing : option ColumnEntry) (incoming : ColumnEntry)
    (strategy : MergeStrategy) (table rowId field : string) : result (option ColumnEntry) :=
  match existing with
  | None => Ok (Some incoming)
  | Some existing =>
      if negb (truthy (hlc existing)) then Ok (Some incoming)
      else match strategy with
           | Custom f =>
               let result := f existing incoming (mkMergeContext table rowId field) in
               Ok (if negb (String.eqb (hlc result) (hlc existing)) ||
                      negb (columnValuesEqual (value result) (value existing))
                   then Some result else None)
           | _ =>
               let comparison := hlcCompareStr (hlc incoming) (hlc existing) in
               if num_gtb comparison (Num 0) then Ok (Some incoming)
               else if num_ltb comparison (Num 0) then Ok None
               else if negb (columnValuesEqual (value existing) (value incoming))
               then Throw (JsError ("Conflicting values share HLC " +:+ hlc incoming +:+ " at " +:+
                                    table +:+ "/" +:+ rowId +:+ "." +:+ field))
               else Ok None
           end
  end.

(** ** Applying one operation *)

Definition blankRow (table rowId : string) (schemaVersion : Z) (deleted : bool)
    (deletedHlc : option string) : Row :=
  mkRow (mkMeta table rowId deleted deletedHlc schemaVersion None None) ∅.

Definition hasNewerColumn (p : gmap string ColumnEntry) (hlc0 : string) : bool :=
  existsb (λ kv, truthy (hlc kv.2) && num_gtb (hlcCompareStr (hlc kv.2) hlc0) (Num 0))
          (map_to_list p).

Definition with_deleted (m : RowMeta) (d : bool) (h : option string) : RowMeta :=
  mkMeta (rm_table m) (rm_rowId m) d h (rm_schemaVersion m) (rm_owner m) (rm_key m).

(** The delete branch on the row found in the table; [None] is [return null]. *)
Definition deleteRow (existing : option Row) (table rowId hlc0 : string) (schemaVersion : Z)
    : option Row :=
  match existing with
  | Some existing =>
      let stale := match opt_truthy (rm_deletedHlc (_meta existing)) with
                   | Some d => num_leb (hlcCompareStr hlc0 d) (Num 0)
                   | None => false
                   end in
      if stale then None
      else if hasNewerColumn (payload existing) hlc0 then None
      else Some (mkRow (with_deleted (_meta existing) true (Some hlc0)) ∅)
  | None => Some (blankRow table rowId schemaVersion true (Some hlc0))
  end.

(** The column loop: mutates the row in place, so a throw keeps the columns
    merged before it. *)
Fixpoint applyColumns (schema : option DatabaseSchemaDefinition) (table rowId : string)
    (cols : list (string * ColumnEntry)) (row : Row) (changed : bool) : result bool * Row :=
  match cols with
  | [] => (Ok changed, row)
  | (col, entry) :: cols =>
      match resolveStrategy schema table col with
      | Throw e => (Throw e, row)
      | Ok strategy =>
          match mergeColumn (payload row !! col) entry strategy table rowId col with
          | Throw e => (Throw e, row)
          | Ok (Some winner) =>
              applyColumns schema table rowId cols
                (mkRow (_meta row) (<[col := winner]> (payload row))) true
          | Ok None => applyColumns schema table rowId cols row changed
          end
      end
  end.

(** The upsert branch: the flag says whether the row is reported as changed. *)
Definition upsertRow (existing : option Row) (table rowId : string)
    (columns : list (string * ColumnEntry)) (schemaVersion : Z)
    (schema : option DatabaseSchemaDefinition) : result bool * Row :=
  let changed := match existing with None => true | Some _ => false end in
  let row := default (blankRow table rowId schemaVersion false None) existing in
  match (if rm_deleted (_meta row) then opt_truthy (rm_deletedHlc (_meta row)) else None) with
  | Some deletedHlc =>
      let columnsToApply :=
        filter (λ kv, num_gtb (hlcCompareStr (hlc kv.2) deletedHlc) (Num 0) = true) columns in
      match columnsToApply with
      | [] => (Ok false, row)
      | _ => applyColumns schema table rowId columnsToApply
               (mkRow (with_deleted (_meta row) false None) ∅) true
      end
  | None => applyColumns schema table rowId columns row changed
  end.

Definition applyOp (op : Op) (schemaVersion : Z) (schema : option DatabaseSchemaDefinition)
    : M Tables (option Row) := λ tables,
  let tables := match tables !! op_table op with
                | None => <[op_table op := ∅]> tables
                | Some _ => tables
                end in
  let existing := getRow tables (op_table op) (op_rowId op) in
  match op with
  | DeleteOp t r h =>
      match deleteRow existing t r h schemaVersion with
      | None => (Ok None, tables)
      | Some row => (Ok (Some row), setRow tables t r row)
      end
  | UpsertOp t r columns =>
      let '(res, row) := upsertRow existing t r columns schemaVersion schema in
      let tables := setRow tables t r row in
      match res with
      | Throw e => (Throw e, tables)
      | Ok changed => (Ok (if changed then Some row else None), tables)
      end
  end.

(** The operations in turn, each with the row it reports as it is at that moment. *)
Fixpoint applyOps (ops : list Op) (schemaVersion : Z) (schema : option DatabaseSchemaDefinition)
    : M Tables (list Row) :=
  match ops with
  | [] => mret []
  | op :: ops =>
      row ← applyOp op schemaVersion schema;
      rest ← applyOps ops schemaVersion schema;
      mret (option_list row ++ rest)
  end.

(** [applyChangeEntry] returns the rows themselves, and a later operation of the entry mutates a row an earlier
    one has pushed: the list is of the rows the operations reported, each as the last operation leaves it. *)
Fixpoint reported (ops : list Op) (schemaVersion : Z) (schema : option DatabaseSchemaDefinition)
    : M Tables (list (string * string)) :=
  match ops with
  | [] => mret []
  | op :: ops =>
      row ← applyOp op schemaVersion schema;
      rest ← reported ops schemaVersion schema;
      mret (match row with Some _ => (op_table op, op_rowId op) :: rest | None => rest end)
  end.
Definition rows_at (tables : Tables) (refs : list (string * string)) : list Row :=
  omap (λ ref, getRow tables ref.1 ref.2) refs.
Definition applyChanges (ops : list Op) (schemaVersion : Z) (schema : option DatabaseSchemaDefinition)
    : M Tables (list Row) :=
  refs ← reported ops schemaVersion schema;
  gets (λ tables, rows_at tables refs).
Definition applyChangeEntry (entry : ChangeEntry) (schemaVersion : Z)
    (schema : option DatabaseSchemaDefinition) : M Tables (list Row) :=
  applyChanges (ce_ops entry) schemaVersion schema.

Definition readColumn (row : Row) (column : string) : jsval :=
  match payload row !! column with Some e => value e | None => VUndefined end.

(** The [_table], [_rowId], [_deleted] fields first; a payload column of the same name
    overwrites them. *)
Definition rowToPlain (row : Row) : gmap string jsval :=
  (value <$> payload row) ∪
  <["_table" := VStr (rm_table (_meta row))]> (<["_rowId" := VStr (rm_rowId (_meta row))]>
    {["_deleted" := VBool (rm_deleted (_meta row))]}).

(** ** Stamp tests on canonical stamps *)

Abbreviation slt := (stamp_lt (StampOrder := hlc_stamp_order)).

Definition newer (a b : string) : bool := num_gtb (hlcCompareStr a b) (Num 0).

Lemma newer_spec a b : canonical a → canonical b → newer a b = true ↔ slt b a.
Proof. apply stamp_gt_spec. Qed.
Lemma newer_false a b : canonical a → canonical b → newer a b = false ↔ ¬ slt b a.
Proof. intros. rewrite <- not_true_iff_false, newer_spec by done. done. Qed.

(** Case analysis on the relation of two canonical stamps. *)
Ltac stamp_cases a b :=
  let H := fresh "Hcmp" in let G := fresh "Hgt" in let L := fresh "Hlt" in
  let E := fresh "Hle" in
  destruct (stamp_tests (SO := hlc_stamp_order) a b)
    as [(H & G & L & E)|[(H & G & L & E)|(H & G & L & E)]];
  [eauto with interocitor|eauto with interocitor|..].

(** ** The column join *)

Definition col_join (o : option ColumnEntry) (e : ColumnEntry) : ColumnEntry :=
  match o with
  | None => e
  | Some e0 => if newer (hlc e) (hlc e0) then e else e0
  end.
Definition join_step (p : gmap string ColumnEntry) (kv : string * ColumnEntry) :=
  <[kv.1 := col_join (p !! kv.1) kv.2]> p.
Definition join_cols (p : gmap string ColumnEntry) (cols : list (string * ColumnEntry)) :=
  foldl join_step p cols.

(** ** Well-formed rows and histories

    [U t r k e] says that entry [e] was written to column [k] of row [r] of
    table [t].  A stamp names at most one entry per column, which is what the
    node identifier and the counter of a clock provide. *)
Section universe.
Context (U : string → string → string → ColumnEntry → Prop).

Class Universe : Prop := {
  U_canonical t r k e : U t r k e → canonical (hlc e);
  U_value t r k e : U t r k e → value_wf (value e);
  U_unique t r k e1 e2 : U t r k e1 → U t r k e2 → hlc e1 = hlc e2 → e1 = e2;
}.

Definition cols_ok (t r : string) (cols : list (string * ColumnEntry)) : Prop :=
  Forall (λ kv, U t r kv.1 kv.2) cols.
Definition payload_ok (t r : string) (p : gmap string ColumnEntry) : Prop :=
  ∀ k e, p !! k = Some e → U t r k e.

(** A live row has no tombstone stamp; a tombstone has one and no payload. *)
Definition row_ok (t r : string) (row : Row) : Prop :=
  rm_table (_meta row) = t ∧ rm_rowId (_meta row) = r ∧
  payload_ok t r (payload row) ∧
  if rm_deleted (_meta row)
  then payload row = ∅ ∧ ∃ d, rm_deletedHlc (_meta row) = Some d ∧ canonical d
  else rm_deletedHlc (_meta row) = None.
Definition tables_ok (tables : Tables) : Prop :=
  ∀ t r row, getRow tables t r = Some row → row_ok t r row.
Definition op_ok (op : Op) : Prop :=
  match op with
  | UpsertOp t r cols => cols_ok t r cols
  | DeleteOp _ _ h => canonical h
  end.
End universe.
Arguments U_canonical {U _} t r k e _.
Arguments U_value {U _} t r k e _.
Arguments U_unique {U _} t r k e1 e2 _ _ _.

Section merge.
Context (U : string → string → string → ColumnEntry → Prop) `{HU : !Universe U}.
Context (schema : option DatabaseSchemaDefinition) (schemaVersion : Z).
Context (Hlww : ∀ t k, resolveStrategy schema t k = Ok Lww).

Implicit Types (t r k : string) (e : ColumnEntry).

Local Hint Resolve U_canonical U_value : interocitor.

Lemma mergeColumn_lww t r k o e :
  (∀ e0, o = Some e0 → U t r k e0) → U t r k e →
  mergeColumn o e Lww t r k =
    Ok (match o with Some e0 => if newer (hlc e) (hlc e0) then Some e else None
                   | None => Some e end).
Proof.
  destruct o as [e0|]; [|done]. intros He0 He. specialize (He0 e0 eq_refl).
  unfold mergeColumn. rewrite canonical_truthy by eauto with interocitor. simpl.
  unfold newer. stamp_cases (hlc e) (hlc e0).
  - by rewrite Hgt, Hlt.
  - rewrite Hgt, Hlt. rewrite (U_unique t r k e e0) by done.
    by rewrite columnValuesEqual_refl by eauto with interocitor.
  - by rewrite Hgt.
Qed.

Lemma col_join_ok t r k o e :
  (∀ e0, o = Some e0 → U t r k e0) → U t r k e → U t r k (col_join o e).
Proof. intros Ho He. destruct o; simpl; [case_match; auto|done]. Qed.

Lemma col_join_comm t r k o e1 e2 :
  (∀ e0, o = Some e0 → U t r k e0) → U t r k e1 → U t r k e2 →
  col_join (Some (col_join o e1)) e2 = col_join (Some (col_join o e2)) e1.
Proof.
  intros Ho H1 H2. pose proof (U_unique t r k) as Huniq.
  assert (∀ a b, U t r k a → U t r k b → newer (hlc a) (hlc b) = false →
            newer (hlc b) (hlc a) = false → a = b) as Hanti.
  { intros a b Ha Hb. rewrite !newer_false by eauto with interocitor. intros.
    apply Huniq; [done..|]. destruct (stamp_total (hlc a) (hlc b)) as [|[|]];
      eauto with interocitor; done. }
  assert (∀ a b, U t r k a → U t r k b → newer (hlc a) (hlc b) = true →
            newer (hlc b) (hlc a) = false) as Hasym.
  { intros a b Ha Hb. rewrite newer_spec, newer_false by eauto with interocitor.
    intros ?. apply stamp_asym; eauto with interocitor. }
  assert (∀ a b c, U t r k a → U t r k b → U t r k c → newer (hlc a) (hlc b) = true →
            newer (hlc c) (hlc b) = false → newer (hlc a) (hlc c) = true) as Htr.
  { intros a b c Ha Hb Hc. rewrite !newer_spec, newer_false by eauto with interocitor.
    intros Hab Hcb. destruct (stamp_not_lt (hlc b) (hlc c)) as [E|E];
      eauto with interocitor; [by rewrite <- E|]. by eapply stamp_trans with (hlc b);
      eauto with interocitor. }
  destruct o as [e0|]; simpl.
  - specialize (Ho e0 eq_refl).
    destruct (newer (hlc e1) (hlc e0)) eqn:E1, (newer (hlc e2) (hlc e0)) eqn:E2.
    + destruct (newer (hlc e2) (hlc e1)) eqn:E3, (newer (hlc e1) (hlc e2)) eqn:E4; try done;
        [by rewrite Hasym in E4|by apply Hanti].
    + rewrite ?E1. destruct (newer (hlc e2) (hlc e1)) eqn:E3; [|done].
      pose proof (Htr e1 e0 e2 H1 Ho H2 E1 E2). by rewrite Hasym in E3.
    + rewrite ?E2. destruct (newer (hlc e1) (hlc e2)) eqn:E3; [|done].
      pose proof (Htr e2 e0 e1 H2 Ho H1 E2 E1). by rewrite Hasym in E3.
    + by rewrite ?E1, ?E2.
  - destruct (newer (hlc e2) (hlc e1)) eqn:E3, (newer (hlc e1) (hlc e2)) eqn:E4; try done;
      [by rewrite Hasym in E4|by apply Hanti].
Qed.

Lemma join_step_ok t r p kv : payload_ok U t r p → U t r kv.1 kv.2 → payload_ok U t r (join_step p kv).
Proof.
  intros Hp Hkv k e. unfold join_step.
  destruct (decide (kv.1 = k)) as [<-|]; [rewrite lookup_insert_eq|by rewrite lookup_insert_ne; eauto].
  intros [= <-]. apply col_join_ok; [|done]. intros. by apply Hp.
Qed.

Lemma join_cols_ok t r p cols : payload_ok U t r p → cols_ok U t r cols → payload_ok U t r (join_cols p cols).
Proof.
  intros Hp Hc. apply (foldl_inv (payload_ok U t r) (λ kv, U t r kv.1 kv.2)); [|done..].
  intros. by apply join_step_ok.
Qed.

Lemma join_step_comm t r p a b :
  payload_ok U t r p → U t r a.1 a.2 → U t r b.1 b.2 →
  join_step (join_step p a) b = join_step (join_step p b) a.
Proof.
  intros Hp Ha Hb. unfold join_step. destruct a as [ka ea], b as [kb eb]; simpl in *.
  destruct (decide (ka = kb)) as [->|].
  - rewrite !lookup_insert_eq, !insert_insert_eq. f_equal.
    eapply col_join_comm; [|done..]. intros. by apply Hp.
  - rewrite !lookup_insert_ne by done. by rewrite insert_insert_ne.
Qed.

Lemma join_cols_perm t r p c1 c2 :
  payload_ok U t r p → cols_ok U t r c1 → c1 ≡ₚ c2 → join_cols p c1 = join_cols p c2.
Proof.
  intros Hp Hc Hperm.
  apply (foldl_perm (payload_ok U t r) (λ kv, U t r kv.1 kv.2)); [..|done|done|done].
  - intros. by apply join_step_ok.
  - intros. by eapply join_step_comm.
Qed.

(** A column never goes back to an older stamp. *)
Lemma join_cols_mono t r p cols k e :
  payload_ok U t r p → cols_ok U t r cols → p !! k = Some e →
  ∃ e', join_cols p cols !! k = Some e' ∧ ¬ slt (hlc e') (hlc e).
Proof.
  intros Hp Hc. revert p e Hp. induction Hc as [|[k' e'] cols Hke Hc IH]; intros p e Hp Hk; simpl.
  - exists e. split; [done|]. apply stamp_irrefl. eauto with interocitor.
  - assert (∃ e1, join_step p (k', e') !! k = Some e1 ∧ ¬ slt (hlc e1) (hlc e)) as (e1 & Hk1 & Hle).
    { unfold join_step. simpl. destruct (decide (k' = k)) as [->|].
      - rewrite lookup_insert_eq, Hk. simpl in *. eexists; split; [done|].
        destruct (newer (hlc e') (hlc e)) eqn:E; [|apply stamp_irrefl; eauto with interocitor].
        apply newer_spec in E; eauto with interocitor. apply stamp_asym; eauto with interocitor.
      - rewrite lookup_insert_ne by done. exists e. split; [done|].
        apply stamp_irrefl. eauto with interocitor. }
    assert (payload_ok U t r (join_step p (k', e'))) as Hp1 by by apply join_step_ok.
    destruct (IH _ e1 Hp1 Hk1) as (e2 & Hk2 & Hle2). exists e2. split; [done|].
    pose proof (join_cols_ok t r _ cols Hp1 Hc k e2 Hk2).
    eapply stamp_le_trans with (hlc e1); eauto with interocitor.
Qed.

(** The loop computes the join; it reports a change iff the payload changed. *)
Lemma applyColumns_join t r cols row changed :
  payload_ok U t r (payload row) → cols_ok U t r cols →
  ∃ ch, applyColumns schema t r cols row changed =
          (Ok ch, mkRow (_meta row) (join_cols (payload row) cols)) ∧
        (ch = false ↔ changed = false ∧ join_cols (payload row) cols = payload row).
Proof.
  intros Hp Hc. revert row changed Hp.
  induction Hc as [|[k e] cols Hke Hc IH]; intros row changed Hp; simpl.
  { exists changed. destruct row. split; [done|]. tauto. }
  rewrite Hlww, mergeColumn_lww by (done || intros; by apply Hp). simpl in Hke.
  assert (payload_ok U t r (join_step (payload row) (k, e))) as Hp1 by by apply join_step_ok.
  unfold join_step in Hp1 |- *. simpl in Hp1 |- *.
  destruct (payload row !! k) as [e0|] eqn:Ek; simpl.
  - simpl in Hp1. destruct (newer (hlc e) (hlc e0)) eqn:En.
    + destruct (IH (mkRow (_meta row) (<[k:=e]> (payload row))) true) as (ch & -> & Hch);
        [done|]. exists ch. split; [done|].
      split; [by intros [? _]%Hch|]. intros [_ Hsame].
      exfalso. simpl in Hsame.
      destruct (join_cols_mono t r (<[k:=e]> (payload row)) cols k e) as (e' & Hk' & Hle);
        [done|done|apply lookup_insert_eq|].
      rewrite Hsame, Ek in Hk'. injection Hk' as <-. apply Hle.
      apply newer_spec; eauto with interocitor.
    + rewrite (insert_id (payload row)) by done. by apply IH.
  - destruct (IH (mkRow (_meta row) (<[k:=e]> (payload row))) true) as (ch & -> & Hch);
      [done|]. exists ch. split; [done|].
      split; [by intros [? _]%Hch|]. intros [_ Hsame].
    exfalso. simpl in Hsame.
    destruct (join_cols_mono t r (<[k:=e]> (payload row)) cols k e) as (e' & Hk' & _);
      [done|done|apply lookup_insert_eq|]. congruence.
Qed.

(** ** The effect of one operation on its row *)

Definition tomb_stamp (row : Row) : option string :=
  if rm_deleted (_meta row) then opt_truthy (rm_deletedHlc (_meta row)) else None.

Definition fresh_cols (d : string) (cols : list (string * ColumnEntry)) :=
  filter (λ kv, num_gtb (hlcCompareStr (hlc kv.2) d) (Num 0) = true) cols.

Definition upsert_result (t r : string) (cols : list (string * ColumnEntry)) (o : option Row) : Row :=
  let row := default (blankRow t r schemaVersion false None) o in
  match tomb_stamp row with
  | Some d =>
      match fresh_cols d cols with
      | [] => row
      | l => mkRow (with_deleted (_meta row) false None) (join_cols ∅ l)
      end
  | None => mkRow (_meta row) (join_cols (payload row) cols)
  end.

Definition step_row (op : Op) (o : option Row) : Row :=
  match op with
  | UpsertOp t r cols => upsert_result t r cols o
  | DeleteOp t r h =>
      default (default (blankRow t r schemaVersion false None) o) (deleteRow o t r h schemaVersion)
  end.

Definition step_tables (tables : Tables) (op : Op) : Tables :=
  setRow tables (op_table op) (op_rowId op)
    (step_row op (getRow tables (op_table op) (op_rowId op))).

Lemma payload_ok_empty t r : payload_ok U t r ∅.
Proof. intros k e. by rewrite lookup_empty. Qed.
Local Hint Resolve payload_ok_empty : interocitor.

Lemma cols_ok_fresh t r d cols : cols_ok U t r cols → cols_ok U t r (fresh_cols d cols).
Proof.
  unfold cols_ok, fresh_cols. rewrite !list.Forall_forall. intros H x Hx. apply H.
  by apply list_elem_of_filter in Hx as [_ ?].
Qed.

Lemma blank_ok t r : row_ok U t r (blankRow t r schemaVersion false None).
Proof. by split_and!. Qed.

Lemma default_ok t r o : (∀ row, o = Some row → row_ok U t r row) →
  row_ok U t r (default (blankRow t r schemaVersion false None) o).
Proof. destruct o; simpl; [eauto|]. intros _. apply blank_ok. Qed.

(** The two shapes of a well-formed row. *)
Lemma row_ok_cases t r row : row_ok U t r row →
  (tomb_stamp row = None ∧ rm_deleted (_meta row) = false ∧ rm_deletedHlc (_meta row) = None ∧
     payload_ok U t r (payload row)) ∨
  (∃ d, tomb_stamp row = Some d ∧ canonical d ∧ payload row = ∅ ∧
     row = mkRow (with_deleted (_meta row) true (Some d)) ∅).
Proof.
  destruct row as [[tb rid del dh sv ow ky] p]. unfold row_ok, tomb_stamp. simpl.
  intros (-> & -> & Hp & H). destruct del; [right|by left].
  destruct H as [-> (d & -> & Hd)]. exists d.
  by rewrite opt_truthy_Some by eauto with interocitor.
Qed.

Lemma upsertRow_result t r cols o :
  (∀ row, o = Some row → row_ok U t r row) → cols_ok U t r cols →
  ∃ ch, upsertRow o t r cols schemaVersion schema = (Ok ch, upsert_result t r cols o) ∧
        (ch = false ↔ o = Some (upsert_result t r cols o)).
Proof.
  intros Ho Hc. pose proof (default_ok t r o Ho) as Hrow.
  unfold upsertRow, upsert_result. fold (tomb_stamp (default (blankRow t r schemaVersion false None) o)).
  set (row := default _ _) in *.
  destruct (row_ok_cases t r row Hrow) as [(-> & _ & _ & Hp)|(d & Ed & Hd & Hpe & Erow)].
  - destruct (applyColumns_join t r cols row (match o with None => true | Some _ => false end) Hp Hc)
      as (ch & -> & Hch). exists ch. split; [done|]. rewrite Hch. clear Hch Ho.
    destruct o as [row0|]; simpl in *; subst row; [|by split; [intros []|]].
    destruct row0 as [m p]; simpl. split; [by intros [_ ->]|by intros [= <-]].
  - rewrite Ed. fold (fresh_cols d cols). pose proof (cols_ok_fresh t r d cols Hc) as Hf.
    assert (o = Some row) as Ho'.
    { subst row. destruct o as [row0|]; [done|]. simpl in Ed. unfold tomb_stamp in Ed. done. }
    destruct (fresh_cols d cols) as [|kv l] eqn:El; [by exists false|].
    destruct (applyColumns_join t r (kv :: l) (mkRow (with_deleted (_meta row) false None) ∅) true)
      as (ch & -> & Hch); [apply payload_ok_empty|done|].
    exists ch. split; [done|]. rewrite Hch. split; [by intros [? _]|].
    rewrite Ho'. intros [= E]. rewrite Erow in E. by apply (f_equal (rm_deleted ∘ _meta)) in E.
Qed.

Lemma upsert_result_ok t r cols o :
  (∀ row, o = Some row → row_ok U t r row) → cols_ok U t r cols →
  row_ok U t r (upsert_result t r cols o).
Proof.
  intros Ho Hc. pose proof (default_ok t r o Ho) as Hrow. unfold upsert_result.
  set (row := default _ _) in *. clearbody row. pose proof Hrow as (Ht & Hr & _ & _).
  destruct (row_ok_cases t r row Hrow) as [(-> & Hdel & Hdh & Hp)|(d & -> & _ & _ & _)].
  - unfold row_ok. simpl. rewrite Hdel. split_and!; try done. by apply join_cols_ok.
  - pose proof (cols_ok_fresh t r d cols Hc). destruct (fresh_cols d cols) as [|kv l]; [done|].
    unfold row_ok. split_and!; try done. apply join_cols_ok; [apply payload_ok_empty|done].
Qed.

Lemma deleteRow_ok t r h o row :
  (∀ row, o = Some row → row_ok U t r row) → canonical h →
  deleteRow o t r h schemaVersion = Some row →
  row_ok U t r row ∧ rm_deleted (_meta row) = true ∧ rm_deletedHlc (_meta row) = Some h ∧
  payload row = ∅.
Proof.
  intros Ho Hh. unfold deleteRow. destruct o as [row0|].
  - destruct (Ho row0 eq_refl) as (? & ? & _). repeat case_match; try done; intros [= <-];
      unfold row_ok; simpl; split_and!; eauto with interocitor.
  - intros [= <-]. unfold row_ok; simpl; split_and!; eauto with interocitor.
Qed.

Lemma step_row_ok op o :
  op_ok U op → (∀ row, o = Some row → row_ok U (op_table op) (op_rowId op) row) →
  row_ok U (op_table op) (op_rowId op) (step_row op o).
Proof.
  destruct op as [t r cols|t r h]; simpl; intros Hop Ho; [by apply upsert_result_ok|].
  destruct (deleteRow o t r h schemaVersion) as [row|] eqn:E; simpl; [|by apply default_ok].
  by eapply deleteRow_ok.
Qed.

(** A delete that is reported did change the row. *)
Lemma deleteRow_changes t r h row row' :
  row_ok U t r row → canonical h →
  deleteRow (Some row) t r h schemaVersion = Some row' → row ≠ row'.
Proof.
  intros Hrow Hh. simpl.
  destruct (row_ok_cases t r row Hrow) as [(_ & Hdel & _ & _)|(d & _ & Hd & Hpe & ->)]; simpl.
  - repeat case_match; try done; intros [= <-] E; by rewrite E in Hdel.
  - rewrite (canonical_truthy d Hd). destruct (num_leb _ _) eqn:E; [done|].
    repeat case_match; try done. intros [= <-] [= <-].
    stamp_cases d d; [congruence..|]. exact (stamp_irrefl d Hd Hcmp).
Qed.

Lemma ensure_table_getRow (tables : Tables) t t' r :
  getRow (match tables !! t with None => <[t := ∅]> tables | Some _ => tables end) t' r =
    getRow tables t' r.
Proof.
  destruct (tables !! t) eqn:E; [done|]. unfold getRow.
  destruct (decide (t = t')) as [<-|]; [|by rewrite lookup_insert_ne].
  rewrite lookup_insert_eq, E. simpl. apply lookup_empty.
Qed.
Lemma ensure_table_setRow (tables : Tables) t r row :
  setRow (match tables !! t with None => <[t := ∅]> tables | Some _ => tables end) t r row =
    setRow tables t r row.
Proof.
  destruct (tables !! t) eqn:E; [done|]. unfold setRow.
  by rewrite lookup_insert_eq, E, insert_insert_eq.
Qed.
Lemma setRow_same (tables : Tables) t r row :
  getRow tables t r = Some row → setRow tables t r row = tables.
Proof.
  unfold getRow, setRow. destruct (tables !! t) as [tbl|] eqn:E; [|done]. simpl. intros.
  by rewrite (insert_id tbl), insert_id.
Qed.

(** [applyOp] on well-formed data: it returns, its effect is [step_row] on
    the row it names and nothing else, and it reports the row exactly when
    the row changed. *)
Lemma applyOp_step op tables :
  op_ok U op → tables_ok U tables →
  ∃ res, applyOp op schemaVersion schema tables = (Ok res, step_tables tables op) ∧
    match res with
    | None => getRow tables (op_table op) (op_rowId op) =
                Some (step_row op (getRow tables (op_table op) (op_rowId op)))
    | Some row => row = step_row op (getRow tables (op_table op) (op_rowId op)) ∧
                  getRow tables (op_table op) (op_rowId op) ≠ Some row
    end.
Proof.
  intros Hop Htb. unfold applyOp, step_tables. rewrite ensure_table_getRow.
  pose proof (Htb (op_table op) (op_rowId op)) as Ho.
  set (o := getRow tables (op_table op) (op_rowId op)) in *.
  destruct op as [t r cols|t r h]; simpl in *.
  - destruct (upsertRow_result t r cols o) as (ch & -> & Hch); [done..|].
    rewrite ensure_table_setRow. destruct ch; eexists; (split; [done|]); simpl.
    + split; [done|]. intros E. by apply Hch in E.
    + by apply Hch.
  - destruct (deleteRow o t r h schemaVersion) as [row|] eqn:E; simpl.
    + rewrite ensure_table_setRow. eexists; split; [done|]. simpl. split; [done|].
      destruct o as [row0|] eqn:Eo; [|done]. intros [= ->].
      by eapply deleteRow_changes; [apply Ho| |exact E|].
    + unfold deleteRow in E. destruct o as [row0|] eqn:Eo; [|done]. simpl.
      exists None. split; [|done]. rewrite setRow_same by done.
      unfold o, getRow in Eo. by destruct (tables !! t).
Qed.

Lemma step_tables_ok op tables :
  op_ok U op → tables_ok U tables → tables_ok U (step_tables tables op).
Proof.
  intros Hop Htb t r row. unfold step_tables.
  destruct (decide ((op_table op, op_rowId op) = (t, r))) as [[= <- <-]|Hne].
  - rewrite getRow_setRow_eq. intros [= <-]. apply step_row_ok; [done|]. apply Htb.
  - rewrite getRow_setRow_ne by done. apply Htb.
Qed.

Lemma applyOps_steps ops tables :
  Forall (op_ok U) ops → tables_ok U tables →
  ∃ rows, applyOps ops schemaVersion schema tables = (Ok rows, foldl step_tables tables ops).
Proof.
  intros Hops. revert tables. induction Hops as [|op ops Hop Hops IH]; intros tables Htb; simpl.
  { by exists []. }
  destruct (applyOp_step op tables Hop Htb) as (res & Hres & _).
  destruct (IH (step_tables tables op)) as (rows & Hrows); [by apply step_tables_ok|].
  eexists. unfold mbind, M_bind. rewrite Hres. unfold mbind, M_bind. by rewrite Hrows.
Qed.
End merge.

(** [applyOp] on well-formed tables returns, leaves the tables well-formed,
    touches only the row it names, and returns that row exactly when it
    changed ([null] otherwise). *)
Theorem applyOp_effect (U : string → string → string → ColumnEntry → Prop)
    (schema : option DatabaseSchemaDefinition) (sv : Z) (op : Op) (tables : Tables) :
  Universe U → (∀ t k, resolveStrategy schema t k = Ok Lww) →
  op_ok U op → tables_ok U tables →
  ∃ res tables', applyOp op sv schema tables = (Ok res, tables') ∧ tables_ok U tables' ∧
    (∀ t r, (t, r) ≠ (op_table op, op_rowId op) → getRow tables' t r = getRow tables t r) ∧
    match res with
    | None => getRow tables' (op_table op) (op_rowId op) = getRow tables (op_table op) (op_rowId op)
    | Some row => getRow tables' (op_table op) (op_rowId op) = Some row ∧
                  getRow tables (op_table op) (op_rowId op) ≠ Some row
    end.
Proof.
  intros HU Hlww Hop Htb. destruct (applyOp_step U schema sv Hlww op tables Hop Htb) as (res & -> & Hres).
  eexists _, _. split; [done|]. split; [by apply step_tables_ok|]. unfold step_tables. split.
  - intros t r Hne. by apply getRow_setRow_ne.
  - rewrite getRow_setRow_eq. destruct res; [|by symmetry]. destruct Hres as [-> ?]. done.
Qed.
