(* ===== verification/Convergence.v ===== *)
(** * Convergence of the merge engine

    What replicas that apply the same operations in different orders agree on.
    Histories of upserts over live rows converge; an operation applied again
    changes nothing (with one exception, shown below); deletes commute with
    deletes and with every upsert that lies wholly on one side of them.  The two
    cases outside these laws are exhibited on concrete histories. *)

From S2P Require Import Prelude JsString Hlc Values Crdt.
From Stdlib Require String.

Open Scope stdpp_scope.

(** The later of two stamps. *)
Definition later (a b : string) : string := if newer b a then b else a.

Lemma later_canonical a b : canonical a → canonical b → canonical (later a b).
Proof. intros. unfold later. by case_match. Qed.

Lemma later_comm a b : canonical a → canonical b → later a b = later b a.
Proof.
  intros Ha Hb. unfold later.
  destruct (newer b a) eqn:E1, (newer a b) eqn:E2; try done.
  - apply newer_spec in E1, E2; try done. by destruct (stamp_asym a b Ha Hb E1).
  - apply newer_false in E1, E2; try done. by destruct (stamp_not_lt a b Ha Hb E1).
Qed.

Lemma later_swap d a b : canonical d → canonical a → canonical b →
  later (later d a) b = later (later d b) a.
Proof.
  intros Hd Ha Hb. unfold later at 2 4.
  destruct (newer a d) eqn:E1, (newer b d) eqn:E2; [by apply later_comm| | |].
  - unfold later. rewrite E1. destruct (newer b a) eqn:E3; [|done].
    apply newer_spec in E1, E3; [|done..]. apply newer_false in E2; [|done..].
    destruct E2. by apply stamp_trans with a.
  - unfold later. rewrite E2. destruct (newer a b) eqn:E3; [|done].
    apply newer_spec in E2, E3; [|done..]. apply newer_false in E1; [|done..].
    destruct E1. by apply stamp_trans with b.
  - unfold later. by rewrite E1, E2.
Qed.

Section convergence.
Context (U : string → string → string → ColumnEntry → Prop) `{HU : !Universe U}.
Context (schema : option DatabaseSchemaDefinition) (schemaVersion : Z).
Context (Hlww : ∀ t k, resolveStrategy schema t k = Ok Lww).

Abbreviation step_row := (step_row schemaVersion).
Abbreviation step_tables := (step_tables schemaVersion).

Local Hint Resolve U_canonical U_value : interocitor.

Definition live (o : option Row) : Prop :=
  ∀ row, o = Some row → rm_deleted (_meta row) = false.
Definition all_live (tables : Tables) : Prop := ∀ t r, live (getRow tables t r).
Definition is_upsert (op : Op) : Prop :=
  match op with UpsertOp _ _ _ => True | DeleteOp _ _ _ => False end.
Definition row_fits (op : Op) (o : option Row) : Prop :=
  ∀ row, o = Some row → row_ok U (op_table op) (op_rowId op) row.

Lemma tomb_stamp_live row : rm_deleted (_meta row) = false → tomb_stamp row = None.
Proof. intros H. unfold tomb_stamp. by rewrite H. Qed.

Lemma default_live t r o : live o →
  rm_deleted (_meta (default (blankRow t r schemaVersion false None) o)) = false.
Proof. intros H. destruct o; [by apply H|done]. Qed.

Lemma live_Some row : rm_deleted (_meta row) = false → live (Some row).
Proof. by intros H ? [= <-]. Qed.

(** On a live or absent row an upsert joins its columns into the payload. *)
Lemma upsert_live t r cols o : live o →
  step_row (UpsertOp t r cols) o =
    mkRow (_meta (default (blankRow t r schemaVersion false None) o))
      (join_cols (payload (default (blankRow t r schemaVersion false None) o)) cols).
Proof.
  intros Ho. simpl. unfold upsert_result. by rewrite tomb_stamp_live by by apply default_live.
Qed.

Lemma upsert_live_live t r cols o : live o → live (Some (step_row (UpsertOp t r cols) o)).
Proof. intros Ho. apply live_Some. rewrite upsert_live by done. by apply default_live. Qed.

Lemma row_fits_payload op o : row_fits op o →
  payload_ok U (op_table op) (op_rowId op)
    (payload (default (blankRow (op_table op) (op_rowId op) schemaVersion false None) o)).
Proof.
  intros Ho. destruct o as [row|]; simpl; [by destruct (Ho row eq_refl) as (_&_&?&_)|].
  apply payload_ok_empty.
Qed.

Lemma join_cols_app p a b : join_cols (join_cols p a) b = join_cols p (a ++ b).
Proof. unfold join_cols. by rewrite foldl_app. Qed.

Lemma upsert_upsert_comm t r c1 c2 o :
  live o → row_fits (UpsertOp t r c1) o → cols_ok U t r c1 → cols_ok U t r c2 →
  step_row (UpsertOp t r c2) (Some (step_row (UpsertOp t r c1) o)) =
  step_row (UpsertOp t r c1) (Some (step_row (UpsertOp t r c2) o)).
Proof.
  intros Ho Hok H1 H2. rewrite !upsert_live by auto using upsert_live_live.
  cbn [from_option id _meta payload]. f_equal. rewrite !join_cols_app.
  eapply (join_cols_perm U t r); [by apply (row_fits_payload (UpsertOp t r c1))| |].
  - by apply Forall_app_2.
  - apply Permutation_app_comm.
Qed.

(** Steps on different rows always commute; on the same row they commute when
    their row functions do. *)
Lemma step_tables_comm op1 op2 tables :
  (op_table op1 = op_table op2 → op_rowId op1 = op_rowId op2 →
   let o := getRow tables (op_table op1) (op_rowId op1) in
   step_row op2 (Some (step_row op1 o)) = step_row op1 (Some (step_row op2 o))) →
  step_tables (step_tables tables op1) op2 = step_tables (step_tables tables op2) op1.
Proof.
  intros Hrow. unfold Crdt.step_tables.
  destruct (decide ((op_table op1, op_rowId op1) = (op_table op2, op_rowId op2))) as [E|Hne].
  - injection E as Et Er. specialize (Hrow Et Er). simpl in Hrow. rewrite <- Et, <- Er.
    by rewrite !getRow_setRow_eq, !setRow_setRow_eq, Hrow.
  - rewrite !getRow_setRow_ne by congruence. by rewrite setRow_comm.
Qed.

Lemma step_tables_live op tables :
  is_upsert op → all_live tables → all_live (step_tables tables op).
Proof.
  destruct op as [t r cols|]; [|done]. intros _ Hl t' r'. unfold Crdt.step_tables. simpl op_table. simpl op_rowId.
  destruct (decide ((t, r) = (t', r'))) as [[= <- <-]|].
  - rewrite getRow_setRow_eq. apply upsert_live_live, Hl.
  - rewrite getRow_setRow_ne by done. apply Hl.
Qed.

Lemma upserts_perm ops1 ops2 tables :
  Forall (op_ok U) ops1 → Forall is_upsert ops1 → tables_ok U tables → all_live tables →
  ops1 ≡ₚ ops2 → foldl step_tables tables ops1 = foldl step_tables tables ops2.
Proof.
  intros Hok Hup Htb Hl Hperm.
  apply (foldl_perm (λ tb, tables_ok U tb ∧ all_live tb) (λ op, op_ok U op ∧ is_upsert op));
    [..|done|done|].
  - intros tb op [??] [??]. split; [by apply step_tables_ok|by apply step_tables_live].
  - intros tb op1 op2 [Htb' Hl'] [Hok1 Hup1] [Hok2 Hup2]. apply step_tables_comm. intros Et Er.
    destruct op1 as [t r c1|], op2 as [t' r' c2|]; [|done..]. simpl in *. subst t' r'.
    apply upsert_upsert_comm; try done. intros row Hrow. by apply Htb'.
  - by apply Forall_and.
Qed.

(** ** Redelivery *)

Lemma join_cols_dominates t r p cols k e :
  payload_ok U t r p → cols_ok U t r cols → (k, e) ∈ cols →
  ∃ e', join_cols p cols !! k = Some e' ∧ ¬ slt (hlc e') (hlc e).
Proof.
  intros Hp Hc Hin. revert p Hp. induction Hc as [|[k' e'] cols Hke Hc IH];
    [by apply not_elem_of_nil in Hin|]. intros p Hp. simpl.
  assert (payload_ok U t r (join_step p (k', e'))) as Hp1 by by eapply join_step_ok.
  apply elem_of_cons in Hin as [[= <- <-]|Hin]; [|by apply IH].
  assert (∃ e1, join_step p (k, e) !! k = Some e1 ∧ ¬ slt (hlc e1) (hlc e)) as (e1 & Hk1 & Hle1).
  { unfold join_step. simpl. rewrite lookup_insert_eq. eexists; split; [done|].
    destruct (p !! k) as [e0|] eqn:E; simpl; [|apply stamp_irrefl; eauto with interocitor].
    destruct (newer _ _) eqn:En; [apply stamp_irrefl; eauto with interocitor|].
    apply newer_false in En; eauto with interocitor. }
  destruct (join_cols_mono U t r _ cols k e1 Hp1 Hc Hk1) as (e2 & Hk2 & Hle2).
  exists e2. split; [done|].
  pose proof (join_cols_ok U t r _ cols Hp1 Hc k e2 Hk2). pose proof (Hp1 k e1 Hk1).
  eapply stamp_le_trans with (hlc e1); eauto with interocitor.
Qed.

Lemma join_cols_absorb t r p cols :
  payload_ok U t r p → cols_ok U t r cols →
  (∀ k e, (k, e) ∈ cols → ∃ e', p !! k = Some e' ∧ ¬ slt (hlc e') (hlc e)) →
  join_cols p cols = p.
Proof.
  intros Hp Hc. induction Hc as [|[k e] cols Hke Hc IH]; intros Hdom; [done|]. simpl.
  assert (join_step p (k, e) = p) as ->.
  { destruct (Hdom k e) as (e0 & Hk & Hle); [by left|]. unfold join_step. simpl.
    rewrite Hk. simpl. apply newer_false in Hle; [|by eauto with interocitor..].
    rewrite Hle. by apply insert_id. }
  apply IH. intros. apply Hdom. by right.
Qed.

(** The shapes of a tombstone. *)
Lemma upsert_tomb t r cols row d : tomb_stamp row = Some d →
  step_row (UpsertOp t r cols) (Some row) =
    match fresh_cols d cols with
    | [] => row
    | l => mkRow (with_deleted (_meta row) false None) (join_cols ∅ l)
    end.
Proof. intros H. simpl. unfold upsert_result. simpl. by rewrite H. Qed.

Lemma fresh_cols_elem d cols k e :
  (k, e) ∈ fresh_cols d cols ↔ newer (hlc e) d = true ∧ (k, e) ∈ cols.
Proof. unfold fresh_cols. by rewrite list_elem_of_filter. Qed.

Lemma hasNewerColumn_spec t r p h : payload_ok U t r p → canonical h →
  hasNewerColumn p h = true ↔ ∃ k e, p !! k = Some e ∧ slt h (hlc e).
Proof.
  intros Hp Hh. unfold hasNewerColumn. rewrite existsb_exists. split.
  - intros ([k e] & Hin & [_ Hn]%andb_true_iff). apply list_elem_of_In, elem_of_map_to_list in Hin.
    exists k, e. split; [done|]. simpl in Hn. pose proof (Hp k e Hin).
    apply newer_spec; eauto with interocitor.
  - intros (k & e & Hk & Hlt). exists (k, e). pose proof (Hp k e Hk) as He.
    split; [by apply list_elem_of_In, elem_of_map_to_list|]. simpl.
    rewrite canonical_truthy by eauto with interocitor. simpl.
    apply newer_spec; eauto with interocitor.
Qed.

Lemma hasNewerColumn_empty h : hasNewerColumn ∅ h = false.
Proof. unfold hasNewerColumn. by rewrite map_to_list_empty. Qed.

Definition tomb (row : Row) (h : string) : Row := mkRow (with_deleted (_meta row) true (Some h)) ∅.

Lemma delete_live t r h row :
  rm_deleted (_meta row) = false → rm_deletedHlc (_meta row) = None →
  step_row (DeleteOp t r h) (Some row) =
    if hasNewerColumn (payload row) h then row else tomb row h.
Proof. intros Hd Hh. simpl. rewrite Hh. simpl. by destruct (hasNewerColumn _ _). Qed.

Lemma delete_tomb t r h m d : canonical d → canonical h →
  step_row (DeleteOp t r h) (Some (mkRow (with_deleted m true (Some d)) ∅)) =
    mkRow (with_deleted m true (Some (later d h))) ∅.
Proof.
  intros Hd Hh. simpl. rewrite (canonical_truthy d Hd), hasNewerColumn_empty. unfold later, newer.
  stamp_cases h d.
  - by rewrite Hle, Hgt.
  - by rewrite Hle, Hgt.
  - by rewrite Hle, Hgt.
Qed.

(** When redelivery is harmless: always, except for an upsert that revives a
    tombstone and also carries columns the tombstone covers. *)
Definition settles (op : Op) (o : option Row) : Prop :=
  match op, o with
  | UpsertOp _ _ cols, Some row =>
      match tomb_stamp row with
      | Some d => fresh_cols d cols = [] ∨ fresh_cols d cols = cols
      | None => True
      end
  | _, _ => True
  end.

Lemma upsert_again t r cols o :
  live o → row_fits (UpsertOp t r cols) o → cols_ok U t r cols →
  step_row (UpsertOp t r cols) (Some (step_row (UpsertOp t r cols) o)) =
  step_row (UpsertOp t r cols) o.
Proof.
  intros Ho Hok Hc. rewrite !upsert_live by auto using upsert_live_live.
  cbn [from_option id _meta payload]. f_equal.
  pose proof (row_fits_payload _ o Hok) as Hp. simpl in Hp.
  apply (join_cols_absorb t r); [by apply join_cols_ok|done|].
  intros. by apply (join_cols_dominates t r).
Qed.

Lemma step_row_again op o :
  op_ok U op → row_fits op o → settles op o →
  step_row op (Some (step_row op o)) = step_row op o.
Proof.
  intros Hop Hok Hs. destruct op as [t r cols|t r h].
  - destruct o as [row|]; [|by apply upsert_again].
    destruct (row_ok_cases U t r row (Hok row eq_refl))
      as [(_ & Hdel & _ & _)|(d & Ed & Hd & Hpe & Erow)].
    { apply upsert_again; try done. by apply live_Some. }
    simpl in Hs. rewrite Ed in Hs. rewrite (upsert_tomb t r cols row d Ed).
    destruct (fresh_cols d cols) as [|kv l] eqn:El.
    { by rewrite (upsert_tomb t r cols row d Ed), El. }
    destruct Hs as [Hs|Hs]; [done|]. rewrite Hs.
    rewrite upsert_live by by apply live_Some. cbn [from_option id _meta payload]. f_equal.
    apply (join_cols_absorb t r);
      [by apply join_cols_ok; [apply payload_ok_empty|]|done|].
    intros. by apply (join_cols_dominates t r); [apply payload_ok_empty|..].
  - destruct o as [row|].
    + destruct (row_ok_cases U t r row (Hok row eq_refl))
        as [(_ & Hdel & Hdh & Hp)|(d & Ed & Hd & Hpe & ->)].
      * rewrite (delete_live t r h row) by done. destruct (hasNewerColumn (payload row) h) eqn:E.
        { by rewrite delete_live, E by done. }
        unfold tomb. rewrite delete_tomb by done. unfold later. by case_match.
      * rewrite (delete_tomb t r h _ d), delete_tomb by auto using later_canonical.
        unfold later. destruct (newer h d) eqn:E; [by case_match|by rewrite E].
    + simpl. rewrite (canonical_truthy h Hop). stamp_cases h h; by rewrite ?Hle, ?hasNewerColumn_empty.
Qed.

(** ** Deletes *)

Lemma delete_delete_comm t r h1 h2 o :
  canonical h1 → canonical h2 → row_fits (DeleteOp t r h1) o →
  step_row (DeleteOp t r h2) (Some (step_row (DeleteOp t r h1) o)) =
  step_row (DeleteOp t r h1) (Some (step_row (DeleteOp t r h2) o)).
Proof.
  intros H1 H2 Hok.
  assert (∀ m, step_row (DeleteOp t r h2) (Some (mkRow (with_deleted m true (Some h1)) ∅)) =
               step_row (DeleteOp t r h1) (Some (mkRow (with_deleted m true (Some h2)) ∅))) as Htt.
  { intros m. rewrite !delete_tomb by done. by rewrite later_comm. }
  destruct o as [row|]; [|exact (Htt (_meta (blankRow t r schemaVersion false None)))].
  destruct (row_ok_cases U t r row (Hok row eq_refl))
    as [(_ & Hdel & Hdh & Hp)|(d & Ed & Hd & Hpe & ->)].
  - rewrite (delete_live t r h1 row), (delete_live t r h2 row) by done.
    destruct (hasNewerColumn (payload row) h1) eqn:E1, (hasNewerColumn (payload row) h2) eqn:E2;
      rewrite ?delete_live, ?E1, ?E2 by done; [done|..|apply Htt].
    + unfold tomb. rewrite delete_tomb by done.
      unfold later. rewrite (proj2 (newer_false h1 h2 H1 H2)); [done|]. intros Hlt.
      apply not_true_iff_false in E2. apply E2. apply (hasNewerColumn_spec t r); [done..|].
      apply (hasNewerColumn_spec t r) in E1 as (k & e & Hk & He); [|done..].
      exists k, e. split; [done|]. pose proof (Hp k e Hk).
      eapply stamp_trans with h1; eauto with interocitor.
    + unfold tomb. rewrite delete_tomb by done.
      rewrite (delete_live t r h1 row), E1 by done.
      unfold later. rewrite (proj2 (newer_false h2 h1 H2 H1)); [done|]. intros Hlt.
      apply not_true_iff_false in E1. apply E1. apply (hasNewerColumn_spec t r); [done..|].
      apply (hasNewerColumn_spec t r) in E2 as (k & e & Hk & He); [|done..].
      exists k, e. split; [done|]. pose proof (Hp k e Hk).
      eapply stamp_trans with h2; eauto with interocitor.
  - rewrite (delete_tomb t r h1 _ d), (delete_tomb t r h2 _ d) by done.
    rewrite !delete_tomb by auto using later_canonical. by rewrite later_swap.
Qed.

Lemma join_cols_origin p cols k e :
  join_cols p cols !! k = Some e → p !! k = Some e ∨ (k, e) ∈ cols.
Proof.
  revert p. induction cols as [|[k' e'] cols IH]; intros p; simpl; [by left|].
  intros [H|H]%IH; [|by right; right]. unfold join_step in H. simpl in H.
  destruct (decide (k' = k)) as [->|]; [|rewrite lookup_insert_ne in H by done; by left].
  rewrite lookup_insert_eq in H. injection H as <-. destruct (p !! k) as [e0|]; simpl.
  - case_match; [right; left|by left].
  - right; left.
Qed.

Lemma hasNewer_join t r p cols h :
  payload_ok U t r p → cols_ok U t r cols → canonical h →
  hasNewerColumn (join_cols p cols) h = true ↔
    hasNewerColumn p h = true ∨ ∃ k e, (k, e) ∈ cols ∧ newer (hlc e) h = true.
Proof.
  intros Hp Hc Hh. pose proof (join_cols_ok U t r p cols Hp Hc) as Hj.
  assert (∀ k e e', U t r k e → U t r k e' → slt h (hlc e) → ¬ slt (hlc e') (hlc e) →
            slt h (hlc e')) as Hup.
  { intros k e e' ????. apply stamp_lt_le_trans with (hlc e); eauto with interocitor. }
  assert (∀ k e, (k, e) ∈ cols → U t r k e) as Hce.
  { intros k e Hin. by eapply (proj1 (list.Forall_forall _ _) Hc (k, e)). }
  rewrite !(hasNewerColumn_spec t r) by done. split.
  - intros (k & e & Hk & Hlt). destruct (join_cols_origin p cols k e Hk) as [Hk'|Hin].
    + left. by exists k, e.
    + right. exists k, e. split; [done|]. apply newer_spec; eauto with interocitor.
  - intros [(k & e & Hk & Hlt)|(k & e & Hin & Hn)].
    + destruct (join_cols_mono U t r p cols k e Hp Hc Hk) as (e' & Hk' & Hle).
      exists k, e'. split; [done|]. eapply (Hup k e e'); eauto.
    + destruct (join_cols_dominates t r p cols k e Hp Hc Hin) as (e' & Hk' & Hle).
      exists k, e'. split; [done|]. apply (Hup k e e'); eauto.
      apply newer_spec; eauto with interocitor.
Qed.

Lemma fresh_cols_nil d cols :
  (∀ k e, (k, e) ∈ cols → newer (hlc e) d = false) → fresh_cols d cols = [].
Proof.
  intros H. destruct (fresh_cols d cols) as [|[k e] l] eqn:E; [done|].
  assert ((k, e) ∈ fresh_cols d cols) as [Hn Hin]%fresh_cols_elem by (rewrite E; left).
  by rewrite (H k e Hin) in Hn.
Qed.
Lemma fresh_cols_all d cols :
  (∀ k e, (k, e) ∈ cols → newer (hlc e) d = true) → fresh_cols d cols = cols.
Proof.
  induction cols as [|[k e] cols IH]; intros H; [done|]. unfold fresh_cols in *.
  rewrite filter_cons_True by apply (H k e ltac:(left)).
  f_equal. apply IH. intros. apply (H k0). by right.
Qed.

(** The upsert lies wholly on one side of the delete, or the delete has
    already lost to a newer column of the row. *)
Definition separated (h : string) (cols : list (string * ColumnEntry)) (o : option Row) : Prop :=
  (∀ k e, (k, e) ∈ cols → newer (hlc e) h = false) ∨
  (∃ row, o = Some row ∧ hasNewerColumn (payload row) h = true) ∨
  ((∀ k e, (k, e) ∈ cols → newer (hlc e) h = true) ∧
   (∀ row, o = Some row → rm_deleted (_meta row) = true)).

Lemma delete_absent t r h :
  step_row (DeleteOp t r h) None = tomb (blankRow t r schemaVersion false None) h.
Proof. done. Qed.

Lemma tomb_tomb row h : canonical h → tomb_stamp (tomb row h) = Some h.
Proof. intros. unfold tomb_stamp, tomb. simpl. by rewrite canonical_truthy. Qed.

(** Both orders, starting from a live or absent row. *)
Lemma delete_upsert_live t r h cols o row :
  row = default (blankRow t r schemaVersion false None) o → live o →
  row_fits (UpsertOp t r cols) o → cols_ok U t r cols → canonical h →
  separated h cols o →
  step_row (UpsertOp t r cols) (Some (step_row (DeleteOp t r h) o)) =
  step_row (DeleteOp t r h) (Some (step_row (UpsertOp t r cols) o)).
Proof.
  intros Erow Hl Hok Hc Hh Hsep. pose proof (row_fits_payload _ o Hok) as Hp. simpl in Hp.
  pose proof (default_live t r o Hl) as Hdel.
  assert (rm_deletedHlc (_meta row) = None) as Hdh.
  { subst row. destruct o as [row|]; [|done]. destruct (Hok row eq_refl) as (_&_&_&H).
    by rewrite (Hl row eq_refl) in H. }
  assert (step_row (DeleteOp t r h) o =
            if hasNewerColumn (payload row) h then row else tomb row h) as Hd.
  { subst row. destruct o as [row|]; [by apply delete_live|]. simpl. by rewrite hasNewerColumn_empty. }
  rewrite Hd, (upsert_live t r cols o) by done. rewrite <- Erow in Hp, Hdel |- *.
  rewrite (delete_live t r h (mkRow _ _)) by done. cbn [payload].
  pose proof (hasNewer_join t r (payload row) cols h Hp Hc Hh) as Hj.
  destruct (hasNewerColumn (payload row) h) eqn:E.
  - rewrite (proj2 Hj) by by left. rewrite upsert_live by by apply live_Some. done.
  - rewrite (upsert_tomb t r cols (tomb row h) h) by by apply tomb_tomb.
    destruct Hsep as [Hold|[(row' & -> & Hn)|[Hnew Htomb]]].
    + rewrite fresh_cols_nil by done.
      destruct (hasNewerColumn (join_cols _ _) h) eqn:E2; [|done].
      destruct (proj1 Hj eq_refl) as [|(k & e & Hin & Hn)]; [done|].
      by rewrite (Hold k e Hin) in Hn.
    + simpl in Erow. subst row. congruence.
    + destruct o as [row'|].
      { pose proof (Hl row' eq_refl). pose proof (Htomb row' eq_refl). congruence. }
      simpl in Erow. subst row. rewrite fresh_cols_all by done. destruct cols as [|[k e] cols]; [done|].
      rewrite (proj2 Hj); [done|]. right. exists k, e. split; [left|]. apply (Hnew k e). left.
Qed.

(** Both orders, starting from a tombstone. *)
Lemma delete_upsert_tomb t r h cols m d :
  canonical d → cols_ok U t r cols → canonical h →
  (∀ k e, (k, e) ∈ cols → newer (hlc e) h = false) ∨
    (∀ k e, (k, e) ∈ cols → newer (hlc e) h = true) →
  let row := mkRow (with_deleted m true (Some d)) ∅ in
  step_row (UpsertOp t r cols) (Some (step_row (DeleteOp t r h) (Some row))) =
  step_row (DeleteOp t r h) (Some (step_row (UpsertOp t r cols) (Some row))).
Proof.
  intros Hd Hc Hh Hside row. subst row. rewrite delete_tomb by done.
  assert (∀ x, canonical x → tomb_stamp (mkRow (with_deleted m true (Some x)) ∅) = Some x) as Hts.
  { intros x Hx. unfold tomb_stamp. simpl. by rewrite canonical_truthy. }
  rewrite (upsert_tomb t r cols _ (later d h)) by (apply Hts; by apply later_canonical).
  rewrite (upsert_tomb t r cols _ d) by by apply Hts.
  change (with_deleted (_meta (mkRow (with_deleted m true (Some ?x)) ∅)) false None)
    with (with_deleted m false None).
  assert (∀ k e, (k, e) ∈ cols → canonical (hlc e)) as Hcan.
  { intros k e Hin. eapply (U_canonical t r k).
    exact (proj1 (list.Forall_forall _ _) Hc (k, e) Hin). }
  pose proof (cols_ok_fresh U t r d cols Hc) as Hf.
  assert (∀ l, cols_ok U t r l → step_row (DeleteOp t r h)
      (Some (mkRow (with_deleted m false None) (join_cols ∅ l))) =
      if hasNewerColumn (join_cols ∅ l) h then mkRow (with_deleted m false None) (join_cols ∅ l)
      else mkRow (with_deleted m true (Some h)) ∅) as Hdel.
  { intros l Hcl. by rewrite delete_live. }
  destruct Hside as [Hold|Hnew].
  - rewrite (fresh_cols_nil (later d h)); last first.
    { intros k e Hin. specialize (Hold k e Hin). unfold later. destruct (newer h d) eqn:E; [done|].
      apply newer_false in Hold; eauto. apply newer_false in E; [|done..].
      apply newer_false; eauto. eapply stamp_le_trans with h; eauto. }
    destruct (fresh_cols d cols) as [|[k e] l] eqn:El; [by rewrite delete_tomb|].
    assert ((k, e) ∈ fresh_cols d cols) as [Hn Hin]%fresh_cols_elem by (rewrite El; left).
    rewrite (Hdel _ Hf). clear Hdel.
    destruct (hasNewerColumn (join_cols ∅ _) h) eqn:E2.
    + apply (hasNewer_join t r) in E2 as [E2|(k' & e' & Hin' & Hn')];
        [by rewrite hasNewerColumn_empty in E2| |apply payload_ok_empty|done|done].
      rewrite <- El in Hin'. apply fresh_cols_elem in Hin' as [_ Hin'].
      by rewrite (Hold k' e' Hin') in Hn'.
    + unfold later. rewrite (proj2 (newer_spec h d Hh Hd)); [done|].
      specialize (Hold k e Hin). apply newer_false in Hold; eauto. apply newer_spec in Hn; eauto.
      eapply stamp_lt_le_trans with (hlc e); eauto.
  - assert (fresh_cols (later d h) cols = fresh_cols d cols) as ->.
    { unfold later. destruct (newer h d) eqn:E; [|done]. rewrite (fresh_cols_all h) by done.
      rewrite fresh_cols_all; [done|]. intros k e Hin. apply newer_spec in E; [|done..].
      specialize (Hnew k e Hin). apply newer_spec in Hnew; eauto. apply newer_spec; eauto.
      eapply stamp_trans with h; eauto. }
    destruct (fresh_cols d cols) as [|[k e] l] eqn:El; [by rewrite delete_tomb|].
    assert ((k, e) ∈ fresh_cols d cols) as [Hn Hin]%fresh_cols_elem by (rewrite El; left).
    rewrite (Hdel _ Hf).
    rewrite (proj2 (hasNewer_join t r ∅ ((k, e) :: l) h (payload_ok_empty _ _ _) Hf Hh)); [done|].
    right. exists k, e. split; [left|]. by apply (Hnew k e).
Qed.

Lemma delete_upsert_comm t r h cols o :
  row_fits (UpsertOp t r cols) o → cols_ok U t r cols → canonical h → separated h cols o →
  step_row (UpsertOp t r cols) (Some (step_row (DeleteOp t r h) o)) =
  step_row (DeleteOp t r h) (Some (step_row (UpsertOp t r cols) o)).
Proof.
  intros Hok Hc Hh Hsep. destruct o as [row|]; [|by eapply delete_upsert_live].
  destruct (row_ok_cases U t r row (Hok row eq_refl))
    as [(_ & Hdel & _ & _)|(d & Ed & Hd & Hpe & Erow)].
  - eapply delete_upsert_live; [done|by apply live_Some|done..].
  - rewrite Erow. apply delete_upsert_tomb; [done..|].
    destruct Hsep as [H|[(row' & [= <-] & Hn)|[H _]]]; [by left| |by right].
    by rewrite Hpe, hasNewerColumn_empty in Hn.
Qed.
End convergence.

(** ** A universe given by the entries of a history *)
Definition listed (l : list (string * string * string * ColumnEntry))
    (t r k : string) (e : ColumnEntry) : Prop := (t, r, k, e) ∈ l.

Lemma listed_universe l :
  Forall (λ x, canonicalb (hlc x.2) = true ∧ value_wf (value x.2)) l →
  NoDup ((λ x, hlc x.2) <$> l) → Universe (listed l).
Proof.
  rewrite list.Forall_forall. intros Hall Hnd. unfold listed. split.
  - intros t r k e Hin. apply canonicalb_spec. by destruct (Hall _ Hin).
  - intros t r k e Hin. by destruct (Hall _ Hin).
  - intros t r k e1 e2 H1 H2 E.
    apply list_elem_of_lookup in H1 as [i Hi]. apply list_elem_of_lookup in H2 as [j Hj].
    assert (i = j) as <-; [|congruence].
    eapply NoDup_lookup; [exact Hnd|..]; rewrite list_lookup_fmap.
    + rewrite Hi. simpl. done.
    + rewrite Hj. simpl. by rewrite E.
Qed.

(** ** Properties *)


(** an operation delivered a second time reports no change and leaves the
    tables alone, for every delete and for every upsert that does not revive
    a tombstone with part of its columns. *)
Theorem redelivery_is_silent (U : string → string → string → ColumnEntry → Prop)
    (schema : option DatabaseSchemaDefinition) (sv : Z) (op : Op) (tables : Tables) :
  Universe U → (∀ t k, resolveStrategy schema t k = Ok Lww) →
  op_ok U op → tables_ok U tables → settles op (getRow tables (op_table op) (op_rowId op)) →
  ∃ res tables', applyOp op sv schema tables = (Ok res, tables') ∧
                 applyOp op sv schema tables' = (Ok None, tables').
Proof.
  intros HU Hlww Hop Htb Hs. destruct (applyOp_step U schema sv Hlww op tables Hop Htb) as (res & H1 & _).
  exists res, (step_tables sv tables op). split; [done|].
  destruct (applyOp_step U schema sv Hlww op (step_tables sv tables op) Hop) as (res2 & -> & Hres2);
    [by apply step_tables_ok|].
  assert (step_tables sv (step_tables sv tables op) op = step_tables sv tables op) as E.
  { unfold step_tables. rewrite getRow_setRow_eq, setRow_setRow_eq.
    rewrite (step_row_again U) by (done || intros row; apply Htb). done. }
  rewrite E. destruct res2 as [row|]; [|done]. destruct Hres2 as [-> Hne].
  exfalso. apply Hne. rewrite <- E at 1. unfold step_tables at 1. apply getRow_setRow_eq.
Qed.

(** on one row, deletes commute with deletes, and a delete commutes with an
    upsert whose columns are all older than it, or all newer while the row is not
    live, or when the row already holds a newer column. *)
Theorem deletes_commute (U : string → string → string → ColumnEntry → Prop) (sv : Z)
    (t r h h' : string) (cols : list (string * ColumnEntry)) (tables : Tables) :
  Universe U → tables_ok U tables → cols_ok U t r cols → canonical h → canonical h' →
  separated h cols (getRow tables t r) →
  step_tables sv (step_tables sv tables (DeleteOp t r h)) (DeleteOp t r h') =
    step_tables sv (step_tables sv tables (DeleteOp t r h')) (DeleteOp t r h) ∧
  step_tables sv (step_tables sv tables (DeleteOp t r h)) (UpsertOp t r cols) =
    step_tables sv (step_tables sv tables (UpsertOp t r cols)) (DeleteOp t r h).
Proof.
  intros HU Htb Hc Hh Hh' Hsep. split; apply step_tables_comm; intros _ _; simpl op_table; simpl op_rowId.
  - eapply (delete_delete_comm U); [done..|]. intros row. apply Htb.
  - eapply (delete_upsert_comm U); try done. intros row. apply Htb.
Qed.

(** *** Histories on which replicas part ways *)
Definition stampA : string := "001711785600001-0000-a".
Definition stampD : string := "001711785600002-0000-b".
Definition stampB : string := "001711785600003-0000-c".
Definition entryA : ColumnEntry := mkColumn (VStr "old") stampA.
Definition entryB : ColumnEntry := mkColumn (VStr "new") stampB.
Definition opA : Op := UpsertOp "tasks" "1" [("x", entryA)].
Definition opD : Op := DeleteOp "tasks" "1" stampD.
Definition opB : Op := UpsertOp "tasks" "1" [("y", entryB)].
Definition opAB : Op := UpsertOp "tasks" "1" [("x", entryA); ("y", entryB)].
Definition historyU := listed [("tasks", "1", "x", entryA); ("tasks", "1", "y", entryB)].

(** The columns of row 1 of [tasks] after applying [ops] to an empty replica. *)
Definition final_columns (ops : list Op) : option (list string) :=
  match applyOps ops 1 None ∅ with
  | (Ok _, tables) => 
      Some (from_option (λ row, merge_sort String.le (map_to_list (payload row)).*1) []
              (getRow tables "tasks" "1"))
  | _ => None
  end.

Lemma historyU_universe : Universe historyU.
Proof.
  apply listed_universe; [repeat constructor|].
  apply NoDup_cons_2; [|apply NoDup_singleton]. simpl. rewrite list_elem_of_singleton. done.
Qed.

Lemma opA_ok : op_ok historyU opA.
Proof. apply Forall_singleton. left. Qed.
Lemma opB_ok : op_ok historyU opB.
Proof. apply Forall_singleton. right; left. Qed.
Lemma stampD_canonical : canonical stampD.
Proof. by apply canonicalb_spec; vm_compute. Qed.
Lemma opAB_ok : op_ok historyU opAB.
Proof. apply Forall_cons_2; [left|]. apply Forall_singleton. right; left. Qed.

(** three operations on one row, each delivered once, in two orders: the
    replica that sees the delete between the writes ends without column [x],
    the one that sees it last keeps [x] for ever.  Stamps are valid and
    unique, and a third order differs again from the first, so the state
    depends on arrival order as soon as a delete meets writes on both sides. *)
Theorem delete_order_diverges :
  Universe historyU ∧ Forall (op_ok historyU) [opA; opD; opB] ∧
  [opA; opD; opB] ≡ₚ [opA; opB; opD] ∧ [opA; opD; opB] ≡ₚ [opD; opB; opA] ∧
  final_columns [opA; opD; opB] = Some ["y"] ∧
  final_columns [opA; opB; opD] = Some ["x"; "y"] ∧
  final_columns [opD; opB; opA] = Some ["x"; "y"].
Proof.
  split_and!; [apply historyU_universe| | | |vm_compute; reflexivity..].
  - exact (Forall_cons_2 _ _ _ opA_ok (Forall_cons_2 _ opD _ stampD_canonical
             (Forall_cons_2 _ _ _ opB_ok (Forall_nil_2 _)))).
  - apply Permutation_skip, Permutation_swap.
  - etransitivity; [apply Permutation_swap|]. apply Permutation_skip, Permutation_swap.
Qed.

(** a row-shaped upsert (as [rowToSyncOp] builds it, with every column of the
    writer's row) that revives a tombstone is filtered once: the first delivery drops
    the column the tombstone covers, a second upsert that repeats the column
    brings it back, because the revived row has forgotten its tombstone. *)
Theorem revived_row_forgets_tombstone :
  Universe historyU ∧ Forall (op_ok historyU) [opD; opAB; opAB] ∧
  final_columns [opD; opAB] = Some ["y"] ∧
  final_columns [opD; opAB; opAB] = Some ["x"; "y"].
Proof.
  split_and!; [apply historyU_universe| |vm_compute; reflexivity..].
  exact (Forall_cons_2 _ opD _ stampD_canonical
           (Forall_cons_2 _ _ _ opAB_ok (Forall_cons_2 _ _ _ opAB_ok (Forall_nil_2 _)))).
Qed.

(** *** Witnesses *)

Lemma empty_tables_ok U : tables_ok U ∅.
Proof. intros t r row. unfold getRow. by rewrite lookup_empty. Qed.
Lemma empty_all_live : all_live ∅.
Proof. intros t r row. unfold getRow. by rewrite lookup_empty. Qed.
Lemma no_schema_lww t k : resolveStrategy None t k = Ok Lww.
Proof. done. Qed.

Lemma applyOp_effect_witness :
  ∃ res tables', applyOp opA 1 None ∅ = (Ok res, tables') ∧ tables_ok historyU tables'.
Proof.
  destruct (applyOp_effect historyU None 1 opA ∅ historyU_universe no_schema_lww opA_ok
              (empty_tables_ok _)) as (res & tables' & H1 & H2 & _).
  exists res, tables'. exact (conj H1 H2).
Defined.


Lemma redelivery_is_silent_witness :
  ∃ res tables', applyOp opD 1 None ∅ = (Ok res, tables') ∧
                 applyOp opD 1 None tables' = (Ok None, tables').
Proof.
  exact (redelivery_is_silent historyU None 1 opD ∅ historyU_universe no_schema_lww
           stampD_canonical (empty_tables_ok _) I).
Defined.

Lemma deletes_commute_witness :
  step_tables 1 (step_tables 1 ∅ opD) opA = step_tables 1 (step_tables 1 ∅ opA) opD.
Proof.
  refine (proj2 (deletes_commute historyU 1 "tasks" "1" stampD stampD [("x", entryA)] ∅
                   historyU_universe (empty_tables_ok _) opA_ok stampD_canonical stampD_canonical _)).
  left. intros k e H. apply list_elem_of_singleton in H. injection H as -> ->.
  vm_compute. reflexivity.
Defined.
