(* ===== verification/JsMap.v ===== *)
(** * Insertion-ordered maps: the language's [Map] with string keys

    Iteration visits the entries in insertion order and replacing a value keeps
    its position, so a [Map] is its list of entries. *)

From S2P Require Import Prelude Values.
From Stdlib Require String.

Open Scope stdpp_scope.

Section jsmap.
Context {V : Type}.
Implicit Types (m : list (string * V)) (k : string) (v : V).

(** [m.set(k, v)] and [m.delete(k)]; [m.get(k)] is [assoc k m]. *)
Fixpoint map_set k v m : list (string * V) :=
  match m with
  | [] => [(k, v)]
  | (k', v') :: m => if String.eqb k k' then (k, v) :: m else (k', v') :: map_set k v m
  end.
Definition map_delete k m : list (string * V) :=
  List.filter (λ kv, negb (String.eqb k kv.1)) m.

Lemma assoc_map_set k v m k' :
  assoc k' (map_set k v m) = if String.eqb k' k then Some v else assoc k' m.
Proof.
  induction m as [|[k1 v1] m IH]; simpl; [done|].
  destruct (String.eqb_spec k k1) as [<-|Hne]; simpl; [by destruct (String.eqb k' k)|].
  rewrite IH. destruct (String.eqb_spec k' k1) as [->|]; [|done].
  by destruct (String.eqb_spec k1 k) as [->|].
Qed.
Lemma assoc_map_set_eq k v m : assoc k (map_set k v m) = Some v.
Proof. by rewrite assoc_map_set, String.eqb_refl. Qed.
Lemma assoc_map_set_ne k k' v m : k ≠ k' → assoc k' (map_set k v m) = assoc k' m.
Proof. intros Hne. rewrite assoc_map_set. by destruct (String.eqb_spec k' k) as [->|]. Qed.

Lemma assoc_map_delete k m k' :
  assoc k' (map_delete k m) = if String.eqb k' k then None else assoc k' m.
Proof.
  induction m as [|[k1 v1] m IH]; simpl; [by destruct (String.eqb k' k)|].
  destruct (String.eqb_spec k k1) as [<-|Hne]; simpl; rewrite IH.
  - by destruct (String.eqb k' k).
  - destruct (String.eqb_spec k' k1) as [->|]; [|done].
    by destruct (String.eqb_spec k1 k) as [->|].
Qed.

Lemma map_set_keys k v m :
  (map_set k v m).*1 = if bool_decide (k ∈ m.*1) then m.*1 else m.*1 ++ [k].
Proof.
  induction m as [|[k1 v1] m IH]; cbn [map_set fmap list_fmap fst]; [done|].
  destruct (String.eqb_spec k k1) as [<-|Hne]; cbn [fmap list_fmap fst].
  - by rewrite bool_decide_true by left.
  - change (list_fmap _ _ fst (map_set k v m)) with ((map_set k v m).*1). rewrite IH.
    change (list_fmap _ _ fst m) with (m.*1).
    destruct (bool_decide_reflect (k ∈ m.*1)).
    + by rewrite bool_decide_true by by right.
    + rewrite bool_decide_false; [done|]. by intros [?|?]%elem_of_cons.
Qed.

Lemma map_set_nodup k v m : NoDup m.*1 → NoDup (map_set k v m).*1.
Proof.
  intros Hnd. rewrite map_set_keys. case_bool_decide as Hk; [done|].
  apply list.NoDup_app. split; [done|]. split; [|apply NoDup_singleton].
  intros x Hx ->%list_elem_of_singleton. done.
Qed.

Lemma map_delete_nodup k m : NoDup m.*1 → NoDup (map_delete k m).*1.
Proof.
  induction m as [|[k1 v1] m IH]; simpl; [done|]. intros [Hk Hnd]%list.NoDup_cons.
  destruct (String.eqb k k1); simpl; [by apply IH|]. apply list.NoDup_cons. split; [|by apply IH].
  intros Hin. apply Hk. apply list_elem_of_fmap in Hin as ([k2 v2] & -> & Hin).
  apply list_elem_of_fmap. exists (k2, v2). split; [done|].
  apply list_elem_of_In in Hin. apply filter_In in Hin as [Hin _]. by apply list_elem_of_In.
Qed.

Lemma assoc_elem k v m : assoc k m = Some v → (k, v) ∈ m.
Proof.
  induction m as [|[k1 v1] m IH]; simpl; [done|].
  destruct (String.eqb_spec k k1) as [<-|]; [intros [= ->]; left|]. intros H. right. by apply IH.
Qed.
Lemma assoc_in k v m : NoDup m.*1 → (k, v) ∈ m ↔ assoc k m = Some v.
Proof. intros Hnd. split; [by apply assoc_nodup|apply assoc_elem]. Qed.
Lemma assoc_none k m : assoc k m = None → k ∉ m.*1.
Proof.
  induction m as [|[k1 v1] m IH]; simpl; [by intros _ ?%not_elem_of_nil|].
  destruct (String.eqb_spec k k1); [done|]. by intros Hn%IH [?|?]%elem_of_cons.
Qed.
End jsmap.

#[export] Hint Resolve map_set_nodup map_delete_nodup assoc_map_set_eq : interocitor.
#[export] Hint Rewrite @assoc_map_set_eq @assoc_map_delete : interocitor_str.
