(* ===== verification/LocalStore.v ===== *)
(** * The local store ([packages/core/src/storage/memory-store.ts])

    The in-memory implementation of the [LocalStore] contract: rows under a
    combined key, the pending batch and the outbox of changes waiting to be
    published, cursors and [meta] records.  Each [async] method runs without
    suspending, so it is one atomic function of the state. *)

From S2P Require Import Prelude JsString Hlc Values JsMap.
From Stdlib Require Import Ascii.
From Stdlib Require String.

Open Scope stdpp_scope.

(** ** What the observation ledger and the codec rely on *)
Class MetaStore (S : Type) := {
  getMeta : string → S → jsval;
  setMeta : string → jsval → S → S;
  getMeta_setMeta k v s : getMeta k (setMeta k v s) = v;
  getMeta_setMeta_ne k k' v s : k ≠ k' → getMeta k' (setMeta k v s) = getMeta k' s;
}.

(** ** State *)
Record MemoryLocalStore := mkStore {
  ls_rows : list (string * Row); ls_outbox : list ChangeEntry;
  ls_pendingBatch : option ChangeEntry; ls_cursors : list (string * jsnum);
  ls_meta : list (string * jsval) }.

Definition emptyStore : MemoryLocalStore := mkStore [] [] None [] [].

Definition with_rows rows (s : MemoryLocalStore) : MemoryLocalStore :=
  mkStore rows (ls_outbox s) (ls_pendingBatch s) (ls_cursors s) (ls_meta s).
Definition with_outbox outbox (s : MemoryLocalStore) : MemoryLocalStore :=
  mkStore (ls_rows s) outbox (ls_pendingBatch s) (ls_cursors s) (ls_meta s).

(** [close] and [clearAll] have the same body. *)
Definition store_clearAll (s : MemoryLocalStore) : MemoryLocalStore := emptyStore.
Definition store_close (s : MemoryLocalStore) : MemoryLocalStore := emptyStore.

(** ** Rows *)
Definition rowKey (table rowId : string) : string := table +:+ "/" +:+ rowId.

Definition store_getRow (s : MemoryLocalStore) (table rowId : string) : option Row :=
  assoc (rowKey table rowId) (ls_rows s).
Definition store_getRows (s : MemoryLocalStore) (refs : list (string * string))
    : list (option Row) :=
  (λ ref, assoc (rowKey ref.1 ref.2) (ls_rows s)) <$> refs.

Definition with_key (key : string) (row : Row) : Row :=
  let m := _meta row in
  mkRow (mkMeta (rm_table m) (rm_rowId m) (rm_deleted m) (rm_deletedHlc m) (rm_schemaVersion m)
           (rm_owner m) (Some key)) (payload row).
Definition putRow (row : Row) (s : MemoryLocalStore) : MemoryLocalStore :=
  let key := rowKey (rm_table (_meta row)) (rm_rowId (_meta row)) in
  with_rows (map_set key (with_key key row) (ls_rows s)) s.
Definition putRows (rows : list Row) (s : MemoryLocalStore) : MemoryLocalStore :=
  foldl (λ s row, putRow row s) s rows.

Definition getAllRows (s : MemoryLocalStore) : list Row := (ls_rows s).*2.
Definition getTable (s : MemoryLocalStore) (table : string) : list Row :=
  List.filter (λ row, String.eqb (rm_table (_meta row)) table && negb (rm_deleted (_meta row)))
    (getAllRows s).
(** [names.add] on a [Set]: first occurrences, in order. *)
Definition set_add (x : string) (names : list string) : list string :=
  if bool_decide (x ∈ names) then names else names ++ [x].
Definition getTableNames (s : MemoryLocalStore) : list string :=
  foldl (λ names row, if truthy (rm_table (_meta row)) then set_add (rm_table (_meta row)) names
                      else names) [] (getAllRows s).
Definition clearRows (s : MemoryLocalStore) : MemoryLocalStore := with_rows [] s.

(** ** Outbox *)
Definition set_hlc (h : string) (e : ChangeEntry) : ChangeEntry :=
  mkChange (ce_id e) (ce_ts e) (ce_device e) (ce_user e) h (ce_ops e).
Definition add_ops (ops : list Op) (e : ChangeEntry) : ChangeEntry :=
  mkChange (ce_id e) (ce_ts e) (ce_device e) (ce_user e) (ce_hlc e) (ce_ops e ++ ops).

Definition commitLocalMutation (row : Row) (change : ChangeEntry) (s : MemoryLocalStore)
    : MemoryLocalStore :=
  let pending' :=
    match ls_pendingBatch s with
    | Some pending =>
        add_ops (ce_ops change)
          (if str_ltb (ce_hlc pending) (ce_hlc change) then set_hlc (ce_hlc change) pending
           else pending)
    | None => change
    end in
  mkStore (map_set (rowKey (rm_table (_meta row)) (rm_rowId (_meta row))) row (ls_rows s))
    (ls_outbox s) (Some pending') (ls_cursors s)
    (map_set "hlc" (VStr (ce_hlc pending')) (ls_meta s)).

Definition peekPendingBatch (s : MemoryLocalStore) : option ChangeEntry := ls_pendingBatch s.
Definition promotePendingBatch (s : MemoryLocalStore) : option ChangeEntry * MemoryLocalStore :=
  match ls_pendingBatch s with
  | None => (None, s)
  | Some pending =>
      (Some pending, mkStore (ls_rows s) (ls_outbox s ++ [pending]) None (ls_cursors s) (ls_meta s))
  end.
Definition pushOutbox (entry : ChangeEntry) (s : MemoryLocalStore) : MemoryLocalStore :=
  with_outbox (ls_outbox s ++ [entry]) s.
Definition pushOutboxEntries (entries : list ChangeEntry) (s : MemoryLocalStore)
    : MemoryLocalStore :=
  match entries with [] => s | _ => with_outbox (ls_outbox s ++ entries) s end.
Definition peekOutbox (s : MemoryLocalStore) : list ChangeEntry := ls_outbox s.
Definition acknowledgeOutbox (entryIds : list string) (s : MemoryLocalStore) : MemoryLocalStore :=
  match entryIds with
  | [] => s
  | _ => with_outbox
           (List.filter (λ e, negb (bool_decide (ce_id e ∈ (list_to_set entryIds : gset string))))
              (ls_outbox s)) s
  end.
Definition drainOutbox (s : MemoryLocalStore) : list ChangeEntry * MemoryLocalStore :=
  (ls_outbox s, with_outbox [] s).
Definition outboxSize (s : MemoryLocalStore) : nat := length (ls_outbox s).

(** ** Cursors and meta *)
Definition getCursor (deviceId : string) (s : MemoryLocalStore) : jsnum :=
  default (Num 0) (assoc deviceId (ls_cursors s)).
Definition setCursor (deviceId : string) (offset : jsnum) (s : MemoryLocalStore)
    : MemoryLocalStore :=
  mkStore (ls_rows s) (ls_outbox s) (ls_pendingBatch s)
    (map_set deviceId offset (ls_cursors s)) (ls_meta s).
Definition getAllCursors (s : MemoryLocalStore) : gmap string jsnum :=
  foldl (λ out kv, <[kv.1 := kv.2]> out) ∅ (ls_cursors s).

Definition store_getMeta (key : string) (s : MemoryLocalStore) : jsval :=
  default VUndefined (assoc key (ls_meta s)).
Definition store_setMeta (key : string) (v : jsval) (s : MemoryLocalStore) : MemoryLocalStore :=
  mkStore (ls_rows s) (ls_outbox s) (ls_pendingBatch s) (ls_cursors s) (map_set key v (ls_meta s)).

#[global] Program Instance memory_meta_store : MetaStore MemoryLocalStore := {
  getMeta := store_getMeta; setMeta := store_setMeta }.
Next Obligation. intros k v s. unfold store_getMeta. simpl. by rewrite assoc_map_set_eq. Qed.
Next Obligation. intros k k' v s Hne. unfold store_getMeta. simpl. by rewrite assoc_map_set_ne. Qed.

(** ** Queries

    [<] between a string and a number, and between objects, coerces.  The two
    coercions the model does not spell out are operations of this class:
    the number a string denotes, and the string an array or a plain object
    becomes. *)
Class Coercion := { stringToNumber : string → jsnum; objectToString : jsval → string }.

Inductive prim := PNum (n : jsnum) | PStr (s : string).

Section query.
Context `{Coercion}.

Definition toPrimitive (v : jsval) : prim :=
  match v with
  | VUndefined => PNum NaN
  | VNull => PNum (Num 0)
  | VBool b => PNum (Num (if b then 1 else 0))
  | VNum n => PNum n
  | VDate t => PNum t
  | VStr s => PStr s
  | VArr _ | VObj _ => PStr (objectToString v)
  end.
Definition prim_number (p : prim) : jsnum :=
  match p with PNum n => n | PStr s => stringToNumber s end.
(** The language's [a < b]. *)
Definition js_lt (a b : prim) : bool :=
  match a, b with
  | PStr s, PStr s' => str_ltb s s'
  | _, _ => num_ltb (prim_number a) (prim_number b)
  end.

Definition compare (a b : jsval) : Z :=
  let av := toPrimitive a in
  let bv := toPrimitive b in
  if js_lt av bv then -1 else if js_lt bv av then 1 else 0.

(** [String(v)] of a clause operand; dates and the rest go through [objectToString]. *)
Definition primitive_toString (v : jsval) : string :=
  match v with
  | VStr s => s
  | VNum n => num_toString 10 n
  | VBool b => if b then "true" else "false"
  | _ => objectToString v
  end.

(** [WhereClause]: one constructor per [op], with the fields that [op] reads. *)
Inductive WhereClause :=
  | Equals (v : jsval) | Above (v : jsval) | AboveOrEqual (v : jsval)
  | Below (v : jsval) | BelowOrEqual (v : jsval)
  | Between (lower upper : jsval) (lowerOpen upperOpen : bool)
  | StartsWith (v : jsval) | AnyOf (vs : list jsval).

Definition matchesClause (v : jsval) (clause : WhereClause) : bool :=
  match v with
  | VUndefined | VNull => false
  | _ =>
      match clause with
      | Equals c => (compare v c =? 0)%Z
      | Above c => (compare v c >? 0)%Z
      | AboveOrEqual c => (compare v c >=? 0)%Z
      | Below c => (compare v c <? 0)%Z
      | BelowOrEqual c => (compare v c <=? 0)%Z
      | Between lower upper lowerOpen upperOpen =>
          let lowerCmp := compare v lower in
          let upperCmp := compare v upper in
          (if lowerOpen then lowerCmp >? 0 else lowerCmp >=? 0)%Z &&
          (if upperOpen then upperCmp <? 0 else upperCmp <=? 0)%Z
      | StartsWith c =>
          match v with VStr s => startsWith s (primitive_toString c) | _ => false end
      | AnyOf vs => existsb (λ c, (compare v c =? 0)%Z) vs
      end
  end.

Definition readColumnValue (row : Row) (field : string) : jsval :=
  match payload row !! field with Some entry => value entry | None => VUndefined end.

Definition queryWhere (s : MemoryLocalStore) (table field : string) (clause : WhereClause)
    : list Row :=
  List.filter (λ row, matchesClause (readColumnValue row field) clause) (getTable s table).
End query.

(** ** Row keys *)
Definition no_slash (s : string) : bool := str_forall (λ c, negb (Ascii.eqb c "/")) s.

Lemma rowKey_inj t r t' r' : no_slash t = true → no_slash t' = true →
  rowKey t r = rowKey t' r' → t = t' ∧ r = r'.
Proof.
  by apply separator_inj.
Qed.

(** Every row is filed once, under the key of its own table and id, in a table
    whose name has no slash. *)
Definition own_key (kr : string * Row) : Prop :=
  kr.1 = rowKey (rm_table (_meta kr.2)) (rm_rowId (_meta kr.2)) ∧
  no_slash (rm_table (_meta kr.2)) = true.
Definition store_ok (s : MemoryLocalStore) : Prop :=
  NoDup (ls_rows s).*1 ∧ Forall own_key (ls_rows s).

Lemma Forall_map_set {V} (P : string * V → Prop) k v m :
  P (k, v) → Forall P m → Forall P (map_set k v m).
Proof.
  intros Hk. induction 1 as [|[k' v'] m Hk' Hm IH]; simpl; [by constructor|].
  destruct (String.eqb_spec k k') as [<-|]; by constructor.
Qed.

Lemma store_set_ok s key row rows' :
  rows' = map_set key row (ls_rows s) → own_key (key, row) → store_ok s →
  NoDup rows'.*1 ∧ Forall own_key rows'.
Proof.
  intros -> Hk [Hnd Hall]. split; [by apply map_set_nodup|by apply Forall_map_set].
Qed.

Lemma putRow_ok row s : no_slash (rm_table (_meta row)) = true → store_ok s → store_ok (putRow row s).
Proof. intros Ht Hs. unfold putRow, store_ok. simpl. by eapply store_set_ok. Qed.
Lemma putRows_ok rows s :
  Forall (λ row, no_slash (rm_table (_meta row)) = true) rows → store_ok s →
  store_ok (putRows rows s).
Proof.
  intros Hr Hs. unfold putRows.
  apply (foldl_inv store_ok (λ row, no_slash (rm_table (_meta row)) = true)); [|done|done].
  intros. by apply putRow_ok.
Qed.
Lemma commit_ok row change s :
  no_slash (rm_table (_meta row)) = true → store_ok s → store_ok (commitLocalMutation row change s).
Proof. intros Ht Hs. unfold commitLocalMutation, store_ok. simpl. by eapply store_set_ok. Qed.

Lemma getRow_own s t r row : store_ok s → no_slash t = true → store_getRow s t r = Some row →
  rm_table (_meta row) = t ∧ rm_rowId (_meta row) = r.
Proof.
  intros [_ Hall] Ht Hget%assoc_elem. rewrite list.Forall_forall in Hall.
  apply Hall in Hget as [E Ht']. simpl in *. by apply rowKey_inj in E as [<- <-].
Qed.

Lemma getRow_putRow s row t r :
  no_slash t = true → no_slash (rm_table (_meta row)) = true →
  store_getRow (putRow row s) t r =
    if bool_decide ((t, r) = (rm_table (_meta row), rm_rowId (_meta row)))
    then Some (with_key (rowKey t r) row) else store_getRow s t r.
Proof.
  intros Ht Ht'. unfold store_getRow, putRow. cbn [ls_rows with_rows]. rewrite assoc_map_set.
  case_bool_decide as E.
  - injection E as -> ->. by rewrite String.eqb_refl.
  - destruct (String.eqb_spec (rowKey t r) (rowKey (rm_table (_meta row)) (rm_rowId (_meta row))))
      as [E'|]; [|done].
    apply rowKey_inj in E' as [-> ->]; done.
Qed.

(** ** Conservation of operations

    The queue as clients see it: everything committed and not yet acknowledged. *)
Inductive StoreAction :=
  | ACommit (row : Row) (change : ChangeEntry)
  | APromote
  | APush (entry : ChangeEntry)
  | APushMany (entries : list ChangeEntry)
  | AAcknowledge (ids : list string)
  | ADrain
  | APutRows (rows : list Row)
  | AClearRows
  | ASetMeta (key : string) (v : jsval)
  | ASetCursor (device : string) (offset : jsnum).

Definition run_action (a : StoreAction) (s : MemoryLocalStore) : MemoryLocalStore :=
  match a with
  | ACommit row change => commitLocalMutation row change s
  | APromote => (promotePendingBatch s).2
  | APush e => pushOutbox e s
  | APushMany es => pushOutboxEntries es s
  | AAcknowledge ids => acknowledgeOutbox ids s
  | ADrain => (drainOutbox s).2
  | APutRows rows => putRows rows s
  | AClearRows => clearRows s
  | ASetMeta k v => store_setMeta k v s
  | ASetCursor d o => setCursor d o s
  end.
Definition run_actions (acts : list StoreAction) (s : MemoryLocalStore) : MemoryLocalStore :=
  foldl (λ s a, run_action a s) s acts.

Definition ops_of (entries : list ChangeEntry) : list Op := entries ≫= ce_ops.
Definition unsent (s : MemoryLocalStore) : list Op :=
  ops_of (ls_outbox s) ++ from_option ce_ops [] (ls_pendingBatch s).

(** What an action hands to the queue, and what it takes off it. *)
Definition handed (a : StoreAction) : list Op :=
  match a with
  | ACommit _ change => ce_ops change
  | APush e => ce_ops e
  | APushMany es => ops_of es
  | _ => []
  end.
Definition taken (a : StoreAction) (s : MemoryLocalStore) : list Op :=
  match a with
  | AAcknowledge ids => ops_of (List.filter (λ e, bool_decide (ce_id e ∈ ids)) (ls_outbox s))
  | ADrain => ops_of (ls_outbox s)
  | _ => []
  end.
Fixpoint taken_all (acts : list StoreAction) (s : MemoryLocalStore) : list Op :=
  match acts with
  | [] => []
  | a :: acts => taken a s ++ taken_all acts (run_action a s)
  end.

Lemma ops_of_app es es' : ops_of (es ++ es') = ops_of es ++ ops_of es'.
Proof. apply bind_app. Qed.

Lemma putRows_frame rows s :
  ls_outbox (putRows rows s) = ls_outbox s ∧ ls_pendingBatch (putRows rows s) = ls_pendingBatch s ∧
  ls_meta (putRows rows s) = ls_meta s.
Proof.
  unfold putRows. revert s. induction rows as [|row rows IH]; intros s; simpl; [done|].
  destruct (IH (putRow row s)) as (-> & -> & ->). done.
Qed.

Lemma filter_partition (ids : list string) (es : list ChangeEntry) :
  ops_of es ≡ₚ
    ops_of (List.filter (λ e, negb (bool_decide (ce_id e ∈ (list_to_set ids : gset string)))) es) ++
    ops_of (List.filter (λ e, bool_decide (ce_id e ∈ ids)) es).
Proof.
  induction es as [|e es IH]; simpl; [done|].
  rewrite (bool_decide_ext _ (ce_id e ∈ ids)) by apply elem_of_list_to_set.
  case_bool_decide; simpl; unfold ops_of in *; simpl; rewrite IH.
  - rewrite !app_assoc. f_equiv. apply Permutation_app_comm.
  - by rewrite <- app_assoc.
Qed.

Lemma action_conserves a s : unsent s ++ handed a ≡ₚ unsent (run_action a s) ++ taken a s.
Proof.
  unfold unsent. destruct a as [row change| |e|es|ids| |rows| |k v|d o]; simpl;
    rewrite ?app_nil_r; try done.
  - destruct (ls_pendingBatch s) as [p|]; simpl; [|by rewrite app_nil_r].
    rewrite <- app_assoc. by destruct (str_ltb _ _).
  - unfold promotePendingBatch. destruct (ls_pendingBatch s) as [p|] eqn:E; simpl; rewrite ?E; [|done].
    by rewrite ops_of_app, app_nil_r; unfold ops_of at 3; simpl; rewrite app_nil_r.
  - rewrite ops_of_app. unfold ops_of at 3. simpl. rewrite app_nil_r, <- !app_assoc. f_equiv.
    apply Permutation_app_comm.
  - destruct es as [|e es]; simpl; [by rewrite app_nil_r|].
    rewrite ops_of_app, <- !app_assoc. f_equiv. apply Permutation_app_comm.
  - destruct ids as [|i ids].
    + simpl. replace (List.filter _ _) with (@nil ChangeEntry); [by rewrite app_nil_r|].
      by induction (ls_outbox s).
    + cbn [acknowledgeOutbox ls_outbox ls_pendingBatch with_outbox].
      rewrite (filter_partition (i :: ids) (ls_outbox s)) at 1.
      rewrite <- !app_assoc. apply Permutation_app_head, Permutation_app_comm.
  - apply Permutation_app_comm.
  - by destruct (putRows_frame rows s) as (-> & -> & _).
Qed.

(** The rows an action files, all in tables whose names have no slash. *)
Definition action_plain (a : StoreAction) : bool :=
  match a with
  | ACommit row _ => no_slash (rm_table (_meta row))
  | APutRows rows => forallb (λ row, no_slash (rm_table (_meta row))) rows
  | _ => true
  end.

Lemma ack_rows ids s : ls_rows (acknowledgeOutbox ids s) = ls_rows s.
Proof. by destruct ids. Qed.

Lemma run_action_ok a s : action_plain a = true → store_ok s → store_ok (run_action a s).
Proof.
  destruct a as [row change| |e|es|ids| |rows| |k v|d o]; simpl; intros Ha Hs; try exact Hs.
  - by apply commit_ok.
  - unfold promotePendingBatch. by destruct (ls_pendingBatch s).
  - by destruct es.
  - unfold store_ok. by rewrite ack_rows.
  - apply putRows_ok; [|done]. apply list.Forall_forall. intros x Hx.
    by apply (proj1 (forallb_forall _ _) Ha), list_elem_of_In.
  - split; constructor.
Qed.

(** Actions of the local write path: they only ever append to the queue. *)
Definition is_append (a : StoreAction) : bool :=
  match a with ACommit _ _ | APromote | APutRows _ | ASetMeta _ _ => true | _ => false end.

Lemma append_order a s : is_append a = true → unsent (run_action a s) = unsent s ++ handed a.
Proof.
  unfold unsent. destruct a as [row change| |e|es|ids| |rows| |k v|d o]; simpl; try done; intros _.
  - destruct (ls_pendingBatch s) as [p|]; simpl; [|by rewrite app_nil_r].
    rewrite <- app_assoc. by destruct (str_ltb _ _).
  - unfold promotePendingBatch. destruct (ls_pendingBatch s) as [p|] eqn:E; simpl; rewrite ?E.
    + rewrite ops_of_app, !app_nil_r. unfold ops_of at 2. simpl. by rewrite app_nil_r.
    + by rewrite !app_nil_r.
  - destruct (putRows_frame rows s) as (-> & -> & _). by rewrite app_nil_r.
  - by rewrite app_nil_r.
Qed.

(** ** Stamps of a batch *)
Lemma dashed_str_ltb a b : canonical a → canonical b → dashed a = true → dashed b = true →
  str_ltb a b = true ↔ stamp_lt a b.
Proof.
  intros Ha Hb Hda Hdb. rewrite <- stamp_lt_spec by done. unfold hlcCompareStr. rewrite Hda, Hdb.
  simpl. destruct (str_ltb a b); [done|]. by destruct (str_ltb b a).
Qed.

Definition good_stamp (h : string) : Prop := canonical h ∧ dashed h = true.

(** The batch carries the later of its stamp and the new one. *)
Lemma commit_pending_hlc row change s :
  good_stamp (ce_hlc change) →
  (∀ p, ls_pendingBatch s = Some p → good_stamp (ce_hlc p)) →
  ∃ p', ls_pendingBatch (commitLocalMutation row change s) = Some p' ∧
    good_stamp (ce_hlc p') ∧ ¬ stamp_lt (ce_hlc p') (ce_hlc change) ∧
    (∀ p, ls_pendingBatch s = Some p → ¬ stamp_lt (ce_hlc p') (ce_hlc p) ∧
       (ce_hlc p' = ce_hlc p ∨ ce_hlc p' = ce_hlc change)) ∧
    (ls_pendingBatch s = None → ce_hlc p' = ce_hlc change) ∧
    store_getMeta "hlc" (commitLocalMutation row change s) = VStr (ce_hlc p').
Proof.
  intros [Hc Hd] Hp. unfold store_getMeta, commitLocalMutation. cbn [ls_meta ls_pendingBatch].
  eexists. split; [done|]. rewrite assoc_map_set_eq. cbn [from_option id].
  destruct (ls_pendingBatch s) as [p|] eqn:E.
  - destruct (Hp p eq_refl) as [Hcp Hdp].
    pose proof (dashed_str_ltb (ce_hlc p) (ce_hlc change) Hcp Hc Hdp Hd) as Hlt.
    destruct (str_ltb _ _); cbn [ce_hlc add_ops set_hlc].
    + assert (stamp_lt (ce_hlc p) (ce_hlc change)) as Hs by by apply Hlt.
      repeat split; try done; [by apply stamp_irrefl| |by right].
      injection H as <-. by apply stamp_asym.
    + assert (¬ stamp_lt (ce_hlc p) (ce_hlc change)) as Hs by (intros ?%Hlt; done).
      repeat split; try done; [injection H as <-; by apply stamp_irrefl|].
      injection H as <-. by left.
  - repeat split; try done. by apply stamp_irrefl.
Qed.

(** ** Query semantics *)

(** Values a query can order: integers, dates and booleans among themselves,
    strings among themselves. *)
Definition number_value (v : jsval) : option Z :=
  match v with
  | VNum (Num z) => Some z
  | VDate (Num z) => Some z
  | VBool b => Some (if b then 1 else 0)%Z
  | _ => None
  end.
Definition value_compare (v c : jsval) : option comparison :=
  match v, c with
  | VStr s, VStr s' => Some (String.compare s s')
  | _, _ =>
      match number_value v, number_value c with
      | Some x, Some y => Some (x ?= y)%Z
      | _, _ => None
      end
  end.

Section query_theory.
Context `{Coercion}.

Lemma compare_spec v c o : value_compare v c = Some o →
  LocalStore.compare v c = match o with Lt => -1 | Eq => 0 | Gt => 1 end%Z.
Proof.
  unfold value_compare, LocalStore.compare. intros Hv.
  destruct v as [| |b|[|x]|s|[|x]|l|fs]; try done;
    destruct c as [| |b'|[|y]|s'|[|y]|l'|fs']; try done; simpl in *;
    injection Hv as <-; unfold num_ltb, str_ltb; simpl.
  all: try (rewrite (str_compare_antisym s' s); by destruct (String.compare s s')).
  all: match goal with |- context [(?a ?= ?b)%Z] =>
         destruct (Z.compare_spec a b); destruct (Z.ltb_spec a b), (Z.ltb_spec b a); try lia end.
Qed.
End query_theory.

(** The documented meaning of a clause on an ordered column. *)
Definition clause_meaning (v : jsval) (clause : WhereClause) : Prop :=
  match clause with
  | Equals c => value_compare v c = Some Eq
  | Above c => value_compare v c = Some Gt
  | AboveOrEqual c => value_compare v c = Some Gt ∨ value_compare v c = Some Eq
  | Below c => value_compare v c = Some Lt
  | BelowOrEqual c => value_compare v c = Some Lt ∨ value_compare v c = Some Eq
  | Between lo hi lowerOpen upperOpen =>
      (value_compare v lo = Some Gt ∨ (lowerOpen = false ∧ value_compare v lo = Some Eq)) ∧
      (value_compare v hi = Some Lt ∨ (upperOpen = false ∧ value_compare v hi = Some Eq))
  | StartsWith c => ∃ p rest, c = VStr p ∧ v = VStr (p +:+ rest)
  | AnyOf vs => ∃ c, c ∈ vs ∧ value_compare v c = Some Eq
  end.
(** The column and the clause's operands are of one ordered kind. *)
Definition clause_typed (v : jsval) (clause : WhereClause) : bool :=
  match clause with
  | Equals c | Above c | AboveOrEqual c | Below c | BelowOrEqual c =>
      bool_decide (is_Some (value_compare v c))
  | Between lo hi _ _ =>
      bool_decide (is_Some (value_compare v lo)) && bool_decide (is_Some (value_compare v hi))
  | StartsWith c => match v, c with VStr _, VStr _ => true | _, _ => false end
  | AnyOf vs => forallb (λ c, bool_decide (is_Some (value_compare v c))) vs
  end.

Section query_claims.
Context `{Coercion}.

Lemma value_compare_defined v c : is_Some (value_compare v c) → v ≠ VUndefined ∧ v ≠ VNull.
Proof. by destruct v, c; intros [o Ho]. Qed.

Lemma prefix_spec p s : String.prefix p s = true ↔ ∃ rest, s = p +:+ rest.
Proof.
  split; [|intros [rest ->]; apply prefix_app].
  revert s. induction p as [|c p IH]; intros s Hp; [by exists s|].
  destruct s as [|c' s]; [done|]. simpl in Hp. destruct (ascii_dec c c') as [<-|]; [|done].
  destruct (IH s Hp) as [rest ->]. by exists rest.
Qed.

Lemma matches_body v clause :
  v ≠ VUndefined → v ≠ VNull →
  matchesClause v clause =
    match clause with
    | Equals c => (compare v c =? 0)%Z
    | Above c => (compare v c >? 0)%Z
    | AboveOrEqual c => (compare v c >=? 0)%Z
    | Below c => (compare v c <? 0)%Z
    | BelowOrEqual c => (compare v c <=? 0)%Z
    | Between lower upper lowerOpen upperOpen =>
        (if lowerOpen then compare v lower >? 0 else compare v lower >=? 0)%Z &&
        (if upperOpen then compare v upper <? 0 else compare v upper <=? 0)%Z
    | StartsWith c =>
        match v with VStr s => startsWith s (primitive_toString c) | _ => false end
    | AnyOf vs => existsb (λ c, (compare v c =? 0)%Z) vs
    end.
Proof. by destruct v. Qed.

Lemma matches_spec v clause : v ≠ VUndefined → v ≠ VNull → clause_typed v clause = true →
  matchesClause v clause = true ↔ clause_meaning v clause.
Proof.
  intros Hu Hn Ht. rewrite (matches_body v clause Hu Hn).
  destruct clause as [c|c|c|c|c|lo hi lopen hopen|c|vs]; simpl in *.
  1-5: apply bool_decide_eq_true in Ht as [o Ho]; rewrite (compare_spec _ _ _ Ho), Ho;
       destruct o; naive_solver.
  - apply andb_true_iff in Ht as [[o Ho]%bool_decide_eq_true [o' Ho']%bool_decide_eq_true].
    rewrite (compare_spec _ _ _ Ho), (compare_spec _ _ _ Ho'), Ho, Ho'.
    destruct lopen, hopen, o, o'; simpl; naive_solver.
  - destruct v as [| | | |s| | |]; try done. destruct c as [| | | |p| | |]; try done. simpl.
    unfold startsWith. rewrite prefix_spec. naive_solver.
  - rewrite existsb_exists. rewrite forallb_forall in Ht. split.
    + intros (c & Hin & Hc). exists c. apply list_elem_of_In in Hin as Hin'. split; [done|].
      apply Ht, bool_decide_eq_true in Hin as [o Ho]. rewrite (compare_spec _ _ _ Ho) in Hc.
      by destruct o.
    + intros (c & Hin & Hc). apply list_elem_of_In in Hin. exists c. split; [done|].
      by rewrite (compare_spec _ _ _ Hc).
Qed.

Lemma getTable_spec s table row :
  row ∈ getTable s table ↔
    row ∈ getAllRows s ∧ rm_table (_meta row) = table ∧ rm_deleted (_meta row) = false.
Proof.
  unfold getTable. rewrite list_elem_of_In, filter_In, <- list_elem_of_In.
  rewrite andb_true_iff, negb_true_iff, String.eqb_eq. done.
Qed.
End query_claims.

(** ** Properties *)

(** No operation handed to the local store is lost or duplicated: after any sequence of
    commits, promotions, pushes, acknowledgements, drains and row or meta writes, the
    operations queued at the start together with all operations handed in are,
    as a multiset, the operations still unsent (outbox and pending batch) together
    with those of the entries that were acknowledged or drained.  On the local
    write path (commits, promotions, row and meta writes) the order is kept as well. *)
Theorem outbox_conserves_operations (acts : list StoreAction) (s : MemoryLocalStore) :
  unsent s ++ (acts ≫= handed) ≡ₚ unsent (run_actions acts s) ++ taken_all acts s ∧
  (forallb is_append acts = true → unsent (run_actions acts s) = unsent s ++ (acts ≫= handed)).
Proof.
  revert s. induction acts as [|a acts IH]; intros s; simpl; [by rewrite !app_nil_r|].
  destruct (IH (run_action a s)) as [IH1 IH2]. split.
  - rewrite app_assoc, action_conserves, <- app_assoc, (Permutation_app_comm (taken a s)), app_assoc.
    rewrite IH1, <- app_assoc. apply Permutation_app_head, Permutation_app_comm.
  - intros [Ha Hacts]%andb_true_iff. unfold run_actions in *. simpl. rewrite IH2 by done.
    by rewrite append_order, <- app_assoc.
Qed.

Definition sample_row (t r : string) : Row := mkRow (mkMeta t r false None 1 None None) ∅.
Definition sample_change (id h : string) (ops : list Op) : ChangeEntry :=
  mkChange id 0 "dev" None h ops.

Lemma outbox_conserves_operations_witness :
  let acts := [ACommit (sample_row "t" "r") (sample_change "chg_1" "1" [DeleteOp "t" "r" "1"]);
               APromote;
               ACommit (sample_row "t" "q") (sample_change "chg_2" "2" [DeleteOp "t" "q" "2"])] in
  unsent (run_actions acts emptyStore) = [DeleteOp "t" "r" "1"; DeleteOp "t" "q" "2"].
Proof.
  intros acts. rewrite (proj2 (outbox_conserves_operations acts emptyStore) eq_refl). reflexivity.
Defined.

(** Committing a local change advances the stamp of the pending batch to the later of
    the two and never back, and records that stamp as the persisted clock, for
    stamps of the fixed width (a clock whose counter fits four hex digits), where
    the store's raw string comparison is the order of the clocks. *)
Theorem pending_batch_stamp_is_latest (row : Row) (change : ChangeEntry) (s : MemoryLocalStore) :
  good_stamp (ce_hlc change) →
  (∀ p, ls_pendingBatch s = Some p → good_stamp (ce_hlc p)) →
  ∃ p', ls_pendingBatch (commitLocalMutation row change s) = Some p' ∧
    ¬ stamp_lt (ce_hlc p') (ce_hlc change) ∧
    (∀ p, ls_pendingBatch s = Some p →
       ¬ stamp_lt (ce_hlc p') (ce_hlc p) ∧ (ce_hlc p' = ce_hlc p ∨ ce_hlc p' = ce_hlc change)) ∧
    store_getMeta "hlc" (commitLocalMutation row change s) = VStr (ce_hlc p').
Proof.
  intros Hc Hp. destruct (commit_pending_hlc row change s Hc Hp) as (p' & ? & _ & ? & ? & _ & ?).
  by exists p'.
Qed.

Definition stamp_at (t c : Z) (n : string) : string := hlcSerialize (mkHLC (Num t) (Num c) n).

Lemma pending_batch_stamp_is_latest_witness :
  let s := commitLocalMutation (sample_row "t" "r")
             (sample_change "chg_1" (stamp_at 1711785600000 1 "n") []) emptyStore in
  ∃ p', ls_pendingBatch (commitLocalMutation (sample_row "t" "q")
          (sample_change "chg_2" (stamp_at 1711785600000 2 "n") []) s) = Some p' ∧
    ce_hlc p' = stamp_at 1711785600000 2 "n".
Proof.
  intros s.
  destruct (pending_batch_stamp_is_latest (sample_row "t" "q")
              (sample_change "chg_2" (stamp_at 1711785600000 2 "n") []) s) as (p' & Hp & _).
  - split; [|by vm_compute]. apply canonicalb_spec. by vm_compute.
  - intros p [= <-]. split; [|by vm_compute]. apply canonicalb_spec. by vm_compute.
  - exists p'. split; [exact Hp|]. vm_compute in Hp. injection Hp as <-. by vm_compute.
Defined.

(** With table names free of slashes the row map is faithful: every action keeps each
    row filed once and under its own table and id, a lookup only ever returns the
    row of the table and id asked for, and storing a row changes that row and no
    other. *)
Theorem local_rows_faithful (acts : list StoreAction) (s : MemoryLocalStore) :
  store_ok s → forallb action_plain acts = true →
  store_ok (run_actions acts s) ∧
  (∀ t r row, no_slash t = true → store_getRow (run_actions acts s) t r = Some row →
     rm_table (_meta row) = t ∧ rm_rowId (_meta row) = r) ∧
  (∀ t r row, no_slash t = true → no_slash (rm_table (_meta row)) = true →
     store_getRow (putRow row (run_actions acts s)) t r =
       if bool_decide ((t, r) = (rm_table (_meta row), rm_rowId (_meta row)))
       then Some (with_key (rowKey t r) row) else store_getRow (run_actions acts s) t r).
Proof.
  intros Hs Hacts. assert (store_ok (run_actions acts s)) as Hok.
  { unfold run_actions. apply (foldl_inv store_ok (λ a, action_plain a = true)); [|done|].
    - intros. by apply run_action_ok.
    - apply list.Forall_forall. intros a Ha. by apply (proj1 (forallb_forall _ _) Hacts), list_elem_of_In. }
  split; [done|]. split; intros; [by apply getRow_own with (run_actions acts s)|by apply getRow_putRow].
Qed.

Lemma local_rows_faithful_witness :
  store_ok (run_actions [APutRows [sample_row "t" "r"]; APromote] emptyStore).
Proof.
  refine (proj1 (local_rows_faithful [APutRows [sample_row "t" "r"]; APromote] emptyStore _ eq_refl)).
  split; constructor.
Defined.

(** A slash in a table name makes two rows share one key: storing row ["c"] of table
    ["a/b"] replaces row ["b/c"] of table ["a"], and reading the first row
    returns the second. *)
Theorem row_keys_collide :
  let s := putRows [sample_row "a" "b/c"; sample_row "a/b" "c"] emptyStore in
  length (getAllRows s) = 1 ∧
  (rm_table ∘ _meta <$> store_getRow s "a" "b/c") = Some "a/b".
Proof. vm_compute. done. Qed.

(** A query returns exactly the live rows of the table whose column satisfies the
    clause, whenever the column values and the operands are of one ordered kind
    (numbers, dates and booleans, or strings); rows with a missing or null column
    never match. *)
Theorem query_where_exact `{Coercion} (s : MemoryLocalStore) (table field : string)
    (clause : WhereClause) (row : Row) :
  (∀ row', row' ∈ getTable s table →
     readColumnValue row' field = VUndefined ∨ readColumnValue row' field = VNull ∨
     clause_typed (readColumnValue row' field) clause = true) →
  row ∈ queryWhere s table field clause ↔
    row ∈ getAllRows s ∧ rm_table (_meta row) = table ∧ rm_deleted (_meta row) = false ∧
    readColumnValue row field ≠ VUndefined ∧ readColumnValue row field ≠ VNull ∧
    clause_meaning (readColumnValue row field) clause.
Proof.
  intros Htyped. unfold queryWhere. rewrite list_elem_of_In, filter_In, <- list_elem_of_In.
  split.
  - intros [Hin Hm]. destruct (proj1 (getTable_spec _ _ _) Hin) as (? & ? & ?).
    destruct (Htyped row Hin) as [E|[E|Ht]]; [by rewrite E in Hm..|].
    assert (readColumnValue row field ≠ VUndefined) by (intros E; by rewrite E in Hm).
    assert (readColumnValue row field ≠ VNull) by (intros E; by rewrite E in Hm).
    by rewrite <- matches_spec.
  - intros (Hin & Ht & Hd & Hu & Hn & Hm).
    assert (row ∈ getTable s table) as Hrow by by apply getTable_spec.
    split; [done|]. apply matches_spec; [done|done| |done].
    by destruct (Htyped row Hrow) as [E|[E|]].
Qed.

Definition test_coercion : Coercion :=
  {| stringToNumber s := parseInt s 10; objectToString _ := "[object Object]" |}.
Definition age_row (r : string) (v : jsval) : Row :=
  mkRow (mkMeta "p" r false None 1 None None) {["age" := mkColumn v "h"]}.

Lemma query_where_exact_witness :
  age_row "r" (VNum (Num 7)) ∈
    @queryWhere test_coercion (commitLocalMutation (age_row "r" (VNum (Num 7))) (sample_change "c" "h" [])
      emptyStore) "p" "age" (Between (VNum (Num 5)) (VNum (Num 7)) true false).
Proof.
  apply (@query_where_exact test_coercion).
  - intros row' Hin. right. right. apply list_elem_of_singleton in Hin as ->. by vm_compute.
  - repeat split; try by vm_compute.
    + by apply list_elem_of_singleton.
    + by left.
    + right. by vm_compute.
Defined.

(** A column holding [NaN] (or an invalid date) equals every number a query
    asks for: the three-way comparison of the store reports two values that are
    not comparable as equal, so such a row is returned by every [equals],
    [aboveOrEqual] and [belowOrEqual] clause on numbers. *)
Theorem nan_column_matches_every_equals `{Coercion} (z : Z) (v : jsval) :
  v = VNum NaN ∨ v = VDate NaN →
  matchesClause v (Equals (VNum (Num z))) = true ∧
  matchesClause v (AboveOrEqual (VNum (Num z))) = true ∧
  matchesClause v (BelowOrEqual (VNum (Num z))) = true.
Proof. by intros [-> | ->]. Qed.

Lemma nan_column_matches_every_equals_witness :
  @matchesClause test_coercion (VDate NaN) (Equals (VNum (Num 5))) = true.
Proof. apply (@nan_column_matches_every_equals test_coercion 5 (VDate NaN)). by right. Defined.
