(* ===== verification/Wire.v ===== *)
(** * Remote documents and the platform
    ([packages/core/src/core/types.ts], [retention.ts], [internals.ts])

    The JSON documents the engine reads and writes, as typed values; the paths
    they live at; the retention policy; and the platform services under the code
    (JSON text, UTF-8, AES-GCM, SHA-256) as an interface with the laws the
    protocol relies on. *)

From S2P Require Import Prelude JsString Hlc Values.
From Stdlib Require String.

Open Scope stdpp_scope.

(** ** Documents *)

Record RetentionPolicyInput := mkRetentionInput {
  ri_compactAfterMs : option jsnum; ri_maxOfflineDurationMs : option jsnum }.
Record RetentionPolicy := mkRetention { compactAfterMs : jsnum; maxOfflineDurationMs : jsnum }.

Record ServerConfig := mkServer {
  sv_managed : bool; sv_relayUrl : option string; sv_serverId : string }.

(** A manifest without its [contentHash]: the object the hash is computed on.
    [retention], [lineage] and [encrypted] may be absent in stored manifests. *)
Record ManifestPayload := mkManifestPayload {
  m_generation : Z; m_parentGeneration : Z; m_writtenBy : string; m_writtenAt : string;
  m_version : Z; m_meshId : string; m_schema : Z; m_encrypted : option bool;
  m_server : ServerConfig; m_createdAt : string; m_epoch : Z; m_watermarkHlc : string;
  m_snapshotPath : option string; m_deltaPath : option string;
  m_retention : option RetentionPolicyInput; m_lineage : option jsnum }.
Record Manifest := mkManifest { m_payload : ManifestPayload; contentHash : string }.

Record ManifestPointer := mkPointer { mp_currentGeneration : Z; mp_file : string }.

(** [tables] keeps, per table, the rows in the order of the object's fields. *)
Record Snapshot := mkSnapshot {
  sn_snapshotId : string; sn_timestamp : string; sn_hlc : string; sn_epoch : Z;
  sn_schemaVersion : Z; sn_coveredChangeFiles : option (list string);
  sn_tables : list (string * list (string * Row)) }.

(** What the decoders inspect of a change or snapshot payload. *)
Record MeshPayload := mkMeshPayload {
  pl_hasMesh : bool; pl_meshId : option string; pl_kind : string;
  pl_entry : option ChangeEntry; pl_snapshot : option Snapshot }.

Record DeviceMetadata := mkDevice {
  dm_deviceId : string; dm_registeredAt : option string; dm_lastSeenAt : option string;
  dm_userId : option string; dm_name : option string; dm_displayName : option string;
  dm_deviceType : option string; dm_retired : option bool;
  dm_observedManifestGeneration : option Z; dm_observedEpoch : option Z;
  dm_observedWatermarkHlc : option string; dm_observedAt : option string;
  dm_cutOffAt : option string; dm_cutOffReason : option string }.

Record ChangesHead := mkHead { latestHlc : option string }.

Inductive Doc :=
  | DPayload (p : MeshPayload)
  | DManifest (m : Manifest)
  | DPointer (p : ManifestPointer)
  | DDevice (d : DeviceMetadata)
  | DHead (h : ChangesHead)
  | DOther (v : jsval).

Record FileEntry := mkFile {
  fe_name : string; fe_path : string; fe_size : Z; fe_modifiedTime : string }.

(** ** Documents that JSON text reproduces

    [JSON.stringify] writes [undefined], [NaN] and dates as something else, so
    only documents without them come back as they were. *)
Definition json_op (op : Op) : bool :=
  match op with
  | UpsertOp _ _ cols => forallb (λ kc, json_value (value kc.2)) cols
  | DeleteOp _ _ _ => true
  end.
Definition json_entry (e : ChangeEntry) : bool := forallb json_op (ce_ops e).
Definition json_row (row : Row) : bool :=
  forallb (λ kc, json_value (value kc.2)) (map_to_list (payload row)).
Definition json_snapshot (s : Snapshot) : bool :=
  forallb (λ t, forallb (λ kr, json_row kr.2) t.2) (sn_tables s).
Definition json_num (o : option jsnum) : bool := from_option num_finite true o.
Definition json_doc (d : Doc) : bool :=
  match d with
  | DPayload p => from_option json_entry true (pl_entry p) &&
                  from_option json_snapshot true (pl_snapshot p)
  | DManifest m => json_num (m_lineage (m_payload m)) &&
                   from_option (λ r, json_num (ri_compactAfterMs r) &&
                                     json_num (ri_maxOfflineDurationMs r)) true
                     (m_retention (m_payload m))
  | DPointer _ | DDevice _ | DHead _ => true
  | DOther v => json_value v
  end.

(** ** The platform

    [encryptEntry] stands for AES-GCM encryption with the initialisation vector
    of the call; [decryptEntry] for decryption, which fails on any bytes it cannot
    authenticate; [hashPayload] for [computeContentHash]. *)
Class Platform := {
  Text : Type;
  Bytes : Type;
  CryptoKey : Type;
  byteLength : Bytes → Z;
  stringify : Doc → Text;
  parse : Text → result Doc;
  encodeText : Text → Bytes;
  decodeText : Bytes → Text;
  encryptEntry : CryptoKey → Text → Bytes;
  decryptEntry : CryptoKey → Bytes → result Text;
  hashPayload : ManifestPayload → string;
  parse_stringify d : json_doc d = true → parse (stringify d) = Ok d;
  decode_encode t : decodeText (encodeText t) = t;
  decrypt_encrypt k t : decryptEntry k (encryptEntry k t) = Ok t;
}.

(** ** Paths ([internals.ts]) *)
Section paths.
Context (root : string).
Definition manifestPointer : string := root +:+ "/manifest.json".
Definition manifestFile (generation : Z) : string :=
  root +:+ "/manifest-" +:+ num_toString 10 (Num generation) +:+ ".json".
Definition devicesFolder : string := root +:+ "/devices".
Definition deviceFile (deviceId : string) : string :=
  root +:+ "/devices/" +:+ deviceId +:+ ".json".
Definition mainlineFolder : string := root +:+ "/mainline".
Definition changesFolder : string := root +:+ "/changes".
Definition changesHead : string := changesFolder +:+ "/head.json".
Definition changeFile (fileName : string) : string := changesFolder +:+ "/" +:+ fileName.
End paths.

(** ** Retention ([retention.ts]) *)
Definition DAY_MS : Z := 24 * 60 * 60 * 1000.
Definition DEFAULT_COMPACT_AFTER_MS : Z := 7 * DAY_MS.
Definition DEFAULT_MAX_OFFLINE_DURATION_MS : Z := 30 * DAY_MS.

Definition finitePositiveDuration (name : string) (v : jsnum) : result jsnum :=
  if negb (num_finite v) || num_leb v (Num 0)
  then Throw (RangeErr (name +:+ " must be a positive finite duration in milliseconds"))
  else Ok v.

Definition resolveRetentionPolicy (input : option RetentionPolicyInput) : result RetentionPolicy :=
  c ← finitePositiveDuration "retention.compactAfterMs"
        (default (Num DEFAULT_COMPACT_AFTER_MS) (input ≫= ri_compactAfterMs));
  m ← finitePositiveDuration "retention.maxOfflineDurationMs"
        (default (Num DEFAULT_MAX_OFFLINE_DURATION_MS) (input ≫= ri_maxOfflineDurationMs));
  Ok (mkRetention c m).

(** Policies the resolver can return. *)
Definition retention_ok (p : RetentionPolicy) : Prop :=
  num_gtb (compactAfterMs p) (Num 0) = true ∧ num_gtb (maxOfflineDurationMs p) (Num 0) = true.

Lemma duration_ok name v v' : finitePositiveDuration name v = Ok v' →
  v' = v ∧ num_gtb v (Num 0) = true.
Proof.
  unfold finitePositiveDuration, num_gtb, num_ltb, num_leb. destruct v as [|z]; simpl; [done|].
  destruct (Z.leb_spec z 0); [done|]. intros [= <-]. split; [done|]. apply Z.ltb_lt. lia.
Qed.
Lemma duration_accepts name z : (0 < z)%Z → finitePositiveDuration name (Num z) = Ok (Num z).
Proof.
  intros Hz. unfold finitePositiveDuration, num_leb. simpl. destruct (Z.leb_spec z 0); [lia|done].
Qed.

Lemma resolve_ok input p : resolveRetentionPolicy input = Ok p → retention_ok p.
Proof.
  unfold resolveRetentionPolicy, mbind, result_bind.
  destruct (finitePositiveDuration "retention.compactAfterMs" _) as [c|] eqn:E1; [|done].
  destruct (finitePositiveDuration "retention.maxOfflineDurationMs" _) as [m|] eqn:E2; [|done].
  intros [= <-]. apply duration_ok in E1 as [-> ?], E2 as [-> ?]. done.
Qed.

(** ** Path facts shared by the protocol proofs *)
Lemma str_app_inj_l a b c : a +:+ b = a +:+ c → b = c.
Proof.
  induction a as [|x a IH]; [done|]. rewrite !str_app_cons. intros [= E]. by apply IH.
Qed.
Lemma str_app_inj_r a b c : a +:+ c = b +:+ c → a = b.
Proof.
  intros E. pose proof (f_equal String.length E) as Hl. rewrite !str_length_app in Hl.
  assert (String.length a = String.length b) as Hlen by lia.
  pose proof (f_equal (str_take (String.length a)) E) as Et.
  rewrite str_take_app, Hlen, str_take_app in Et. done.
Qed.
Lemma changeFile_inj root f f' : changeFile root f = changeFile root f' → f = f'.
Proof. unfold changeFile. intros E. by do 2 apply str_app_inj_l in E. Qed.
