(* ===== verification/Observation.v ===== *)
(** * The change observation ledger
    ([packages/core/src/core/change-observation.ts])

    Which change files this endpoint has processed, kept in the [meta] records of
    the local store.  The ledger of one sync step is loaded, extended, and merged back
    under a per-store writer gate, so every block the code runs under
    [withObservationWrite] is one atomic action on the store here, and
    concurrency is the interleaving of those actions. *)

From S2P Require Import Prelude JsString Hlc Values JsMap LocalStore Wire.
From Stdlib Require Import Ascii.
From Stdlib Require String.

Open Scope stdpp_scope.

Definition OBSERVATION_META_KEY : string := "changeObservation".

(** ** Stored state *)

Record StoredObservationState := mkStored {
  so_generation : Z; so_globalHighWaterHlc : string;
  so_seenChangeFiles : gset string; so_writerFrontiers : gmap string string }.

(** All elements strings, as a set; [None] is the code's [null]. *)
Fixpoint strings_of (l : list jsval) : option (list string) :=
  match l with
  | [] => Some []
  | VStr s :: l => cons s <$> strings_of l
  | _ => None
  end.
Definition parseSeenChangeFiles (v : jsval) : option (gset string) :=
  match v with
  | VArr l => list_to_set <$> strings_of l
  | _ => None
  end.

Definition parseWriterFrontiers (v : jsval) : gmap string string :=
  match v with
  | VObj fields =>
      foldl (λ m kv, match kv.2 with
                     | VStr h => if truthy h then <[kv.1 := h]> m else m
                     | _ => m
                     end) ∅ fields
  | _ => ∅
  end.

Definition parseObservationState (v : jsval) : option StoredObservationState :=
  match v with
  | VObj fields =>
      match parseSeenChangeFiles (field "seenChangeFiles" v) with
      | None => None
      | Some seen =>
          Some (mkStored
                  (match field "generation" v with VNum (Num g) => g | _ => 0%Z end)
                  (match field "globalHighWaterHlc" v with VStr h => h | _ => "" end)
                  seen
                  (parseWriterFrontiers (field "writerFrontiers" v)))
      end
  | _ => None
  end.

(** [[...seen].sort()]. *)
Definition sorted_names (seen : gset string) : list string := merge_sort String.le (elements seen).

(** The object the code passes to [setMeta]. *)
Definition stored_value (st : StoredObservationState) : jsval :=
  VObj [("generation", VNum (Num (so_generation st)));
        ("globalHighWaterHlc", VStr (so_globalHighWaterHlc st));
        ("seenChangeFiles", VArr (VStr <$> sorted_names (so_seenChangeFiles st)));
        ("writerFrontiers", VObj ((λ kv, (kv.1, VStr kv.2)) <$> map_to_list (so_writerFrontiers st)))].

(** ** File names *)

Definition changeFileName (hlc id : string) : string := hlc +:+ "-" +:+ id +:+ ".json".

Definition changeFileHlc (name : string) : option string :=
  let marker := lastIndexOf name "-chg_" in
  if (marker =? -1)%Z then None else Some (slice name 0 marker).

Definition compareChangeFiles (left right : string) : jsnum :=
  let by_name := if str_ltb left right then Num (-1)
                 else if str_ltb right left then Num 1 else Num 0 in
  match opt_truthy (changeFileHlc left), opt_truthy (changeFileHlc right) with
  | Some l, Some r =>
      let compared := hlcCompareStr l r in
      if num_finite compared && negb (num_eqb compared (Num 0)) then compared else by_name
  | _, _ => by_name
  end.

(** ** The ledger *)

Record Ledger := mkLedger {
  globalHighWaterHlc : string; seenChangeFiles : gset string;
  writerFrontiers : gmap string string; hasExactObservationHistory : bool; generation : Z }.

Inductive LateRelation := BehindGlobalHighWater | BehindWriterFrontier.
Record LateChangeObservation := mkLate {
  lc_writerId : string; lc_changeHlc : string; lc_fileName : string; lc_relation : LateRelation;
  lc_writerFrontierHlc : option string; lc_legacyGlobalHighWaterHlc : option string }.

Definition hasSeen (l : Ledger) (fileName : string) : bool :=
  bool_decide (fileName ∈ seenChangeFiles l).
Definition isUnseenChange (l : Ledger) (fileName : string) : bool :=
  match changeFileHlc fileName with Some _ => negb (hasSeen l fileName) | None => false end.
Definition hasUnseenChange (l : Ledger) (names : list string) : bool :=
  existsb (isUnseenChange l) names.
Definition capturedChangeFileNames (l : Ledger) : list string := sorted_names (seenChangeFiles l).

(** Whether [a] replaces the hint [current], as the code tests it. *)
Definition advances (a : string) (current : option string) : bool :=
  match opt_truthy current with
  | Some c => num_gtb (hlcCompareStr a c) (Num 0)
  | None => true
  end.
Definition behind (a : string) (current : option string) : bool :=
  match opt_truthy current with
  | Some c => num_leb (hlcCompareStr a c) (Num 0)
  | None => false
  end.

Definition observe (l : Ledger) (fileName changeHlc : string)
    : result (option LateChangeObservation * Ledger) :=
  match changeFileHlc fileName with
  | None => Throw (JsError ("Invalid change filename: " +:+ fileName))
  | Some fileHlc =>
      let writerId := nodeId (hlcParse fileHlc) in
      let writerFrontierHlc := writerFrontiers l !! writerId in
      let behindWriterFrontier := behind fileHlc writerFrontierHlc in
      let behindGlobalHighWater := behind fileHlc (Some (globalHighWaterHlc l)) in
      let lateChange :=
        if hasExactObservationHistory l && (behindWriterFrontier || behindGlobalHighWater)
        then Some (mkLate writerId fileHlc fileName
                     (if behindWriterFrontier then BehindWriterFrontier else BehindGlobalHighWater)
                     writerFrontierHlc (opt_truthy (Some (globalHighWaterHlc l))))
        else None in
      Ok (lateChange,
          mkLedger
            (if advances changeHlc (Some (globalHighWaterHlc l)) then changeHlc
             else globalHighWaterHlc l)
            ({[fileName]} ∪ seenChangeFiles l)
            (if advances fileHlc writerFrontierHlc
             then <[writerId := fileHlc]> (writerFrontiers l) else writerFrontiers l)
            (hasExactObservationHistory l) (generation l))
  end.

Section ledger.
Context {S : Type} `{HS : !MetaStore S}.

Definition readObservationState (s : S) : option StoredObservationState :=
  parseObservationState (getMeta OBSERVATION_META_KEY s).
Definition observationGeneration (s : S) : Z :=
  from_option so_generation 0%Z (readObservationState s).

(** [load] ([loadUnlocked] under the gate). *)
Definition load (s : S) : Ledger :=
  match readObservationState s with
  | Some st => mkLedger (so_globalHighWaterHlc st) (so_seenChangeFiles st)
                 (so_writerFrontiers st) true (so_generation st)
  | None => mkLedger "" ∅ ∅ false 0
  end.

Definition store_state (st : StoredObservationState) (s : S) : S :=
  setMeta OBSERVATION_META_KEY (stored_value st) s.

Definition reset : M S () := modify (λ s,
  store_state (mkStored (observationGeneration s + 1) "" ∅ ∅) s).

(** [clearAll] of the ledger; the store's own [clearAll] is the argument. *)
Definition clearAll (store_clearAll : S → S) : M S () := modify (λ s,
  let g := (observationGeneration s + 1)%Z in
  store_state (mkStored g "" ∅ ∅) (store_clearAll s)).

(** Fold the durable frontiers into the ledger's. *)
Definition merge_frontiers (durable mine : gmap string string) : gmap string string :=
  foldl (λ m kv, if advances kv.2 (m !! kv.1) then <[kv.1 := kv.2]> m else m)
        mine (map_to_list durable).

Definition merge_durable (l durable : Ledger) : Ledger :=
  mkLedger
    (match opt_truthy (Some (globalHighWaterHlc durable)) with
     | Some g => if advances g (Some (globalHighWaterHlc l)) then g else globalHighWaterHlc l
     | None => globalHighWaterHlc l
     end)
    (seenChangeFiles l ∪ seenChangeFiles durable)
    (merge_frontiers (writerFrontiers durable) (writerFrontiers l))
    (hasExactObservationHistory l) (generation l).

Definition ledger_state (l : Ledger) : StoredObservationState :=
  mkStored (generation l) (globalHighWaterHlc l) (seenChangeFiles l) (writerFrontiers l).

(** The flag, and the ledger object as [persist] leaves it. *)
Definition persist (l : Ledger) : M S (bool * Ledger) := λ s,
  if negb (generation l =? observationGeneration s)%Z then (Ok (false, l), s)
  else let l' := merge_durable l (load s) in
       (Ok (true, l'), store_state (ledger_state l') s).

(** Observe each covered name in turn. *)
Fixpoint observe_all (message : string) (l : Ledger) (names : list string) : result Ledger :=
  match names with
  | [] => Ok l
  | n :: names =>
      match changeFileHlc n with
      | None => Throw (JsError (message +:+ n))
      | Some fileHlc =>
          match observe l n fileHlc with
          | Ok (_, l') => observe_all message l' names
          | Throw e => Throw e
          end
      end
  end.

Definition restoreSnapshot (snapshotHlc : string) (coveredChangeFiles : list string)
    (replaceLocalState : M S ()) : M S () := λ s,
  let g := (observationGeneration s + 1)%Z in
  match replaceLocalState s with
  | (Throw e, s') => (Throw e, s')
  | (Ok _, s') =>
      match observe_all "Invalid snapshot change filename: "
              (mkLedger snapshotHlc ∅ ∅ true g) coveredChangeFiles with
      | Throw e => (Throw e, s')
      | Ok l =>
          let high := if truthy snapshotHlc &&
                         num_gtb (hlcCompareStr snapshotHlc (globalHighWaterHlc l)) (Num 0)
                      then snapshotHlc else globalHighWaterHlc l in
          (Ok (), store_state (mkStored g high (seenChangeFiles l) (writerFrontiers l)) s')
      end
  end.

Fixpoint observe_entries (l : Ledger) (entries : list ChangeEntry) : result Ledger :=
  match entries with
  | [] => Ok l
  | e :: entries =>
      if negb (truthy (ce_hlc e)) then observe_entries l entries
      else match observe l (changeFileName (ce_hlc e) (ce_id e)) (ce_hlc e) with
           | Ok (_, l') => observe_entries l' entries
           | Throw err => Throw err
           end
  end.

Definition recordFlushedChanges (entries : list ChangeEntry) : M S () :=
  l ← gets load;
  l' ← lift (observe_entries l entries);
  '(ok, _) ← persist l';
  if negb ok : bool
  then throw (JsError "Observation state changed before publication; retry the flush")
  else mret ().
End ledger.

(** ** File names *)

(** Characters an identifier of [uuidv7] can contain: no ["g"]. *)
Definition no_g (s : string) : bool := str_forall (λ c, negb (Ascii.eqb c "g")) s.

Lemma changeFileHlc_name h u : no_g u = true →
  changeFileHlc (changeFileName h ("chg_" +:+ u)) = Some h.
Proof.
  intros Hu. unfold changeFileName, changeFileHlc, lastIndexOf.
  change (h +:+ "-" +:+ ("chg_" +:+ u) +:+ ".json") with (h +:+ ("-chg_" +:+ (u +:+ ".json"))).
  rewrite last_index_of_app.
  - simpl or_minus_one. destruct (Z.eqb_spec (Z.of_nat (String.length h)) (-1)); [lia|].
    by rewrite slice_app_l.
  - apply prefix_app.
  - intros i Hi _. apply not_true_iff_false. intros Hp.
    pose proof (prefix_get _ _ 3 "g"%char Hp eq_refl) as Hg. rewrite get_str_drop in Hg.
    destruct i as [|[|i]]; [lia|done|].
    replace (S (S i) + 3) with (String.length "-chg_" + i) in Hg by (simpl; lia).
    rewrite str_get_app_r in Hg.
    assert (no_g (u +:+ ".json") = true) as Hall by (unfold no_g in *; by rewrite str_forall_app, Hu).
    by pose proof (str_get_forall _ _ _ _ Hall Hg).
Qed.

(** A file name whose clock part is a canonical stamp. *)
Definition well_named (n : string) : Prop := ∃ h, changeFileHlc n = Some h ∧ canonical h.

Definition name_le (a b : string) : Prop :=
  match changeFileHlc a, changeFileHlc b with
  | Some ha, Some hb =>
      stamp_lt ha hb ∨ (ha = hb ∧ String.compare a b ≠ Gt)
  | _, _ => False
  end.

Lemma compareChangeFiles_spec a b ha hb :
  changeFileHlc a = Some ha → changeFileHlc b = Some hb → canonical ha → canonical hb →
  num_ltb (compareChangeFiles a b) (Num 0) = true ↔
    stamp_lt ha hb ∨ (ha = hb ∧ String.compare a b = Lt).
Proof.
  intros Ea Eb Ha Hb. unfold compareChangeFiles. rewrite Ea, Eb.
  rewrite !opt_truthy_Some by eauto with interocitor.
  pose proof (stamp_irrefl hb Hb) as Hirr.
  assert (num_ltb (if str_ltb a b then Num (-1) else if str_ltb b a then Num 1 else Num 0) (Num 0)
            = true ↔ String.compare a b = Lt) as Hname.
  { unfold str_ltb. rewrite (str_compare_antisym b a). by destruct (String.compare a b). }
  destruct (stamp_tests ha hb Ha Hb) as [(Hc & Hg & Hl & Hle)|[(E0 & Hg & Hl & Hle)|(Hc & Hg & Hl & Hle)]];
    destruct (hlcCompareStr ha hb) as [|z]; try done;
    unfold num_gtb, num_ltb, num_rel2, num_eqb in Hg, Hl; simpl in Hg, Hl |- *.
  - destruct (Z.eqb_spec z 0); [lia|]. unfold num_ltb. simpl. rewrite Hl. naive_solver.
  - destruct (Z.eqb_spec z 0); [|lia]. simpl. rewrite Hname. subst. naive_solver.
  - destruct (Z.eqb_spec z 0); [lia|]. unfold num_ltb. simpl. rewrite Hl.
    split; [done|]. intros [?|[-> _]]; [|by destruct Hirr]. by destruct (stamp_asym hb ha Hb Ha Hc).
Qed.

Lemma name_le_lt a b : well_named a → well_named b →
  num_ltb (compareChangeFiles a b) (Num 0) = true → name_le a b.
Proof.
  intros (ha & Ea & Ha) (hb & Eb & Hb). rewrite (compareChangeFiles_spec a b ha hb) by done.
  unfold name_le. rewrite Ea, Eb. intros [?|[? ->]]; [by left|by right].
Qed.
Lemma name_le_nlt a b : well_named a → well_named b →
  num_ltb (compareChangeFiles a b) (Num 0) = false → name_le b a.
Proof.
  intros (ha & Ea & Ha) (hb & Eb & Hb). rewrite <- not_true_iff_false.
  rewrite (compareChangeFiles_spec a b ha hb) by done. unfold name_le. rewrite Ea, Eb. intros Hn.
  destruct (stamp_total ha hb Ha Hb) as [?|[->|?]]; [tauto| |by left].
  right. split; [done|]. rewrite (str_compare_antisym b a).
  destruct (String.compare a b) eqn:E; simpl; [done|tauto|done].
Qed.
Lemma str_compare_le_trans a b c :
  String.compare a b ≠ Gt → String.compare b c ≠ Gt → String.compare a c ≠ Gt.
Proof.
  intros H1 H2. destruct (String.compare a b) eqn:E1; [|..|done].
  - by apply str_compare_eq in E1 as ->.
  - destruct (String.compare b c) eqn:E2; [|..|done].
    + apply str_compare_eq in E2 as <-. by rewrite E1.
    + by rewrite (str_compare_trans_lt a b c).
Qed.
Lemma name_le_trans a b c : well_named a → well_named b → well_named c →
  name_le a b → name_le b c → name_le a c.
Proof.
  intros (ha & Ea & Ha) (hb & Eb & Hb) (hc & Ec & Hc). unfold name_le. rewrite Ea, Eb, Ec.
  intros [H1|[-> H1]] [H2|[<- H2]].
  - left. by apply stamp_trans with hb.
  - by left.
  - by left.
  - right. split; [done|]. by eapply str_compare_le_trans.
Qed.
Lemma name_le_antisym a b : well_named a → well_named b → name_le a b → name_le b a → a = b.
Proof.
  intros (ha & Ea & Ha) (hb & Eb & Hb). unfold name_le. rewrite Ea, Eb.
  intros [H1|[-> H1]] [H2|[E H2]].
  - by destruct (stamp_asym ha hb Ha Hb H1).
  - subst. by destruct (stamp_irrefl ha Ha).
  - by destruct (stamp_irrefl hb Hb).
  - rewrite (str_compare_antisym b a) in H2. apply str_compare_eq.
    by destruct (String.compare a b).
Qed.

(** ** The stored record *)

Lemma strings_of_map l : strings_of (VStr <$> l) = Some l.
Proof. induction l as [|s l IH]; [done|]. cbn. by rewrite IH. Qed.

Lemma sorted_names_set seen : list_to_set (sorted_names seen) = seen.
Proof.
  apply set_eq. intros x. unfold sorted_names. rewrite elem_of_list_to_set, merge_sort_Permutation.
  by rewrite elem_of_elements.
Qed.

(** Frontiers that survive a write and a read. *)
Definition truthy_frontiers (m : gmap string string) : Prop :=
  map_Forall (λ _ h, truthy h = true) m.

Lemma parse_frontiers_lookup (m : gmap string string) k :
  parseWriterFrontiers (VObj ((λ kv, (kv.1, VStr kv.2)) <$> map_to_list m)) !! k =
    opt_truthy (m !! k).
Proof.
  simpl. transitivity (foldl (λ (m : gmap string string) kv,
    partial_alter ((λ h o, if truthy h then Some h else o) kv.2) kv.1 m) ∅ (map_to_list m) !! k).
  - generalize (∅ : gmap string string). induction (map_to_list m) as [|[k' h] l IH]; intros acc;
      simpl; [done|]. rewrite <- IH. do 2 f_equal. destruct (truthy h); [done|].
    apply map_eq. intros i. destruct (decide (i = k')) as [->|].
    + by rewrite lookup_partial_alter_eq.
    + by rewrite lookup_partial_alter_ne.
  - rewrite (foldl_partial_alter_lookup (λ h o, if truthy h then Some h else o)).
    by destruct (m !! k).
Qed.

Lemma parse_frontiers_roundtrip m : truthy_frontiers m →
  parseWriterFrontiers (VObj ((λ kv, (kv.1, VStr kv.2)) <$> map_to_list m)) = m.
Proof.
  intros Hm. apply map_eq. intros k. rewrite parse_frontiers_lookup.
  destruct (m !! k) as [h|] eqn:E; [|done]. apply opt_truthy_Some. by apply (Hm k).
Qed.

Lemma parse_stored st : ∃ wf,
  parseObservationState (stored_value st) =
    Some (mkStored (so_generation st) (so_globalHighWaterHlc st) (so_seenChangeFiles st) wf) ∧
  (truthy_frontiers (so_writerFrontiers st) → wf = so_writerFrontiers st).
Proof.
  eexists. split.
  - unfold parseObservationState, stored_value, field.
    cbn [assoc String.eqb Ascii.eqb Bool.eqb default from_option id parseSeenChangeFiles].
    rewrite strings_of_map. cbn [fmap option_fmap option_map]. by rewrite sorted_names_set.
  - apply parse_frontiers_roundtrip.
Qed.

Section ledger_theory.
Context {S : Type} `{HS : !MetaStore S}.
Implicit Types (s : S) (l : Ledger).

Lemma read_store_state st s : ∃ wf,
  readObservationState (store_state st s) =
    Some (mkStored (so_generation st) (so_globalHighWaterHlc st) (so_seenChangeFiles st) wf) ∧
  (truthy_frontiers (so_writerFrontiers st) → wf = so_writerFrontiers st).
Proof. unfold readObservationState, store_state. rewrite getMeta_setMeta. apply parse_stored. Qed.

(** Receipts on disk. *)
Definition durable_seen (s : S) : gset string := seenChangeFiles (load s).

Lemma load_generation s : generation (load s) = observationGeneration s.
Proof. unfold load, observationGeneration. by destruct (readObservationState s). Qed.
Lemma durable_store_state st s : durable_seen (store_state st s) = so_seenChangeFiles st.
Proof. unfold durable_seen, load. by destruct (read_store_state st s) as (wf & -> & _). Qed.
Lemma generation_store_state st s :
  observationGeneration (store_state st s) = so_generation st.
Proof. unfold observationGeneration. by destruct (read_store_state st s) as (wf & -> & _). Qed.
Lemma load_agree s s' : getMeta OBSERVATION_META_KEY s = getMeta OBSERVATION_META_KEY s' →
  load s = load s'.
Proof. intros E. unfold load, readObservationState. by rewrite E. Qed.

Lemma observe_ok l f h late l' : observe l f h = Ok (late, l') →
  seenChangeFiles l' = {[f]} ∪ seenChangeFiles l ∧ generation l' = generation l ∧
  is_Some (changeFileHlc f).
Proof. unfold observe. destruct (changeFileHlc f); [|done]. intros [= <- <-]. simpl. eauto. Qed.

Lemma observe_all_ok msg names l l' : observe_all msg l names = Ok l' →
  seenChangeFiles l' = list_to_set names ∪ seenChangeFiles l ∧ generation l' = generation l.
Proof.
  revert l. induction names as [|n names IH]; intros l; simpl; [intros [= <-]; set_solver|].
  destruct (changeFileHlc n) as [h|]; [|done].
  destruct (observe l n h) as [[late l1]|e] eqn:E; [|done]. intros Hall.
  apply IH in Hall as [-> ->]. apply observe_ok in E as (E1 & E2 & _). simpl in E1, E2.
  rewrite E1, E2. set_solver.
Qed.

Lemma persist_spec l s r s' : persist l s = (r, s') →
  (r = Ok (false, l) ∧ s' = s ∧ generation l ≠ observationGeneration s) ∨
  (r = Ok (true, merge_durable l (load s)) ∧ generation l = observationGeneration s ∧
   observationGeneration s' = generation l ∧
   durable_seen s' = seenChangeFiles l ∪ durable_seen s).
Proof.
  unfold persist. destruct (Z.eqb_spec (generation l) (observationGeneration s)); simpl;
    intros [= <- <-]; [right|by left].
  by rewrite generation_store_state, durable_store_state.
Qed.

Lemma reset_spec s : observationGeneration (reset s).2 = (observationGeneration s + 1)%Z ∧
  durable_seen (reset s).2 = ∅.
Proof. simpl. by rewrite generation_store_state, durable_store_state. Qed.

Lemma clearAll_spec f s :
  observationGeneration (clearAll f s).2 = (observationGeneration s + 1)%Z ∧
  durable_seen (clearAll f s).2 = ∅.
Proof. simpl. by rewrite generation_store_state, durable_store_state. Qed.

Lemma restoreSnapshot_spec h covered rep s s' : restoreSnapshot h covered rep s = (Ok (), s') →
  observationGeneration s' = (observationGeneration s + 1)%Z ∧
  durable_seen s' = list_to_set covered.
Proof.
  unfold restoreSnapshot. destruct (rep s) as [[?|?] s1]; [|done].
  destruct (observe_all _ _ _) as [l|e] eqn:E; [|done]. intros [= <-].
  apply observe_all_ok in E as [E _]. simpl in E.
  rewrite generation_store_state, durable_store_state. simpl. rewrite E. set_solver.
Qed.

(** *** Interleavings

    A world is the shared store, the ledgers that pulls, flushes and compactions
    hold in memory, and the ghost set of the receipts committed since the last
    reset, clear or restore. *)
Record World := mkWorld {
  w_store : S; w_ledgers : gmap nat Ledger; w_committed : gset string }.

(** The blocks that supersede every ledger loaded before them. *)
Inductive fence : S → gset string → S → Prop :=
  | fence_reset s : fence s ∅ (reset s).2
  | fence_clear f s : fence s ∅ (clearAll f s).2
  | fence_restore h covered rep s s' :
      restoreSnapshot h covered rep s = (Ok (), s') → fence s (list_to_set covered) s'.

Inductive lstep : World → World → Prop :=
  | step_load i s ls c :
      lstep (mkWorld s ls c) (mkWorld s (<[i := load s]> ls) c)
  | step_observe i f h l late l' s ls c :
      ls !! i = Some l → observe l f h = Ok (late, l') →
      lstep (mkWorld s ls c) (mkWorld s (<[i := l']> ls) c)
  | step_persist i l b l' s s' ls c :
      ls !! i = Some l → persist l s = (Ok (b, l'), s') →
      lstep (mkWorld s ls c)
            (mkWorld s' (<[i := l']> ls) (if b : bool then seenChangeFiles l ∪ c else c))
  | step_fence g s s' ls c :
      fence s g s' → lstep (mkWorld s ls c) (mkWorld s' ls g)
  | step_other s s' ls c :
      getMeta OBSERVATION_META_KEY s' = getMeta OBSERVATION_META_KEY s →
      lstep (mkWorld s ls c) (mkWorld s' ls c).

Definition fresh_world (s : S) : World := mkWorld s ∅ (durable_seen s).

Lemma fence_spec s g s' : fence s g s' →
  observationGeneration s' = (observationGeneration s + 1)%Z ∧ durable_seen s' = g.
Proof.
  destruct 1; [apply reset_spec|apply clearAll_spec|by eapply restoreSnapshot_spec].
Qed.

Definition world_ok (w : World) : Prop :=
  durable_seen (w_store w) = w_committed w ∧
  map_Forall (λ _ l, (generation l ≤ observationGeneration (w_store w))%Z) (w_ledgers w).

Lemma agree_generation s s' :
  getMeta OBSERVATION_META_KEY s' = getMeta OBSERVATION_META_KEY s →
  observationGeneration s' = observationGeneration s ∧ durable_seen s' = durable_seen s.
Proof.
  intros E%load_agree. rewrite <- !load_generation. unfold durable_seen. by rewrite E.
Qed.

(** One step keeps the invariant, and never lowers the generation. *)
Lemma lstep_ok w w' : lstep w w' → world_ok w →
  world_ok w' ∧ (observationGeneration (w_store w) ≤ observationGeneration (w_store w'))%Z.
Proof.
  intros Hs [Hd Hg]. unfold world_ok.
  destruct Hs as [i s ls c|i f h l late l' s ls c Hi Ho|i l b l' s s' ls c Hi Hp
                 |g s s' ls c Hf|s s' ls c He]; simpl in *.
  - split; [|done]. split; [done|]. apply map_Forall_insert_2; [|done].
    by rewrite load_generation.
  - split; [|done]. split; [done|]. apply map_Forall_insert_2; [|done].
    apply observe_ok in Ho as (_ & -> & _). by apply (Hg i).
  - apply persist_spec in Hp as [([= -> ->] & -> & _)|([= -> ->] & Hgen & Hgen' & Hseen)].
    + split; [|done]. split; [done|]. apply map_Forall_insert_2; [|done]. by apply (Hg i).
    + rewrite Hgen', Hgen, Hseen, Hd. split; [|done]. split; [done|].
      apply map_Forall_insert_2; [simpl; lia|done].
  - apply fence_spec in Hf as [-> ->]. split; [|lia]. split; [done|].
    intros i l Hi. specialize (Hg i l Hi). simpl in Hg. lia.
  - by apply agree_generation in He as [-> ->].
Qed.

Lemma reachable_ok w w' : rtc lstep w w' → world_ok w →
  world_ok w' ∧ (observationGeneration (w_store w) ≤ observationGeneration (w_store w'))%Z.
Proof.
  induction 1 as [w|w w1 w2 Hs _ IH]; intros Hok; [done|].
  apply lstep_ok in Hs as [Hok1 Hle]; [|done]. apply IH in Hok1 as [Hok2 Hle2]. split; [done|lia].
Qed.

Lemma fresh_ok s : world_ok (fresh_world s).
Proof. by split. Qed.
End ledger_theory.

(** ** Merging *)

Lemma merge_frontiers_lookup (durable mine : gmap string string) k :
  merge_frontiers durable mine !! k =
    match durable !! k with
    | Some d => if advances d (mine !! k) then Some d else mine !! k
    | None => mine !! k
    end.
Proof.
  unfold merge_frontiers.
  transitivity (foldl (λ (m : gmap string string) kv, partial_alter
    ((λ d o, if advances d o then Some d else o) kv.2) kv.1 m) mine (map_to_list durable) !! k).
  - generalize mine. induction (map_to_list durable) as [|[k' d] l IH]; intros acc; simpl; [done|].
    rewrite <- IH. do 2 f_equal. apply map_eq. intros i. destruct (decide (i = k')) as [->|].
    + rewrite lookup_partial_alter_eq. destruct (advances d (acc !! k')); [|done].
      apply lookup_insert_eq.
    + rewrite lookup_partial_alter_ne by done. destruct (advances d (acc !! k')); [|done].
      by rewrite lookup_insert_ne.
  - by rewrite (foldl_partial_alter_lookup (λ d o, if advances d o then Some d else o)).
Qed.

Lemma advances_spec a c : canonical a → canonical c → advances a (Some c) = true ↔ stamp_lt c a.
Proof.
  intros Ha Hc. unfold advances. rewrite opt_truthy_Some by by apply canonical_truthy.
  by apply stamp_gt_spec.
Qed.

Definition canonical_frontiers (m : gmap string string) : Prop := map_Forall (λ _ h, canonical h) m.

Lemma canonical_frontiers_truthy m : canonical_frontiers m → truthy_frontiers m.
Proof. intros Hm k h Hk. apply canonical_truthy. by apply (Hm k). Qed.

Lemma merge_frontiers_canonical d m :
  canonical_frontiers d → canonical_frontiers m → canonical_frontiers (merge_frontiers d m).
Proof.
  intros Hd Hm k h Hk. rewrite merge_frontiers_lookup in Hk.
  destruct (d !! k) as [hd|] eqn:Ed; [|by apply (Hm k)].
  destruct (advances hd (m !! k)); [injection Hk as <-; by apply (Hd k)|by apply (Hm k)].
Qed.

(** ** Names *)

(** A change id as [generateId("chg")] makes it. *)
Definition change_id (id : string) : Prop := ∃ u, no_g u = true ∧ id = "chg_" +:+ u.

(** ** Properties *)

(** The name of a change file determines the change: the clock stamp is recovered from
    the name, whatever dashes the stamp or the node id contain, and two changes
    with generated ids and the same file name have the same stamp and id. *)
Theorem change_file_name_roundtrip (h id h' id' : string) :
  change_id id → change_id id' →
  changeFileHlc (changeFileName h id) = Some h ∧
  (changeFileName h id = changeFileName h' id' → h = h' ∧ id = id').
Proof.
  intros (u & Hu & ->) (u' & Hu' & ->). split; [by apply changeFileHlc_name|]. intros E.
  assert (h = h') as <-.
  { apply (f_equal changeFileHlc) in E. rewrite !changeFileHlc_name in E by done. by injection E. }
  split; [done|]. unfold changeFileName in E. do 2 apply str_app_inj_l in E.
  by apply str_app_inj_r in E.
Qed.

Lemma change_file_name_roundtrip_witness :
  changeFileHlc (changeFileName "000000000000001-0000-dev-chg_x" "chg_0190") =
    Some "000000000000001-0000-dev-chg_x".
Proof.
  refine (proj1 (change_file_name_roundtrip _ "chg_0190" "" "chg_0190" _ _)); exists "0190"; done.
Defined.

(** Receipts are exact under every interleaving.  Starting from any store, after any sequence of
    loads, observations, persists (by any number of concurrent ledgers), resets,
    clears, snapshot restores and writes to other records, the receipts in the
    store are exactly those committed since the last reset, clear or restore (and
    the covered files of that restore): none is lost to a concurrent writer and
    none appears that no ledger committed. *)
Theorem receipts_exact {S : Type} `{!MetaStore S} (s : S) (w : World) :
  rtc lstep (fresh_world s) w → durable_seen (w_store w) = w_committed w.
Proof. intros Hw. by destruct (reachable_ok _ _ Hw (fresh_ok s)) as [[Hd _] _]. Qed.

(** A change observed and committed by one ledger while another holds an older view. *)
Definition sample_file : string := "000000000000001-0000-dev-chg_1.json".
Definition other_file : string := "000000000000002-0000-dev-chg_2.json".
Definition observed (l : Ledger) (f : string) : Ledger :=
  match observe l f "000000000000001-0000-dev" with Ok (_, l') => l' | Throw _ => l end.
Definition persisted (l : Ledger) (s : MemoryLocalStore) : Ledger * MemoryLocalStore :=
  match persist l s with (Ok (_, l'), s') => (l', s') | (Throw _, s') => (l, s') end.

Lemma receipts_exact_witness : ∃ w,
  rtc lstep (fresh_world emptyStore) w ∧
  durable_seen (w_store w) = {[sample_file; other_file]}.
Proof.
  pose (h := "000000000000001-0000-dev"). pose (l0 := load emptyStore).
  pose (l1 := observed l0 sample_file). pose (l2 := observed l0 other_file).
  pose (p1 := persisted l1 emptyStore). pose (p2 := persisted l2 p1.2).
  pose (w1 := mkWorld emptyStore {[0 := l0]} ∅).
  pose (w2 := mkWorld emptyStore (<[1 := l0]> {[0 := l0]}) ∅).
  pose (w3 := mkWorld emptyStore (<[0 := l1]> (w_ledgers w2)) ∅).
  pose (w4 := mkWorld emptyStore (<[1 := l2]> (w_ledgers w3)) ∅).
  pose (w5 := mkWorld p1.2 (<[0 := p1.1]> (w_ledgers w4)) (seenChangeFiles l1 ∪ ∅)).
  pose (w6 := mkWorld p2.2 (<[1 := p2.1]> (w_ledgers w5)) (seenChangeFiles l2 ∪ (seenChangeFiles l1 ∪ ∅))).
  assert (rtc lstep (fresh_world emptyStore) w6) as Hr.
  { apply rtc_l with w1; [exact (step_load 0 emptyStore ∅ ∅)|].
    apply rtc_l with w2; [exact (step_load 1 emptyStore _ ∅)|].
    apply rtc_l with w3.
    { apply (step_observe 0 sample_file h l0 None l1); vm_compute; reflexivity. }
    apply rtc_l with w4.
    { apply (step_observe 1 other_file h l0 None l2); vm_compute; reflexivity. }
    apply rtc_l with w5.
    { apply (step_persist 0 l1 true p1.1 emptyStore p1.2); vm_compute; reflexivity. }
    apply rtc_l with w6.
    { apply (step_persist 1 l2 true p2.1 p1.2 p2.2); vm_compute; reflexivity. }
    apply rtc_refl. }
  exists w6. split; [exact Hr|]. rewrite (receipts_exact emptyStore w6 Hr). vm_compute. reflexivity.
Defined.

(** A ledger loaded before a reset, clear or snapshot restore can never commit: whatever
    happens afterwards, its [persist] reports failure and leaves the store
    exactly as it is. *)
Theorem stale_ledger_is_fenced {S : Type} `{!MetaStore S} (s : S) (w w' w'' : World)
    (i : nat) (l : Ledger) (g : gset string) :
  rtc lstep (fresh_world s) w → w_ledgers w !! i = Some l →
  fence (w_store w) g (w_store w') → w' = mkWorld (w_store w') (w_ledgers w) g →
  rtc lstep w' w'' →
  persist l (w_store w'') = (Ok (false, l), w_store w'').
Proof.
  intros Hw Hl Hf Hw' Hw''. destruct (reachable_ok _ _ Hw (fresh_ok s)) as [[Hd Hg] _].
  assert (lstep w w') as Hs by (rewrite Hw'; destruct w; by apply step_fence).
  apply lstep_ok in Hs as [Hok _]; [|done]. apply reachable_ok in Hw'' as [_ Hle]; [|done].
  pose proof (fence_spec _ _ _ Hf) as [Hgen _]. specialize (Hg i l Hl). simpl in Hg.
  unfold persist. destruct (Z.eqb_spec (generation l) (observationGeneration (w_store w''))); [lia|].
  done.
Qed.

Lemma stale_ledger_is_fenced_witness :
  let s1 := (reset emptyStore).2 in
  persist (load emptyStore) s1 = (Ok (false, load emptyStore), s1).
Proof.
  intros s1.
  refine (stale_ledger_is_fenced emptyStore (mkWorld emptyStore (<[0 := load emptyStore]> ∅) ∅)
            (mkWorld s1 (<[0 := load emptyStore]> ∅) ∅) (mkWorld s1 (<[0 := load emptyStore]> ∅) ∅)
            0 (load emptyStore) ∅ _ eq_refl _ eq_refl _).
  - eapply rtc_l; [apply (step_load 0)|]. apply rtc_refl.
  - apply fence_reset.
  - apply rtc_refl.
Defined.

(** Persisting a current ledger merges and reloads exactly: the receipts become the union of the
    ledger's and the durable ones, each writer's frontier becomes the later of the two,
    loading the store again gives back the merged ledger, and no other meta record is touched. *)
Theorem persist_merges_and_reloads {S : Type} `{!MetaStore S} (l : Ledger) (s : S) :
  generation l = observationGeneration s →
  canonical_frontiers (writerFrontiers l) → canonical_frontiers (writerFrontiers (load s)) →
  ∃ l' s', persist l s = (Ok (true, l'), s') ∧
    seenChangeFiles l' = seenChangeFiles l ∪ durable_seen s ∧
    load s' = mkLedger (globalHighWaterHlc l') (seenChangeFiles l') (writerFrontiers l') true
                (generation l) ∧
    (∀ k h, writerFrontiers l !! k = Some h ∨ writerFrontiers (load s) !! k = Some h →
       ∃ m, writerFrontiers l' !! k = Some m ∧ ¬ stamp_lt m h ∧
            (writerFrontiers l !! k = Some m ∨ writerFrontiers (load s) !! k = Some m)) ∧
    (∀ k, k ≠ OBSERVATION_META_KEY → getMeta k s' = getMeta k s).
Proof.
  intros Hg Hl Hd. exists (merge_durable l (load s)),
    (store_state (ledger_state (merge_durable l (load s))) s).
  split; [unfold persist; by rewrite Hg, Z.eqb_refl|]. split; [done|]. split; [|split].
  - unfold load at 1.
    destruct (read_store_state (ledger_state (merge_durable l (load s))) s) as (wf & -> & Hwf).
    rewrite Hwf; [done|]. by apply canonical_frontiers_truthy, merge_frontiers_canonical.
  - intros k h Hk. simpl. rewrite merge_frontiers_lookup.
    destruct (writerFrontiers (load s) !! k) as [d|] eqn:Ed;
      destruct (writerFrontiers l !! k) as [m|] eqn:Em; simpl in *.
    + assert (canonical d) by by apply (Hd k). assert (canonical m) by by apply (Hl k).
      pose proof (advances_spec d m ltac:(done) ltac:(done)) as Ha.
      destruct (advances d (Some m)).
      * exists d. split; [done|]. split; [|by right].
        destruct Hk as [[= <-]|[= <-]]; [|by apply stamp_irrefl].
        apply stamp_asym; [done..|]. by apply Ha.
      * exists m. split; [done|]. split; [|by left].
        destruct Hk as [[= <-]|[= <-]]; [by apply stamp_irrefl|]. by intros ?%Ha.
    + exists d. destruct Hk as [?|[= <-]]; [done|]. split; [done|]. split; [|by right].
      apply stamp_irrefl. by apply (Hd k).
    + exists m. destruct Hk as [[= <-]|?]; [|done]. split; [done|]. split; [|by left].
      apply stamp_irrefl. by apply (Hl k).
    + by destruct Hk.
  - intros k Hne. unfold store_state. by rewrite getMeta_setMeta_ne.
Qed.

Lemma persist_merges_and_reloads_witness : ∃ l' s',
  persist (observed (load emptyStore) sample_file) emptyStore = (Ok (true, l'), s') ∧
  writerFrontiers (load s') !! "dev" = Some "000000000000001-0000-dev".
Proof.
  destruct (persist_merges_and_reloads (observed (load emptyStore) sample_file) emptyStore)
    as (l' & s' & E & _ & Hload & _).
  - by vm_compute.
  - intros k h Hk. vm_compute in Hk. destruct (decide (k = "dev")) as [->|Hne].
    + vm_compute in Hk. injection Hk as <-. apply canonicalb_spec. by vm_compute.
    + change (({["dev" := "000000000000001-0000-dev"]} : gmap string string) !! k = Some h) in Hk.
      by rewrite lookup_singleton_ne in Hk.
  - intros k h Hk. by vm_compute in Hk.
  - exists l', s'. split; [exact E|]. rewrite Hload. vm_compute in E. injection E as <- _. by vm_compute.
Defined.
