(* ===== verification/Adapter.v ===== *)
(** * Storage adapters
    ([packages/core/src/core/types.ts] [StorageAdapter],
     [packages/core/src/adapters/memory.ts])

    The contract the protocol is written against, with calls that may fail, and
    the in-memory reference implementation.  A failed write or delete may have
    taken effect: the contract only promises that it touches no other path. *)

From S2P Require Import Prelude JsString Hlc Values JsMap Wire.
From Stdlib Require Import Ascii.
From Stdlib Require String.

Open Scope stdpp_scope.

(** [s.endsWith("/")]. *)
Definition endsWith_slash (s : string) : bool :=
  bool_decide (String.get (String.length s - 1) s = Some "/"%char).

(** ** The contract

    What the engine calls, and what it relies on.  The code of the protocol is written against the
    calls alone. *)
Class StorageOps `{Platform} (A : Type) := {
  isAuthenticated : A → bool;
  authenticate : M A ();
  ensureFolder : string → M A ();
  listFiles : string → M A (list FileEntry);
  readFile : string → M A Bytes;
  writeFile : string → Bytes → M A ();
  deleteFile : string → M A ();
  (** Optional in the interface; the identity for an adapter without a cache. *)
  resetFolderCache : A → A }.
Class StorageAdapter `{Platform} (A : Type) := {
  adapter_ops :: StorageOps A;
  (** The objects the remote holds. *)
  filesOf : A → gmap string Bytes;
  auth_files a r a' : authenticate a = (r, a') → filesOf a' = filesOf a;
  ensure_files p a r a' : ensureFolder p a = (r, a') → filesOf a' = filesOf a;
  read_files p a r a' : readFile p a = (r, a') →
    filesOf a' = filesOf a ∧ (∀ d, r = Ok d → filesOf a !! p = Some d);
  list_files p a r a' : listFiles p a = (r, a') →
    filesOf a' = filesOf a ∧
    (∀ l e, endsWith_slash p = false → r = Ok l → e ∈ l →
       fe_path e = p +:+ "/" +:+ fe_name e ∧ is_Some (filesOf a !! fe_path e));
  write_ok p d a a' : writeFile p d a = (Ok (), a') → filesOf a' = <[p := d]> (filesOf a);
  write_throw p d a e a' : writeFile p d a = (Throw e, a') →
    filesOf a' = filesOf a ∨ filesOf a' = <[p := d]> (filesOf a);
  delete_ok p a a' : deleteFile p a = (Ok (), a') → filesOf a' = delete p (filesOf a);
  delete_throw p a e a' : deleteFile p a = (Throw e, a') →
    filesOf a' = filesOf a ∨ filesOf a' = delete p (filesOf a);
  reset_files a : filesOf (resetFolderCache a) = filesOf a;
}.

(** Reduce a call of a known adapter to its definition. *)
Ltac cbn_ops :=
  cbn [isAuthenticated authenticate ensureFolder listFiles readFile writeFile deleteFile resetFolderCache
       adapter_ops].

(** An adapter whose calls do not fail for reasons of its own and whose
    listing is complete.  [up] is the set of states in which this holds. *)
Class ReliableAdapter `{StorageAdapter A} (up : A → Prop) := {
  up_ensure p a : up a → ∃ a', ensureFolder p a = (Ok (), a') ∧ up a';
  up_write p d a : up a → ∃ a', writeFile p d a = (Ok (), a') ∧ up a';
  up_delete p a : up a → ∃ a', deleteFile p a = (Ok (), a') ∧ up a';
  up_read p a : up a → ∃ r a', readFile p a = (r, a') ∧ up a' ∧
    (∀ d, filesOf a !! p = Some d → r = Ok d);
  up_list p a : up a → endsWith_slash p = false → ∃ l a', listFiles p a = (Ok l, a') ∧ up a' ∧
    NoDup (fe_name <$> l) ∧
    (∀ n, str_forall (λ c, negb (Ascii.eqb c "/")) n = true →
       is_Some (filesOf a !! (p +:+ "/" +:+ n)) → n ∈ fe_name <$> l);
}.

(** ** The in-memory adapter *)
Section memory_adapter.
Context `{Platform}.

Record StoredFile := mkStoredFile { sf_data : Bytes; sf_modifiedTime : string }.
Record StoredFileMetadata := mkStoredMeta {
  sm_name : string; sm_path : string; sm_size : Z; sm_modifiedTime : string;
  sm_uploadedAt : option string; sm_uploadedByDeviceId : option string;
  sm_storedSize : option Z; sm_lastAccessedAt : option string; sm_useCount : option Z }.

(** [ma_now] is the text [new Date().toISOString()] gives. *)
Record MemoryAdapter := mkAdapter {
  ma_files : list (string * StoredFile);
  ma_storedFileMetadata : list (string * StoredFileMetadata);
  ma_sealGuards : list (string * string);
  ma_folders : list string; ma_authenticated : bool; ma_ensuredFolders : list string;
  ma_now : string }.

Definition emptyAdapter (now : string) : MemoryAdapter := mkAdapter [] [] [] [] false [] now.

Definition with_files files (a : MemoryAdapter) : MemoryAdapter :=
  mkAdapter files (ma_storedFileMetadata a) (ma_sealGuards a) (ma_folders a)
    (ma_authenticated a) (ma_ensuredFolders a) (ma_now a).
Definition with_stored meta guards (a : MemoryAdapter) : MemoryAdapter :=
  mkAdapter (ma_files a) meta guards (ma_folders a) (ma_authenticated a) (ma_ensuredFolders a)
    (ma_now a).

Definition add_to_set (x : string) (l : list string) : list string :=
  if bool_decide (x ∈ l) then l else l ++ [x].

Definition mem_authenticate : M MemoryAdapter () := modify (λ a,
  mkAdapter (ma_files a) (ma_storedFileMetadata a) (ma_sealGuards a) (ma_folders a)
    true (ma_ensuredFolders a) (ma_now a)).
Definition mem_isAuthenticated (a : MemoryAdapter) : bool := ma_authenticated a.

Definition mem_ensureFolder (path : string) : M MemoryAdapter () := modify (λ a,
  if bool_decide (path ∈ ma_ensuredFolders a) then a
  else mkAdapter (ma_files a) (ma_storedFileMetadata a) (ma_sealGuards a)
         (add_to_set path (ma_folders a)) (ma_authenticated a)
         (add_to_set path (ma_ensuredFolders a)) (ma_now a)).
Definition mem_resetFolderCache (a : MemoryAdapter) : MemoryAdapter :=
  mkAdapter (ma_files a) (ma_storedFileMetadata a) (ma_sealGuards a) (ma_folders a)
    (ma_authenticated a) [] (ma_now a).

Definition folder_prefix (folderPath : string) : string :=
  if endsWith_slash folderPath then folderPath else folderPath +:+ "/".
Definition includes_slash (s : string) : bool := negb (indexOf s "/" 0 =? -1)%Z.

Definition file_entry (name path : string) (f : StoredFile) : FileEntry :=
  mkFile name path (byteLength (sf_data f)) (sf_modifiedTime f).

Definition list_entry (prefix : string) (pf : string * StoredFile) : list FileEntry :=
  if startsWith pf.1 prefix then
    let remaining := slice_from pf.1 (Z.of_nat (String.length prefix)) in
    if negb (includes_slash remaining) then [file_entry remaining pf.1 pf.2] else []
  else [].
Definition mem_listFiles (folderPath : string) : M MemoryAdapter (list FileEntry) := gets (λ a,
  ma_files a ≫= list_entry (folder_prefix folderPath)).

Definition mem_listFolders (folderPath : string) : M MemoryAdapter (list string) := gets (λ a,
  let prefix := folder_prefix folderPath in
  let from_files := foldl (λ names path,
    if startsWith path prefix then
      let remaining := slice_from path (Z.of_nat (String.length prefix)) in
      let slash := indexOf remaining "/" 0 in
      if (0 <? slash)%Z then add_to_set (slice remaining 0 slash) names else names
    else names) [] (ma_files a).*1 in
  foldl (λ names folder,
    if startsWith folder prefix then
      let remaining := slice_from folder (Z.of_nat (String.length prefix)) in
      if truthy remaining && negb (includes_slash remaining)
      then add_to_set remaining names else names
    else names) from_files (ma_folders a)).

Definition mem_readFile (path : string) : M MemoryAdapter Bytes := λ a,
  match assoc path (ma_files a) with
  | None => (Throw (JsError ("Object not found: " +:+ path)), a)
  | Some f => (Ok (sf_data f), a)
  end.
(** [data] is the byte form; the engine passes bytes. *)
Definition mem_writeFile (path : string) (data : Bytes) : M MemoryAdapter () := modify (λ a,
  with_files (map_set path (mkStoredFile data (ma_now a)) (ma_files a)) a).
Definition mem_deleteFile (path : string) : M MemoryAdapter () := modify (λ a,
  with_files (map_delete path (ma_files a)) a).

(** [path.split("/").pop() || path]. *)
Definition base_name (path : string) : string :=
  let i := lastIndexOf path "/" in
  let last := if (i =? -1)%Z then path else slice_from path (i + 1) in
  if truthy last then last else path.
Definition mem_getFileMetadata (path : string) : M MemoryAdapter (option FileEntry) := gets (λ a,
  match assoc path (ma_files a) with
  | None => None
  | Some f => Some (file_entry (base_name path) path f)
  end).

(** ** Durable files and their seal guards *)
Definition requireSealGuard (path : string) (presented : option string)
    : M MemoryAdapter () := λ a,
  match opt_truthy (assoc path (ma_sealGuards a)) with
  | Some expected =>
      if bool_decide (presented = Some expected) then (Ok (), a)
      else (Throw (JsError ("Stored file " +:+ path +:+
              " is sealed; its key is required to overwrite or delete it")), a)
  | None => (Ok (), a)
  end.

Definition mem_putStoredFile (path : string) (data : Bytes)
    (uploadedByDeviceId sealGuard : option string) : M MemoryAdapter StoredFileMetadata :=
  requireSealGuard path sealGuard;;
  mem_writeFile path data;;
  modify (λ a, with_stored (ma_storedFileMetadata a)
    (match opt_truthy sealGuard with
     | Some g => map_set path g (ma_sealGuards a)
     | None => map_delete path (ma_sealGuards a)
     end) a);;
  ((λ a,
    let meta := mkStoredMeta (base_name path) path (byteLength data) (ma_now a)
                  (Some (ma_now a)) uploadedByDeviceId (Some (byteLength data)) None (Some 0%Z) in
    (Ok meta, with_stored (map_set path meta (ma_storedFileMetadata a)) (ma_sealGuards a) a))
   : M MemoryAdapter StoredFileMetadata).

Definition mem_getStoredFile (path : string) : M MemoryAdapter Bytes :=
  bytes ← mem_readFile path;
  modify (λ a,
    match assoc path (ma_storedFileMetadata a) with
    | Some m =>
        with_stored (map_set path
          (mkStoredMeta (sm_name m) (sm_path m) (sm_size m) (sm_modifiedTime m) (sm_uploadedAt m)
             (sm_uploadedByDeviceId m) (sm_storedSize m) (Some (ma_now a))
             (Some (default 0 (sm_useCount m) + 1)%Z)) (ma_storedFileMetadata a))
          (ma_sealGuards a) a
    | None => a
    end);;
  mret bytes.

Definition mem_deleteStoredFile (path : string) (sealGuard : option string)
    : M MemoryAdapter () :=
  requireSealGuard path sealGuard;;
  mem_deleteFile path;;
  modify (λ a, with_stored (map_delete path (ma_storedFileMetadata a))
                 (map_delete path (ma_sealGuards a)) a).

Definition mem_getStoredFileMetadata (path : string)
    : M MemoryAdapter (option StoredFileMetadata) := λ a,
  match assoc path (ma_storedFileMetadata a) with
  | Some m => (Ok (Some m), a)
  | None =>
      (file ← mem_getFileMetadata path;
       mret (match file with
             | Some f => Some (mkStoredMeta (fe_name f) (fe_path f) (fe_size f)
                                 (fe_modifiedTime f) None None (Some (fe_size f)) None None)
             | None => None
             end)) a
  end.

(** The test helper [reset]: the folder cache and the seal guards stay. *)
Definition mem_reset : M MemoryAdapter () := modify (λ a,
  mkAdapter [] [] (ma_sealGuards a) [] (ma_authenticated a) (ma_ensuredFolders a) (ma_now a)).

Definition mem_filesOf (a : MemoryAdapter) : gmap string Bytes :=
  sf_data <$> (list_to_map (ma_files a) : gmap string StoredFile).

(** ** Lookups *)
Lemma filesOf_lookup a p : mem_filesOf a !! p = sf_data <$> assoc p (ma_files a).
Proof.
  unfold mem_filesOf. rewrite lookup_fmap. f_equal. induction (ma_files a) as [|[k f] l IH]; simpl.
  - apply lookup_empty.
  - destruct (String.eqb_spec p k) as [->|]; [apply lookup_insert_eq|].
    by rewrite lookup_insert_ne.
Qed.

Lemma mem_write_files p d a :
  mem_filesOf (mem_writeFile p d a).2 = <[p := d]> (mem_filesOf a).
Proof.
  apply map_eq. intros k. rewrite filesOf_lookup. simpl. rewrite assoc_map_set.
  destruct (String.eqb_spec k p) as [->|]; [by rewrite lookup_insert_eq|].
  by rewrite lookup_insert_ne, filesOf_lookup.
Qed.
Lemma mem_delete_files p a :
  mem_filesOf (mem_deleteFile p a).2 = delete p (mem_filesOf a).
Proof.
  apply map_eq. intros k. rewrite filesOf_lookup. simpl. rewrite assoc_map_delete.
  destruct (String.eqb_spec k p) as [->|]; [by rewrite lookup_delete_eq|].
  by rewrite lookup_delete_ne, filesOf_lookup.
Qed.

Lemma startsWith_drop s p : startsWith s p = true →
  s = p +:+ slice_from s (Z.of_nat (String.length p)).
Proof.
  unfold startsWith. intros Hp. assert (∃ rest, s = p +:+ rest) as [rest ->].
  { revert s Hp. induction p as [|c p IH]; intros s Hp; [by exists s|].
    destruct s as [|c' s]; [done|]. simpl in Hp. destruct (ascii_dec c c') as [<-|]; [|done].
    destruct (IH s Hp) as [rest ->]. by exists rest. }
  by rewrite slice_from_app.
Qed.

Lemma list_entry_spec prefix pf e : e ∈ list_entry prefix pf →
  fe_path e = pf.1 ∧ pf.1 = prefix +:+ fe_name e.
Proof.
  unfold list_entry. destruct (startsWith pf.1 prefix) eqn:E; [|by intros ?%not_elem_of_nil].
  case_match; [|by intros ?%not_elem_of_nil]. intros ->%list_elem_of_singleton. simpl.
  split; [done|]. by apply startsWith_drop.
Qed.

Lemma no_slash_includes n :
  str_forall (λ c, negb (Ascii.eqb c "/")) n = true → includes_slash n = false.
Proof.
  intros Hn. unfold includes_slash, indexOf. simpl str_drop.
  assert (index_of "/" n = None) as ->; [|done].
  induction n as [|c n IH]; [done|]. simpl in Hn. apply andb_true_iff in Hn as [Hc Hn].
  cbn [index_of]. rewrite IH by done.
  destruct (String.prefix "/" (String c n)) eqn:E; [|done].
  pose proof (prefix_get _ _ 0 "/"%char E eq_refl) as [= ->]. done.
Qed.

Lemma list_entry_complete prefix n f :
  str_forall (λ c, negb (Ascii.eqb c "/")) n = true →
  list_entry prefix (prefix +:+ n, f) = [file_entry n (prefix +:+ n) f].
Proof.
  intros Hn. unfold list_entry, startsWith. simpl. rewrite prefix_app, slice_from_app.
  by rewrite no_slash_includes.
Qed.

#[global] Program Instance memory_storage : StorageAdapter MemoryAdapter := {
  adapter_ops := {|
    isAuthenticated := mem_isAuthenticated; authenticate := mem_authenticate;
    ensureFolder := mem_ensureFolder; listFiles := mem_listFiles; readFile := mem_readFile;
    writeFile := mem_writeFile; deleteFile := mem_deleteFile;
    resetFolderCache := mem_resetFolderCache |};
  filesOf := mem_filesOf }.
Next Obligation. cbn_ops. by intros a r a' [= _ <-]. Qed.
Next Obligation. cbn_ops. intros p a r a' [= _ <-]. by case_bool_decide. Qed.
Next Obligation.
  cbn_ops. intros p a r a'. unfold mem_readFile. destruct (assoc p (ma_files a)) as [f|] eqn:E;
    intros [= <- <-]; split; try done. intros d [= <-]. by rewrite filesOf_lookup, E.
Qed.
Next Obligation.
  cbn_ops. intros p a r a' [= <- <-]. split; [done|]. intros l e Hp [= <-] He.
  apply list_elem_of_bind in He as ([k f] & He & Hk). apply list_entry_spec in He as [-> Hpath].
  simpl in *. unfold folder_prefix in Hpath. rewrite Hp in Hpath. rewrite str_app_assoc in Hpath.
  split; [done|]. rewrite filesOf_lookup. apply fmap_is_Some.
  destruct (assoc k (ma_files a)) eqn:E; [done|]. apply assoc_none in E. destruct E.
  apply list_elem_of_fmap. by exists (k, f).
Qed.
Next Obligation. cbn_ops. intros p d a a' [= <-]. apply (mem_write_files p d a). Qed.
Next Obligation. by cbn_ops. Qed.
Next Obligation. cbn_ops. intros p a a' [= <-]. apply (mem_delete_files p a). Qed.
Next Obligation. by cbn_ops. Qed.
Next Obligation. by cbn_ops. Qed.
End memory_adapter.

Section memory_theory.
Context `{Platform}.

Definition mem_up (a : MemoryAdapter) : Prop := NoDup (ma_files a).*1.

Lemma list_names_nodup prefix files :
  NoDup files.*1 → NoDup (fe_name <$> (files ≫= list_entry prefix)).
Proof.
  induction files as [|[k f] files IH]; [constructor|]. simpl. intros [Hk Hnd]%list.NoDup_cons.
  rewrite fmap_app. apply list.NoDup_app. split.
  - unfold list_entry. destruct (startsWith _ _); [|constructor].
    case_match; [apply NoDup_singleton|constructor].
  - split; [|by apply IH]. intros n Hn Hn'.
    apply list_elem_of_fmap in Hn as (e & -> & He), Hn' as (e' & En & He').
    apply list_elem_of_bind in He' as ([k' f'] & He' & Hin').
    apply list_entry_spec in He as [_ Ek], He' as [_ Ek']. simpl in *. apply Hk.
    rewrite Ek, En, <- Ek'. apply list_elem_of_fmap. by exists (k', f').
Qed.

#[global] Program Instance memory_reliable : ReliableAdapter mem_up.
Next Obligation.
  intros p a Ha. eexists. split; [done|]. unfold mem_up. by case_bool_decide.
Qed.
Next Obligation. intros p d a Ha. eexists. split; [done|]. by apply map_set_nodup. Qed.
Next Obligation. intros p a Ha. eexists. split; [done|]. by apply map_delete_nodup. Qed.
Next Obligation.
  intros p a Ha. simpl. unfold mem_readFile. destruct (assoc p (ma_files a)) as [f|] eqn:E;
    eexists _, _; (split; [done|]; split; [done|]); intros d; rewrite filesOf_lookup, E; simpl;
    [by intros [= ->]|done].
Qed.
Next Obligation.
  intros p a Ha Hp. eexists _, _. split; [done|]. split; [done|].
  split; [by apply list_names_nodup|]. intros n Hn. simpl. rewrite filesOf_lookup.
  intros [d Hd]. apply fmap_Some in Hd as (f & Hf & _). apply assoc_elem in Hf.
  apply list_elem_of_fmap. exists (file_entry n (folder_prefix p +:+ n) f). split; [done|].
  apply list_elem_of_bind. exists (folder_prefix p +:+ n, f). rewrite list_entry_complete by done.
  split; [by left|]. unfold folder_prefix. rewrite Hp. by rewrite str_app_assoc.
Qed.

(** *** Sealed files

    Calls other holders of the store can make; a call on the sealed path does not
    present its guard. *)
Inductive FileCall :=
  | CPut (path : string) (data : Bytes) (device guard : option string)
  | CGet (path : string)
  | CDelete (path : string) (guard : option string)
  | CMetadata (path : string).
Definition run_call (c : FileCall) (a : MemoryAdapter) : MemoryAdapter :=
  match c with
  | CPut p d dev g => (mem_putStoredFile p d dev g a).2
  | CGet p => (mem_getStoredFile p a).2
  | CDelete p g => (mem_deleteStoredFile p g a).2
  | CMetadata p => (mem_getStoredFileMetadata p a).2
  end.
Definition without_guard (path guard : string) (c : FileCall) : Prop :=
  match c with
  | CPut p _ _ g | CDelete p g => p = path → g ≠ Some guard
  | CGet _ | CMetadata _ => True
  end.

Definition sealed_at (path guard : string) (f : StoredFile) (a : MemoryAdapter) : Prop :=
  assoc path (ma_sealGuards a) = Some guard ∧ assoc path (ma_files a) = Some f.

Lemma guard_blocks path guard f a g :
  truthy guard = true → sealed_at path guard f a → g ≠ Some guard →
  ∃ e, requireSealGuard path g a = (Throw e, a).
Proof.
  intros Ht [Hg _] Hne. unfold requireSealGuard. rewrite Hg, opt_truthy_Some by done.
  rewrite bool_decide_false by done. eauto.
Qed.
Lemma guard_state path g a r a' : requireSealGuard path g a = (r, a') → a' = a.
Proof. unfold requireSealGuard. repeat case_match; by intros [= _ <-]. Qed.

Lemma call_keeps_seal path guard f c a :
  truthy guard = true → without_guard path guard c → sealed_at path guard f a →
  sealed_at path guard f (run_call c a).
Proof.
  intros Ht Hc Hs. destruct c as [p d dev g|p|p g|p]; simpl in *.
  - unfold mem_putStoredFile, mbind, M_bind. destruct (decide (p = path)) as [->|Hne].
    + by destruct (guard_blocks path guard f a g Ht Hs (Hc eq_refl)) as [e ->].
    + destruct (requireSealGuard p g a) as [[?|?] a1] eqn:E; apply guard_state in E as ->; [|done].
      destruct Hs as [Hg Hf]. split; simpl.
      * destruct (opt_truthy g); [by rewrite assoc_map_set_ne|].
        rewrite assoc_map_delete. by destruct (String.eqb_spec path p) as [->|].
      * by rewrite assoc_map_set_ne.
  - unfold mem_getStoredFile, mem_readFile, mbind, M_bind.
    destruct (assoc p (ma_files a)); simpl; [|done].
    by destruct (assoc p (ma_storedFileMetadata a)).
  - unfold mem_deleteStoredFile, mbind, M_bind. destruct (decide (p = path)) as [->|Hne].
    + by destruct (guard_blocks path guard f a g Ht Hs (Hc eq_refl)) as [e ->].
    + destruct (requireSealGuard p g a) as [[?|?] a1] eqn:E; apply guard_state in E as ->; [|done].
      destruct Hs as [Hg Hf]. split; simpl; rewrite assoc_map_delete;
        by destruct (String.eqb_spec path p) as [->|].
  - unfold mem_getStoredFileMetadata. by destruct (assoc p (ma_storedFileMetadata a)).
Qed.
End memory_theory.

(** ** A platform for examples: text is the document, a key is a number. *)
Definition test_platform : Platform := {|
  Text := Doc; Bytes := (option Z * Doc)%type; CryptoKey := Z; byteLength _ := 1%Z;
  stringify d := d; parse d := Ok d; encodeText d := (None, d); decodeText := snd;
  encryptEntry k d := (Some k, d);
  decryptEntry k b := if bool_decide (b.1 = Some k) then Ok b.2
                      else Throw (JsError "decryption failed");
  hashPayload m := num_toString 10 (Num (m_generation m));
  parse_stringify d _ := eq_refl; decode_encode d := eq_refl;
  decrypt_encrypt k t := ltac:(simpl; by rewrite bool_decide_true) |}.
Definition test_bytes : @Bytes test_platform := (None, DOther VNull).

(** ** Properties *)

(** A sealed durable file cannot be replaced or removed without its seal guard: after a
    guarded upload, any sequence of uploads, downloads, deletions and metadata
    reads in which no call on that path presents the guard leaves the stored bytes
    and the guard in place, each such upload or deletion is rejected, and a
    download returns the sealed bytes. *)
Theorem sealed_file_protected `{Platform} (path guard : string) (data : Bytes)
    (device : option string) (calls : list FileCall) (a a1 : MemoryAdapter)
    (m : StoredFileMetadata) :
  truthy guard = true →
  mem_putStoredFile path data device (Some guard) a = (Ok m, a1) →
  Forall (without_guard path guard) calls →
  let a2 := foldl (λ a c, run_call c a) a1 calls in
  assoc path (ma_sealGuards a2) = Some guard ∧
  (mem_getStoredFile path a2).1 = Ok data ∧
  (∀ d dev g, g ≠ Some guard → is_ok (mem_putStoredFile path d dev g a2).1 = false ∧
                               is_ok (mem_deleteStoredFile path g a2).1 = false).
Proof.
  intros Ht Hput Hcalls a2. assert (sealed_at path guard (mkStoredFile data (ma_now a)) a2) as Hs.
  { apply (foldl_inv (sealed_at path guard (mkStoredFile data (ma_now a)))
             (without_guard path guard)); [intros; by apply call_keeps_seal| |done].
    revert Hput. unfold mem_putStoredFile, mbind, M_bind.
    destruct (requireSealGuard path (Some guard) a) as [[?|?] a0] eqn:E; [|done].
    apply guard_state in E as ->. simpl. rewrite Ht. intros [= _ <-].
    split; simpl; by rewrite assoc_map_set_eq. }
  split; [apply Hs|]. split.
  - destruct Hs as [_ Hf]. unfold mem_getStoredFile, mem_readFile, mbind, M_bind. by rewrite Hf.
  - intros d dev g Hg. destruct (guard_blocks _ _ _ _ _ Ht Hs Hg) as [e He].
    unfold mem_putStoredFile, mem_deleteStoredFile, mbind, M_bind. by rewrite He.
Qed.

Lemma sealed_file_protected_witness :
  let a1 := (@mem_putStoredFile test_platform "files/x" test_bytes None (Some "g")
               (@emptyAdapter test_platform "now")).2 in
  let a2 := @run_call test_platform (CDelete "files/x" (Some "wrong")) a1 in
  (@mem_getStoredFile test_platform "files/x" a2).1 = Ok test_bytes.
Proof.
  intros a1 a2.
  refine (proj1 (proj2 (@sealed_file_protected test_platform "files/x" "g" test_bytes None
    [CDelete "files/x" (Some "wrong")] (@emptyAdapter test_platform "now") a1 _ eq_refl eq_refl _))).
  by repeat constructor.
Defined.
