(* ===== verification/Codec.v ===== *)
(** * Payload encoding and the mesh identity
    ([packages/core/src/core/codec.ts])

    A change or snapshot travels as a JSON payload naming its mesh, encrypted
    when the mesh is.  Decoding checks the shape and pins the mesh id of the
    local store: the first id seen is recorded and no other is accepted. *)

From S2P Require Import Prelude JsString Hlc Values JsMap LocalStore Wire Adapter.
From Stdlib Require String.

Open Scope stdpp_scope.

(** [err.message]. *)
Definition error_message (e : error) : string :=
  match e with
  | JsError m | RangeErr m => m
  | RemoteAccessErr _ _ _ => "Remote access denied"
  | MeshEncryptionMismatchErr _ _ => "Mesh encryption mode mismatch"
  | CredentialErr _ => "Credentials cannot be used"
  end.

Section codec.
Context `{Platform} {S : Type} `{HS : !MetaStore S}.

Record CodecState := mkCodec {
  cs_encryptionKey : option CryptoKey; cs_encrypted : bool; cs_manifest : option Manifest }.

Definition manifest_meshId (m : option Manifest) : option string :=
  (λ m, m_meshId (m_payload m)) <$> m.

Definition encodeForCloud (st : CodecState) (plaintext : Text) : Bytes :=
  match cs_encryptionKey st with
  | Some k => if cs_encrypted st then encryptEntry k plaintext else encodeText plaintext
  | None => encodeText plaintext
  end.

Definition decodeFromCloud (st : CodecState) (data : Bytes) : result Text :=
  match cs_encryptionKey st with
  | Some k =>
      if cs_encrypted st then
        match decryptEntry k data with
        | Ok t => Ok t
        | Throw err =>
            Throw (JsError ("Decryption failed: payload not decryptable with the active mesh key ("
              +:+ error_message err +:+
              "). The remote was likely written under a different key/mesh."))
        end
      else Ok (decodeText data)
  | None => Ok (decodeText data)
  end.

Definition mesh_mismatch (expected got : string) : error :=
  JsError ("Remote mesh mismatch: expected " +:+ expected +:+ ", got " +:+ got).

Definition assertExpectedMeshId (manifest : option Manifest) (meshId : string) : M S () :=
  if negb (truthy meshId) then throw (JsError "Remote mesh is missing meshId")
  else
    match opt_truthy (manifest_meshId manifest) with
    | Some manifestMeshId =>
        if negb (String.eqb manifestMeshId meshId) then throw (mesh_mismatch manifestMeshId meshId)
        else mret ()
    | None => mret ()
    end;;
    storedMeshId ← gets (getMeta "meshId");
    match storedMeshId with
    | VStr stored =>
        if truthy stored && negb (String.eqb stored meshId)
        then throw (mesh_mismatch stored meshId)
        else mret ()
    | _ => mret ()
    end;;
    modify (setMeta "meshId" (VStr meshId)).

Definition encodeChangePayload (st : CodecState) (entry : ChangeEntry) : result Bytes :=
  match opt_truthy (manifest_meshId (cs_manifest st)) with
  | None => Throw (JsError "Cannot encode change payload before manifest is loaded")
  | Some meshId =>
      Ok (encodeForCloud st
            (stringify (DPayload (mkMeshPayload false (Some meshId) "change" (Some entry) None))))
  end.

Definition encodeSnapshotPayload (st : CodecState) (snapshot : Snapshot) : result Bytes :=
  match opt_truthy (manifest_meshId (cs_manifest st)) with
  | None => Throw (JsError "Cannot encode snapshot payload before manifest is loaded")
  | Some meshId =>
      Ok (encodeForCloud st
            (stringify (DPayload (mkMeshPayload false (Some meshId) "snapshot" None (Some snapshot)))))
  end.

(** A document of another kind has none of the fields the checks look for. *)
Definition as_payload (d : Doc) : MeshPayload :=
  match d with DPayload p => p | _ => mkMeshPayload false None "" None None end.

Definition invalid_shape (what path : string) : error :=
  JsError ("Remote " +:+ what +:+ " payload has invalid shape: " +:+ path).
Definition only_mesh (p : MeshPayload) : bool :=
  pl_hasMesh p && negb (bool_decide (is_Some (pl_meshId p))).

Definition decodeChangePayload (st : CodecState) (data : Bytes) (path : string)
    : M S ChangeEntry :=
  decoded ← lift (decodeFromCloud st data);
  doc ← lift (parse decoded);
  let payload := as_payload doc in
  if only_mesh payload then throw (invalid_shape "change" path)
  else
    match pl_entry payload with
    | Some entry =>
        if negb (String.eqb (pl_kind payload) "change") then throw (invalid_shape "change" path)
        else
          assertExpectedMeshId (cs_manifest st) (default "" (pl_meshId payload));;
          mret entry
    | None => throw (invalid_shape "change" path)
    end.

Definition decodeSnapshotPayload (st : CodecState) (data : Bytes) (path : string)
    : M S Snapshot :=
  decoded ← lift (decodeFromCloud st data);
  doc ← lift (parse decoded);
  let payload := as_payload doc in
  if only_mesh payload then throw (invalid_shape "snapshot" path)
  else
    match pl_snapshot payload with
    | Some snapshot =>
        if negb (String.eqb (pl_kind payload) "snapshot")
        then throw (invalid_shape "snapshot" path)
        else
          assertExpectedMeshId (cs_manifest st) (default "" (pl_meshId payload));;
          mret snapshot
    | None => throw (invalid_shape "snapshot" path)
    end.
End codec.

Section codec_theory.
Context `{Platform} {S : Type} `{HS : !MetaStore S}.

(** The store has not yet pinned a mesh other than [m]. *)
Definition mesh_free (m : string) (s : S) : Prop :=
  match getMeta "meshId" s with
  | VStr stored => truthy stored = false ∨ stored = m
  | _ => True
  end.
(** The store has pinned [m]. *)
Definition pinned (m : string) (s : S) : Prop :=
  getMeta "meshId" s = VStr m ∧ truthy m = true.

Lemma pinned_free m s : pinned m s → mesh_free m s.
Proof. intros [E _]. unfold mesh_free. rewrite E. by right. Qed.

(** The check either pins the mesh or refuses and changes nothing. *)
Lemma assert_spec manifest m s r s' :
  assertExpectedMeshId manifest m s = (r, s') →
  (r = Ok () ∧ s' = setMeta "meshId" (VStr m) s ∧ truthy m = true ∧ mesh_free m s ∧
     (∀ m', opt_truthy (manifest_meshId manifest) = Some m' → m' = m)) ∨
  (is_ok r = false ∧ s' = s).
Proof.
  unfold assertExpectedMeshId, mesh_free. destruct (truthy m) eqn:Hm; simpl; [|intros [= <- <-]; by right].
  munfold. destruct (opt_truthy (manifest_meshId manifest)) as [m'|].
  - destruct (String.eqb_spec m' m) as [->|]; simpl; [|intros [= <- <-]; by right].
    destruct (getMeta "meshId" s) as [| | | |stored| | |]; try (intros [= <- <-]; left; naive_solver).
    destruct (truthy stored) eqn:Hs; simpl; [|intros [= <- <-]; left; naive_solver].
    destruct (String.eqb_spec stored m); simpl; intros [= <- <-]; [left; naive_solver|by right].
  - destruct (getMeta "meshId" s) as [| | | |stored| | |]; try (intros [= <- <-]; left; naive_solver).
    destruct (truthy stored) eqn:Hs; simpl; [|intros [= <- <-]; left; naive_solver].
    destruct (String.eqb_spec stored m); simpl; intros [= <- <-]; [left; naive_solver|by right].
Qed.

Lemma assert_accepts manifest m s :
  truthy m = true → mesh_free m s →
  (∀ m', opt_truthy (manifest_meshId manifest) = Some m' → m' = m) →
  assertExpectedMeshId manifest m s = (Ok (), setMeta "meshId" (VStr m) s).
Proof.
  intros Hm Hf Hman. unfold assertExpectedMeshId, mesh_free in *. rewrite Hm. munfold.
  destruct (opt_truthy (manifest_meshId manifest)) as [m'|].
  - rewrite (Hman m' eq_refl), String.eqb_refl. simpl.
    destruct (getMeta "meshId" s) as [| | | |stored| | |]; try done.
    destruct Hf as [-> | ->]; [done|]. by rewrite String.eqb_refl, andb_false_r.
  - destruct (getMeta "meshId" s) as [| | | |stored| | |]; try done.
    destruct Hf as [-> | ->]; [done|]. by rewrite String.eqb_refl, andb_false_r.
Qed.

Lemma cloud_roundtrip st t : decodeFromCloud st (encodeForCloud st t) = Ok t.
Proof.
  unfold decodeFromCloud, encodeForCloud. destruct (cs_encryptionKey st) as [k|];
    [destruct (cs_encrypted st)|]; by rewrite ?decrypt_encrypt, ?decode_encode.
Qed.

Lemma payload_roundtrip st p : json_doc (DPayload p) = true →
  ∀ B (f : Doc → M S B) s,
  ((decoded ← lift (decodeFromCloud st (encodeForCloud st (stringify (DPayload p))));
    doc ← lift (parse decoded); f doc) : M S B) s = f (DPayload p) s.
Proof.
  intros Hp B f s. rewrite cloud_roundtrip. munfold. by rewrite parse_stringify.
Qed.

Lemma change_decodes st entry data path s :
  json_entry entry = true → encodeChangePayload st entry = Ok data →
  ∃ m, opt_truthy (manifest_meshId (cs_manifest st)) = Some m ∧
    (mesh_free m s →
     decodeChangePayload st data path s = (Ok entry, setMeta "meshId" (VStr m) s)).
Proof.
  unfold encodeChangePayload. intros He.
  destruct (opt_truthy (manifest_meshId (cs_manifest st))) as [m|] eqn:Em; [|done].
  intros [= <-]. exists m. split; [done|]. intros Hf. unfold decodeChangePayload.
  rewrite payload_roundtrip by (simpl; by rewrite He). simpl.
  assert (truthy m = true) as Ht.
  { destruct (manifest_meshId (cs_manifest st)) as [x|]; simpl in Em; [|done].
    by destruct (truthy x) eqn:?; simplify_eq. }
  unfold mbind at 1, M_bind at 1. rewrite assert_accepts; [done|done|done|].
  intros m' Hm'. rewrite Em in Hm'. by simplify_eq.
Qed.

Lemma snapshot_decodes st snap data path s :
  json_snapshot snap = true → encodeSnapshotPayload st snap = Ok data →
  ∃ m, opt_truthy (manifest_meshId (cs_manifest st)) = Some m ∧
    (mesh_free m s →
     decodeSnapshotPayload st data path s = (Ok snap, setMeta "meshId" (VStr m) s)).
Proof.
  unfold encodeSnapshotPayload. intros He.
  destruct (opt_truthy (manifest_meshId (cs_manifest st))) as [m|] eqn:Em; [|done].
  intros [= <-]. exists m. split; [done|]. intros Hf. unfold decodeSnapshotPayload.
  rewrite payload_roundtrip by (simpl; by rewrite He). simpl.
  assert (truthy m = true) as Ht.
  { destruct (manifest_meshId (cs_manifest st)) as [x|]; simpl in Em; [|done].
    by destruct (truthy x) eqn:?; simplify_eq. }
  unfold mbind at 1, M_bind at 1. rewrite assert_accepts; [done|done|done|].
  intros m' Hm'. rewrite Em in Hm'. by simplify_eq.
Qed.
End codec_theory.

(** ** Sequences of decodes *)
Section pinning.
Context `{Platform} {S : Type} `{HS : !MetaStore S}.

Inductive Incoming :=
  | InChange (data : Bytes) (path : string)
  | InSnapshot (data : Bytes) (path : string).
(** Whether the decode succeeded, and the store it leaves. *)
Definition receive (st : CodecState) (i : Incoming) (s : S) : bool * S :=
  match i with
  | InChange d p => let '(r, s') := decodeChangePayload st d p s in (is_ok r, s')
  | InSnapshot d p => let '(r, s') := decodeSnapshotPayload st d p s in (is_ok r, s')
  end.
Definition incoming_bytes (i : Incoming) : Bytes :=
  match i with InChange d _ | InSnapshot d _ => d end.
(** The mesh a payload names, when it can be read under this codec state. *)
Definition named_mesh (st : CodecState) (data : Bytes) : option string :=
  match decodeFromCloud st data with
  | Ok t => match parse t with Ok d => pl_meshId (as_payload d) | Throw _ => None end
  | Throw _ => None
  end.

Lemma receive_spec st i s :
  ((receive st i s).1 = false ∧ (receive st i s).2 = s) ∨
  ∃ m, receive st i s = (true, setMeta "meshId" (VStr m) s) ∧ mesh_free m s ∧ truthy m = true ∧
       named_mesh st (incoming_bytes i) = Some m.
Proof.
  unfold receive, decodeChangePayload, decodeSnapshotPayload, named_mesh.
  destruct i as [d p|d p]; munfold; destruct (decodeFromCloud st d) as [t|]; try (by left);
    destruct (parse t) as [doc|]; try (by left); simpl;
    destruct (only_mesh (as_payload doc)); try (by left);
    [destruct (pl_entry (as_payload doc)) as [x|]|destruct (pl_snapshot (as_payload doc)) as [x|]];
    try (by left); destruct (String.eqb (pl_kind (as_payload doc)) _); try (by left); simpl;
    destruct (assertExpectedMeshId (cs_manifest st) (default "" (pl_meshId (as_payload doc))) s)
      as [[[]|e] s1] eqn:E; apply assert_spec in E;
    destruct E as [(E1 & -> & Ht & Hf & _)|[? ->]]; try done; try (by left).
  all: right; exists (default "" (pl_meshId (as_payload doc)));
    (split; [done|]; split; [done|]; split; [done|]).
  all: by destruct (pl_meshId (as_payload doc)); [|vm_compute in Ht].
Qed.

Lemma receive_pinned st i m s : pinned m s → pinned m (receive st i s).2.
Proof.
  intros Hp. destruct (receive_spec st i s) as [[_ ->]|(m' & -> & Hf & Ht & _)]; [done|].
  destruct Hp as [E Hm]. unfold mesh_free in Hf. rewrite E in Hf.
  destruct Hf as [Hf| <-]; [by rewrite Hf in Hm|]. split; [apply getMeta_setMeta|done].
Qed.
End pinning.

(** ** Properties *)

(** Encoding and decoding are inverse, encrypted or not: a change or snapshot encoded for the mesh of
    the manifest decodes to itself in any store that has not pinned another
    mesh, and the decode pins the mesh id and touches no other meta record. *)
Theorem payload_roundtrips `{Platform} {S : Type} `{!MetaStore S} (st : CodecState)
    (entry : ChangeEntry) (snap : Snapshot) (m path : string) (s : S) :
  opt_truthy (manifest_meshId (cs_manifest st)) = Some m →
  json_entry entry = true → json_snapshot snap = true → mesh_free m s →
  ∃ d1 d2, encodeChangePayload st entry = Ok d1 ∧ encodeSnapshotPayload st snap = Ok d2 ∧
    decodeChangePayload st d1 path s = (Ok entry, setMeta "meshId" (VStr m) s) ∧
    decodeSnapshotPayload st d2 path s = (Ok snap, setMeta "meshId" (VStr m) s) ∧
    getMeta "meshId" (setMeta "meshId" (VStr m) s) = VStr m ∧
    (∀ k, k ≠ "meshId" → getMeta k (setMeta "meshId" (VStr m) s) = getMeta k s).
Proof.
  intros Hm He Hs Hf.
  assert (∃ d1, encodeChangePayload st entry = Ok d1) as [d1 E1].
  { unfold encodeChangePayload. rewrite Hm. eauto. }
  assert (∃ d2, encodeSnapshotPayload st snap = Ok d2) as [d2 E2].
  { unfold encodeSnapshotPayload. rewrite Hm. eauto. }
  exists d1, d2. destruct (change_decodes st entry d1 path s He E1) as (m1 & Hm1 & D1).
  destruct (snapshot_decodes st snap d2 path s Hs E2) as (m2 & Hm2 & D2).
  rewrite Hm in Hm1, Hm2. simplify_eq. repeat split; try done; auto.
  - apply getMeta_setMeta.
  - intros k Hk. by apply getMeta_setMeta_ne.
Qed.

Definition test_manifest (meshId : string) (gen : Z) (snapshotPath : option string) : Manifest :=
  let p := mkManifestPayload gen 0 "srv" "now" 3 meshId 1 (Some false) (mkServer false None "srv")
             "now" 0 "" snapshotPath None None None in
  mkManifest p (@hashPayload test_platform p).
Definition test_codec : @CodecState test_platform :=
  @mkCodec test_platform (Some 7%Z) true (Some (test_manifest "mesh_1" 1 None)).
Definition test_snapshot : Snapshot := mkSnapshot "snap_1" "now" "" 1 1 (Some []) [].

Lemma payload_roundtrips_witness : ∃ d,
  @encodeChangePayload test_platform test_codec (sample_change "chg_1" "h" []) = Ok d ∧
  (@decodeChangePayload test_platform _ memory_meta_store test_codec d "p" emptyStore).1 =
    Ok (sample_change "chg_1" "h" []).
Proof.
  destruct (@payload_roundtrips test_platform _ memory_meta_store test_codec
              (sample_change "chg_1" "h" []) test_snapshot "mesh_1" "p" emptyStore
              eq_refl eq_refl eq_refl I) as (d1 & d2 & E1 & _ & D1 & _).
  exists d1. split; [exact E1|]. by rewrite D1.
Defined.

(** A store stays in the mesh it joined: once a mesh id is pinned, no sequence of incoming changes
    and snapshots, whatever their bytes, changes it; every payload that is
    accepted names that mesh; and one that is rejected leaves the store untouched. *)
Theorem mesh_identity_is_pinned `{Platform} {S : Type} `{!MetaStore S} (st : CodecState)
    (m : string) (s : S) (incoming : list Incoming) (i : Incoming) :
  pinned m s →
  let s' := foldl (λ s i, (receive st i s).2) s incoming in
  pinned m s' ∧
  ((receive st i s').1 = true → named_mesh st (incoming_bytes i) = Some m) ∧
  ((receive st i s').1 = false → (receive st i s').2 = s').
Proof.
  intros Hp s'. assert (pinned m s') as Hp'.
  { apply (foldl_inv (pinned m) (λ _, True)); [intros; by apply receive_pinned|done|].
    by apply Forall_true. }
  split; [done|]. destruct (receive_spec st i s') as [[-> ->]|(m' & -> & Hf & Ht & Hn)]; [done|].
  split; [|done]. intros _. destruct Hp' as [E Hm]. unfold mesh_free in Hf. rewrite E in Hf.
  destruct Hf as [Hf| <-]; [by rewrite Hf in Hm|done].
Qed.

Lemma mesh_identity_is_pinned_witness :
  let s := setMeta "meshId" (VStr "mesh_1") emptyStore in
  pinned "mesh_1" (receive test_codec (InChange test_bytes "p") s).2.
Proof.
  intros s.
  exact (proj1 (@mesh_identity_is_pinned test_platform _ memory_meta_store test_codec "mesh_1" s
           [InChange test_bytes "p"] (InChange test_bytes "p") (conj eq_refl eq_refl))).
Defined.
