(* ===== verification/Session.v ===== *)
(** * The session a sync step runs in
    (the context objects of [manifest.ts], [pull.ts], [compaction.ts], and
     [poisonRemote], [ensureRowsCached] of [sync-engine.ts])

    The engine passes its parts to the protocol functions as context objects;
    here they are one state: the remote adapter, the local store, the merge cache,
    the clock, the manifest, and the events emitted so far. *)

From S2P Require Import Prelude JsString Hlc Values JsMap LocalStore Wire Crdt.
From S2P Require Import Observation Adapter Codec.
From Stdlib Require String.

Open Scope stdpp_scope.

Inductive ConnectionStatus := Offline | Connecting | Syncing | Idle.
#[global] Instance ConnectionStatus_eq_dec : EqDecision ConnectionStatus.
Proof. solve_decision. Defined.

Inductive SyncEvent :=
  | SyncStart
  | SyncComplete (entriesMerged : nat)
  | SyncError (e : error)
  | SyncLateChange (late : LateChangeObservation)
  | RowChange (table rowId : string) (row : Row)
  | RowDelete (table rowId : string)
  | DecodeError (e : error) (path stage : string)
  | RemotePoisoned (e : error) (path : option string)
  | SchemaMismatch (loc remote : Z)
  | TraceManifest (op reason path : string) (generation : option Z)
  | TraceHead (op reason path : string) (priorHlc nextHlc : option string) (regressed : bool)
  | SnapshotCleanup (activeSnapshotPath : string) (attempted deleted : nat)
      (failedPaths : list string) (e : option error)
  | ConnectionStatusEvent (status : ConnectionStatus)
  | RemoteAccess (e : error) (stage : string) (paused : bool)
  | FlushStart (entryCount : nat)
  | FlushComplete
  | FlushError (e : error)
  | CompactWarning (queuedChangeCount threshold : nat)
  | ReplicaError (adapterIndex : nat) (e : error)
  | CompactAutoSkip (queuedChangeCount : nat) (trigger reason : string)
  | CompactAutoStart (queuedChangeCount : nat) (trigger : string)
  | CompactAutoComplete (queuedChangeCount : nat) (trigger : string)
  | CompactAutoError (queuedChangeCount : nat) (trigger : string) (e : error)
  | CompactDelayedScheduled (queuedChangeCount : nat) (delayMs : Z) (phase : string)
  | CompactDelayedCheck (queuedChangeCount remoteChangeFileCount : nat)
  | CompactRetentionScheduled (dueAt : Z)
  | CompactRetentionStart (oldestChangeAt ageMs : Z)
  | CompactRetentionComplete (oldestChangeAt ageMs : Z)
  | CompactRetentionError (oldestChangeAt : option Z) (e : error)
  | OfflineRetentionExpired (expiredAt lastSuccessfulSyncAt : string)
      (maxOfflineDurationMs : jsnum) (quarantinedChangeCount : nat)
  | AuthRequired
  | AuthComplete
  | CredentialsMeshMismatch (storedMeshId activeMeshId : string)
  | CredentialsPersisted (deviceId : string) (encrypted : bool)
  | CredentialsConflict (storedDeviceId activeDeviceId : string)
  | CredentialsRestored (deviceIdChanged hadPassphrase : bool)
  | MeshConfigured (remotePath deviceId : string) (encrypted hadPassphrase : bool)
  | EncryptionResolved (encrypted : bool)
  | JoinExistingMesh (previousMeshId : option string) (nextMeshId : string) (merge : bool)
      (localRowCount queuedChangeCount : nat)
  | MeshEvicted (meshId detectedBy : string) (attested : bool) (previousLineage lineage : Z)
      (localRowCount queuedChangeCount : nat) (manual : bool)
  | ConnectNoop
  | ConnectState (meshId : option string) (localEpoch remoteEpoch : option jsnum)
  | ConnectError (stage : string) (e : error)
  | RelayUnavailable
  | RelaySubscribe
  | RemoteAccessRestored (previous : error)
  | TransportTeardown (reason : string)
  | RehydrateStart
  | RehydrateComplete (rowCount : nat).

(** What the environment supplies to one step: the wall clock in milliseconds
    and as ISO text, and fresh identifiers by prefix. *)
Record Env := mkEnv { env_wall : Z; env_now : string; env_newId : string → string }.

Section session.
Context `{Platform} {A : Type} `{!StorageOps A}.

Record Config := mkConfig {
  cf_remotePath : string; cf_serverId : string; cf_serverManaged : bool; cf_deviceId : string;
  cf_encrypted : bool; cf_key : option CryptoKey; cf_schema : option DatabaseSchemaDefinition;
  cf_retention : RetentionPolicy;
  (** The engine was opened as a reader: it never creates remote state. *)
  cf_reader : bool }.

Record Session := mkSession {
  ss_adapter : A; ss_local : MemoryLocalStore; ss_tables : Tables;
  ss_knownTables : gset string; ss_hlc : HLC; ss_manifest : option Manifest;
  ss_encrypted : bool; ss_poison : option error; ss_connected : bool;
  ss_events : list SyncEvent }.

Definition set_adapter a (s : Session) : Session :=
  mkSession a (ss_local s) (ss_tables s) (ss_knownTables s) (ss_hlc s) (ss_manifest s)
    (ss_encrypted s) (ss_poison s) (ss_connected s) (ss_events s).
Definition set_local l (s : Session) : Session :=
  mkSession (ss_adapter s) l (ss_tables s) (ss_knownTables s) (ss_hlc s) (ss_manifest s)
    (ss_encrypted s) (ss_poison s) (ss_connected s) (ss_events s).
Definition set_tables t (s : Session) : Session :=
  mkSession (ss_adapter s) (ss_local s) t (ss_knownTables s) (ss_hlc s) (ss_manifest s)
    (ss_encrypted s) (ss_poison s) (ss_connected s) (ss_events s).
Definition set_knownTables k (s : Session) : Session :=
  mkSession (ss_adapter s) (ss_local s) (ss_tables s) k (ss_hlc s) (ss_manifest s)
    (ss_encrypted s) (ss_poison s) (ss_connected s) (ss_events s).
Definition set_clock h (s : Session) : Session :=
  mkSession (ss_adapter s) (ss_local s) (ss_tables s) (ss_knownTables s) h (ss_manifest s)
    (ss_encrypted s) (ss_poison s) (ss_connected s) (ss_events s).
Definition set_manifest m enc (s : Session) : Session :=
  mkSession (ss_adapter s) (ss_local s) (ss_tables s) (ss_knownTables s) (ss_hlc s) m
    enc (ss_poison s) (ss_connected s) (ss_events s).
(** Recording the poison also disconnects and drops the adapter's folder cache. *)
Definition set_poison p (s : Session) : Session :=
  mkSession (resetFolderCache (ss_adapter s)) (ss_local s) (ss_tables s) (ss_knownTables s) (ss_hlc s)
    (ss_manifest s) (ss_encrypted s) p false (ss_events s).
Definition add_event e (s : Session) : Session :=
  mkSession (ss_adapter s) (ss_local s) (ss_tables s) (ss_knownTables s) (ss_hlc s)
    (ss_manifest s) (ss_encrypted s) (ss_poison s) (ss_connected s) (ss_events s ++ [e]).

Definition emit (e : SyncEvent) : M Session () := modify (add_event e).
(** A call on the adapter, and on the local store. *)
Definition remote {B} (m : M A B) : M Session B := λ s,
  let '(r, a) := m (ss_adapter s) in (r, set_adapter a s).
Definition loc {B} (m : M MemoryLocalStore B) : M Session B := λ s,
  let '(r, l) := m (ss_local s) in (r, set_local l s).

Definition codecState (cfg : Config) (s : Session) : CodecState :=
  mkCodec (cf_key cfg) (ss_encrypted s) (ss_manifest s).

(** [poisonRemote]: the first error halts the session, every call is
    announced, and the error comes back for the caller to throw.  The timers
    it cancels are not part of the session. *)
Definition poisonRemote (e : error) (path : option string) : M Session error :=
  s ← gets id;
  match ss_poison s with
  | None => modify (set_poison (Some e))
  | Some _ => mret ()
  end;;
  emit (RemotePoisoned e path);;
  mret e.

(** [ensureRowsCached]: refresh the merge cache from the local store for the
    rows the operations touch.  The [Map] of references is keyed by the same
    combined key as the store.  The objects put in the tables are the store's own: see [write_through]. *)
Definition row_refs (ops : list Op) : list (string * string) :=
  (foldl (λ refs op, map_set (op_table op +:+ "/" +:+ op_rowId op)
                       (op_table op, op_rowId op) refs) [] ops).*2.
Definition cache_row (local : MemoryLocalStore) (tables : Tables) (ref : string * string)
    : Tables :=
  match store_getRow local ref.1 ref.2 with
  | Some row => setRow tables ref.1 ref.2 row
  | None =>
      match tables !! ref.1 with
      | Some tbl => <[ref.1 := delete ref.2 tbl]> tables
      | None => tables
      end
  end.
Definition ensureRowsCached (ops : list Op) : M Session () := modify (λ s,
  set_tables (foldl (cache_row (ss_local s)) (ss_tables s) (row_refs ops)) s).
(** The store hands out its own row objects, so a row it had is one object in the store and in the refreshed tables:
    what has been done to the one is done to the other. *)
Definition write_through (tables : Tables) (local : MemoryLocalStore) (ref : string * string) : MemoryLocalStore :=
  match store_getRow local ref.1 ref.2, getRow tables ref.1 ref.2 with
  | Some _, Some row => with_rows (map_set (rowKey ref.1 ref.2) row (ls_rows local)) local
  | _, _ => local
  end.
End session.

Arguments Session : clear implicits.

Lemma emit_bind {A B} e (f : () → M (Session A) B) (s : Session A) :
  (emit e ≫= f) s = f () (add_event e s).
Proof. done. Qed.
Lemma remote_bind {A B C} (m : M A B) (f : B → M (Session A) C) (s : Session A) :
  (remote m ≫= f) s =
    match m (ss_adapter s) with
    | (Ok b, a) => f b (set_adapter a s)
    | (Throw e, a) => (Throw e, set_adapter a s)
    end.
Proof. unfold mbind, M_bind, remote. by destruct (m (ss_adapter s)) as [[] ?]. Qed.
Lemma loc_bind {A B C} (m : M MemoryLocalStore B) (f : B → M (Session A) C) (s : Session A) :
  (loc m ≫= f) s =
    match m (ss_local s) with
    | (Ok b, l) => f b (set_local l s)
    | (Throw e, l) => (Throw e, set_local l s)
    end.
Proof. unfold mbind, M_bind, loc. by destruct (m (ss_local s)) as [[] ?]. Qed.
Lemma lift_bind {S B C} (r : result B) (f : B → M S C) (s : S) :
  (lift r ≫= f) s = match r with Ok b => f b s | Throw e => (Throw e, s) end.
Proof. by destruct r. Qed.
Lemma gets_bind {S B C} (g : S → B) (f : B → M S C) (s : S) : (gets g ≫= f) s = f (g s) s.
Proof. done. Qed.
Lemma loc_gets_bind {A B C} (g : MemoryLocalStore → B) (f : B → M (Session A) C) (s : Session A) :
  (loc (gets g) ≫= f) s = f (g (ss_local s)) s.
Proof. by destruct s. Qed.
