(* ===== verification/QueryCache.v ===== *)
(** * The query and row caches of the engine
    ([computeCacheKey] of [packages/core/src/core/table.ts]; [loadQueryRows], [runQuery],
     [readQueryCache], [invalidateQueryCacheForTable], [loadRow], [runRow], [readRowCache],
     [invalidateRowCacheForTable] and [emit] of [packages/core/src/core/sync-engine.ts])

    Both caches keep, under the key of a descriptor, the last answer and the load that
    is under way; an event about a row reloads every cached answer of its table.  The two
    have the same shape, so they are one definition over the class [Cacheable].  A load
    asks the store when the engine is ready and settles later, so the store may
    change in between: the cache is a state machine whose steps interleave with writes. *)

From S2P Require Import Prelude JsString Hlc Values JsMap LocalStore Wire Crdt.
From S2P Require Import Observation Adapter Codec Session.
From Stdlib Require Import Ascii.
From Stdlib Require String.

Open Scope stdpp_scope.

(** ** Descriptors *)
Inductive SortDir := Asc | Desc.
Record QueryOrderBy := mkOrderBy { ob_field : string; ob_dir : SortDir }.
(** The clause with the field it reads. *)
Record QueryDescriptor := mkQuery {
  qd_table : string; qd_clause : option (string * WhereClause); qd_orderBy : option QueryOrderBy }.
Record RowDescriptor := mkRowDescriptor { rd_table : string; rd_rowId : string }.

Definition op_name (c : WhereClause) : string :=
  match c with
  | Equals _ => "equals" | Above _ => "above" | AboveOrEqual _ => "aboveOrEqual"
  | Below _ => "below" | BelowOrEqual _ => "belowOrEqual" | Between _ _ _ _ => "between"
  | StartsWith _ => "startsWith" | AnyOf _ => "anyOf"
  end.
Definition dir_name (d : SortDir) : string := match d with Asc => "asc" | Desc => "desc" end.

Section keys.
Context `{Coercion}.

Definition serializePrimitive (v : jsval) : string :=
  match v with
  | VDate t => "d:" +:+ num_toString 10 t
  | VStr s => "s:" +:+ s
  | VNum n => "n:" +:+ num_toString 10 n
  | VBool b => "b:" +:+ (if b then "1" else "0")
  | VNull => "x:null"
  | VUndefined => "x:undefined"
  | VArr _ | VObj _ => "x:" +:+ objectToString v
  end.

(** [if (x !== undefined) parts.push(...)]. *)
Definition part_of (label : string) (v : jsval) : list string :=
  match v with VUndefined => [] | _ => [label +:+ serializePrimitive v] end.
Definition flag_part (label : string) (b : bool) : list string := if b then [label] else [].

Definition clause_parts (field : string) (c : WhereClause) : list string :=
  ("w=" +:+ field +:+ ":" +:+ op_name c) ::
  match c with
  | Equals v | Above v | AboveOrEqual v | Below v | BelowOrEqual v | StartsWith v => part_of "v=" v
  | AnyOf vs => ["vs=" +:+ join "," (serializePrimitive <$> vs)]
  | Between lower upper lowerOpen upperOpen =>
      part_of "l=" lower ++ part_of "u=" upper ++ flag_part "lo=1" lowerOpen ++ flag_part "uo=1" upperOpen
  end.
Definition key_parts (d : QueryDescriptor) : list string :=
  ("t=" +:+ qd_table d) ::
  from_option (λ fc, clause_parts fc.1 fc.2) [] (qd_clause d) ++
  from_option (λ o, ["o=" +:+ ob_field o +:+ ":" +:+ dir_name (ob_dir o)]) [] (qd_orderBy d).
Definition computeCacheKey (d : QueryDescriptor) : string := join "|" (key_parts d).
Definition getRowCacheKey (d : RowDescriptor) : string := "r=" +:+ rd_table d +:+ "|id=" +:+ rd_rowId d.

(** ** The answer of the store

    [===] on column values; the objects of two rows are distinct objects. *)
Definition strict_equal (a b : jsval) : bool :=
  match a, b with
  | VUndefined, VUndefined | VNull, VNull => true
  | VBool x, VBool y => Bool.eqb x y
  | VNum x, VNum y => num_eqb x y
  | VStr x, VStr y => String.eqb x y
  | _, _ => false
  end.
Definition order_rows (o : QueryOrderBy) (a b : Row) : Z :=
  let av := readColumn a (ob_field o) in
  let bv := readColumn b (ob_field o) in
  if strict_equal av bv then 0
  else let lt := if js_lt (toPrimitive av) (toPrimitive bv) then (-1)%Z else 1%Z in
       match ob_dir o with Asc => lt | Desc => (- lt)%Z end.

(** [Array.prototype.sort]: stable.  When the comparator is not an order (a column that
    some rows lack) the language leaves the result to the implementation; the
    theorems then only use that it is a permutation. *)
Fixpoint insert_row (cmp : Row → Row → Z) (x : Row) (l : list Row) : list Row :=
  match l with
  | [] => [x]
  | y :: l' => if (cmp x y <=? 0)%Z then x :: l else y :: insert_row cmp x l'
  end.
Definition sort_rows (cmp : Row → Row → Z) (l : list Row) : list Row :=
  foldr (insert_row cmp) [] l.

(** The body of [runQuery] and of [runRow]. *)
Definition query_rows (d : QueryDescriptor) (l : MemoryLocalStore) : list Row :=
  let rows := match qd_clause d with
              | Some (field, clause) => queryWhere l (qd_table d) field clause
              | None => getTable l (qd_table d)
              end in
  match qd_orderBy d with Some o => sort_rows (order_rows o) rows | None => rows end.
Definition live_row (d : RowDescriptor) (l : MemoryLocalStore) : option Row :=
  match store_getRow l (rd_table d) (rd_rowId d) with
  | Some row => if rm_deleted (_meta row) then None else Some row
  | None => None
  end.
End keys.

(** Two stores that agree about a table. *)
Definition same_table (t : string) (l l' : MemoryLocalStore) : Prop :=
  getTable l' t = getTable l t ∧ ∀ r, store_getRow l' t r = store_getRow l t r.
#[global] Instance same_table_preorder t : PreOrder (same_table t).
Proof. split; [by split|]. intros l1 l2 l3 [??] [??]. split; [congruence|]. intros r. congruence. Qed.

(** ** What the two caches share

    [served] is what a ready entry hands out: a query entry without rows is
    loaded again; a row entry gives [row ?? undefined]. *)
Class Cacheable (D V : Type) := {
  cache_key : D → string;
  table_of : D → string;
  answer : D → MemoryLocalStore → V;
  served : option V → option V;
  answer_local d l l' : same_table (table_of d) l l' → answer d l' = answer d l;
  served_some v : served (Some v) = Some v }.

#[global] Program Instance query_cacheable `{Coercion} : Cacheable QueryDescriptor (list Row) := {
  cache_key := computeCacheKey; table_of := qd_table; answer := query_rows; served v := v }.
Next Obligation.
  intros ? d l l' [Ht _]. unfold query_rows, queryWhere. by rewrite Ht.
Qed.
Next Obligation. done. Qed.
#[global] Program Instance row_cacheable : Cacheable RowDescriptor (option Row) := {
  cache_key := getRowCacheKey; table_of := rd_table; answer := live_row; served v := Some (default None v) }.
Next Obligation. intros d l l' [_ Hr]. unfold live_row. by rewrite Hr. Qed.
Next Obligation. done. Qed.

(** ** State and operations *)
Inductive CacheStatus := Pending | Ready | Failed.
#[global] Instance CacheStatus_eq_dec : EqDecision CacheStatus.
Proof. solve_decision. Defined.

Section cache.
Context {D V : Type} `{!Cacheable D V}.

(** Promises are numbered by the order of their loads. *)
Record CacheEntry := mkCacheEntry {
  qe_descriptor : D; qe_status : CacheStatus; qe_value : option V; qe_error : option error;
  qe_promise : option nat }.
Record PendingLoad := mkPendingLoad { ld_descriptor : D; ld_key : string; ld_result : option (result V) }.
Record Cache := mkCache {
  qc_entries : gmap string CacheEntry; qc_byTable : gmap string (list string); qc_loads : list PendingLoad }.
Definition emptyCache : Cache := mkCache ∅ ∅ [].

Definition indexCacheByTable (table key : string) (index : gmap string (list string))
    : gmap string (list string) :=
  <[table := set_add key (default [] (index !! table))]> index.

(** [runQuery]: a new load, with the old answer still visible. *)
Definition run (d : D) (key : string) (c : Cache) : nat * Cache :=
  let p := length (qc_loads c) in
  (p, mkCache (<[key := mkCacheEntry d Pending (qc_entries c !! key ≫= qe_value) None (Some p)]> (qc_entries c))
        (indexCacheByTable (table_of d) key (qc_byTable c))
        (qc_loads c ++ [mkPendingLoad d key None])).

(** What [loadQueryRows] returns: a promise under way, or the cached answer. *)
Inductive Outcome := Awaits (p : nat) | Answers (v : V).
Definition run_outcome (d : D) (key : string) (c : Cache) : Outcome * Cache :=
  let '(p, c) := run d key c in (Awaits p, c).
Definition load_cached (bypass : bool) (d : D) (c : Cache) : Outcome * Cache :=
  let key := cache_key d in
  match qc_entries c !! key with
  | Some e =>
      if bypass then run_outcome d key c
      else match qe_status e, qe_promise e with
           | Pending, Some p => (Awaits p, c)
           | Ready, _ =>
               match served (qe_value e) with
               | Some v => (Answers v, c)
               | None => run_outcome d key c
               end
           | _, _ => run_outcome d key c
           end
  | None => run_outcome d key c
  end.

(** [readQueryCache]. *)
Record Snapshot := mkSnapshot {
  qs_status : option CacheStatus; qs_promise : option nat; qs_value : option V; qs_error : option error }.
Definition read_cache (d : D) (c : Cache) : Snapshot :=
  match qc_entries c !! cache_key d with
  | None => mkSnapshot None None None None
  | Some e => mkSnapshot (Some (qe_status e)) (qe_promise e) (qe_value e) (qe_error e)
  end.

(** The body of load [p] has an answer, or has thrown. *)
Definition resolve (p : nat) (r : result V) (c : Cache) : Cache :=
  mkCache (qc_entries c) (qc_byTable c)
    (alter (λ ld, mkPendingLoad (ld_descriptor ld) (ld_key ld) (Some r)) p (qc_loads c)).

(** The handlers of [promise.then(...).catch(...)]; a superseded load does nothing. *)
Definition settle (p : nat) (c : Cache) : Cache :=
  match qc_loads c !! p with
  | Some (mkPendingLoad d key (Some r)) =>
      match qc_entries c !! key with
      | Some e =>
          if bool_decide (qe_promise e = Some p) then
            mkCache (<[key := match r with
                              | Ok v => mkCacheEntry d Ready (Some v) None None
                              | Throw err => mkCacheEntry d Failed (qe_value e) (Some err) None
                              end]> (qc_entries c)) (qc_byTable c) (qc_loads c)
          else c
      | None => c
      end
  | _ => c
  end.

(** [invalidateQueryCacheForTable]: the set of keys does not grow while it is walked,
    for a key that is run again is already in it. *)
Definition refresh (c : Cache) (key : string) : Cache :=
  match qc_entries c !! key with
  | Some e => (run (qe_descriptor e) key c).2
  | None => c
  end.
Definition invalidate (table : string) (c : Cache) : Cache :=
  foldl refresh c (default [] (qc_byTable c !! table)).
End cache.

Arguments CacheEntry : clear implicits.
Arguments PendingLoad : clear implicits.
Arguments Cache : clear implicits.
Arguments Outcome : clear implicits.

(** ** Sorting *)
Section sorting.
Context (cmp : Row → Row → Z).
Lemma insert_row_perm x l : insert_row cmp x l ≡ₚ x :: l.
Proof.
  induction l as [|y l IH]; simpl; [done|]. case_match; [done|]. rewrite IH. apply perm_swap.
Qed.
Lemma sort_rows_perm l : sort_rows cmp l ≡ₚ l.
Proof. induction l as [|x l IH]; simpl; [done|]. by rewrite insert_row_perm, IH. Qed.

(** Sorted, by a comparator that orders any two of the rows. *)
Definition in_order (a b : Row) : Prop := (cmp a b ≤ 0)%Z.
Definition comparable (l : list Row) : Prop := ∀ a b, a ∈ l → b ∈ l → in_order a b ∨ in_order b a.
Lemma insert_row_sorted x l : comparable (x :: l) → Sorted in_order l → Sorted in_order (insert_row cmp x l).
Proof.
  induction l as [|y l IH]; intros Hc Hs; simpl; [by repeat constructor|].
  destruct (Z.leb_spec (cmp x y) 0) as [Hle|Hgt]; [constructor; [done|by constructor]|].
  assert (in_order y x) as Hyx.
  { destruct (Hc x y) as [Hxy|?]; [set_solver..|unfold in_order in Hxy; lia|done]. }
  inversion Hs as [|? ? Hs' Hhd]; subst. constructor.
  - apply IH; [|done]. intros a b Ha Hb. apply Hc; set_solver.
  - destruct l as [|z l]; simpl; [by constructor|]. case_match; constructor; [done|by inversion Hhd].
Qed.
Lemma sort_rows_sorted l : comparable l → Sorted in_order (sort_rows cmp l).
Proof.
  induction l as [|x l IH]; intros Hc; simpl; [constructor|]. apply insert_row_sorted.
  - intros a b Ha Hb. apply Hc; [revert Ha|revert Hb]; rewrite !elem_of_cons, sort_rows_perm; tauto.
  - apply IH. intros a b Ha Hb. apply Hc; by right.
Qed.
End sorting.

(** Rows that all have a number, or all a text, in the field are comparable. *)
Definition column_kind (v : jsval) : option bool :=
  match v with VNum (Num _) => Some true | VStr _ => Some false | _ => None end.
Lemma ordered_rows_comparable `{Coercion} o k l :
  Forall (λ row, column_kind (readColumn row (ob_field o)) = Some k) l → comparable (order_rows o) l.
Proof.
  intros Hl a b Ha Hb. rewrite list.Forall_forall in Hl. apply Hl in Ha, Hb. revert Ha Hb.
  unfold in_order, order_rows.
  destruct (readColumn a _) as [| | |[|x]|x| | |], (readColumn b _) as [| | |[|y]|y| | |]; try done;
    intros Ha Hb; try (simpl in *; congruence); unfold strict_equal, num_eqb, num_rel2.
  - rewrite (Z.eqb_sym y x). destruct (Z.eqb_spec x y); [by left|].
    unfold js_lt, toPrimitive, prim_number, num_ltb, num_rel2.
    destruct (Z.ltb_spec x y), (Z.ltb_spec y x); destruct (ob_dir o); lia.
  - rewrite (String.eqb_sym y x). destruct (String.eqb_spec x y) as [|Hne]; [by left|].
    unfold js_lt, toPrimitive, str_ltb. rewrite (str_compare_antisym y x).
    destruct (String.compare x y) eqn:E; [by apply str_compare_eq in E|..];
      simpl; destruct (ob_dir o); lia.
Qed.
(** The answer to an ordered query: the rows of the plain query, in order. *)
Lemma ordered_answer `{Coercion} d o k l : qd_orderBy d = Some o →
  let plain := query_rows (mkQuery (qd_table d) (qd_clause d) None) l in
  Forall (λ row, column_kind (readColumn row (ob_field o)) = Some k) plain →
  query_rows d l ≡ₚ plain ∧ Sorted (in_order (order_rows o)) (query_rows d l).
Proof.
  intros Ho plain Hp. assert (query_rows d l = sort_rows (order_rows o) plain) as ->.
  { unfold plain, query_rows. cbn. by rewrite Ho. }
  split; [apply sort_rows_perm|]. by apply sort_rows_sorted, (ordered_rows_comparable o k).
Qed.

(** ** Keys that tell descriptors apart

    The parts of a key are joined by separators that nothing escapes; descriptors whose names and
    operands are free of them have keys of their own. *)
Section key_theory.
Context `{Coercion}.

Definition plain_operand (v : jsval) : bool :=
  match v with
  | VStr s => free_of "|" s && free_of "," s
  | VNum _ | VBool _ | VDate _ => true
  | _ => false
  end.
Definition plain_clause (c : WhereClause) : bool :=
  match c with
  | Equals v | Above v | AboveOrEqual v | Below v | BelowOrEqual v | StartsWith v => plain_operand v
  | Between lower upper _ _ => plain_operand lower && plain_operand upper
  | AnyOf vs => forallb plain_operand vs
  end.
Definition plain_field (s : string) : bool := free_of "|" s && free_of ":" s.
Definition plain_query (d : QueryDescriptor) : bool :=
  free_of "|" (qd_table d) &&
  from_option (λ fc, plain_field fc.1 && plain_clause fc.2) true (qd_clause d) &&
  from_option (λ o, plain_field (ob_field o)) true (qd_orderBy d).

Lemma number_free (c : ascii) n : c = "|"%char ∨ c = ","%char → free_of c (num_toString 10 n) = true.
Proof.
  intros Hc. destruct n as [|z]; [by destruct Hc as [-> | ->]|].
  apply numeral_forall; [by destruct Hc as [-> | ->]|]. intros d Hd.
  assert (d ∈ [0;1;2;3;4;5;6;7;8;9]%Z) as Hin by (rewrite !elem_of_cons; lia).
  repeat (apply elem_of_cons in Hin as [->|Hin]; [by destruct Hc as [-> | ->]|]).
  by apply not_elem_of_nil in Hin.
Qed.
Lemma operand_free c v : c = "|"%char ∨ c = ","%char → plain_operand v = true →
  free_of c (serializePrimitive v) = true.
Proof.
  intros Hc. pose proof (number_free c) as Hn. destruct v as [| |b|n|s|t| |]; try done.
  - destruct b; by destruct Hc as [-> | ->].
  - intros _. unfold serializePrimitive. rewrite free_of_app, Hn by done. by destruct Hc as [-> | ->].
  - intros [H1 H2]%andb_true_iff. unfold serializePrimitive. rewrite free_of_app.
    by destruct Hc as [-> | ->]; rewrite ?H1, ?H2.
  - intros _. unfold serializePrimitive. rewrite free_of_app, Hn by done. by destruct Hc as [-> | ->].
Qed.
Lemma operand_inj v w : plain_operand v = true → plain_operand w = true →
  serializePrimitive v = serializePrimitive w → v = w.
Proof.
  destruct v as [| |b|n|s|t| |], w as [| |b'|n'|s'|t'| |]; try done; unfold serializePrimitive;
    intros _ _ E; try discriminate E.
  - by destruct b, b'.
  - by apply str_app_inj_l, (inj (num_toString 10)) in E as ->.
  - by apply str_app_inj_l in E as ->.
  - by apply str_app_inj_l, (inj (num_toString 10)) in E as ->.
Qed.
Lemma operand_present label v : plain_operand v = true → part_of label v = [label +:+ serializePrimitive v].
Proof. by destruct v. Qed.
Lemma operands_inj vs ws : forallb plain_operand vs = true → forallb plain_operand ws = true →
  join "," (serializePrimitive <$> vs) = join "," (serializePrimitive <$> ws) → vs = ws.
Proof.
  assert (∀ us, forallb plain_operand us = true →
    Forall (λ p, free_of "," p = true) (serializePrimitive <$> us)) as Hfree.
  { induction us as [|u us IH]; [constructor|]. simpl. intros [Hu Hus]%andb_true_iff.
    constructor; [by apply operand_free; [right|]|by apply IH]. }
  assert (∀ u us, plain_operand u = true → join "," (serializePrimitive <$> u :: us) ≠ "") as Hne.
  { intros u us. destruct us as [|u2 us]; [|rewrite !fmap_cons, join_cons2]; by destruct u. }
  intros Hv Hw E. assert (serializePrimitive <$> vs = serializePrimitive <$> ws) as El.
  { destruct vs as [|v vs], ws as [|w ws]; [done| | |].
    - symmetry in E. simpl in Hw. apply andb_true_iff in Hw as [Hw _]. by apply Hne in E.
    - simpl in Hv. apply andb_true_iff in Hv as [Hv _]. by apply Hne in E.
    - apply (join_inj ","%char); [by apply Hfree..|done|done|done]. }
  clear E. revert ws Hw El. induction vs as [|v vs IH]; intros [|w ws] Hw El; try done.
  simpl in Hv, Hw. apply andb_true_iff in Hv as [Hv Hvs], Hw as [Hw Hws]. injection El as E El.
  f_equal; [by apply operand_inj|by apply IH].
Qed.

Lemma parts_free d : plain_query d = true → Forall (λ p, free_of "|" p = true) (key_parts d).
Proof.
  assert (∀ label v, plain_operand v = true → free_of "|" label = true →
    Forall (λ p, free_of "|" p = true) (part_of label v)) as Hpart.
  { intros label v Hv Hl. rewrite operand_present by done. apply Forall_singleton.
    rewrite free_of_app, Hl, operand_free by (done || by left). done. }
  assert (∀ a b, free_of "|" a = true → free_of "|" b = true → free_of "|" (a +:+ b) = true) as Happ.
  { intros a b Ha Hb. by rewrite free_of_app, Ha, Hb. }
  unfold plain_query, key_parts, plain_field.
  intros [[Ht Hc]%andb_true_iff Ho]%andb_true_iff. constructor; [by apply (Happ "t=")|].
  apply Forall_app. split.
  - destruct (qd_clause d) as [[f c]|]; cbn [from_option fst snd] in *; [|constructor].
    rewrite !andb_true_iff in Hc. destruct Hc as [[Hf _] Hc]. unfold clause_parts. constructor.
    { repeat apply Happ; try done. by destruct c. }
    destruct c; cbn [plain_clause] in Hc; try by apply Hpart.
    + apply andb_true_iff in Hc as [Hl Hu]. repeat (apply Forall_app; split); try by apply Hpart.
      all: unfold flag_part; case_match; by repeat constructor.
    + apply Forall_singleton. apply Happ; [done|].
      induction vs as [|v vs IH]; [done|]. cbn [forallb] in Hc. apply andb_true_iff in Hc as [Hv Hvs].
      pose proof (operand_free "|"%char v ltac:(by left) Hv) as Hv'.
      destruct vs as [|w vs]; [done|]. rewrite !fmap_cons, join_cons2. repeat apply Happ; [done..|].
      by apply IH.
  - destruct (qd_orderBy d) as [[f dir]|]; cbn [from_option ob_field ob_dir] in *; [|constructor].
    apply Forall_singleton. apply andb_true_iff in Ho as [Hf _].
    repeat apply Happ; try done. by destruct dir.
Qed.

Lemma labelled_inj f g x y : plain_field f = true → plain_field g = true →
  f +:+ ":" +:+ x = g +:+ ":" +:+ y → f = g ∧ x = y.
Proof.
  unfold plain_field. intros [_ Hf]%andb_true_iff [_ Hg]%andb_true_iff. by apply separator_inj.
Qed.
Definition op_operands (c : WhereClause) : list string := tail (clause_parts "" c).
Lemma clause_parts_split f c :
  clause_parts f c = ("w=" +:+ f +:+ ":" +:+ op_name c) :: op_operands c.
Proof. done. Qed.

(** The operands, with the order that may follow them, determine the clause. *)
Lemma operand_parts_inj label v w rest rest' : plain_operand v = true → plain_operand w = true →
  part_of label v ++ rest = part_of label w ++ rest' → v = w ∧ rest = rest'.
Proof.
  intros Hv Hw. rewrite !operand_present by done. intros [= E ->].
  apply str_app_inj_l in E. split; [by apply operand_inj|done].
Qed.
Lemma flags_inj (lo uo lo' uo' : bool) o o' :
  flag_part "lo=1" lo ++ flag_part "uo=1" uo ++ from_option (λ o, ["o=" +:+ o]) [] o =
  flag_part "lo=1" lo' ++ flag_part "uo=1" uo' ++ from_option (λ o, ["o=" +:+ o]) [] o' →
  lo = lo' ∧ uo = uo' ∧ o = o'.
Proof. destruct lo, uo, lo', uo', o, o'; intros E; simplify_eq/=; done. Qed.

Lemma clause_inj c c' (o o' : option string) : plain_clause c = true → plain_clause c' = true →
  op_name c = op_name c' →
  op_operands c ++ from_option (λ o, ["o=" +:+ o]) [] o =
  op_operands c' ++ from_option (λ o, ["o=" +:+ o]) [] o' →
  c = c' ∧ o = o'.
Proof.
  assert (∀ v w, plain_operand v = true → plain_operand w = true →
    part_of "v=" v ++ from_option (λ o, ["o=" +:+ o]) [] o =
    part_of "v=" w ++ from_option (λ o, ["o=" +:+ o]) [] o' → v = w ∧ o = o') as Hone.
  { intros v w Hv Hw E. apply operand_parts_inj in E as [-> E]; [|done..]. split; [done|].
    by pose proof (flags_inj false false false false o o' E) as (_ & _ & ?). }
  destruct c as [v|v|v|v|v|lower upper lo uo|v|vs], c' as [w|w|w|w|w|lower' upper' lo' uo'|w|ws];
    try done; intros Hc Hc' _ E;
    try (by apply Hone in E as [-> ->]).
  - unfold op_operands, clause_parts in E. cbn [tail plain_clause] in *.
    apply andb_true_iff in Hc as [Hl Hu], Hc' as [Hl' Hu'].
    rewrite <- !app_assoc in E. apply operand_parts_inj in E as [-> E]; [|done..].
    apply operand_parts_inj in E as [-> E]; [|done..].
    by apply flags_inj in E as (-> & -> & ->).
  - unfold op_operands, clause_parts in E. cbn [tail plain_clause app] in *.
    injection E as E Eo. apply operands_inj in E as ->; [|done..]. split; [done|].
    by pose proof (flags_inj false false false false o o' Eo) as (_ & _ & ?).
Qed.

Definition order_label (o : QueryOrderBy) : string := ob_field o +:+ ":" +:+ dir_name (ob_dir o).
Lemma order_label_inj o o' : plain_field (ob_field o) = true → plain_field (ob_field o') = true →
  order_label o = order_label o' → o = o'.
Proof.
  destruct o as [f d], o' as [g d']. unfold order_label. simpl. intros Hf Hg E.
  apply labelled_inj in E as [-> E]; [|done..]. by destruct d, d'.
Qed.

Lemma key_parts_inj d d' : plain_query d = true → plain_query d' = true →
  key_parts d = key_parts d' → d = d'.
Proof.
  destruct d as [t c o], d' as [t' c' o']. unfold plain_query, key_parts. cbn [qd_table qd_clause qd_orderBy].
  intros [[_ Hc]%andb_true_iff Ho]%andb_true_iff [[_ Hc']%andb_true_iff Ho']%andb_true_iff.
  assert (∀ o, from_option (λ o, ["o=" +:+ ob_field o +:+ ":" +:+ dir_name (ob_dir o)]) [] o =
    from_option (λ o, ["o=" +:+ o]) [] (order_label <$> o)) as Eo by by intros [].
  rewrite !Eo. intros [= Et E]. change (t = t') in Et. subst t'.
  assert (order_label <$> o = order_label <$> o' → o = o') as Hoo.
  { destruct o, o'; try done. cbn. intros [= E']. f_equal. by apply order_label_inj. }
  destruct c as [[f c]|], c' as [[f' c']|]; cbn [from_option fst snd app] in *.
  - apply andb_true_iff in Hc as [Hf Hc], Hc' as [Hf' Hc']. rewrite !clause_parts_split in E.
    injection E as Ew E. change (f +:+ ":" +:+ op_name c = f' +:+ ":" +:+ op_name c') in Ew.
    apply labelled_inj in Ew as [-> En]; [|done..].
    apply clause_inj in E as [-> E]; [|done..]. by rewrite (Hoo E).
  - rewrite clause_parts_split in E. by destruct o'.
  - rewrite clause_parts_split in E. by destruct o.
  - pose proof (flags_inj false false false false _ _ E) as (_ & _ & E'). by rewrite (Hoo E').
Qed.

Lemma query_key_inj d d' : plain_query d = true → plain_query d' = true →
  computeCacheKey d = computeCacheKey d' → d = d'.
Proof.
  intros Hd Hd' E. apply key_parts_inj; [done..|].
  apply (join_inj "|"%char); [by apply parts_free..|done|done|done].
Qed.
End key_theory.

(** ** The cache among writes

    A write changes some tables of the store; the event about each of them comes later
    ([putNow] and [store_affected] emit after they have stored).  [cw_dirty] is the
    tables whose event has not come yet. *)
Section machine.
Context {D V : Type} `{!Cacheable D V}.
(** The descriptors that are used. *)
Context (P : D → Prop).

Record CacheWorld := mkWorld {
  cw_store : MemoryLocalStore; cw_dirty : gset string; cw_cache : Cache D V }.
Definition with_cache c (w : CacheWorld) : CacheWorld := mkWorld (cw_store w) (cw_dirty w) c.

Inductive cstep : CacheWorld → CacheWorld → Prop :=
  | step_load bypass d w : P d →
      cstep w (with_cache (load_cached bypass d (cw_cache w)).2 w)
  | step_answer p ld w : qc_loads (cw_cache w) !! p = Some ld → ld_result ld = None →
      cstep w (with_cache (resolve p (Ok (answer (ld_descriptor ld) (cw_store w))) (cw_cache w)) w)
  | step_fail p ld err w : qc_loads (cw_cache w) !! p = Some ld → ld_result ld = None →
      cstep w (with_cache (resolve p (Throw err) (cw_cache w)) w)
  | step_settle p w : cstep w (with_cache (settle p (cw_cache w)) w)
  | step_write ts l' w : (∀ d, P d → table_of d ∉ ts → same_table (table_of d) (cw_store w) l') →
      cstep w (mkWorld l' (cw_dirty w ∪ ts) (cw_cache w))
  | step_announce t w :
      cstep w (mkWorld (cw_store w) (cw_dirty w ∖ {[t]}) (invalidate t (cw_cache w))).

Definition first_world (l : MemoryLocalStore) : CacheWorld := mkWorld l ∅ emptyCache.

(** *** The invariant *)
Definition fresh_for (l : MemoryLocalStore) (dirty : gset string) (d : D) (v : V) : Prop :=
  table_of d ∉ dirty → v = answer d l.
Definition load_known (l : MemoryLocalStore) (dirty : gset string) (d : D) (key : string)
    (ld : PendingLoad D V) : Prop :=
  ld_descriptor ld = d ∧ ld_key ld = key ∧
  ∀ v, ld_result ld = Some (Ok v) → fresh_for l dirty d v.
Definition status_ok l dirty (loads : list (PendingLoad D V)) key (e : CacheEntry D V) : Prop :=
  match qe_status e with
  | Pending => ∃ p ld, qe_promise e = Some p ∧ loads !! p = Some ld ∧
                 load_known l dirty (qe_descriptor e) key ld
  | Ready => ∃ v, qe_value e = Some v ∧ qe_promise e = None ∧ fresh_for l dirty (qe_descriptor e) v
  | Failed => qe_promise e = None
  end.
Definition entry_ok l dirty (c : Cache D V) key (e : CacheEntry D V) : Prop :=
  P (qe_descriptor e) ∧ cache_key (qe_descriptor e) = key ∧
  key ∈ default [] (qc_byTable c !! table_of (qe_descriptor e)) ∧
  status_ok l dirty (qc_loads c) key e.
Definition cache_ok l dirty (c : Cache D V) : Prop :=
  map_Forall (entry_ok l dirty c) (qc_entries c).
Definition world_fresh (w : CacheWorld) : Prop := cache_ok (cw_store w) (cw_dirty w) (cw_cache w).

Lemma fresh_for_weaken l dirty dirty' d v : dirty ⊆ dirty' →
  fresh_for l dirty d v → fresh_for l dirty' d v.
Proof. intros Hd Hf Hn. apply Hf. set_solver. Qed.

Lemma set_add_elem x y names : y ∈ set_add x names ↔ y = x ∨ y ∈ names.
Proof.
  unfold set_add. case_bool_decide; [naive_solver|]. rewrite elem_of_app, list_elem_of_singleton. tauto.
Qed.
Lemma index_elem table key index t k :
  k ∈ default [] (indexCacheByTable table key index !! t) ↔
  (t = table ∧ k = key) ∨ k ∈ default [] (index !! t).
Proof.
  unfold indexCacheByTable. destruct (decide (t = table)) as [->|].
  - rewrite lookup_insert_eq. simpl. rewrite set_add_elem. tauto.
  - rewrite lookup_insert_ne by done. naive_solver.
Qed.

(** Growing the index and the list of loads keeps an entry. *)
Lemma entry_ok_grow l dirty c c' key e :
  (∀ t k, k ∈ default [] (qc_byTable c !! t) → k ∈ default [] (qc_byTable c' !! t)) →
  (∀ p ld, qc_loads c !! p = Some ld → qc_loads c' !! p = Some ld) →
  entry_ok l dirty c key e → entry_ok l dirty c' key e.
Proof.
  intros Hi Hl (HP & Hk & Hin & Hs). split_and!; [done..|by apply Hi|]. revert Hs. unfold status_ok.
  destruct (qe_status e); [|done..]. intros (p & ld & ? & ? & ?). exists p, ld. auto.
Qed.

Lemma run_ok l dirty c d key : P d → cache_key d = key →
  map_Forall (λ k e, k ≠ key → entry_ok l dirty c k e) (qc_entries c) →
  cache_ok l dirty (run d key c).2.
Proof.
  intros HP Hk Hc k e. cbn. destruct (decide (k = key)) as [->|Hne].
  - rewrite lookup_insert_eq. intros [= <-]. split_and!; [done..| |].
    + cbn. apply index_elem. by left.
    + cbn. eexists _, _. split; [done|]. rewrite lookup_app_r, Nat.sub_diag by lia. split; [done|].
      by split_and!.
  - rewrite lookup_insert_ne by done. intros He. eapply entry_ok_grow; [..|by eapply Hc].
    + intros t k' ?. cbn. apply index_elem. by right.
    + intros p ld ?. cbn. by apply lookup_app_l_Some.
Qed.
Lemma run_keeps l dirty c d key : P d → cache_key d = key → cache_ok l dirty c →
  cache_ok l dirty (run d key c).2.
Proof. intros ?? Hc. apply run_ok; [done..|]. intros k e He _. by apply Hc. Qed.

Lemma load_ok l dirty c bypass d : P d → cache_ok l dirty c →
  cache_ok l dirty (load_cached bypass d c).2.
Proof.
  intros HP Hc. unfold load_cached, run_outcome.
  pose proof (run_keeps l dirty c d (cache_key d) HP eq_refl Hc) as Hr.
  repeat case_match; simplify_eq/=; try done; try (by rewrite H in Hr).
Qed.
Lemma resolve_lookup p r (c : Cache D V) q :
  qc_loads (resolve p r c) !! q =
    if decide (q = p) then (λ ld, mkPendingLoad (ld_descriptor ld) (ld_key ld) (Some r)) <$> qc_loads c !! q
    else qc_loads c !! q.
Proof. cbn. case_decide as Hq; [subst; apply list_lookup_alter_eq|by apply list_lookup_alter_ne]. Qed.
(** Answering a load that had no answer. *)
Lemma resolve_keeps l dirty c p ld r : qc_loads c !! p = Some ld →
  (∀ v, r = Ok v → fresh_for l dirty (ld_descriptor ld) v) →
  cache_ok l dirty c → cache_ok l dirty (resolve p r c).
Proof.
  intros Hp Hr Hc k e He. destruct (Hc k e He) as (HP & Hk & Hin & Hs). split_and!; [done..|].
  revert Hs. unfold status_ok. destruct (qe_status e); [|done..].
  intros (q & ld' & Ep & El & Hd & Hkey & Hv). pose proof (resolve_lookup p r c q) as Eq.
  rewrite El in Eq. destruct (decide (q = p)) as [->|]; eexists _, _;
    (split; [done|split; [done|]]); [|by split_and!].
  rewrite Hp in El. injection El as ->. split_and!; [done..|].
  intros v [= ->]. rewrite <- Hd. by apply Hr.
Qed.

Lemma settle_ok l dirty c p : cache_ok l dirty c → cache_ok l dirty (settle p c).
Proof.
  intros Hc. unfold settle. destruct (qc_loads c !! p) as [[d key [r|]]|] eqn:El; [|done..].
  destruct (qc_entries c !! key) as [e|] eqn:Ee; [|done]. case_bool_decide as Hp; [|done].
  destruct (Hc key e Ee) as (HP & Hk & Hin & Hs).
  assert (qe_descriptor e = d ∧ ∀ v, r = Ok v → fresh_for l dirty d v) as [Hd Hv].
  { revert Hs. unfold status_ok. rewrite Hp. destruct (qe_status e); [|naive_solver..].
    intros (q & ld & [= <-] & El' & Hd & _ & Hv). rewrite El in El'. injection El' as <-.
    simpl in *. split; [done|]. intros v ->. rewrite Hd. by apply Hv. }
  intros k e' He'. destruct (decide (k = key)) as [->|Hne].
  - cbn in He'. rewrite lookup_insert_eq in He'. injection He' as <-. unfold entry_ok.
    destruct r as [v|err]; cbn; rewrite <- Hd; (split_and!; [done..|]); [|done].
    exists v. split_and!; [done..|]. rewrite Hd. by apply Hv.
  - cbn in He'. rewrite lookup_insert_ne in He' by done. by apply Hc in He'.
Qed.

(** A change of what is fresh. *)
Lemma entry_ok_mono l dirty l' dirty' c key e :
  (∀ v, fresh_for l dirty (qe_descriptor e) v → fresh_for l' dirty' (qe_descriptor e) v) →
  entry_ok l dirty c key e → entry_ok l' dirty' c key e.
Proof.
  intros Hf (HP & Hk & Hin & Hs). split_and!; [done..|]. revert Hs. unfold status_ok, load_known.
  destruct (qe_status e); [|naive_solver|done].
  intros (p & ld & ? & ? & ? & ? & Hv). exists p, ld. split_and!; auto.
Qed.
Lemma write_ok l l' dirty ts c : (∀ d, P d → table_of d ∉ ts → same_table (table_of d) l l') →
  cache_ok l dirty c → cache_ok l' (dirty ∪ ts) c.
Proof.
  intros Hl Hc k e He. eapply entry_ok_mono; [|by apply Hc]. intros v Hf Hn.
  rewrite Hf by set_solver. symmetry. apply answer_local, Hl; [by apply (Hc k)|set_solver].
Qed.

Definition refreshed_but (l : MemoryLocalStore) (dirty : gset string) (t : string) (todo : list string)
    (c : Cache D V) : Prop :=
  map_Forall (λ k e, entry_ok l dirty c k e ∧ (k ∉ todo → entry_ok l (dirty ∖ {[t]}) c k e)) (qc_entries c).

Lemma refresh_step l dirty t key todo c :
  refreshed_but l dirty t (key :: todo) c → refreshed_but l dirty t todo (refresh c key).
Proof.
  intros Hc. unfold refresh. destruct (qc_entries c !! key) as [e0|] eqn:E0.
  - destruct (Hc _ _ E0) as [(HP & Hk & _) _].
    assert (∀ dirty', map_Forall (λ k e, k ≠ key → entry_ok l dirty' c k e) (qc_entries c) →
      cache_ok l dirty' (run (qe_descriptor e0) key c).2) as Hrun by (intros; by apply run_ok).
    intros k e He. split.
    + apply Hrun; [|done]. intros k' e' He' _. by apply (Hc k' e').
    + intros Hn. destruct (decide (k = key)) as [->|Hne].
      * cbn in He. rewrite lookup_insert_eq in He. injection He as <-.
        pose proof (run_ok l (dirty ∖ {[t]}) (mkCache ∅ (qc_byTable c) (qc_loads c)) _ key HP Hk
          (map_Forall_empty _)) as Hok.
        destruct (Hok key (mkCacheEntry (qe_descriptor e0) Pending None None (Some (length (qc_loads c)))))
          as (? & ? & Hin & Hs); [apply lookup_insert_eq|]. split_and!; [done..|].
        exact Hs.
      * cbn in He. rewrite lookup_insert_ne in He by done. destruct (Hc k e He) as [_ Hk'].
        eapply entry_ok_grow; [..|apply Hk'; set_solver].
        -- intros t' k' ?. cbn. apply index_elem. by right.
        -- intros p ld ?. cbn. by apply lookup_app_l_Some.
  - intros k e He. destruct (Hc k e He) as [H1 H2]. split; [done|]. intros Hn. apply H2.
    intros [->|?]%elem_of_cons; [congruence|done].
Qed.
Lemma invalidate_ok l dirty t c : cache_ok l dirty c → cache_ok l (dirty ∖ {[t]}) (invalidate t c).
Proof.
  intros Hc. unfold invalidate.
  assert (refreshed_but l dirty t (default [] (qc_byTable c !! t)) c) as Hr.
  { intros k e He. specialize (Hc k e He). split; [done|]. intros Hn.
    eapply entry_ok_mono; [|done]. intros v Hf Hd. apply Hf.
    destruct Hc as (_ & _ & Hin & _). assert (table_of (qe_descriptor e) ≠ t) by (by intros <-).
    set_solver. }
  assert (∀ todo c, refreshed_but l dirty t todo c → refreshed_but l dirty t [] (foldl refresh c todo)) as Hfold.
  { induction todo as [|key todo IH]; [done|]. intros c0 H0. simpl. by apply IH, refresh_step. }
  intros k e He. destruct (Hfold _ _ Hr k e He) as [_ H]. apply H, not_elem_of_nil.
Qed.

Lemma step_fresh w w' : cstep w w' → world_fresh w → world_fresh w'.
Proof.
  unfold world_fresh. destruct 1; cbn; intros Hc.
  - by apply load_ok.
  - eapply resolve_keeps; [done| |done]. by intros v [= <-].
  - eapply resolve_keeps; [done| |done]. by intros v.
  - by apply settle_ok.
  - by eapply write_ok.
  - by apply invalidate_ok.
Qed.
Lemma reachable_fresh l w : rtc cstep (first_world l) w → world_fresh w.
Proof.
  assert (world_fresh (first_world l)) as H0 by (intros k e He; cbn in He; by rewrite lookup_empty in He).
  revert H0. generalize (first_world l). intros w0 H0. induction 1 as [|w0 w1 w2 Hs _ IH]; [done|].
  by apply IH, (step_fresh w0).
Qed.
End machine.

(** ** Loads that settle *)
Section loads.
Context {D V : Type} `{!Cacheable D V}.

(** The load a caller waits for is the current load of its key. *)
Lemma awaited_load P l w bypass d p (c1 : Cache D V) : rtc (cstep P) (first_world l) w → P d →
  (∀ d d', P d → P d' → cache_key d = cache_key d' → d = d') →
  load_cached bypass d (cw_cache w) = (Awaits p, c1) →
  ∃ ld e, qc_loads c1 !! p = Some ld ∧ ld_descriptor ld = d ∧ ld_key ld = cache_key d ∧
    qc_entries c1 !! cache_key d = Some e ∧ qe_promise e = Some p.
Proof.
  intros Hr HP Hinj. apply reachable_fresh in Hr. unfold load_cached, run_outcome.
  assert (run d (cache_key d) (cw_cache w) = (p, c1) →
    ∃ ld e, qc_loads c1 !! p = Some ld ∧ ld_descriptor ld = d ∧ ld_key ld = cache_key d ∧
      qc_entries c1 !! cache_key d = Some e ∧ qe_promise e = Some p) as Hrun.
  { intros E. injection E as <- <-. cbn. eexists _, _. rewrite lookup_app_r, Nat.sub_diag by lia.
    split; [done|]. split; [done|]. split; [done|]. by rewrite lookup_insert_eq. }
  destruct (qc_entries (cw_cache w) !! cache_key d) as [e|] eqn:Ee; [|by intros [= <- <-]; apply Hrun].
  destruct bypass; [by intros [= <- <-]; apply Hrun|].
  destruct (Hr _ _ Ee) as (HPe & Hk & _ & Hs). apply Hinj in Hk; [|done..]. revert Hs. unfold status_ok.
  destruct (qe_status e).
  - intros (q & ld & Hq & Hl & Hd & Hkey & _). rewrite Hq. intros [= <- <-].
    exists ld, e. by rewrite Hd, Hkey, Hk.
  - intros _. destruct (served _); [done|]. by intros [= <- <-]; apply Hrun.
  - intros _. by intros [= <- <-]; apply Hrun.
Qed.

Lemma settle_answers p d v e (c : Cache D V) :
  qc_loads c !! p = Some (mkPendingLoad d (cache_key d) None) →
  qc_entries c !! cache_key d = Some e → qe_promise e = Some p →
  let c' := settle p (resolve p (Ok v) c) in load_cached false d c' = (Answers v, c').
Proof.
  intros Hl He Hp. cbv zeta. unfold settle. rewrite resolve_lookup, decide_True, Hl by done.
  cbn [fmap option_fmap option_map ld_descriptor ld_key]. change (qc_entries (resolve p (Ok v) c)) with (qc_entries c).
  rewrite He, bool_decide_true by done. unfold load_cached. cbn [qc_entries].
  rewrite lookup_insert_eq. cbn. by rewrite served_some.
Qed.

(** What is visible stays visible: a reload shows the old rows until the new ones come. *)
Definition visible (key : string) (c : Cache D V) : Prop := is_Some (qc_entries c !! key ≫= qe_value).
Lemma run_visible d key key' (c : Cache D V) : visible key c → visible key (run d key' c).2.
Proof.
  unfold visible. cbn. destruct (decide (key = key')) as [->|].
  - by rewrite lookup_insert_eq.
  - by rewrite lookup_insert_ne.
Qed.
Lemma load_visible bypass d key (c : Cache D V) : visible key c → visible key (load_cached bypass d c).2.
Proof.
  intros Hv. pose proof (run_visible d key (cache_key d) c Hv) as Hr. unfold load_cached, run_outcome.
  repeat case_match; simplify_eq/=; done.
Qed.
Lemma settle_visible p key (c : Cache D V) : visible key c → visible key (settle p c).
Proof.
  unfold settle, visible. intros Hv. repeat case_match; simplify_eq/=; try done;
    (match goal with Hk : qc_entries c !! ?k = _ |- _ =>
       destruct (decide (key = k)) as [->|]; [|by rewrite lookup_insert_ne] end);
    rewrite lookup_insert_eq; simpl; [by eexists|].
  match goal with Hk : qc_entries c !! _ = _ |- _ => by rewrite Hk in Hv end.
Qed.
Lemma invalidate_visible t key (c : Cache D V) : visible key c → visible key (invalidate t c).
Proof.
  unfold invalidate. generalize (default [] (qc_byTable c !! t)). intros todo. revert c.
  induction todo as [|k todo IH]; intros c Hv; [done|]. simpl. apply IH. unfold refresh.
  case_match; [by apply run_visible|done].
Qed.
Lemma step_visible P key (w w' : CacheWorld) :
  cstep (D := D) P w w' → visible key (cw_cache w) → visible key (cw_cache w').
Proof.
  destruct 1; cbn; try done; [apply load_visible|apply settle_visible|apply invalidate_visible].
Qed.
End loads.

(** ** The engine's writes are steps of this machine

    A row that is stored changes no other table. *)
Lemma stored_row_elsewhere key row rows t :
  Forall own_key rows → no_slash t = true → own_key (key, row) → t ≠ rm_table (_meta row) →
  let live := List.filter (λ row, String.eqb (rm_table (_meta row)) t && negb (rm_deleted (_meta row))) in
  live (map_set key row rows).*2 = live rows.*2 ∧
  ∀ r, assoc (rowKey t r) (map_set key row rows) = assoc (rowKey t r) rows.
Proof.
  intros Hown Ht [Hk Hns] Hne. cbv zeta. simpl in Hk, Hns. split.
  - induction Hown as [|[k0 row0] rows [Hk0 Hns0] _ IH]; simpl in *.
    + by destruct (String.eqb_spec (rm_table (_meta row)) t).
    + destruct (String.eqb_spec key k0) as [E|]; simpl;
        [|by destruct (_ && _); [f_equal|]; apply IH].
      assert (rm_table (_meta row0) = rm_table (_meta row)) as E'.
      { rewrite Hk, Hk0 in E. by apply rowKey_inj in E as [-> _]. }
      rewrite E'. by destruct (String.eqb_spec (rm_table (_meta row)) t).
  - intros r. apply assoc_map_set_ne. intros E. apply Hne. rewrite Hk in E.
    by apply rowKey_inj in E as [-> _].
Qed.
Lemma putRow_elsewhere row l t : store_ok l → no_slash t = true →
  no_slash (rm_table (_meta row)) = true → t ≠ rm_table (_meta row) → same_table t l (putRow row l).
Proof.
  intros [_ Hown] Ht Hr Hne. by apply stored_row_elsewhere.
Qed.
Lemma commit_elsewhere row change l t : store_ok l → no_slash t = true →
  no_slash (rm_table (_meta row)) = true → t ≠ rm_table (_meta row) →
  same_table t l (commitLocalMutation row change l).
Proof. intros [_ Hown] Ht Hr Hne. by apply stored_row_elsewhere. Qed.
Lemma putRows_elsewhere rows l t : store_ok l → no_slash t = true →
  Forall (λ row, no_slash (rm_table (_meta row)) = true ∧ t ≠ rm_table (_meta row)) rows →
  same_table t l (putRows rows l).
Proof.
  intros Hl Ht Hrows. revert l Hl. induction Hrows as [|row rows [Hr Hne] _ IH]; intros l Hl; [done|].
  change (putRows (row :: rows) l) with (putRows rows (putRow row l)).
  etrans; [by apply putRow_elsewhere|]. apply IH. by apply putRow_ok.
Qed.

(** ** Both caches behind [emit] *)
Definition event_table (ev : SyncEvent) : option string :=
  match ev with RowChange t _ _ | RowDelete t _ => Some t | _ => None end.
Record Caches := mkCaches {
  cs_queries : Cache QueryDescriptor (list Row); cs_rows : Cache RowDescriptor (option Row) }.
Definition emit_caches `{Coercion} (c : Caches) (ev : SyncEvent) : Caches :=
  match event_table ev with
  | Some t => mkCaches (invalidate t (cs_queries c)) (invalidate t (cs_rows c))
  | None => c
  end.
Definition caches_after `{Coercion} (events : list SyncEvent) (c : Caches) : Caches :=
  foldl emit_caches c events.

(** ** Properties *)

(** C23: A cached answer is current.  However loads, answers of the store, failures, settlements,
    writes and events interleave, an answer handed out from the cache without a load
    is the store's present answer to a query in use that has the same cache key, as soon as every write to
    that query's table has been announced.  It is the answer to the very query asked where no other query in use shares its
    key; queries do share keys when names or text operands contain the separators of the key, and then one is served
    the rows of the other.  What is visible of a query stays visible
    while it is loaded again. *)
Theorem cached_answer_is_current {D V : Type} `{!Cacheable D V} (P : D → Prop) (l : MemoryLocalStore)
    (w w' : CacheWorld) (d : D) (v : V) (c' : Cache D V) :
  P d → rtc (cstep P) (first_world l) w →
  load_cached false d (cw_cache w) = (Answers v, c') →
  (∃ d', P d' ∧ cache_key d' = cache_key d ∧ (table_of d' ∉ cw_dirty w → v = answer d' (cw_store w))) ∧
  ((∀ d', P d' → cache_key d' = cache_key d → d' = d) → table_of d ∉ cw_dirty w → v = answer d (cw_store w)) ∧
  c' = cw_cache w ∧
  (rtc (cstep P) w w' → is_Some (qs_value (read_cache d (cw_cache w')))).
Proof.
  intros HP Hr. apply reachable_fresh in Hr. unfold load_cached, run_outcome.
  destruct (qc_entries (cw_cache w) !! cache_key d) as [e|] eqn:Ee; [|done].
  destruct (Hr _ _ Ee) as (HPe & Hk & _ & Hs).
  revert Hs. unfold status_ok. destruct (qe_status e); [by intros (q & ld & -> & _)| |done].
  intros (v0 & Ev & _ & Hf). rewrite Ev, served_some. intros [= <- <-]. split_and!; [by exists (qe_descriptor e)| |done|].
  { intros Hinj Hclean. specialize (Hinj _ HPe Hk). subst d. by apply Hf. }
  intros Hw. assert (visible (cache_key d) (cw_cache w)) as Hv.
  { unfold visible. rewrite Ee. simpl. rewrite Ev. by eexists. }
  assert (visible (cache_key d) (cw_cache w')) as Hv'.
  { clear -Hv Hw. induction Hw; [done|]. by eapply IHHw, step_visible. }
  revert Hv'. unfold visible, read_cache. by destruct (qc_entries (cw_cache w') !! _).
Qed.

(** A load comes to an answer.  The promise a caller is given is the current load of its query;
    unless that load has been answered already, once the store answers and the
    promise settles the next request is served from the cache, with the rows the store
    had when it answered. *)
Theorem load_comes_to_an_answer {D V : Type} `{!Cacheable D V} (P : D → Prop) (l : MemoryLocalStore)
    (w : CacheWorld) (bypass : bool) (d : D) (p : nat) (c1 : Cache D V) :
  (∀ d d', P d → P d' → cache_key d = cache_key d' → d = d') →
  P d → rtc (cstep P) (first_world l) w →
  load_cached bypass d (cw_cache w) = (Awaits p, c1) →
  ∃ ld, qc_loads c1 !! p = Some ld ∧
    (ld_result ld = None →
     let c2 := settle p (resolve p (Ok (answer d (cw_store w))) c1) in
     rtc (cstep P) w (with_cache c2 w) ∧
     load_cached false d c2 = (Answers (answer d (cw_store w)), c2)).
Proof.
  intros Hinj HP Hr E. pose proof (awaited_load _ _ _ _ _ _ _ Hr HP Hinj E) as (ld & e & Hl & Hd & Hk & He & Hp).
  exists ld. split; [done|]. intros Hnone. cbv zeta. destruct ld as [d0 k0 r0]. simpl in *. subst. split.
  - eapply rtc_l; [by apply (step_load _ bypass d)|]. rewrite E. simpl.
    eapply rtc_l; [eapply step_answer; [done|done]|]. simpl.
    eapply rtc_l; [apply (step_settle _ p)|]. done.
  - by eapply settle_answers.
Qed.

(** Queries do not share an entry.  Two queries have the same cache key only when
    they are the same query, provided names and text operands do not use the separators
    of the key. *)
Theorem plain_queries_have_their_own_key `{Coercion} (d d' : QueryDescriptor) :
  plain_query d = true → plain_query d' = true → computeCacheKey d = computeCacheKey d' → d = d'.
Proof. apply query_key_inj. Qed.

(** Nothing escapes the separators: these two queries share an entry, and the
    second is served the rows of the first. *)
Definition any_of (vs : list string) : QueryDescriptor :=
  mkQuery "todo" (Some ("tag", AnyOf (VStr <$> vs))) None.
Lemma any_of_keys_collide `{Coercion} :
  computeCacheKey (any_of ["a"; "b"]) = computeCacheKey (any_of ["a,s:b"]) ∧
  any_of ["a"; "b"] ≠ any_of ["a,s:b"].
Proof. by split. Qed.

(** ** Witnesses *)
Definition tagged (rowId tag : string) : Row :=
  mkRow (mkMeta "todo" rowId false None 1 None None) {["tag" := mkColumn (VStr tag) "s"]}.
Definition tag_store : MemoryLocalStore := putRow (tagged "1" "a") emptyStore.
(** Load, answer, settle, write another row, announce it, answer and settle again. *)
Definition cached_once `{Coercion} : Cache QueryDescriptor (list Row) :=
  let d := any_of ["a"] in
  settle 0 (resolve 0 (Ok (answer d tag_store)) (load_cached false d emptyCache).2).
Definition after_write : MemoryLocalStore := putRow (tagged "2" "a") tag_store.
Definition refreshed_world `{Coercion} : CacheWorld :=
  mkWorld after_write ((∅ ∪ {["todo"]}) ∖ {["todo"]})
    (settle 1 (resolve 1 (Ok (answer (any_of ["a"]) after_write)) (invalidate "todo" cached_once))).
#[local] Instance test_coercion : Coercion :=
  {| stringToNumber _ := NaN; objectToString _ := "[object Object]" |}.

Definition used_query (d : QueryDescriptor) : Prop :=
  plain_query d = true ∧ no_slash (qd_table d) = true.

Lemma refreshed_reachable : rtc (cstep used_query) (first_world tag_store) refreshed_world.
Proof.
  eapply rtc_l; [by apply (step_load _ false (any_of ["a"]))|].
  eapply rtc_l; [by apply (step_answer _ 0 (mkPendingLoad (any_of ["a"]) (computeCacheKey (any_of ["a"])) None))|].
  eapply rtc_l; [apply (step_settle _ 0)|].
  eapply rtc_l; [apply (step_write _ {["todo"]} after_write)|].
  { intros d [_ Hd] Ht%not_elem_of_singleton. apply putRow_elsewhere; [|done..].
    apply putRow_ok; [done|]. by split; constructor. }
  eapply rtc_l; [apply (step_announce _ "todo")|].
  eapply rtc_l; [by apply (step_answer _ 1 (mkPendingLoad (any_of ["a"]) (computeCacheKey (any_of ["a"])) None))|].
  eapply rtc_l; [apply (step_settle _ 1)|]. done.
Qed.
Lemma used_keys d d' : used_query d → used_query d' → cache_key d = cache_key d' → d = d'.
Proof. intros [Hd _] [Hd' _]. by apply query_key_inj. Qed.

(** The rows of the second write are served from the cache. *)
Lemma cached_answer_is_current_witness : ∃ v,
  load_cached false (any_of ["a"]) (cw_cache refreshed_world) = (Answers v, cw_cache refreshed_world) ∧
  v = answer (any_of ["a"]) after_write ∧
  is_Some (qs_value (read_cache (any_of ["a"]) (cw_cache refreshed_world))).
Proof.
  assert (load_cached false (any_of ["a"]) (cw_cache refreshed_world) =
    (Answers (answer (any_of ["a"]) after_write), cw_cache refreshed_world)) as E by reflexivity.
  eexists. split; [exact E|].
  destruct (cached_answer_is_current used_query tag_store refreshed_world refreshed_world (any_of ["a"])
    _ _ (ltac:(by split)) refreshed_reachable E) as (_ & Hv & _ & H). split; [|by apply H].
  apply Hv; [|by apply not_elem_of_empty]. intros d' Hd' Hk. by apply used_keys.
Defined.

Lemma load_comes_to_an_answer_witness :
  let c2 := settle 2 (resolve 2 (Ok (answer (any_of ["b"]) after_write))
              (load_cached false (any_of ["b"]) (cw_cache refreshed_world)).2) in
  load_cached false (any_of ["b"]) c2 = (Answers (answer (any_of ["b"]) after_write), c2).
Proof.
  destruct (load_comes_to_an_answer used_query tag_store refreshed_world false (any_of ["b"]) 2
    (load_cached false (any_of ["b"]) (cw_cache refreshed_world)).2
    used_keys (ltac:(by split)) refreshed_reachable (ltac:(reflexivity))) as (ld & Hl & H).
  apply H. change (Some (mkPendingLoad (any_of ["b"]) (computeCacheKey (any_of ["b"])) None) = Some ld) in Hl.
  by injection Hl as <-.
Defined.

Lemma plain_queries_have_their_own_key_witness :
  computeCacheKey (any_of ["a"; "b"]) = "t=todo|w=tag:anyOf|vs=s:a,s:b" ∧
  any_of ["a"; "b"] = any_of ["a"; "b"].
Proof.
  split; [reflexivity|]. by apply plain_queries_have_their_own_key.
Defined.
