(* ===== verification/MergeStore.v ===== *)
(** * Merging through the row cache

    The engine merges a change into rows it has just taken from the local
    store into the in-memory tables, then stores the rows that changed.  The
    results here say that this is the same as applying the change to the store
    itself: an operation depends on and changes only the row it names, and the
    refreshed cache agrees with the store on those rows.  The rows in the refreshed tables are the
    store's own objects, so a merge that fails half way has changed the stored rows so far. *)

From S2P Require Import Prelude JsString Hlc Values JsMap LocalStore Wire Crdt.
From S2P Require Import Session.
From Stdlib Require String.

Open Scope stdpp_scope.

Section merge_store.
Context (sv : Z) (schema : option DatabaseSchemaDefinition).

(** The effect of an operation on the one row it names: what is reported, and the row left. *)
Definition op_effect (op : Op) (o : option Row) : result (option Row) * option Row :=
  match op with
  | DeleteOp t r h =>
      match deleteRow o t r h sv with
      | None => (Ok None, o)
      | Some row => (Ok (Some row), Some row)
      end
  | UpsertOp t r cols =>
      let '(res, row) := upsertRow o t r cols sv schema in
      (match res with
       | Throw e => Throw e
       | Ok changed => Ok (if changed then Some row else None)
       end, Some row)
  end.

Definition op_ref (op : Op) : string * string := (op_table op, op_rowId op).

Lemma applyOp_local op (T : Tables) :
  ∃ T', applyOp op sv schema T =
          ((op_effect op (getRow T (op_table op) (op_rowId op))).1, T') ∧
    ∀ t r, getRow T' t r =
      if bool_decide ((t, r) = op_ref op)
      then (op_effect op (getRow T (op_table op) (op_rowId op))).2 else getRow T t r.
Proof.
  unfold applyOp. set (T1 := match T !! op_table op with None => _ | Some _ => T end).
  assert (∀ t r, getRow T1 t r = getRow T t r) as HT1.
  { intros t r. apply ensure_table_getRow. }
  rewrite (HT1 (op_table op) (op_rowId op)).
  assert (∀ row t r, getRow (setRow T1 (op_table op) (op_rowId op) row) t r =
    if bool_decide ((t, r) = op_ref op) then Some row else getRow T t r) as Hset.
  { intros row t r. case_bool_decide as E.
    - injection E as -> ->. apply getRow_setRow_eq.
    - rewrite getRow_setRow_ne, HT1; [done|]. intros [= <- <-]. by destruct E. }
  assert (∀ t r, getRow T1 t r = if bool_decide ((t, r) = op_ref op)
            then getRow T (op_table op) (op_rowId op) else getRow T t r) as Hsame.
  { intros t r. rewrite HT1. case_bool_decide as E; [|done]. by injection E as -> ->. }
  destruct op as [t r cols|t r h]; simpl in *.
  - destruct (upsertRow _ t r cols sv schema) as [[ch|e] row]; simpl; eauto.
  - destruct (deleteRow _ t r h sv) as [row|]; simpl; eauto.
Qed.

(** An operation that reports nothing has changed nothing. *)
Lemma applyColumns_silent t r cols row changed row' :
  applyColumns schema t r cols row changed = (Ok false, row') → row' = row ∧ changed = false.
Proof.
  revert row changed. induction cols as [|[k e] cols IH]; intros row changed; simpl.
  { by intros [= <- <-]. }
  destruct (resolveStrategy schema t k) as [st|]; [|done].
  destruct (mergeColumn _ e st t r k) as [[w|]|]; [..|done].
  - by intros [_ ?]%IH.
  - apply IH.
Qed.

Lemma applyColumns_meta t r cols row changed res row' :
  applyColumns schema t r cols row changed = (res, row') → _meta row' = _meta row.
Proof.
  revert row changed. induction cols as [|[k e] cols IH]; intros row changed; simpl.
  { by intros [= _ <-]. }
  destruct (resolveStrategy schema t k) as [st|]; [|by intros [= _ <-]].
  destruct (mergeColumn _ e st t r k) as [[w|]|]; [..|by intros [= _ <-]].
  - intros E%IH. exact E.
  - apply IH.
Qed.

Lemma upsert_silent o t r cols row : upsertRow o t r cols sv schema = (Ok false, row) → o = Some row.
Proof.
  unfold upsertRow. destruct o as [old|]; simpl.
  - destruct (if rm_deleted (_meta old) then _ else _) as [d|].
    + destruct (filter _ cols); [by intros [= ->]|]. by intros [_ ?]%applyColumns_silent.
    + by intros [-> _]%applyColumns_silent.
  - by intros [_ ?]%applyColumns_silent.
Qed.

Lemma effect_silent op o o' : op_effect op o = (Ok None, o') → o' = o.
Proof.
  destruct op as [t r cols|t r h]; simpl.
  - destruct (upsertRow o t r cols sv schema) as [[[]|] row] eqn:E; simpl; try done.
    intros [= <-]. by apply upsert_silent in E.
  - destruct (deleteRow o t r h sv); by intros [= <-].
Qed.
Lemma effect_reported op o row o' : op_effect op o = (Ok (Some row), o') → o' = Some row.
Proof.
  destruct op as [t r cols|t r h]; simpl.
  - destruct (upsertRow o t r cols sv schema) as [[[]|] row'] eqn:E; simpl; try done.
    by intros [= <- <-].
  - destruct (deleteRow o t r h sv); [by intros [= <- <-]|done].
Qed.

(** Rows know where they live. *)
Definition row_at (t r : string) (row : Row) : Prop :=
  rm_table (_meta row) = t ∧ rm_rowId (_meta row) = r.
Definition opt_at (t r : string) (o : option Row) : Prop := ∀ row, o = Some row → row_at t r row.

Lemma effect_at op o : opt_at (op_table op) (op_rowId op) o →
  opt_at (op_table op) (op_rowId op) (op_effect op o).2.
Proof.
  intros Ho row. destruct op as [t r cols|t r h]; simpl in *.
  - destruct (upsertRow o t r cols sv schema) as [res row'] eqn:E. simpl. intros [= <-].
    unfold upsertRow in E.
    assert (row_at t r (default (blankRow t r sv false None) o)) as Hd.
    { destruct o; simpl; [by apply Ho|done]. }
    destruct (if rm_deleted _ then _ else _) as [d|].
    + destruct (filter _ cols); [by injection E as _ <-|].
      apply applyColumns_meta in E. unfold row_at. rewrite E. exact Hd.
    + apply applyColumns_meta in E. unfold row_at. by rewrite E.
  - destruct (deleteRow o t r h sv) as [row'|] eqn:E; simpl; [|by apply Ho]. intros [= <-].
    unfold deleteRow in E. destruct o as [old|]; [|by injection E as <-].
    repeat case_match; simplify_eq; exact (Ho old eq_refl).
Qed.

(** Replaying a list of rows over one position. *)
Definition pick (t r : string) (o : option Row) (row : Row) : option Row :=
  if bool_decide ((t, r) = (rm_table (_meta row), rm_rowId (_meta row))) then Some row else o.

(** *** The cache *)
Definition plain_ops (ops : list Op) : Prop := Forall (λ op, no_slash (op_table op) = true) ops.

Lemma refs_of_ops ops op : plain_ops ops → op ∈ ops → op_ref op ∈ row_refs ops.
Proof.
  intros Hp Hin. unfold row_refs, op_ref.
  assert (∀ ops m, op ∈ ops ∨ assoc (rowKey (op_table op) (op_rowId op)) m = Some (op_ref op) →
    plain_ops ops → no_slash (op_table op) = true →
    assoc (rowKey (op_table op) (op_rowId op))
      (foldl (λ refs op, map_set (op_table op +:+ "/" +:+ op_rowId op) (op_table op, op_rowId op) refs)
         m ops) = Some (op_ref op)) as Hgen.
  { clear. induction ops as [|op' ops IH]; intros m Hm Hp Hs; simpl.
    { destruct Hm as [?%not_elem_of_nil|]; done. }
    apply Forall_cons_1 in Hp as [Hp' Hp]. apply IH; [|done|done]. rewrite assoc_map_set.
    destruct (String.eqb_spec (rowKey (op_table op) (op_rowId op))
      (op_table op' +:+ "/" +:+ op_rowId op')) as [E|Hne].
    - apply rowKey_inj in E as [Et Er]; [|done|done]. right. unfold op_ref. by rewrite Et, Er.
    - destruct Hm as [[->|?]%elem_of_cons|?]; [done|by left|by right]. }
  unfold plain_ops in Hp. pose proof Hp as Hp'. rewrite list.Forall_forall in Hp'.
  specialize (Hgen ops [] (or_introl Hin) Hp (Hp' op Hin)). apply assoc_elem in Hgen.
  apply list_elem_of_fmap. by eexists (_, _).
Qed.

Lemma cache_row_get l (T : Tables) t r t' r' :
  getRow (cache_row l T (t, r)) t' r' =
    if bool_decide ((t', r') = (t, r)) then store_getRow l t r else getRow T t' r'.
Proof.
  unfold cache_row. simpl. destruct (store_getRow l t r) as [row|] eqn:E.
  - case_bool_decide as Eq; [injection Eq as -> ->; apply getRow_setRow_eq|].
    apply getRow_setRow_ne. intros [= <- <-]. done.
  - unfold getRow. destruct (T !! t) as [tbl|] eqn:Et.
    + case_bool_decide as Eq.
      * injection Eq as -> ->. rewrite lookup_insert_eq. simpl. apply lookup_delete_eq.
      * destruct (decide (t = t')) as [<-|]; [|by rewrite lookup_insert_ne].
        rewrite lookup_insert_eq, Et. simpl. apply lookup_delete_ne. congruence.
    + case_bool_decide as Eq; [|done]. injection Eq as -> ->. by rewrite Et.
Qed.

Lemma cached_get l refs (T : Tables) t r :
  (t, r) ∈ refs → getRow (foldl (cache_row l) T refs) t r = store_getRow l t r.
Proof.
  assert (∀ refs T, (t, r) ∈ refs ∨ getRow T t r = store_getRow l t r →
    getRow (foldl (cache_row l) T refs) t r = store_getRow l t r) as Hgen.
  { clear. induction refs as [|[t' r'] refs IH]; intros T HT; cbn [foldl].
    { by destruct HT as [?%not_elem_of_nil|]. }
    apply IH. rewrite cache_row_get. case_bool_decide as Eq.
    - right. by injection Eq as -> ->.
    - destruct HT as [[?|?]%elem_of_cons|?]; [done|by left|by right]. }
  auto.
Qed.

(** *** The store *)
Definition strip (row : Row) : Row :=
  let m := _meta row in
  mkRow (mkMeta (rm_table m) (rm_rowId m) (rm_deleted m) (rm_deletedHlc m) (rm_schemaVersion m)
           (rm_owner m) None) (payload row).

Lemma putRows_pick rows l t r :
  no_slash t = true → Forall (λ row, no_slash (rm_table (_meta row)) = true) rows →
  strip <$> store_getRow (putRows rows l) t r =
    strip <$> foldl (pick t r) (store_getRow l t r) rows.
Proof.
  intros Ht. unfold putRows.
  assert (∀ rows l o, strip <$> store_getRow l t r = strip <$> o →
    Forall (λ row, no_slash (rm_table (_meta row)) = true) rows →
    strip <$> store_getRow (foldl (λ s row, putRow row s) l rows) t r =
      strip <$> foldl (pick t r) o rows) as Hgen; [|intros; by apply Hgen].
  clear rows l. induction rows as [|row rows IH]; intros l o Ho Hp; simpl; [done|].
  apply Forall_cons_1 in Hp as [Hrow Hp]. apply IH; [|done].
  rewrite getRow_putRow by done. unfold pick. by case_bool_decide.
Qed.

(** *** What the operations reported *)
Lemma effect_some op o : is_Some o → is_Some (op_effect op o).2.
Proof.
  intros Ho. destruct op as [t r cols|t r h]; simpl.
  - by destruct (upsertRow o t r cols sv schema) as [[]].
  - by destruct (deleteRow o t r h sv).
Qed.

Lemma reported_step op ops (T : Tables) : ∃ T1,
  reported (op :: ops) sv schema T =
    match (op_effect op (getRow T (op_table op) (op_rowId op))).1 with
    | Throw e => (Throw e, T1)
    | Ok o =>
        let '(res, T2) := reported ops sv schema T1 in
        (rest ← res; Ok (match o with Some _ => op_ref op :: rest | None => rest end), T2)
    end ∧
  ∀ t r, getRow T1 t r = if bool_decide ((t, r) = op_ref op)
                         then (op_effect op (getRow T (op_table op) (op_rowId op))).2 else getRow T t r.
Proof.
  destruct (applyOp_local op T) as (T1 & E & HT1). exists T1. split; [|done].
  simpl. unfold mbind at 1, M_bind at 1. rewrite E. destruct (op_effect _ _).1 as [o|e]; [|done].
  unfold mbind at 1, M_bind at 1. by destruct (reported ops sv schema T1) as [[rest|e] T2].
Qed.

(** Whatever becomes of the operations: no row disappears, no other row changes. *)
Lemma reported_some ops (T : Tables) t r : is_Some (getRow T t r) → is_Some (getRow (reported ops sv schema T).2 t r).
Proof.
  revert T. induction ops as [|op ops IH]; intros T Hs; [done|].
  destruct (reported_step op ops T) as (T1 & -> & HT1).
  assert (is_Some (getRow T1 t r)) as H1.
  { rewrite HT1. case_bool_decide as Eq; [|done]. injection Eq as -> ->. by apply effect_some. }
  destruct (op_effect _ _).1 as [o|e]; [|done]. specialize (IH T1 H1).
  by destruct (reported ops sv schema T1).
Qed.
Lemma reported_frame ops (T : Tables) t r : (t, r) ∉ op_ref <$> ops →
  getRow (reported ops sv schema T).2 t r = getRow T t r.
Proof.
  revert T. induction ops as [|op ops IH]; intros T Hnot; [done|].
  destruct (reported_step op ops T) as (T1 & -> & HT1). rewrite fmap_cons in Hnot. apply not_elem_of_cons in Hnot as [Hne Hnot].
  specialize (IH T1 Hnot). rewrite HT1, bool_decide_false in IH by done.
  destruct (op_effect _ _).1 as [o|e]; [by destruct (reported ops sv schema T1)|]. cbn. by rewrite HT1, bool_decide_false.
Qed.

(** The rows reported are rows of the operations, and no other row has changed. *)
Lemma reported_spec ops (T : Tables) refs T' : reported ops sv schema T = (Ok refs, T') →
  (∀ ref, ref ∈ refs → ref ∈ op_ref <$> ops ∧ is_Some (getRow T' ref.1 ref.2)) ∧
  (∀ t r, (t, r) ∉ refs → getRow T' t r = getRow T t r).
Proof.
  revert T refs. induction ops as [|op ops IH]; intros T refs.
  { intros [= <- <-]. split; [by intros ? ?%not_elem_of_nil|done]. }
  destruct (reported_step op ops T) as (T1 & -> & HT1).
  set (old := getRow T (op_table op) (op_rowId op)) in *.
  destruct (op_effect op old) as [[o|e] new] eqn:Eeff; cbn [fst snd] in *; [|done].
  destruct (reported ops sv schema T1) as [[rest|e] T2] eqn:E; [|done]. intros [= <- <-].
  destruct (IH T1 rest E) as (Hin & Hout). split.
  - assert (∀ ref, ref ∈ rest → ref ∈ op_ref <$> op :: ops ∧ is_Some (getRow T2 ref.1 ref.2)) as Hrest.
    { intros ref [? ?]%Hin. split; [by right|done]. }
    destruct o as [row|]; [|done]. intros ref [->|?]%elem_of_cons; [|by apply Hrest]. split; [left|].
    apply (f_equal snd) in E. cbn [snd] in E. subst T2. apply reported_some.
    rewrite HT1, bool_decide_true by done. by apply effect_reported in Eeff as ->.
  - intros t r Hnot. destruct o as [row|].
    + apply not_elem_of_cons in Hnot as [Hne Hnot]. rewrite Hout, HT1 by done. by rewrite bool_decide_false.
    + rewrite Hout, HT1 by done. apply effect_silent in Eeff as ->. case_bool_decide as Eq; [|done]. by injection Eq as -> ->.
Qed.

Lemma reported_at ops (T : Tables) t r : opt_at t r (getRow T t r) →
  opt_at t r (getRow (reported ops sv schema T).2 t r).
Proof.
  revert T. induction ops as [|op ops IH]; intros T Hat; [done|].
  destruct (reported_step op ops T) as (T1 & -> & HT1).
  assert (opt_at t r (getRow T1 t r)) as H1.
  { rewrite HT1. case_bool_decide as Eq; [|done]. injection Eq as -> ->. by apply effect_at. }
  destruct (op_effect _ _).1 as [o|e]; [|done]. specialize (IH T1 H1).
  by destruct (reported ops sv schema T1).
Qed.

(** The outcome depends only on the rows the operations name. *)
Lemma reported_local ops (T T0 : Tables) :
  (∀ op, op ∈ ops → getRow T0 (op_table op) (op_rowId op) = getRow T (op_table op) (op_rowId op)) →
  (reported ops sv schema T0).1 = (reported ops sv schema T).1 ∧
  ∀ t r, getRow T0 t r = getRow T t r →
    getRow (reported ops sv schema T0).2 t r = getRow (reported ops sv schema T).2 t r.
Proof.
  revert T T0. induction ops as [|op ops IH]; intros T T0 Hag; [done|].
  destruct (reported_step op ops T) as (T1 & -> & HT1). destruct (reported_step op ops T0) as (T01 & -> & HT01).
  rewrite (Hag op (list_elem_of_here _ _)) in HT01 |- *.
  assert (∀ t r, getRow T0 t r = getRow T t r → getRow T01 t r = getRow T1 t r) as Hag1.
  { intros t r Htr. rewrite HT1, HT01. by case_bool_decide. }
  destruct (op_effect _ _).1 as [o|e]; [|by auto].
  destruct (IH T1 T01) as [Hres Hrows]; [intros op' ?; apply Hag1, Hag; by right|].
  destruct (reported ops sv schema T1) as [res T2], (reported ops sv schema T01) as [res0 T02].
  cbn [fst snd] in *. rewrite Hres. auto.
Qed.

(** *** Storing the rows of the tables *)
Lemma pick_rows_at (T : Tables) refs t r o :
  (∀ ref, ref ∈ refs → is_Some (getRow T ref.1 ref.2) ∧ opt_at ref.1 ref.2 (getRow T ref.1 ref.2)) →
  foldl (pick t r) o (rows_at T refs) = if bool_decide ((t, r) ∈ refs) then getRow T t r else o.
Proof.
  unfold rows_at. revert o. induction refs as [|[t' r'] refs IH]; intros o Hrefs; [done|].
  destruct (Hrefs (t', r') (list_elem_of_here _ _)) as [[row Hrow] Hat]. cbn [fst snd] in *.
  cbn [omap list_omap fst snd]. rewrite Hrow. cbn [foldl]. rewrite IH by (intros ? ?; apply Hrefs; by right).
  unfold pick. destruct (Hat row Hrow) as [-> ->]. destruct (decide ((t, r) ∈ refs)) as [Hin|Hout].
  { rewrite !bool_decide_true; [done|by right|done]. }
  rewrite (bool_decide_false ((t, r) ∈ refs)) by done. destruct (decide ((t, r) = (t', r'))) as [Eq|Hne].
  - rewrite !bool_decide_true; [|rewrite Eq; left|done]. injection Eq as -> ->. done.
  - rewrite !bool_decide_false; [done| |done]. by intros [?|?]%elem_of_cons.
Qed.

Lemma write_through_get (T : Tables) l t r t' r' : no_slash t = true → no_slash t' = true →
  store_getRow (write_through T l (t', r')) t r =
    if bool_decide ((t, r) = (t', r')) then
      match store_getRow l t r, getRow T t r with Some _, Some row => Some row | o, _ => o end
    else store_getRow l t r.
Proof.
  intros Ht Ht'. unfold write_through. cbn [fst snd]. case_bool_decide as Eq.
  - injection Eq as -> ->. destruct (store_getRow l t' r') as [old|] eqn:Eo; [|by rewrite Eo].
    destruct (getRow T t' r'); [|by rewrite Eo]. unfold store_getRow. cbn. by rewrite assoc_map_set_eq.
  - destruct (store_getRow l t' r'); [|done]. destruct (getRow T t' r'); [|done]. unfold store_getRow. cbn.
    apply assoc_map_set_ne. intros [-> ->]%rowKey_inj; done.
Qed.
Lemma written_through (T : Tables) refs l t r : no_slash t = true → Forall (λ ref, no_slash ref.1 = true) refs →
  store_getRow (foldl (write_through T) l refs) t r =
    if bool_decide ((t, r) ∈ refs) then
      match store_getRow l t r, getRow T t r with Some _, Some row => Some row | o, _ => o end
    else store_getRow l t r.
Proof.
  intros Ht Hrefs. revert l. induction Hrefs as [|[t' r'] refs Ht' Hrefs IH]; intros l; [done|]. cbn [foldl fst] in *.
  rewrite IH, write_through_get by done. destruct (decide ((t, r) = (t', r'))) as [Eq|Hne].
  - assert (t = t' ∧ r = r') as [-> ->] by by injection Eq. rewrite (bool_decide_true ((t', r') ∈ _ :: _)) by left.
    rewrite (bool_decide_true ((t', r') = _)) by done.
    destruct (store_getRow l t' r'), (getRow T t' r'); by case_bool_decide.
  - rewrite (bool_decide_false ((t, r) = _)) by done.
    assert (bool_decide ((t, r) ∈ (t', r') :: refs) = bool_decide ((t, r) ∈ refs)) as ->; [|done].
    apply bool_decide_ext. rewrite elem_of_cons. tauto.
Qed.
Lemma write_through_ok (T : Tables) l ref : no_slash ref.1 = true → opt_at ref.1 ref.2 (getRow T ref.1 ref.2) →
  store_ok l → store_ok (write_through T l ref).
Proof.
  intros Ht Hat Hl. unfold write_through. destruct (store_getRow _ _ _); [|done].
  destruct (getRow T ref.1 ref.2) as [row|]; [|done]. eapply store_set_ok; [done| |done].
  destruct (Hat row eq_refl) as [H1 H2]. split; cbn; [by rewrite H1, H2|by rewrite H1].
Qed.
Lemma write_through_frame (T : Tables) refs l :
  ls_outbox (foldl (write_through T) l refs) = ls_outbox l ∧
  ls_pendingBatch (foldl (write_through T) l refs) = ls_pendingBatch l ∧
  ls_cursors (foldl (write_through T) l refs) = ls_cursors l ∧ ls_meta (foldl (write_through T) l refs) = ls_meta l.
Proof.
  revert l. induction refs as [|ref refs IH]; intros l; [done|]. cbn [foldl]. destruct (IH (write_through T l ref)) as (-> & -> & -> & ->).
  unfold write_through. by repeat case_match.
Qed.
End merge_store.

(** The merge of one change as the engine runs it: refresh the cache, apply the operations to the rows, which are the
    store's own where it has them, and store the rows that changed. *)
Definition cached_merge (sv : Z) (schema : option DatabaseSchemaDefinition) (ops : list Op)
    (T : Tables) (l : MemoryLocalStore) : result (list Row) * Tables * MemoryLocalStore :=
  let T1 := foldl (cache_row l) T (row_refs ops) in
  let '(r, T2) := applyChanges ops sv schema T1 in
  let l1 := foldl (write_through T2) l (row_refs ops) in
  match r with
  | Ok affected => (r, T2, putRows affected l1)
  | Throw _ => (r, T2, l1)
  end.

Definition plain_rows (rows : list Row) : Prop :=
  Forall (λ row, no_slash (rm_table (_meta row)) = true) rows.

(** The references are those of the operations. *)
Lemma row_refs_of ops ref : ref ∈ row_refs ops → ref ∈ op_ref <$> ops.
Proof.
  unfold row_refs. intros ([k ref'] & -> & Hin)%list_elem_of_fmap. cbn [snd].
  assert (∀ m, (∀ kr, kr ∈ m → kr.2 ∈ op_ref <$> ops) → ∀ ops', (∀ op, op ∈ ops' → op ∈ ops) →
    ∀ kr, kr ∈ foldl (λ refs op, map_set (op_table op +:+ "/" +:+ op_rowId op) (op_table op, op_rowId op) refs) m ops' →
    kr.2 ∈ op_ref <$> ops) as Hgen; [|by apply (Hgen [] (λ _ H, match not_elem_of_nil _ H with end) ops (λ _ H, H) (k, ref') Hin)].
  intros m Hm ops'. revert m Hm. induction ops' as [|op ops' IH]; intros m Hm Hsub kr; [apply Hm|]. cbn [foldl].
  apply IH; [|intros; apply Hsub; by right].
  apply list.Forall_forall, Forall_map_set; [|by apply list.Forall_forall].
  apply list_elem_of_fmap. exists op. split; [done|]. apply Hsub. left.
Qed.

Lemma putRows_cursors rows l : ls_cursors (putRows rows l) = ls_cursors l.
Proof. unfold putRows. revert l. induction rows as [|row rows IH]; intros l; [done|]. cbn [foldl]. by rewrite IH. Qed.
Lemma rows_at_ext (T T0 : Tables) refs :
  (∀ ref, ref ∈ refs → getRow T0 ref.1 ref.2 = getRow T ref.1 ref.2) → rows_at T0 refs = rows_at T refs.
Proof.
  unfold rows_at. induction refs as [|ref refs IH]; intros Hag; [done|]. cbn [omap list_omap].
  rewrite (Hag ref (list_elem_of_here _ _)), IH; [done|]. intros ? ?. apply Hag. by right.
Qed.

(** The operations on the refreshed tables, against the operations on a view of the store. *)
Section refreshed.
Context (sv : Z) (schema : option DatabaseSchemaDefinition) (ops : list Op) (T V : Tables) (l : MemoryLocalStore).
Context (Hl : store_ok l) (Hp : plain_ops ops) (HV : ∀ t r, no_slash t = true → getRow V t r = store_getRow l t r).
Let T1 := foldl (cache_row l) T (row_refs ops).
Let T2 := (reported ops sv schema T1).2.
Let V' := (reported ops sv schema V).2.

Lemma refs_plain ref : ref ∈ op_ref <$> ops → no_slash ref.1 = true.
Proof. intros (op & -> & Hop)%list_elem_of_fmap. unfold plain_ops in Hp. rewrite list.Forall_forall in Hp. by apply Hp. Qed.
Lemma refreshed_row t r : (t, r) ∈ op_ref <$> ops → getRow T1 t r = store_getRow l t r.
Proof.
  intros (op & Eq & Hop)%list_elem_of_fmap. apply cached_get. rewrite Eq. by apply refs_of_ops.
Qed.
Lemma refreshed_outcome : (reported ops sv schema V).1 = (reported ops sv schema T1).1 ∧
  ∀ t r, (t, r) ∈ op_ref <$> ops → getRow V' t r = getRow T2 t r.
Proof.
  assert (∀ t r, (t, r) ∈ op_ref <$> ops → getRow V t r = getRow T1 t r) as Hag.
  { intros t r Hin. rewrite refreshed_row by done. apply HV. by apply (refs_plain (t, r)). }
  destruct (reported_local sv schema ops T1 V) as [H1 H2]; [|by auto].
  intros op Hop. apply Hag. apply list_elem_of_fmap. by exists op.
Qed.
Lemma refreshed_at t r : (t, r) ∈ op_ref <$> ops → opt_at t r (getRow T2 t r).
Proof.
  intros Hin. apply reported_at. rewrite refreshed_row by done. intros row Hrow.
  apply getRow_own in Hrow; [done..|]. by apply (refs_plain (t, r)).
Qed.
Lemma refs_iff t r : (t, r) ∈ row_refs ops ↔ (t, r) ∈ op_ref <$> ops.
Proof.
  split; [apply row_refs_of|]. intros (op & -> & Hop)%list_elem_of_fmap. by apply refs_of_ops.
Qed.
Lemma written_store_ok : store_ok (foldl (write_through T2) l (row_refs ops)).
Proof.
  assert (∀ refs l0, (∀ ref, ref ∈ refs → ref ∈ op_ref <$> ops) → store_ok l0 → store_ok (foldl (write_through T2) l0 refs)) as Hgen.
  { induction refs as [|[t r] refs IH]; intros l0 Hr Hl0; [done|]. cbn [foldl]. apply IH; [intros; apply Hr; by right|].
    assert ((t, r) ∈ op_ref <$> ops) as Hin by (apply Hr; left).
    apply write_through_ok; [by apply (refs_plain (t, r))|by apply refreshed_at|done]. }
  apply Hgen; [|done]. intros [t r]. apply refs_iff.
Qed.
(** What the shared rows hold once the operations have run, or stopped. *)
Lemma written_store_row t r : no_slash t = true →
  store_getRow (foldl (write_through T2) l (row_refs ops)) t r =
    match store_getRow l t r with None => None | Some _ => getRow V' t r end.
Proof.
  intros Ht. rewrite written_through; [|done|].
  2: { apply list.Forall_forall. intros ref Hin%row_refs_of. by apply refs_plain. }
  destruct (decide ((t, r) ∈ op_ref <$> ops)) as [Hin|Hout].
  - rewrite bool_decide_true by by apply refs_iff. destruct refreshed_outcome as [_ ->]; [|done].
    destruct (store_getRow l t r) as [row|] eqn:E; [|done].
    assert (is_Some (getRow T2 t r)) as [row' ->]; [|done]. apply reported_some. by rewrite refreshed_row, E.
  - rewrite bool_decide_false by by rewrite refs_iff. unfold V'. rewrite reported_frame, HV by done.
    by destruct (store_getRow l t r).
Qed.
(** What is stored in the end, when they all have run. *)
Lemma merged_store_row refs t r : (reported ops sv schema T1).1 = Ok refs → no_slash t = true →
  strip <$> store_getRow (putRows (rows_at T2 refs) (foldl (write_through T2) l (row_refs ops))) t r = strip <$> getRow V' t r.
Proof.
  intros Hrefs Ht. assert (reported ops sv schema T1 = (Ok refs, T2)) as E by (rewrite <- Hrefs; apply surjective_pairing).
  destruct (reported_spec _ _ _ _ _ _ E) as [Hin Hout].
  assert (∀ ref, ref ∈ refs → is_Some (getRow T2 ref.1 ref.2) ∧ opt_at ref.1 ref.2 (getRow T2 ref.1 ref.2)) as Hrows.
  { intros [t' r'] Href. destruct (Hin _ Href). split; [done|]. by apply refreshed_at. }
  rewrite putRows_pick; [|done|].
  2: { apply list.Forall_forall. intros row (ref & Href & Hrow)%list_elem_of_omap.
       destruct (Hrows ref Href) as [_ Hat]. destruct (Hat row Hrow) as [-> _]. apply refs_plain. by apply Hin. }
  rewrite pick_rows_at by done. rewrite written_store_row by done. case_bool_decide as Href.
  - by destruct refreshed_outcome as [_ ->]; [|apply Hin].
  - destruct (store_getRow l t r) eqn:El; [done|]. symmetry. destruct (decide ((t, r) ∈ op_ref <$> ops)) as [Hop|Hop].
    + destruct refreshed_outcome as [_ ->]; [|done]. rewrite Hout by done. by rewrite refreshed_row, El.
    + unfold V'. by rewrite reported_frame, HV, El.
Qed.
End refreshed.

(** ** Properties *)

(** C3: Merging through the cache is merging into the store, and a merge that fails is half merged.  Whatever the
    in-memory tables held before, refreshing the cached rows, applying a change and storing the affected rows
    succeeds exactly when applying the change directly to the stored rows does, reports the same rows, and leaves
    the store with the rows the direct application gives.  When an operation throws, the rows the store already had are
    as the operations before it left them, since they are the very objects the tables hold; rows
    it did not have are not stored.  Nothing but rows changes, and rows stay filed under their own keys.
    (Table names without slashes.) *)
Theorem cached_merge_refines_store (sv : Z) (schema : option DatabaseSchemaDefinition)
    (ops : list Op) (T V : Tables) (l : MemoryLocalStore) :
  store_ok l → plain_ops ops →
  (∀ t r, no_slash t = true → getRow V t r = store_getRow l t r) →
  let '(res, _, l') := cached_merge sv schema ops T l in
  let '(resV, V') := applyChanges ops sv schema V in
  res = resV ∧ store_ok l' ∧
  ls_outbox l' = ls_outbox l ∧ ls_pendingBatch l' = ls_pendingBatch l ∧ ls_cursors l' = ls_cursors l ∧ ls_meta l' = ls_meta l ∧
  ∀ t r, no_slash t = true →
    if is_ok res then strip <$> store_getRow l' t r = strip <$> getRow V' t r
    else store_getRow l' t r = match store_getRow l t r with None => None | Some _ => getRow V' t r end.
Proof.
  intros Hl Hp HV. unfold cached_merge, applyChanges, mbind, M_bind, gets. set (T1 := foldl (cache_row l) T (row_refs ops)).
  destruct (refreshed_outcome sv schema ops T V l Hp HV) as [Hres Hrows]. fold T1 in Hres, Hrows.
  pose proof (written_store_ok sv schema ops T l Hl Hp) as Hok. pose proof (written_store_row sv schema ops T V l Hp HV) as Hrow.
  pose proof (merged_store_row sv schema ops T V l Hl Hp HV) as Hmerged. fold T1 in Hok, Hrow, Hmerged.
  pose proof (refreshed_at sv schema ops T l Hl Hp) as Hat. fold T1 in Hat.
  destruct (reported ops sv schema T1) as [[refs|e] T2] eqn:E, (reported ops sv schema V) as [resV V'];
    cbn [fst snd] in *; subst resV.
  - destruct (reported_spec _ _ _ _ _ _ E) as [Hin _]. specialize (Hmerged refs).
    destruct (putRows_frame (rows_at T2 refs) (foldl (write_through T2) l (row_refs ops))) as (-> & -> & Hm).
    destruct (write_through_frame T2 (row_refs ops) l) as (-> & -> & _ & Hm'). split_and!; try done.
    + f_equal. symmetry. apply rows_at_ext. intros [t r] ?. apply Hrows. by apply Hin.
    + apply putRows_ok; [|done]. apply list.Forall_forall. intros row (ref & Href & Hr)%list_elem_of_omap.
      destruct ref as [t r]. destruct (Hin _ Href) as [Hop _]. destruct (Hat t r Hop row Hr) as [-> _]. by apply (refs_plain ops Hp (t, r)).
    + rewrite putRows_cursors. by destruct (write_through_frame T2 (row_refs ops) l) as (_ & _ & -> & _).
    + by rewrite Hm.
    + intros t r Ht. by apply Hmerged.
  - destruct (write_through_frame T2 (row_refs ops) l) as (-> & -> & -> & ->). by split_and!.
Qed.

(** An entry whose second operation throws, over a store that has the row: the first operation stays. *)
Definition sample_ops : list Op :=
  [UpsertOp "t" "r" [("y", mkColumn (VNum (Num 1)) "000000000000002-0000-a")];
   UpsertOp "t" "r" [("x", mkColumn (VNum (Num 2)) "000000000000001-0000-a")];
   DeleteOp "t" "new" "000000000000002-0000-a"].
Definition sample_x : ColumnEntry := mkColumn (VNum (Num 1)) "000000000000001-0000-a".
Definition sample_stored : Row := mkRow (mkMeta "t" "r" false None 1 None (Some "t/r")) {["x" := sample_x]}.
Definition sample_store : MemoryLocalStore := mkStore [("t/r", sample_stored)] [] None [] [].
Definition sample_view : Tables := {["t" := {["r" := sample_stored]}]}.
Lemma sample_store_ok : store_ok sample_store.
Proof. split; repeat constructor. by intros ?%not_elem_of_nil. Qed.
Lemma sample_viewed t r : no_slash t = true → getRow sample_view t r = store_getRow sample_store t r.
Proof.
  intros Ht. unfold store_getRow, getRow, sample_view. cbn [ls_rows sample_store assoc]. change "t/r" with (rowKey "t" "r").
  destruct (String.eqb_spec (rowKey t r) (rowKey "t" "r")) as [E|Hne].
  - apply rowKey_inj in E as [-> ->]; [|done..]. by rewrite lookup_singleton_eq; cbn; rewrite lookup_singleton_eq.
  - destruct (decide (t = "t")) as [->|]; [|by rewrite lookup_singleton_ne by congruence].
    rewrite lookup_singleton_eq. cbn. destruct (decide (r = "r")) as [->|]; [done|by rewrite lookup_singleton_ne by congruence].
Qed.

Lemma cached_merge_refines_store_witness :
  let '(res, _, l') := cached_merge 1 None sample_ops ∅ sample_store in
  is_ok res = false ∧ (payload <$> store_getRow l' "t" "r") = Some {["y" := mkColumn (VNum (Num 1)) "000000000000002-0000-a"; "x" := sample_x]} ∧
  store_getRow l' "t" "new" = None.
Proof.
  pose proof (cached_merge_refines_store 1 None sample_ops ∅ sample_view sample_store) as Hr.
  specialize (Hr sample_store_ok ltac:(by repeat constructor) sample_viewed).
  assert (is_ok (applyChanges sample_ops 1 None sample_view).1 = false) as Hv by (vm_compute; reflexivity).
  assert ((payload <$> getRow (applyChanges sample_ops 1 None sample_view).2 "t" "r") =
    Some {["y" := mkColumn (VNum (Num 1)) "000000000000002-0000-a"; "x" := sample_x]}) as Hrow by (vm_compute; reflexivity).
  destruct (cached_merge 1 None sample_ops ∅ sample_store) as [[res T'] l'].
  destruct (applyChanges sample_ops 1 None sample_view) as [resV V'].
  destruct Hr as (-> & _ & _ & _ & _ & _ & Hrows). cbn [fst snd] in *. split; [exact Hv|]. rewrite Hv in Hrows.
  rewrite (Hrows "t" "r" eq_refl), (Hrows "t" "new" eq_refl). exact (conj Hrow eq_refl).
Defined.
