(* ===== verification/Manifest.v ===== *)
(** * Manifests and device records
    ([packages/core/src/core/manifest.ts])

    Reading, bootstrapping and validating the manifest a mesh lives by, and the
    merge of a device's metadata record. *)

From S2P Require Import Prelude JsString Hlc Values JsMap LocalStore Wire Crdt.
From S2P Require Import Observation Adapter Codec Session.
From Stdlib Require String.

Open Scope stdpp_scope.

Definition MESH_LINEAGE_META : string := "meshLineage".

(** A stored lineage that is not a positive integer counts as the first life. *)
Definition resolveManifestLineage (v : jsval) : Z :=
  match v with VNum (Num z) => if (0 <? z)%Z then z else 1 | _ => 1 end.
Definition lineage_value (o : option jsnum) : jsval :=
  match o with Some n => VNum n | None => VUndefined end.

(** A parsed JSON value in a boolean context. *)
Definition doc_truthy (d : Doc) : bool :=
  match d with
  | DOther (VNull | VUndefined | VBool false | VNum NaN | VNum (Num 0)) => false
  | DOther (VStr s) => truthy s
  | _ => true
  end.
(** [as ManifestPointer]: a document of another shape has no [file], and the
    template literal then names the path ["undefined"]. *)
Definition as_pointer (d : Doc) : ManifestPointer :=
  match d with DPointer p => p | _ => mkPointer 0 "undefined" end.
Definition as_device (d : Doc) : DeviceMetadata :=
  match d with
  | DDevice dm => dm
  | _ => mkDevice "" None None None None None None None None None None None None None
  end.

#[global] Instance device_eq_dec : EqDecision DeviceMetadata.
Proof. solve_decision. Defined.

Section manifest.
Context `{Platform} {A : Type} `{!StorageOps A}.

Definition readJson (path : string) : M A Doc :=
  data ← readFile path;
  lift (parse (decodeText data)).
Definition readJsonIfExists (path : string) : M A (option Doc) :=
  catch (d ← readJson path; mret (if doc_truthy d then Some d else None))
        (λ _, mret None).
Definition writeJson (path : string) (d : Doc) : M A () :=
  writeFile path (encodeText (stringify d)).

Definition assertServerAuth (m : ManifestPayload) (serverId : string) : result () :=
  if negb (String.eqb (m_writtenBy m) serverId)
  then Throw (JsError ("Unauthorized manifest writer: " +:+ m_writtenBy m)) else Ok ().

(** A document that is not a manifest has no matching hash. *)
Definition validateManifestHash (d : Doc) : result Manifest :=
  match d with
  | DManifest m =>
      if negb (String.eqb (contentHash m) (hashPayload (m_payload m)))
      then Throw (JsError "Manifest content hash mismatch") else Ok m
  | _ => Throw (JsError "Manifest content hash mismatch")
  end.

Definition retention_input (p : RetentionPolicy) : RetentionPolicyInput :=
  mkRetentionInput (Some (compactAfterMs p)) (Some (maxOfflineDurationMs p)).

Definition bootstrap_payload (env : Env) (cfg : Config) (meshId : option string) (lineage : Z)
    : ManifestPayload :=
  mkManifestPayload 1 0 (cf_serverId cfg) (env_now env) 3
    (default (env_newId env "mesh") (opt_truthy meshId))
    (default 1%Z (cf_schema cfg ≫= sd_version)) (Some (cf_encrypted cfg))
    (mkServer (cf_serverManaged cfg) None (cf_serverId cfg)) (env_now env) 0 "" None None
    (Some (retention_input (cf_retention cfg))) (Some (Num lineage)).

Definition manifestFileName (generation : Z) : string :=
  "manifest-" +:+ num_toString 10 (Num generation) +:+ ".json".

Definition createBootstrapManifest (env : Env) (cfg : Config) (meshId : option string)
    (lineage : Z) : M (Session A) (ManifestPointer * Manifest) :=
  let root := cf_remotePath cfg in
  let payload := bootstrap_payload env cfg meshId lineage in
  let manifest := mkManifest payload (hashPayload payload) in
  let gen := m_generation payload in
  let pointer := mkPointer gen (manifestFileName gen) in
  remote (writeJson (manifestFile root gen) (DManifest manifest));;
  emit (TraceManifest "write" "bootstrap" (manifestFile root gen) (Some gen));;
  remote (writeJson (manifestPointer root) (DPointer pointer));;
  emit (TraceManifest "write" "bootstrap-pointer" (manifestPointer root) (Some gen));;
  mret (pointer, manifest).

Record LoadOptions := mkLoadOptions { lo_assertLocalMeshId : bool; lo_createIfMissing : bool }.
Definition default_options : LoadOptions := mkLoadOptions true true.

(** The stored manifest with the fields added later filled in. *)
Definition resolve_manifest (m : Manifest) (r : RetentionPolicy) : Manifest :=
  let p := m_payload m in
  mkManifest
    (mkManifestPayload (m_generation p) (m_parentGeneration p) (m_writtenBy p) (m_writtenAt p)
       (m_version p) (m_meshId p) (m_schema p) (m_encrypted p) (m_server p) (m_createdAt p)
       (m_epoch p) (m_watermarkHlc p) (m_snapshotPath p) (m_deltaPath p)
       (Some (retention_input r))
       (Some (Num (resolveManifestLineage (lineage_value (m_lineage p))))))
    (contentHash m).

Definition str_meta (v : jsval) : option string :=
  match v with VStr s => Some s | _ => None end.

(** The pointer, the manifest document it leads to, and whether it was just created. *)
Definition obtain_manifest (env : Env) (cfg : Config) (reason : string) (opts : LoadOptions)
    : M (Session A) (ManifestPointer * Doc * bool) :=
  let root := cf_remotePath cfg in
  emit (TraceManifest "read" reason (manifestPointer root) None);;
  globalPointer ←
    (if negb (lo_createIfMissing opts)
     then d ← remote (readJson (manifestPointer root)); mret (if doc_truthy d then Some d else None)
     else remote (readJsonIfExists (manifestPointer root)));
  match globalPointer with
  | Some d =>
      let pointer := as_pointer d in
      let manifestPath := root +:+ "/" +:+ mp_file pointer in
      emit (TraceManifest "read" reason manifestPath (Some (mp_currentGeneration pointer)));;
      m ← remote (readJson manifestPath);
      mret (pointer, m, false)
  | None =>
      emit (TraceManifest "bootstrap-create" reason (manifestPointer root) None);;
      existing ← loc (gets (store_getMeta "meshId"));
      lineageMeta ← loc (gets (store_getMeta MESH_LINEAGE_META));
      let knownMeshId := str_meta existing in
      let nextLineage := match opt_truthy knownMeshId with
                         | Some _ => (resolveManifestLineage lineageMeta + 1)%Z
                         | None => 1%Z
                         end in
      '(pointer, manifest) ← createBootstrapManifest env cfg knownMeshId nextLineage;
      mret (pointer, DManifest manifest, true)
  end.

(** The checks on a resolved manifest, in order. *)
Definition check_manifest (cfg : Config) (m : Manifest) : M (Session A) () :=
  let p := m_payload m in
  if negb (m_version p =? 3)%Z
  then throw (JsError ("Unsupported manifest version " +:+ num_toString 10 (Num (m_version p))
                       +:+ " (expected 3)."))
  else
    match cf_schema cfg ≫= sd_version with
    | Some v =>
        if negb (m_schema p =? v)%Z then
          emit (SchemaMismatch v (m_schema p));;
          throw (JsError ("Schema version mismatch: local=" +:+ num_toString 10 (Num v) +:+
                          ", remote=" +:+ num_toString 10 (Num (m_schema p))))
        else mret ()
    | None => mret ()
    end;;
    (if sv_managed (m_server p) then lift (assertServerAuth p (cf_serverId cfg)) else mret ());;
    match m_encrypted p with
    | Some e =>
        if negb (Bool.eqb e (cf_encrypted cfg))
        then throw (MeshEncryptionMismatchErr e (cf_encrypted cfg)) else mret ()
    | None => mret ()
    end.

Definition loadOrCreateManifest (env : Env) (cfg : Config) (reason : string)
    (opts : LoadOptions) : M (Session A) (Manifest * bool) :=
  '(pointer, d, bootstrapped) ← obtain_manifest env cfg reason opts;
  let manifestPath := cf_remotePath cfg +:+ "/" +:+ mp_file pointer in
  stored ← lift (validateManifestHash d);
  retention ← lift (resolveRetentionPolicy (m_retention (m_payload stored)));
  let manifest := resolve_manifest stored retention in
  (if lo_assertLocalMeshId opts then
     known ← gets ss_manifest;
     catch (loc (assertExpectedMeshId known (m_meshId (m_payload manifest))))
           (λ err, e ← poisonRemote err (Some manifestPath); throw e)
   else mret ());;
  check_manifest cfg manifest;;
  mret (manifest, bootstrapped).

(** ** Device records *)
Record UpsertOptions := mkUpsert {
  up_displayName : option string; up_deviceType : option string;
  up_observedManifestGeneration : option Z; up_observedEpoch : option Z;
  up_observedWatermarkHlc : option string; up_bootstrap : bool;
  up_skipTouchIfUnchanged : bool }.
Definition no_upsert_options : UpsertOptions := mkUpsert None None None None None false false.

(** [a ?? b]. *)
Definition or_else {B} (a b : option B) : option B := match a with Some _ => a | None => b end.

Definition with_times (lastSeenAt observedAt : option string) (d : DeviceMetadata)
    : DeviceMetadata :=
  mkDevice (dm_deviceId d) (dm_registeredAt d) lastSeenAt (dm_userId d) (dm_name d)
    (dm_displayName d) (dm_deviceType d) (dm_retired d) (dm_observedManifestGeneration d)
    (dm_observedEpoch d) (dm_observedWatermarkHlc d) observedAt (dm_cutOffAt d)
    (dm_cutOffReason d).

Definition touched_observed (o : UpsertOptions) : bool :=
  bool_decide (is_Some (up_observedManifestGeneration o)) ||
  bool_decide (is_Some (up_observedEpoch o)) ||
  bool_decide (is_Some (up_observedWatermarkHlc o)).

Definition merged_device (now deviceId : string) (o : UpsertOptions)
    (existing : option DeviceMetadata) : DeviceMetadata :=
  let old {B} (f : DeviceMetadata → option B) : option B := existing ≫= f in
  mkDevice deviceId
    (or_else (old dm_registeredAt) (Some now))
    (if up_skipTouchIfUnchanged o then or_else (old dm_lastSeenAt) (Some now) else Some now)
    (old dm_userId) (old dm_name)
    (or_else (up_displayName o) (old dm_displayName))
    (or_else (up_deviceType o) (old dm_deviceType))
    (old dm_retired)
    (or_else (up_observedManifestGeneration o) (old dm_observedManifestGeneration))
    (or_else (up_observedEpoch o) (old dm_observedEpoch))
    (or_else (up_observedWatermarkHlc o) (old dm_observedWatermarkHlc))
    (if touched_observed o then
       if up_skipTouchIfUnchanged o then or_else (old dm_observedAt) (Some now) else Some now
     else old dm_observedAt)
    (old dm_cutOffAt) (old dm_cutOffReason).

Definition observed_changed (e n : DeviceMetadata) : bool :=
  negb (bool_decide (dm_observedManifestGeneration e = dm_observedManifestGeneration n ∧
                     dm_observedEpoch e = dm_observedEpoch n ∧
                     dm_observedWatermarkHlc e = dm_observedWatermarkHlc n ∧
                     dm_displayName e = dm_displayName n ∧ dm_deviceType e = dm_deviceType n ∧
                     dm_retired e = dm_retired n ∧ dm_cutOffAt e = dm_cutOffAt n ∧
                     dm_cutOffReason e = dm_cutOffReason n ∧ dm_userId e = dm_userId n ∧
                     dm_name e = dm_name n)).

(** What is written, [None] when the record is left as it is.  The code
    compares the two records as JSON texts, which for records it wrote itself
    is equality. *)
Definition device_update (now deviceId : string) (o : UpsertOptions)
    (existing : option DeviceMetadata) : option DeviceMetadata :=
  let next := merged_device now deviceId o existing in
  match existing with
  | Some e =>
      if up_skipTouchIfUnchanged o then
        if bool_decide (e = next) then None
        else if touched_observed o && negb (observed_changed e next) then None
        else
          let next1 := if touched_observed o
                       then with_times (dm_lastSeenAt e) (dm_observedAt e) next else next in
          Some (with_times (dm_lastSeenAt e)
                  (if negb (touched_observed o) then dm_observedAt e else dm_observedAt next1)
                  next1)
      else Some next
  | None => Some next
  end.

Definition upsertDeviceMetadata (now remotePath deviceId : string) (o : UpsertOptions) : M A () :=
  existing ← (if up_bootstrap o then mret None
              else d ← readJsonIfExists (deviceFile remotePath deviceId);
                   mret (as_device <$> d));
  match device_update now deviceId o existing with
  | None => mret ()
  | Some next => writeJson (deviceFile remotePath deviceId) (DDevice next)
  end.
End manifest.

(** ** Theory *)
Section manifest_theory.
Context `{Platform} {A : Type} `{HA : !StorageAdapter A}.
Implicit Types s : Session A.

(** Everything after the manifest document is at hand. *)
Definition load_tail (cfg : Config) (opts : LoadOptions)
    (r : ManifestPointer * Doc * bool) : M (Session A) (Manifest * bool) :=
  let '(pointer, d, bootstrapped) := r in
  let manifestPath := cf_remotePath cfg +:+ "/" +:+ mp_file pointer in
  stored ← lift (validateManifestHash d);
  retention ← lift (resolveRetentionPolicy (m_retention (m_payload stored)));
  let manifest := resolve_manifest stored retention in
  (if lo_assertLocalMeshId opts then
     known ← gets ss_manifest;
     catch (loc (assertExpectedMeshId known (m_meshId (m_payload manifest))))
           (λ err, e ← poisonRemote err (Some manifestPath); throw e)
   else mret ());;
  check_manifest cfg manifest;;
  mret (manifest, bootstrapped).

Lemma load_is_tail env cfg reason opts s :
  loadOrCreateManifest env cfg reason opts s =
    (obtain_manifest env cfg reason opts ≫= load_tail cfg opts) s.
Proof.
  unfold loadOrCreateManifest, mbind, M_bind.
  by destruct (obtain_manifest env cfg reason opts s) as [[[[? ?] ?]|?] ?].
Qed.

Lemma check_adapter cfg m s r s' :
  check_manifest cfg m s = (r, s') → ss_adapter s' = ss_adapter s ∧ ss_local s' = ss_local s.
Proof.
  unfold check_manifest, emit. munfold. repeat case_match; intros; simplify_eq/=; done.
Qed.
Lemma check_ok cfg m s s' : check_manifest cfg m s = (Ok (), s') →
  s' = s ∧ m_version (m_payload m) = 3%Z ∧
  (∀ v, cf_schema cfg ≫= sd_version = Some v → m_schema (m_payload m) = v) ∧
  (sv_managed (m_server (m_payload m)) = true → m_writtenBy (m_payload m) = cf_serverId cfg) ∧
  (∀ e, m_encrypted (m_payload m) = Some e → e = cf_encrypted cfg).
Proof.
  unfold check_manifest. destruct (Z.eqb_spec (m_version (m_payload m)) 3); simpl; [|done].
  intros (u & s1 & H1 & H2)%bind_ok_inv. apply bind_ok_inv in H2 as (u2 & s2 & H2 & H3).
  assert (s1 = s ∧ ∀ v, cf_schema cfg ≫= sd_version = Some v → m_schema (m_payload m) = v)
    as [-> Hsch].
  { destruct (cf_schema cfg ≫= sd_version) as [v|]; [|by injection H1 as _ <-].
    destruct (Z.eqb_spec (m_schema (m_payload m)) v); simpl in H1; [|done].
    injection H1 as _ <-. naive_solver. }
  assert (s2 = s ∧ (sv_managed (m_server (m_payload m)) = true →
            m_writtenBy (m_payload m) = cf_serverId cfg)) as [-> Hauth].
  { destruct (sv_managed (m_server (m_payload m))); [|by injection H2 as _ <-].
    unfold lift, assertServerAuth in H2.
    destruct (String.eqb_spec (m_writtenBy (m_payload m)) (cf_serverId cfg)); simpl in H2;
      [by injection H2 as _ <-|done]. }
  destruct (m_encrypted (m_payload m)) as [enc|]; simpl in H3.
  - destruct (Bool.eqb_spec enc (cf_encrypted cfg)) as [Henc|]; simpl in H3; [|done].
    injection H3 as <-. naive_solver.
  - injection H3 as <-. naive_solver.
Qed.

Lemma tail_adapter cfg opts x s r s' :
  load_tail cfg opts x s = (r, s') →
  filesOf (ss_adapter s') = filesOf (ss_adapter s) ∧
  (is_ok r = true → ss_adapter s' = ss_adapter s).
Proof.
  destruct x as [[pointer d] b]. unfold load_tail.
  unfold mbind at 1, M_bind at 1, lift at 1.
  destruct (validateManifestHash d) as [m|]; [|by intros [= <- <-]].
  unfold mbind at 1, M_bind at 1, lift at 1.
  destruct (resolveRetentionPolicy _) as [p|]; [|by intros [= <- <-]].
  unfold mbind at 1, M_bind at 1. destruct (lo_assertLocalMeshId opts).
  - unfold mbind at 1, M_bind at 1, gets, catch, loc.
    destruct (assertExpectedMeshId _ _ _) as [[u|e] l].
    + unfold mbind, M_bind. destruct (check_manifest _ _ _) as [[?|?] s1] eqn:E;
        apply check_adapter in E as [E _]; intros [= <- <-]; by rewrite E.
    + unfold poisonRemote, emit. munfold.
      destruct (ss_poison s); intros [= <- <-]; [done|]. split; [apply reset_files|done].
  - simpl. unfold mbind, M_bind. destruct (check_manifest _ _ _) as [[?|?] s1] eqn:E;
      apply check_adapter in E as [E _]; intros [= <- <-]; by rewrite E.
Qed.

(** A loaded manifest has passed every check. *)
Lemma tail_ok cfg opts pointer d b s m b' s' :
  load_tail cfg opts (pointer, d, b) s = (Ok (m, b'), s') →
  ∃ stored r, b' = b ∧ d = DManifest stored ∧ contentHash stored = hashPayload (m_payload stored) ∧
    resolveRetentionPolicy (m_retention (m_payload stored)) = Ok r ∧ m = resolve_manifest stored r ∧
    (lo_assertLocalMeshId opts = true → pinned (m_meshId (m_payload m)) (ss_local s')) ∧
    m_version (m_payload m) = 3%Z ∧
    (∀ v, cf_schema cfg ≫= sd_version = Some v → m_schema (m_payload m) = v) ∧
    (sv_managed (m_server (m_payload m)) = true → m_writtenBy (m_payload m) = cf_serverId cfg) ∧
    (∀ e, m_encrypted (m_payload m) = Some e → e = cf_encrypted cfg).
Proof.
  unfold load_tail. intros (stored & s1 & H1 & H2)%bind_ok_inv.
  apply bind_ok_inv in H2 as (r & s2 & H2 & H3). apply bind_ok_inv in H3 as (u & s3 & H3 & H4).
  apply bind_ok_inv in H4 as (u' & s4 & H4 & H5).
  unfold lift in H1, H2. injection H1 as Hv <-. injection H2 as Hr <-.
  injection H5 as <- <- <-. exists stored, r. split; [done|].
  destruct u'. apply check_ok in H4 as (-> & ? & ? & ? & ?).
  destruct d as [|m'| | | |]; try done. simpl in Hv.
  destruct (String.eqb_spec (contentHash m') (hashPayload (m_payload m'))); simpl in Hv; [|done].
  injection Hv as ->. repeat split; try done.
  - destruct (lo_assertLocalMeshId opts); [|done]. simpl in H3.
    unfold mbind at 1, M_bind at 1, gets, catch, loc in H3.
    destruct (assertExpectedMeshId _ _ _) as [[[]|err] l] eqn:E.
    + injection H3 as _ <-. apply assert_spec in E as [(_ & -> & _)|[? _]]; [|done].
      apply getMeta_setMeta.
    + unfold poisonRemote, emit in H3. munfold. by destruct (ss_poison s).
  - destruct (lo_assertLocalMeshId opts); [|done]. simpl in H3.
    unfold mbind at 1, M_bind at 1, gets, catch, loc in H3.
    destruct (assertExpectedMeshId _ _ _) as [[[]|err] l] eqn:E.
    + apply assert_spec in E as [(_ & _ & ? & _)|[? _]]; done.
    + unfold poisonRemote, emit in H3. munfold. by destruct (ss_poison s).
Qed.
End manifest_theory.

(** ** An adapter with a transient outage, for examples: the next [n] reads fail. *)
Section flaky.
Context `{Platform}.
Definition flaky_lift {B} (m : M MemoryAdapter B) : M (MemoryAdapter * nat) B := λ a,
  let '(r, a') := m a.1 in (r, (a', a.2)).
Definition flaky_read (p : string) : M (MemoryAdapter * nat) Bytes := λ a,
  match a.2 with
  | O => flaky_lift (mem_readFile p) a
  | S n => (Throw (JsError "network down"), (a.1, n))
  end.
#[global] Program Instance flaky_storage : StorageAdapter (MemoryAdapter * nat) := {
  adapter_ops := {| isAuthenticated a := mem_isAuthenticated a.1; authenticate := flaky_lift mem_authenticate;
  ensureFolder p := flaky_lift (mem_ensureFolder p); listFiles p := flaky_lift (mem_listFiles p);
  readFile := flaky_read; writeFile p d := flaky_lift (mem_writeFile p d);
  deleteFile p := flaky_lift (mem_deleteFile p);
  resetFolderCache a := (mem_resetFolderCache a.1, a.2) |}; filesOf a := mem_filesOf a.1 }.
Next Obligation. cbn_ops. intros [a n] r a' E. by injection E as _ <-. Qed.
Next Obligation. cbn_ops. intros p [a n] r a' E. injection E as _ <-. simpl. by case_bool_decide. Qed.
Next Obligation.
  cbn_ops. intros p [a [|n]] r a' E; [|by injection E as <- <-]. unfold flaky_read, flaky_lift in E. simpl in E.
  destruct (mem_readFile p a) as [r0 a0] eqn:E0. injection E as <- <-.
  exact (@read_files _ _ memory_storage p a r0 a0 E0).
Qed.
Next Obligation.
  cbn_ops. intros p [a n] r a' E. unfold flaky_lift in E. simpl in E.
  destruct (mem_listFiles p a) as [r0 a0] eqn:E0. simpl in E0. injection E as <- <-.
  injection E0 as <- <-. exact (@list_files _ _ memory_storage p a _ a eq_refl).
Qed.
Next Obligation. cbn_ops. intros p d [a n] a' E. injection E as <-. apply (mem_write_files p d a). Qed.
Next Obligation. by cbn_ops. Qed.
Next Obligation. cbn_ops. intros p [a n] a' E. injection E as <-. apply (mem_delete_files p a). Qed.
Next Obligation. by cbn_ops. Qed.
Next Obligation. by cbn_ops. Qed.
Definition flaky_up (a : MemoryAdapter * nat) : Prop := mem_up a.1 ∧ a.2 = 0.
#[global] Program Instance flaky_reliable : ReliableAdapter flaky_up.
Next Obligation.
  intros p [a n] [Ha Hn]. eexists. split; [done|]. split; [|done]. simpl. unfold mem_up.
  by case_bool_decide.
Qed.
Next Obligation.
  intros p d [a n] [Ha Hn]. eexists. split; [done|]. split; [|done]. by apply map_set_nodup.
Qed.
Next Obligation.
  intros p [a n] [Ha Hn]. eexists. split; [done|]. split; [|done]. by apply map_delete_nodup.
Qed.
Next Obligation.
  intros p [a n] [Ha Hn]. simpl in *. subst n. unfold flaky_read, flaky_lift. simpl.
  destruct (@up_read _ _ memory_storage _ memory_reliable p a Ha) as (r & a' & E & Ha' & Hr). simpl in E. rewrite E.
  eexists _, _. done.
Qed.
Next Obligation.
  intros p [a n] [Ha Hn] Hp. destruct (@up_list _ _ memory_storage _ memory_reliable p a Ha Hp)
    as (l & a' & E & Ha' & Hl). injection E as <- <-. eexists _, _. split; [done|]. done.
Qed.
End flaky.

Section bootstrap.
Context `{Platform} {A : Type} `{HA : !StorageAdapter A} (up : A → Prop)
  `{!ReliableAdapter up}.
Implicit Types s : Session A.

Lemma up_writeJson p d s : up (ss_adapter s) →
  ∃ a', remote (writeJson p d) s = (Ok (), set_adapter a' s) ∧ up a' ∧
    filesOf a' = <[p := encodeText (stringify d)]> (filesOf (ss_adapter s)).
Proof.
  intros Hup. unfold remote, writeJson.
  destruct (up_write p (encodeText (stringify d)) (ss_adapter s) Hup) as (a' & E & Ha'). rewrite E.
  exists a'. split; [done|]. split; [done|]. by eapply write_ok.
Qed.

Lemma pointer_ne_file root gen : manifestPointer root ≠ manifestFile root gen.
Proof. unfold manifestPointer, manifestFile. intros E%str_app_inj_l. done. Qed.

(** Bootstrapping publishes the manifest, then the pointer to it. *)
Lemma bootstrap_writes env cfg meshId lineage s :
  up (ss_adapter s) →
  let payload := bootstrap_payload env cfg meshId lineage in
  let m := mkManifest payload (hashPayload payload) in
  ∃ s', createBootstrapManifest env cfg meshId lineage s =
          (Ok (mkPointer 1 "manifest-1.json", m), s') ∧
    up (ss_adapter s') ∧ ss_local s' = ss_local s ∧ ss_manifest s' = ss_manifest s ∧
    filesOf (ss_adapter s') !! manifestPointer (cf_remotePath cfg) =
      Some (encodeText (stringify (DPointer (mkPointer 1 "manifest-1.json")))) ∧
    filesOf (ss_adapter s') !! manifestFile (cf_remotePath cfg) 1 =
      Some (encodeText (stringify (DManifest m))).
Proof.
  intros Hup payload m. unfold createBootstrapManifest.
  destruct (up_writeJson (manifestFile (cf_remotePath cfg) 1) (DManifest m) s Hup)
    as (a1 & E1 & Hup1 & Hf1).
  rewrite (bind_ok _ _ _ _ _ E1), emit_bind.
  edestruct (up_writeJson (manifestPointer (cf_remotePath cfg))
    (DPointer (mkPointer 1 "manifest-1.json"))) as (a2 & E2 & Hup2 & Hf2);
    [|rewrite (bind_ok _ _ _ _ _ E2)]; [exact Hup1|].
  eexists. split; [reflexivity|]. simpl in *. rewrite Hf2, Hf1. repeat split; try done.
  - apply lookup_insert_eq.
  - rewrite lookup_insert_ne by apply pointer_ne_file. apply lookup_insert_eq.
Qed.

Lemma resolve_positive r : retention_ok r → resolveRetentionPolicy (Some (retention_input r)) = Ok r.
Proof.
  destruct r as [[|c] [|m]]; intros [Hc Hm]; try done.
  unfold num_gtb, num_ltb in *. simpl in *. unfold resolveRetentionPolicy. simpl.
  apply Z.ltb_lt in Hc, Hm.
  rewrite (duration_accepts _ c) by done. simpl. by rewrite (duration_accepts _ m).
Qed.

(** What [load_tail] computes on a valid document. *)
Lemma tail_accepts cfg opts pointer m r b s :
  contentHash m = hashPayload (m_payload m) →
  resolveRetentionPolicy (m_retention (m_payload m)) = Ok r →
  truthy (m_meshId (m_payload m)) = true → mesh_free (m_meshId (m_payload m)) (ss_local s) →
  (∀ m', opt_truthy (manifest_meshId (ss_manifest s)) = Some m' → m' = m_meshId (m_payload m)) →
  m_version (m_payload m) = 3%Z →
  (∀ v, cf_schema cfg ≫= sd_version = Some v → m_schema (m_payload m) = v) →
  m_writtenBy (m_payload m) = cf_serverId cfg →
  m_encrypted (m_payload m) = Some (cf_encrypted cfg) →
  ∃ s', load_tail cfg opts (pointer, DManifest m, b) s = (Ok (resolve_manifest m r, b), s') ∧
    ss_adapter s' = ss_adapter s.
Proof.
  intros Hh Hr Ht Hf Hk Hv Hsch Hw He. unfold load_tail. cbn [validateManifestHash].
  rewrite Hh, String.eqb_refl. unfold mbind at 1, M_bind at 1, lift at 1. simpl negb. cbv iota.
  unfold mbind at 1, M_bind at 1, lift at 1. rewrite Hr.
  assert (∀ s1, check_manifest cfg (resolve_manifest m r) s1 = (Ok (), s1)) as Hc.
  { intros s1. unfold check_manifest, resolve_manifest, assertServerAuth. simpl. rewrite Hv. simpl.
    rewrite Hw, He, String.eqb_refl, Bool.eqb_reflx.
    destruct (cf_schema cfg ≫= sd_version) as [v|].
    - rewrite (Hsch v eq_refl), Z.eqb_refl. by destruct (sv_managed _).
    - by destruct (sv_managed _). }
  unfold mbind at 1, M_bind at 1. destruct (lo_assertLocalMeshId opts).
  - unfold mbind at 1, M_bind at 1, gets, catch, loc.
    rewrite (assert_accepts (ss_manifest s)) by done. rewrite (bind_ok _ _ _ _ _ (Hc _)).
    eexists. by split.
  - simpl. rewrite (bind_ok _ _ _ _ _ (Hc _)). eexists. by split.
Qed.
End bootstrap.

(** ** Properties *)

Section claims.
Context `{Platform} {A : Type} `{HA : !StorageAdapter A}.

Lemma readJsonIfExists_throw p (a a' : A) e :
  readFile p a = (Throw e, a') → readJsonIfExists p a = (Ok None, a').
Proof. intros E. unfold readJsonIfExists, readJson, catch. munfold. by rewrite E. Qed.

Lemma up_readJson (up : A → Prop) `{!ReliableAdapter up} p d a :
  up a → filesOf a !! p = Some (encodeText (stringify d)) → json_doc d = true →
  ∃ a', readJson p a = (Ok d, a') ∧ up a' ∧ filesOf a' = filesOf a.
Proof.
  intros Hup Hp Hd. destruct (up_read p a Hup) as (r & a' & E & Hup' & Hr).
  pose proof (proj1 (read_files p a r a' E)) as Hf. rewrite (Hr _ Hp) in E.
  exists a'. unfold readJson. rewrite (bind_ok _ _ _ _ _ E). unfold lift.
  by rewrite decode_encode, parse_stringify.
Qed.
Lemma up_readJsonIfExists (up : A → Prop) `{!ReliableAdapter up} p d a :
  up a → filesOf a !! p = Some (encodeText (stringify d)) → json_doc d = true →
  doc_truthy d = true →
  ∃ a', readJsonIfExists p a = (Ok (Some d), a') ∧ up a' ∧ filesOf a' = filesOf a.
Proof.
  intros Hup Hp Hd Ht. destruct (up_readJson up p d a Hup Hp Hd) as (a' & E & ? & ?).
  exists a'. unfold readJsonIfExists, catch. rewrite (bind_ok _ _ _ _ _ E), Ht. done.
Qed.

Lemma bootstrap_json env cfg mesh lineage h :
  retention_ok (cf_retention cfg) →
  json_doc (DManifest (mkManifest (bootstrap_payload env cfg mesh lineage) h)) = true.
Proof.
  unfold retention_ok, num_gtb, num_ltb. simpl. destruct (cf_retention cfg) as [[|c] [|m]]; simpl; by intros [].
Qed.

(** Reading back the first generation. *)
Lemma obtain_existing (up : A → Prop) `{!ReliableAdapter up} env cfg reason m (s : Session A) :
  up (ss_adapter s) →
  filesOf (ss_adapter s) !! manifestPointer (cf_remotePath cfg) =
    Some (encodeText (stringify (DPointer (mkPointer 1 "manifest-1.json")))) →
  filesOf (ss_adapter s) !! manifestFile (cf_remotePath cfg) 1 =
    Some (encodeText (stringify (DManifest m))) →
  json_doc (DManifest m) = true →
  ∃ s', obtain_manifest env cfg reason default_options s =
          (Ok (mkPointer 1 "manifest-1.json", DManifest m, false), s') ∧
    ss_local s' = ss_local s ∧ ss_manifest s' = ss_manifest s.
Proof.
  intros Hup Hptr Hfile Hjson.
  destruct (up_readJsonIfExists up _ _ _ Hup Hptr eq_refl eq_refl) as (a1 & E1 & Hup1 & Hf1).
  rewrite <- Hf1 in Hfile. destruct (up_readJson up _ _ _ Hup1 Hfile Hjson) as (a2 & E2 & _ & _).
  unfold obtain_manifest. rewrite emit_bind. cbn [lo_createIfMissing default_options negb].
  rewrite remote_bind. cbn [ss_adapter add_event]. rewrite E1, emit_bind, remote_bind.
  cbn [ss_adapter add_event set_adapter].
  change (cf_remotePath cfg +:+ "/" +:+ mp_file (as_pointer (DPointer (mkPointer 1 "manifest-1.json"))))
    with (manifestFile (cf_remotePath cfg) 1).
  rewrite E2. eexists. by split.
Qed.

Lemma obtain_bootstrap env cfg reason opts (s : Session A) a e (up : A → Prop)
    `{!ReliableAdapter up} :
  lo_createIfMissing opts = true →
  readFile (manifestPointer (cf_remotePath cfg)) (ss_adapter s) = (Throw e, a) → up a →
  ∃ s' mesh lineage,
    let payload := bootstrap_payload env cfg mesh lineage in
    let m := mkManifest payload (hashPayload payload) in
    obtain_manifest env cfg reason opts s =
      (Ok (mkPointer 1 "manifest-1.json", DManifest m, true), s') ∧
    up (ss_adapter s') ∧ ss_local s' = ss_local s ∧ ss_manifest s' = ss_manifest s ∧
    mesh = str_meta (store_getMeta "meshId" (ss_local s)) ∧
    lineage = match opt_truthy mesh with
              | Some _ => (resolveManifestLineage
                             (store_getMeta MESH_LINEAGE_META (ss_local s)) + 1)%Z
              | None => 1%Z
              end ∧
    filesOf (ss_adapter s') !! manifestPointer (cf_remotePath cfg) =
      Some (encodeText (stringify (DPointer (mkPointer 1 "manifest-1.json")))) ∧
    filesOf (ss_adapter s') !! manifestFile (cf_remotePath cfg) 1 =
      Some (encodeText (stringify (DManifest m))).
Proof.
  intros Hc Hread Hup. unfold obtain_manifest. rewrite emit_bind, Hc. simpl negb. cbv iota.
  rewrite remote_bind. simpl ss_adapter. rewrite (readJsonIfExists_throw _ _ _ _ Hread).
  rewrite emit_bind, !loc_gets_bind.
  edestruct (bootstrap_writes up env cfg) as (s' & E & Hs'); [|rewrite (bind_ok _ _ _ _ _ E)];
    [exact Hup|].
  destruct Hs' as (? & ? & ? & ? & ?). eexists s', _, _. done.
Qed.
End claims.

(** A manifest that loads has passed every check: its stored form carries the hash of its content,
    its version is 3, its schema version is the application's when one is
    configured, a managed mesh was written by the configured server, the encryption
    mode is the engine's, its lineage is at least 1, its retention durations are
    positive, and (unless the check is switched off) the local store is pinned to its mesh id. *)
Theorem loaded_manifest_is_valid `{Platform} {A : Type} `{!StorageAdapter A} (env : Env)
    (cfg : Config) (reason : string) (opts : LoadOptions) (s s' : Session A) (m : Manifest)
    (b : bool) :
  loadOrCreateManifest env cfg reason opts s = (Ok (m, b), s') →
  ∃ stored r, contentHash stored = hashPayload (m_payload stored) ∧
    m = resolve_manifest stored r ∧ retention_ok r ∧
    (1 ≤ resolveManifestLineage (lineage_value (m_lineage (m_payload m))))%Z ∧
    m_version (m_payload m) = 3%Z ∧
    (∀ v, cf_schema cfg ≫= sd_version = Some v → m_schema (m_payload m) = v) ∧
    (sv_managed (m_server (m_payload m)) = true → m_writtenBy (m_payload m) = cf_serverId cfg) ∧
    (∀ e, m_encrypted (m_payload m) = Some e → e = cf_encrypted cfg) ∧
    (lo_assertLocalMeshId opts = true → pinned (m_meshId (m_payload m)) (ss_local s')).
Proof.
  rewrite load_is_tail. intros ([[p d] b0] & s1 & _ & Ht)%bind_ok_inv.
  apply tail_ok in Ht as (stored & r & _ & _ & Hh & Hr & -> & Hp & Hv & Hsch & Hw & He).
  exists stored, r. pose proof (resolve_ok _ _ Hr) as [? ?]. repeat split; try done.
  - unfold resolveManifestLineage. repeat case_match; lia.
  - by apply Hp.
  - by apply Hp.
Qed.

(** What a bootstrap publishes is what other devices load: when the mailbox has no manifest, the
    first device creates one, and a device with the same configuration and an
    unpinned store then loads exactly that manifest, without creating another. *)
Theorem bootstrap_then_load `{Platform} {A : Type} `{!StorageAdapter A} (up : A → Prop)
    `{!ReliableAdapter up} (env : Env) (cfg : Config) (reason : string) (s1 s2 : Session A)
    (a : A) (e : error) (m : Manifest) (b : bool) (s1' : Session A) :
  readFile (manifestPointer (cf_remotePath cfg)) (ss_adapter s1) = (Throw e, a) → up a →
  retention_ok (cf_retention cfg) →
  loadOrCreateManifest env cfg reason default_options s1 = (Ok (m, b), s1') →
  ss_adapter s2 = ss_adapter s1' → ss_manifest s2 = None →
  mesh_free (m_meshId (m_payload m)) (ss_local s2) →
  b = true ∧ ∃ s2', loadOrCreateManifest env cfg reason default_options s2 = (Ok (m, false), s2').
Proof.
  intros Hread Hup Hret Hload Hadapter Hman Hfree. rewrite load_is_tail in Hload.
  destruct (obtain_bootstrap env cfg reason default_options s1 a e up eq_refl Hread Hup)
    as (s & mesh & lineage & Hob & Hups & _ & _ & _ & Hlin & Hptr & Hfile).
  rewrite (bind_ok _ _ _ _ _ Hob) in Hload. pose proof (proj2 (tail_adapter _ _ _ _ _ _ Hload) eq_refl) as Had.
  apply tail_ok in Hload as (stored & r & -> & [= <-] & Hh & Hr & -> & Hp & Hv & Hsch & Hw & He).
  destruct (Hp eq_refl) as [_ Htruthy].
  split; [done|]. rewrite load_is_tail.
  set (payload := bootstrap_payload env cfg mesh lineage) in *.
  set (m := mkManifest payload (hashPayload payload)) in *.
  destruct (obtain_existing up env cfg reason m s2) as (s3 & E3 & Hl3 & Hm3);
    [by rewrite Hadapter, Had..|by apply bootstrap_json|].
  destruct (tail_accepts cfg default_options (mkPointer 1 "manifest-1.json") m r false s3)
    as (s2' & E4 & _); try done; [by rewrite Hl3|by rewrite Hm3, Hman|].
  exists s2'. by rewrite (bind_ok _ _ _ _ _ E3).
Qed.


Definition test_env : Env := mkEnv 1711785600000 "2024-03-30" (λ p, p +:+ "_0190").
Definition test_config (device : string) : @Config test_platform :=
  @mkConfig test_platform "/mesh" "srv" false device false None None
    (mkRetention (Num DEFAULT_COMPACT_AFTER_MS) (Num DEFAULT_MAX_OFFLINE_DURATION_MS)) false.
Definition new_session {A} (a : A) (l : MemoryLocalStore) (device : string) : Session A :=
  mkSession a l ∅ ∅ (hlcInit 1711785600000 device) None false None true [].
Definition test_session : Session (@MemoryAdapter test_platform) :=
  new_session (@emptyAdapter test_platform "now") emptyStore "dev1".
Lemma new_session_adapter {A} (a : A) l d : ss_adapter (new_session a l d) = a.
Proof. done. Qed.
(** The manifest and the session after the first device has connected. *)
Definition test_load : result (Manifest * bool) * Session (@MemoryAdapter test_platform) :=
  loadOrCreateManifest test_env (test_config "dev1") "connect" default_options test_session.

Definition test_loaded : Manifest :=
  match test_load.1 with Ok (m, _) => m | Throw _ => test_manifest "" 0 None end.

(** A run that ends by creating a manifest, from the flag it returns. *)
Lemma load_created {S} (run : result (Manifest * bool) * S) (m0 : Manifest) :
  match run.1 with Ok (_, created) => created | Throw _ => false end = true →
  run = (Ok (match run.1 with Ok (m, _) => m | Throw _ => m0 end, true), run.2).
Proof. destruct run as [[[m []]|] s]; by intros. Qed.

#[local] Strategy expand [test_load].
Lemma test_load_ok :
  loadOrCreateManifest test_env (test_config "dev1") "connect" default_options test_session =
    (Ok (test_loaded, true), test_load.2).
Proof. apply (load_created test_load (test_manifest "" 0 None)). by vm_compute. Qed.
#[local] Strategy 1000 [test_load test_loaded].

Lemma loaded_manifest_is_valid_witness : m_version (m_payload test_loaded) = 3%Z.
Proof.
  destruct (loaded_manifest_is_valid test_env (test_config "dev1") "connect" default_options
              test_session test_load.2 test_loaded true test_load_ok)
    as (? & ? & _ & _ & _ & _ & Hv & _). exact Hv.
Defined.

Lemma bootstrap_then_load_witness :
  ∃ s2', loadOrCreateManifest test_env (test_config "dev1") "connect" default_options
           (new_session (ss_adapter test_load.2) emptyStore "dev2") =
    (Ok (test_loaded, false), s2').
Proof.
  refine (proj2 (bootstrap_then_load mem_up test_env (test_config "dev1") "connect" test_session
    (new_session (ss_adapter test_load.2) emptyStore "dev2") (ss_adapter test_session)
    (JsError "Object not found: /mesh/manifest.json") test_loaded true test_load.2
    _ _ _ test_load_ok _ _ _)).
  - reflexivity.
  - constructor.
  - split; reflexivity.
  - apply new_session_adapter.
  - reflexivity.
  - exact I.
Defined.

(** A read failure is taken for an empty mailbox.  Whatever the pointer file holds, if reading it
    fails for any reason (a timeout, a server error), the load creates a fresh
    first-generation manifest and replaces the pointer of the existing mesh with it:
    the published generations and the snapshot are no longer referenced. *)
Theorem unreadable_pointer_is_overwritten `{Platform} {A : Type} `{!StorageAdapter A}
    (up : A → Prop) `{!ReliableAdapter up} (env : Env) (cfg : Config) (reason : string)
    (s s' : Session A) (a : A) (e : error) (r : result (Manifest * bool)) (old : Bytes) :
  filesOf (ss_adapter s) !! manifestPointer (cf_remotePath cfg) = Some old →
  readFile (manifestPointer (cf_remotePath cfg)) (ss_adapter s) = (Throw e, a) → up a →
  loadOrCreateManifest env cfg reason default_options s = (r, s') →
  filesOf (ss_adapter s') !! manifestPointer (cf_remotePath cfg) =
    Some (encodeText (stringify (DPointer (mkPointer 1 "manifest-1.json")))).
Proof.
  intros _ Hread Hup. rewrite load_is_tail.
  destruct (obtain_bootstrap env cfg reason default_options s a e up eq_refl Hread Hup)
    as (s1 & mesh & lineage & Hob & _ & _ & _ & _ & _ & Hptr & _).
  rewrite (bind_ok _ _ _ _ _ Hob). intros Ht. by rewrite (proj1 (tail_adapter _ _ _ _ _ _ Ht)).
Qed.

(** A mesh at generation 7 with a snapshot, behind a connection that drops one read. *)
Definition pointer_bytes (gen : Z) (file : string) : @Bytes test_platform :=
  (None, DPointer (mkPointer gen file)).
Definition live_files : @MemoryAdapter test_platform :=
  (mem_writeFile "/mesh/manifest.json" (pointer_bytes 7 "manifest-7.json")
     (@emptyAdapter test_platform "now")).2.

Lemma unreadable_pointer_is_overwritten_witness :
  let s := new_session (live_files, 1) emptyStore "dev1" in
  let s' := (loadOrCreateManifest test_env (test_config "dev1") "connect" default_options s).2 in
  filesOf (ss_adapter s) !! "/mesh/manifest.json" =
    Some (pointer_bytes 7 "manifest-7.json") ∧
  filesOf (ss_adapter s') !! "/mesh/manifest.json" =
    Some (pointer_bytes 1 "manifest-1.json").
Proof.
  intros s s'. split; [by vm_compute|].
  refine (unreadable_pointer_is_overwritten flaky_up test_env (test_config "dev1") "connect" s s'
    (live_files, 0) (JsError "network down")
    (loadOrCreateManifest test_env (test_config "dev1") "connect" default_options s).1
    (pointer_bytes 7 "manifest-7.json") _ eq_refl _ _).
  - by vm_compute.
  - split; [apply NoDup_singleton|done].
  - apply surjective_pairing.
Defined.

(** Updating a device record never loses what other writers put there, and an acknowledgement
    is idempotent.  The update keeps registration time, user, name, retirement
    and cut-off of the existing record, keeps or replaces the rest field by
    field, touches only that device's file, and with [skipTouchIfUnchanged]
    preserves the last-seen time and writes nothing the second time. *)
Theorem device_record_preserved `{Platform} {A : Type} `{!StorageAdapter A}
    (now now' remotePath deviceId seen : string) (o : UpsertOptions) (e n : DeviceMetadata)
    (a a' : A) (r : result ()) :
  dm_lastSeenAt e = Some seen → is_Some (dm_registeredAt e) →
  device_update now deviceId o (Some e) = Some n →
  upsertDeviceMetadata now remotePath deviceId o a = (r, a') →
  dm_deviceId n = deviceId ∧ dm_registeredAt n = dm_registeredAt e ∧
  dm_userId n = dm_userId e ∧ dm_name n = dm_name e ∧ dm_retired n = dm_retired e ∧
  dm_cutOffAt n = dm_cutOffAt e ∧ dm_cutOffReason n = dm_cutOffReason e ∧
  dm_observedEpoch n = or_else (up_observedEpoch o) (dm_observedEpoch e) ∧
  (up_skipTouchIfUnchanged o = true →
     dm_lastSeenAt n = dm_lastSeenAt e ∧ device_update now' deviceId o (Some n) = None) ∧
  (∀ p, p ≠ deviceFile remotePath deviceId → filesOf a' !! p = filesOf a !! p).
Proof.
  intros Hseen [reg Hreg] Hup Hrun.
  assert (∀ p, p ≠ deviceFile remotePath deviceId → filesOf a' !! p = filesOf a !! p) as Hframe.
  { intros p Hp. revert Hrun. unfold upsertDeviceMetadata.
    assert (∀ ex a1 r1 a2, match device_update now deviceId o ex with
        | None => mret () | Some next => writeJson (deviceFile remotePath deviceId) (DDevice next)
        end a1 = (r1, a2) → filesOf a2 !! p = filesOf a1 !! p) as Hw.
    { intros ex a1 r1 a2. destruct (device_update now deviceId o ex); [|by intros [= _ <-]].
      unfold writeJson. destruct r1 as [[]|err].
      - intros ->%write_ok. by rewrite lookup_insert_ne.
      - intros [-> | ->]%write_throw; [done|]. by rewrite lookup_insert_ne. }
    unfold mbind at 1, M_bind at 1. destruct (up_bootstrap o); [exact (Hw None a r a')|].
    unfold mbind at 1, M_bind at 1, readJsonIfExists, catch, readJson, mbind, M_bind, lift.
    destruct (readFile (deviceFile remotePath deviceId) a) as [r0 a1] eqn:E.
    apply read_files in E as [E _]. rewrite <- E. destruct r0 as [d|]; [|exact (Hw None a1 r a')].
    destruct (parse (decodeText d)) as [doc|]; [|exact (Hw None a1 r a')].
    exact (Hw (as_device <$> (if doc_truthy doc then Some doc else None)) a1 r a'). }
  unfold device_update in Hup |- *.
  destruct (up_skipTouchIfUnchanged o) eqn:Hskip.
  - case_bool_decide as Heq; [done|]. destruct (touched_observed o) eqn:Ht; simpl in Hup.
    + destruct (observed_changed e _) eqn:Hc; [|done]. injection Hup as <-.
      unfold merged_device. rewrite Hskip, Ht. simpl. rewrite Hreg, Hseen. simpl.
      repeat split; try done. case_bool_decide; [done|].
      unfold observed_changed. rewrite bool_decide_true; [done|]. simpl. unfold or_else.
      destruct o as [? ? [] [] [] ? ?]; repeat split; simpl; by repeat case_match.
    + injection Hup as <-. unfold merged_device. rewrite Hskip, Ht. simpl.
      rewrite Hreg, Hseen. simpl. repeat split; try done. rewrite bool_decide_true; [done|].
      unfold with_times. simpl. f_equal; unfold or_else; by repeat case_match.
  - injection Hup as <-. simpl. rewrite Hreg. by repeat split.
Qed.

Definition old_device : DeviceMetadata :=
  mkDevice "dev1" (Some "t0") (Some "t1") (Some "u") None None None (Some true) None None None
    None (Some "t2") None.
Definition ack_options : UpsertOptions := mkUpsert None None (Some 3%Z) (Some 2%Z) None false true.
Definition acked_device : DeviceMetadata :=
  default old_device (device_update "t9" "dev1" ack_options (Some old_device)).

Lemma device_record_preserved_witness :
  dm_retired acked_device = Some true ∧ dm_observedEpoch acked_device = Some 2%Z ∧
  device_update "t10" "dev1" ack_options (Some acked_device) = None.
Proof.
  pose (a := @emptyAdapter test_platform "now").
  pose (run := @upsertDeviceMetadata test_platform _ _ "t9" "/mesh" "dev1" ack_options a).
  destruct (@device_record_preserved test_platform _ memory_storage "t9" "t10" "/mesh" "dev1" "t1"
    ack_options old_device acked_device a run.2 run.1 eq_refl (ex_intro _ "t0" eq_refl)
    eq_refl (surjective_pairing _)) as (_ & _ & _ & _ & Hr & _ & _ & He & Hs & _).
  split; [exact Hr|]. split; [exact He|]. exact (proj2 (Hs eq_refl)).
Defined.
