(* ===== verification/Flush.v ===== *)
(** * Flush: publishing the outbox
    ([packages/core/src/core/flush.ts])

    The receipts are committed locally first, then one immutable file per change
    is written, then the head hint is advanced, then the device record is
    refreshed; replicas get the same files afterwards and their failures are
    reported without failing the flush. *)

From S2P Require Import Prelude JsString Hlc Values JsMap LocalStore Wire Crdt.
From S2P Require Import Observation Adapter Codec Session Manifest.
From Stdlib Require String.

Open Scope stdpp_scope.

Section flush.
Context `{Platform} {A : Type} `{!StorageOps A}.

(** The adapter written to, and the events of this flush. *)
Definition FlushState : Type := A * list SyncEvent.
Definition on_adapter {B} (m : M A B) : M FlushState B := λ s,
  let '(r, a) := m s.1 in (r, (a, s.2)).
Definition flush_emit (e : SyncEvent) : M FlushState () := λ s, (Ok (), (s.1, s.2 ++ [e])).

Definition changeEntryPath (remotePath : string) (e : ChangeEntry) : string :=
  changeFile remotePath (changeFileName (ce_hlc e) (ce_id e)).

(** Write one entry; returns the latest stamp written so far. *)
Definition write_entry (remotePath : string) (st : CodecState) (lastWrittenHlc : string)
    (e : ChangeEntry) : M FlushState string :=
  payload ← lift (encodeChangePayload st e);
  on_adapter (writeFile (changeEntryPath remotePath e) payload);;
  mret (if advances (ce_hlc e) (Some lastWrittenHlc) then ce_hlc e else lastWrittenHlc).

Fixpoint write_entries (remotePath : string) (st : CodecState) (lastWrittenHlc : string)
    (entries : list ChangeEntry) : M FlushState string :=
  match entries with
  | [] => mret lastWrittenHlc
  | e :: entries =>
      h ← write_entry remotePath st lastWrittenHlc e;
      write_entries remotePath st h entries
  end.

(** [JSON.parse(...) as ChangesHead], then [priorHead?.latestHlc ?? null]. *)
Definition head_hlc (d : Doc) : option string :=
  match d with DHead h => latestHlc h | _ => None end.
Definition read_head (remotePath : string) : M A (option string) :=
  catch (d ← readJson (changesHead remotePath); mret (head_hlc d)) (λ _, mret None).

Definition touch_device (now remotePath deviceId : string) (isPrimary : bool)
    : M FlushState () :=
  when isPrimary (on_adapter (upsertDeviceMetadata now remotePath deviceId no_upsert_options)).

(** The second half of [flushToAdapter]: the head hint, then the device record. *)
Definition update_head (now remotePath : string) (isPrimary : bool) (deviceId : string)
    (emit_ : SyncEvent → M FlushState ()) (lastWrittenHlc : string) : M FlushState () :=
  let head := changesHead remotePath in
  if negb (truthy lastWrittenHlc) then
    emit_ (TraceHead "skip-no-change" "flush" head None None false);;
    touch_device now remotePath deviceId isPrimary
  else
    priorHlc ← on_adapter (read_head remotePath);
    emit_ (TraceHead "read" "flush" head priorHlc None false);;
    if match opt_truthy priorHlc with
       | Some p => num_geb (hlcCompareStr p lastWrittenHlc) (Num 0)
       | None => false
       end
    then
      emit_ (TraceHead "skip-no-change" "flush" head priorHlc (Some lastWrittenHlc) false);;
      touch_device now remotePath deviceId isPrimary
    else
      let regressed := match priorHlc with
                       | Some p => num_gtb (hlcCompareStr p lastWrittenHlc) (Num 0)
                       | None => false
                       end in
      let bestHlc := if regressed then default "" priorHlc else lastWrittenHlc in
      emit_ (TraceHead "write" "flush" head priorHlc (Some bestHlc) regressed);;
      when (negb regressed)
        (on_adapter (writeJson head (DHead (mkHead (Some bestHlc)))));;
      touch_device now remotePath deviceId isPrimary.

Definition flushToAdapter (now remotePath : string) (entries : list ChangeEntry)
    (isPrimary : bool) (st : CodecState) (deviceId : string) (emit_ : SyncEvent → M FlushState ())
    : M FlushState () :=
  on_adapter (ensureFolder (changesFolder remotePath));;
  lastWrittenHlc ← write_entries remotePath st "" entries;
  update_head now remotePath isPrimary deviceId emit_ lastWrittenHlc.

(** Mirror to one replica; the error, if any, is handed to [onReplicaError]. *)
Definition flushReplica (now : string) (entries : list ChangeEntry) (st : CodecState)
    (deviceId : string) (replica : A * string) : (A * string) * option error :=
  let '(r, s) :=
    ((if negb (isAuthenticated replica.1) then on_adapter authenticate else mret ());;
     flushToAdapter now replica.2 entries false st deviceId (λ _, mret ())) (replica.1, []) in
  ((s.1, replica.2), match r with Ok _ => None | Throw e => Some e end).

Record FlushOutcome := mkOutcome {
  fo_result : result (); fo_session : Session A; fo_replicas : list (A * string);
  fo_replicaErrors : list (option error) }.

Definition flushPrimary (env : Env) (cfg : Config) (entries : list ChangeEntry)
    (replicas : list (A * string)) (s : Session A) : FlushOutcome :=
  let st := codecState cfg s in
  match loc (recordFlushedChanges entries) s with
  | (Throw e, s1) => mkOutcome (Throw e) s1 replicas []
  | (Ok _, s1) =>
      match flushToAdapter (env_now env) (cf_remotePath cfg) entries true st (cf_deviceId cfg)
              flush_emit (ss_adapter s1, []) with
      | (r, (a, events)) =>
          let s2 := foldl (λ s e, add_event e s) (set_adapter a s1) events in
          match r with
          | Throw e => mkOutcome (Throw e) s2 replicas []
          | Ok _ =>
              let mirrored := flushReplica (env_now env) entries st (cf_deviceId cfg) <$> replicas in
              mkOutcome (Ok ()) s2 mirrored.*1 mirrored.*2
          end
      end
  end.
End flush.

(** ** Paths *)
Lemma change_ne_head root e :
  changeEntryPath root e ≠ changesHead root.
Proof.
  unfold changeEntryPath, changeFile, changesHead. intros E%str_app_inj_l.
  change ("/head.json") with ("/" +:+ "head.json") in E. apply str_app_inj_l in E.
  unfold changeFileName in E. assert (String.get (String.length (ce_hlc e)) "head.json" = Some DASH) as Hg.
  { rewrite <- E. replace (String.length (ce_hlc e)) with (String.length (ce_hlc e) + 0) by lia.
    by rewrite str_get_app_r. }
  revert Hg. generalize (String.length (ce_hlc e)). intros n.
  do 9 (destruct n as [|n]; [by vm_compute|]). done.
Qed.
Lemma change_ne_device root e d : changeEntryPath root e ≠ deviceFile root d.
Proof.
  unfold changeEntryPath, changeFile, changesFolder, deviceFile. rewrite !str_app_assoc.
  by intros ?%str_app_inj_l.
Qed.
Lemma head_ne_device root d : changesHead root ≠ deviceFile root d.
Proof.
  unfold changesHead, changesFolder, deviceFile. rewrite !str_app_assoc. by intros ?%str_app_inj_l.
Qed.

Section flush_theory.
Context `{Platform} {A : Type} `{HA : !StorageAdapter A}.
Context (root : string) (st : CodecState) (entries : list ChangeEntry) (deviceId : string).

(** What a flush may leave at a path it changes. *)
Definition flush_writes (p : string) (v : option Bytes) : Prop :=
  (∃ e d, e ∈ entries ∧ p = changeEntryPath root e ∧ encodeChangePayload st e = Ok d ∧ v = Some d) ∨
  p = changesHead root ∨ p = deviceFile root deviceId.
Definition flush_evolves (s s' : FlushState (A:=A)) : Prop :=
  ∀ p, filesOf s'.1 !! p = filesOf s.1 !! p ∨ flush_writes p (filesOf s'.1 !! p).

#[global] Instance flush_evolves_preorder : PreOrder flush_evolves.
Proof.
  split; [intros s p; by left|]. intros s1 s2 s3 H12 H23 p.
  destruct (H23 p) as [E|?]; [rewrite E|by right]. apply H12.
Qed.

Lemma evolves_same s s' : filesOf s'.1 = filesOf s.1 → flush_evolves s s'.
Proof. intros E p. left. by rewrite E. Qed.

Lemma keeps_emit e : keeps flush_evolves (flush_emit e).
Proof. intros s r s' [= _ <-]. by apply evolves_same. Qed.

Lemma keeps_files {B} (m : M A B) :
  (∀ a r a', m a = (r, a') → filesOf a' = filesOf a) → keeps flush_evolves (on_adapter m).
Proof.
  intros Hm s r s'. unfold on_adapter. destruct (m s.1) as [r0 a] eqn:E. intros [= _ <-].
  apply evolves_same. by eapply Hm.
Qed.

Lemma keeps_write p d :
  flush_writes p (Some d) → keeps flush_evolves (on_adapter (writeFile p d)).
Proof.
  intros Hw s r s'. unfold on_adapter. destruct (writeFile p d s.1) as [r0 a] eqn:E.
  intros [= _ <-]. assert (filesOf a = filesOf s.1 ∨ filesOf a = <[p := d]> (filesOf s.1)) as Hf.
  { destruct r0 as [[]|e]; [right; by eapply write_ok|by eapply write_throw]. }
  destruct Hf as [Hf|Hf]; [by apply evolves_same|]. intros q. simpl. rewrite Hf.
  destruct (decide (p = q)) as [<-|Hne]; [right; by rewrite lookup_insert_eq|left].
  by rewrite lookup_insert_ne.
Qed.

Lemma readJson_files p a r a' : readJson p a = (r, a') → filesOf a' = filesOf a.
Proof.
  unfold readJson, mbind, M_bind, lift. destruct (readFile p a) as [[d|e] a1] eqn:E;
    intros [= _ <-]; by apply read_files in E as [E _].
Qed.
Lemma read_head_files a r a' : read_head root a = (r, a') → filesOf a' = filesOf a.
Proof.
  unfold read_head, catch, mbind, M_bind. destruct (readJson (changesHead root) a) as [[d|e] a1] eqn:E;
    intros [= _ <-]; by apply readJson_files in E.
Qed.

Lemma upsert_frame now a r a' p :
  upsertDeviceMetadata now root deviceId no_upsert_options a = (r, a') →
  filesOf a' !! p = filesOf a !! p ∨ p = deviceFile root deviceId.
Proof.
  destruct (decide (p = deviceFile root deviceId)) as [->|Hp]; [by right|]. intros E. left.
  revert E. unfold upsertDeviceMetadata, readJsonIfExists, catch. cbn [up_bootstrap no_upsert_options].
  unfold mbind, M_bind. destruct (readJson (deviceFile root deviceId) a) as [r0 a1] eqn:E1.
  apply readJson_files in E1. rewrite <- E1.
  assert (∀ d r1, writeJson (deviceFile root deviceId) d a1 = (r1, a') →
            filesOf a' !! p = filesOf a1 !! p) as Hw.
  { intros d [[]|e]; unfold writeJson.
    - intros ->%write_ok. by rewrite lookup_insert_ne.
    - intros [-> | ->]%write_throw; [done|]. by rewrite lookup_insert_ne. }
  destruct r0 as [d|]; simpl; [|apply Hw].
  destruct (if doc_truthy d then Some d else None); simpl; apply Hw.
Qed.

Lemma keeps_touch now b : keeps flush_evolves (touch_device now root deviceId b).
Proof.
  apply keeps_when; [apply _|]. intros s r s'. unfold on_adapter.
  destruct (upsertDeviceMetadata _ _ _ _ s.1) as [r0 a] eqn:E. intros [= _ <-] p. simpl.
  destruct (upsert_frame _ _ _ _ p E) as [?| ->]; [by left|right]. right. by right.
Qed.

Lemma keeps_entries es h : es ⊆ entries → keeps flush_evolves (write_entries root st h es).
Proof.
  revert h. induction es as [|e es IH]; intros h Hsub; simpl; [apply keeps_ret; apply _|].
  apply keeps_bind; [apply _| |intros h'; apply IH; set_solver].
  unfold write_entry. intros s r s'. unfold mbind, M_bind, lift.
  destruct (encodeChangePayload st e) as [d|] eqn:Ed; [|by intros [= _ <-]].
  assert (keeps flush_evolves (on_adapter (writeFile (changeEntryPath root e) d))) as Hk.
  { apply keeps_write. left. exists e, d. repeat split; try done. apply Hsub. left. }
  destruct (on_adapter _ s) as [[[]|err] s1] eqn:E1; intros [= _ <-]; by eapply Hk.
Qed.

Lemma keeps_head now b em h :
  (∀ e, keeps flush_evolves (em e)) → keeps flush_evolves (update_head now root b deviceId em h).
Proof.
  intros Hem. unfold update_head.
  case_match; [apply keeps_bind; [apply _|done|]; intros; apply keeps_touch|].
  apply keeps_bind; [apply _|apply keeps_files, read_head_files|]. intros prior.
  apply keeps_bind; [apply _|done|]. intros _.
  destruct (match opt_truthy prior with Some _ => _ | None => _ end);
    (apply keeps_bind; [apply _|done|]; intros _; try apply keeps_touch).
  apply keeps_bind; [apply _| |intros; apply keeps_touch].
  apply keeps_when; [apply _|]. apply keeps_write. right. by left.
Qed.

(** Whatever happens, a flush only touches its own paths. *)
Lemma flush_keeps now b em :
  (∀ e, keeps flush_evolves (em e)) →
  keeps flush_evolves (flushToAdapter now root entries b st deviceId em).
Proof.
  intros Hem. unfold flushToAdapter. apply keeps_bind; [apply _| |intros _].
  { apply keeps_files. intros. by eapply ensure_files. }
  apply keeps_bind; [apply _|by apply keeps_entries|]. intros h. by apply keeps_head.
Qed.
End flush_theory.

Section flush_success.
Context `{Platform} {A : Type} `{HA : !StorageAdapter A}.
Context (root : string) (st : CodecState) (deviceId : string).

(** Change files are immutable: one path, one change. *)
Definition immutable (es : list ChangeEntry) : Prop :=
  ∀ e1 e2, e1 ∈ es → e2 ∈ es → changeEntryPath root e1 = changeEntryPath root e2 → e1 = e2.

Definition published (es : list ChangeEntry) (a : A) : Prop :=
  ∀ e, e ∈ es → ∃ d, encodeChangePayload st e = Ok d ∧
                     filesOf a !! changeEntryPath root e = Some d.

Lemma write_entries_ok h es s h' s' :
  immutable es → write_entries root st h es s = (Ok h', s') → published es s'.1.
Proof.
  revert h s. induction es as [|e es IH]; intros h s Him Hw; [by intros ? ?%not_elem_of_nil|].
  simpl in Hw. apply bind_ok_inv in Hw as (h1 & s1 & H1 & H2).
  assert (immutable es) as Him' by (intros e1 e2 ??; apply Him; by right).
  pose proof (IH _ _ Him' H2) as Hes. intros e0 [->|He0]%elem_of_cons; [|by apply Hes].
  unfold write_entry in H1. apply bind_ok_inv in H1 as (d & s2 & Hd & H1).
  unfold lift in Hd. injection Hd as Hd <-. apply bind_ok_inv in H1 as ([] & s3 & H1 & H3).
  injection H3 as _ <-. unfold on_adapter in H1.
  destruct (writeFile (changeEntryPath root e) d s.1) as [[[]|] a] eqn:E; [|done].
  injection H1 as <-. apply write_ok in E.
  destruct (keeps_entries root st es "" es h1 (reflexivity _) _ _ _ H2 (changeEntryPath root e))
    as [Hsame|[(e2 & d2 & He2 & Hp & Hd2 & Hv)|[Hh|Hdev]]].
  - exists d. split; [done|]. rewrite Hsame. simpl. rewrite E. apply lookup_insert_eq.
  - destruct (Hes e2 He2) as (d3 & Hd3 & Hv3). exists d3.
    assert (e = e2) as -> by (apply Him; [by left|by right|done]). done.
  - by apply change_ne_head in Hh.
  - by apply change_ne_device in Hdev.
Qed.
End flush_success.

(** ** Receipts first *)
Section receipts.
Implicit Types l : MemoryLocalStore.

Definition entry_name (e : ChangeEntry) : string := changeFileName (ce_hlc e) (ce_id e).

Lemma observe_entries_ok led es led' : observe_entries led es = Ok led' →
  generation led' = generation led ∧ seenChangeFiles led ⊆ seenChangeFiles led' ∧
  ∀ e, e ∈ es → truthy (ce_hlc e) = true → entry_name e ∈ seenChangeFiles led'.
Proof.
  revert led. induction es as [|e es IH]; intros led; simpl.
  { intros [= <-]. split; [done|]. split; [done|]. by intros ? ?%not_elem_of_nil. }
  destruct (truthy (ce_hlc e)) eqn:Ht; simpl.
  - destruct (observe led _ (ce_hlc e)) as [[late led1]|] eqn:E; [|done].
    intros (Hg & Hsub & Hin)%IH. apply observe_ok in E as (Hs & Hg1 & _).
    split; [by rewrite Hg|]. split; [set_solver|].
    intros e0 [->|He0]%elem_of_cons Ht0; [|by apply Hin]. apply Hsub. rewrite Hs. set_solver.
  - intros (Hg & Hsub & Hin)%IH. split; [done|]. split; [done|].
    intros e0 [->|He0]%elem_of_cons Ht0; [by rewrite Ht in Ht0|by apply Hin].
Qed.

(** Either every receipt is durable, or nothing at all has changed. *)
Lemma record_spec es l r l' : recordFlushedChanges es l = (r, l') →
  (r = Ok () ∧ durable_seen l ⊆ durable_seen l' ∧
     (∀ e, e ∈ es → truthy (ce_hlc e) = true → entry_name e ∈ durable_seen l') ∧
     ls_rows l' = ls_rows l ∧ ls_outbox l' = ls_outbox l ∧
     ls_pendingBatch l' = ls_pendingBatch l ∧
     (∀ k, k ≠ OBSERVATION_META_KEY → store_getMeta k l' = store_getMeta k l)) ∨
  (is_ok r = false ∧ l' = l).
Proof.
  unfold recordFlushedChanges. rewrite gets_bind, lift_bind.
  destruct (observe_entries (load l) es) as [led|] eqn:E; [|intros [= <- <-]; by right].
  apply observe_entries_ok in E as (Hg & Hsub & Hin).
  unfold mbind at 1, M_bind at 1. destruct (persist led l) as [r1 l1] eqn:Ep.
  pose proof Ep as Ep'. apply persist_spec in Ep as [(-> & -> & _)|(-> & Hgen & _ & Hseen)].
  - simpl. intros [= <- <-]. by right.
  - simpl. intros [= <- <-]. left. split; [done|]. rewrite Hseen.
    split; [set_solver|]. split; [intros e He Ht; apply elem_of_union_l; auto|].
    unfold persist in Ep'. destruct (Z.eqb_spec (generation led) (observationGeneration l)); [|done].
    simpl in Ep'. injection Ep' as <-. repeat split; try done.
    intros k Hk. exact (@getMeta_setMeta_ne _ memory_meta_store OBSERVATION_META_KEY k _ l (not_eq_sym Hk)).
Qed.

Lemma observe_entries_total led es :
  Forall (λ e, is_Some (changeFileHlc (entry_name e))) es → ∃ led', observe_entries led es = Ok led'.
Proof.
  revert led. induction es as [|e es IH]; intros led Hall; simpl; [eauto|].
  apply Forall_cons_1 in Hall as [[h He] Hes]. destruct (truthy (ce_hlc e)); simpl; [|by apply IH].
  unfold observe. unfold entry_name in He. rewrite He. by apply IH.
Qed.

(** With well-formed names the receipts are always recorded. *)
Lemma record_total es l :
  Forall (λ e, is_Some (changeFileHlc (entry_name e))) es →
  ∃ l', recordFlushedChanges es l = (Ok (), l').
Proof.
  intros Hall. unfold recordFlushedChanges. rewrite gets_bind, lift_bind.
  destruct (observe_entries_total (load l) es Hall) as [led E]. rewrite E.
  apply observe_entries_ok in E as (Hg & _ & _).
  unfold mbind, M_bind, persist. rewrite Hg, load_generation, Z.eqb_refl. simpl. eauto.
Qed.
End receipts.

(** ** The latest stamp written *)
Definition stamped (es : list ChangeEntry) : Prop := Forall (λ e, canonical (ce_hlc e)) es.

Lemma advances_empty a : advances a (Some "") = true.
Proof. done. Qed.

Section latest.
Context `{Platform} {A : Type} `{HA : !StorageAdapter A} (root : string) (st : CodecState).

Lemma write_entries_latest h es s h' s' :
  stamped es → h = "" ∨ canonical h → write_entries root st h es s = (Ok h', s') →
  (h' = h ∨ ∃ e, e ∈ es ∧ h' = ce_hlc e) ∧
  (∀ e, e ∈ es → canonical h' ∧ ¬ stamp_lt h' (ce_hlc e)) ∧
  (canonical h → canonical h' ∧ ¬ stamp_lt h' h).
Proof.
  revert h s. induction es as [|e es IH]; intros h s Hst Hh Hw; simpl in Hw.
  { injection Hw as <- <-. split; [by left|]. split; [by intros ? ?%not_elem_of_nil|].
    intros Hc. split; [done|by apply stamp_irrefl]. }
  apply Forall_cons_1 in Hst as [He Hst]. apply bind_ok_inv in Hw as (h1 & s1 & H1 & H2).
  unfold write_entry in H1. apply bind_ok_inv in H1 as (d & s2 & _ & H1).
  apply bind_ok_inv in H1 as (u & s3 & _ & H3). injection H3 as Hh1 <-.
  assert (canonical h1 ∧ ¬ stamp_lt h1 (ce_hlc e) ∧ (h1 = h ∨ h1 = ce_hlc e) ∧
          (canonical h → ¬ stamp_lt h1 h)) as (Hc1 & Hlt & Heq & Hmono).
  { destruct Hh as [->|Hc].
    - rewrite advances_empty in Hh1. subst. split; [done|]. split; [by apply stamp_irrefl|].
      split; [by right|]. intros Hc. by apply canonical_truthy in Hc.
    - pose proof (advances_spec (ce_hlc e) h He Hc) as Ha.
      destruct (advances (ce_hlc e) (Some h)); subst.
      + split; [done|]. split; [by apply stamp_irrefl|]. split; [by right|]. intros _.
        apply stamp_asym; try done. by apply Ha.
      + split; [done|]. split; [by intros ?%Ha|]. split; [by left|]. intros _. by apply stamp_irrefl. }
  destruct (IH h1 _ Hst (or_intror Hc1) H2) as (Hsrc & Hall & Hup). destruct (Hup Hc1) as [Hc' Hge].
  split; [|split].
  - destruct Hsrc as [->|(e' & ? & ->)]; [|right; exists e'; set_solver].
    destruct Heq as [->| ->]; [by left|right; exists e; set_solver].
  - intros e0 [->|He0]%elem_of_cons; [|by apply Hall]. split; [done|].
    by apply (stamp_le_trans (ce_hlc e) h1 h').
  - intros Hc. split; [done|]. apply (stamp_le_trans h h1 h'); auto.
Qed.
End latest.

Section primary.
Context `{Platform} {A : Type} `{HA : !StorageAdapter A}.

Lemma add_events_fields events (s : Session A) :
  let s' := foldl (λ s e, add_event e s) s events in
  ss_adapter s' = ss_adapter s ∧ ss_local s' = ss_local s ∧ ss_tables s' = ss_tables s ∧
  ss_hlc s' = ss_hlc s ∧ ss_manifest s' = ss_manifest s.
Proof. revert s. induction events as [|e events IH]; intros s; [done|]. exact (IH (add_event e s)). Qed.

(** The two ways a flush can go. *)
Lemma flushPrimary_spec env cfg es replicas (s : Session A) :
  let o := flushPrimary env cfg es replicas s in
  (is_ok (fo_result o) = false ∧ ss_adapter (fo_session o) = ss_adapter s ∧
     ss_local (fo_session o) = ss_local s) ∨
  ∃ l r a events, recordFlushedChanges es (ss_local s) = (Ok (), l) ∧
    flushToAdapter (env_now env) (cf_remotePath cfg) es true (codecState cfg s) (cf_deviceId cfg)
      flush_emit (ss_adapter s, []) = (r, (a, events)) ∧
    is_ok (fo_result o) = is_ok r ∧ ss_adapter (fo_session o) = a ∧ ss_local (fo_session o) = l.
Proof.
  unfold flushPrimary, loc. destruct (recordFlushedChanges es (ss_local s)) as [r l] eqn:E.
  destruct (record_spec _ _ _ _ E) as [(-> & _)|[Hr ->]].
  - right. cbn [ss_adapter set_local].
    destruct (flushToAdapter _ _ _ _ _ _ _ _) as [r0 [a events]] eqn:Ef.
    destruct (add_events_fields events (set_adapter a (set_local l s))) as (H1 & H2 & _).
    exists l, r0, a, events. destruct r0 as [[]|]; simpl; by rewrite ?H1, ?H2.
  - left. destruct r as [|e]; [done|]. by destruct s.
Qed.

Lemma up_write_entries (up : A → Prop) `{!ReliableAdapter up} root st h es m (s : FlushState (A:=A)) :
  opt_truthy (manifest_meshId (cs_manifest st)) = Some m → up s.1 →
  ∃ h' s', write_entries root st h es s = (Ok h', s') ∧ up s'.1.
Proof.
  intros Hm. revert h s. induction es as [|e es IH]; intros h s Hup; simpl; [by exists h, s|].
  unfold write_entry, encodeChangePayload. rewrite Hm.
  destruct (up_write (changeEntryPath root e)
    (encodeForCloud st (stringify (DPayload (mkMeshPayload false (Some m) "change" (Some e) None))))
    s.1 Hup) as (a & E & Hup').
  edestruct (IH) as (h' & s' & E' & ?); [|exists h', s'; split; [|done]].
  2: { unfold mbind at 1, M_bind at 1. rewrite lift_bind. unfold mbind at 1, M_bind at 1.
       unfold on_adapter at 1. rewrite E. exact E'. }
  exact Hup'.
Qed.

Lemma up_read_head (up : A → Prop) `{!ReliableAdapter up} root a prior :
  up a →
  match prior with
  | Some p => filesOf a !! changesHead root =
                Some (encodeText (stringify (DHead (mkHead (Some p)))))
  | None => filesOf a !! changesHead root = None
  end →
  ∃ a', read_head root a = (Ok prior, a') ∧ up a' ∧ filesOf a' = filesOf a.
Proof.
  intros Hup Hp. unfold read_head, catch. destruct prior as [p|].
  - destruct (up_readJson up _ _ _ Hup Hp eq_refl) as (a' & E & ? & ?).
    exists a'. by rewrite (bind_ok _ _ _ _ _ E).
  - destruct (up_read (changesHead root) a Hup) as (r & a' & E & Hup' & _).
    destruct (read_files _ _ _ _ E) as [Hf Hr]. exists a'. unfold readJson, mbind, M_bind.
    rewrite E. destruct r as [d|]; [|done]. specialize (Hr d eq_refl). congruence.
Qed.

Lemma up_touch (up : A → Prop) `{!ReliableAdapter up} now root dev b (s : FlushState (A:=A)) : up s.1 →
  ∃ s', touch_device now root dev b s = (Ok (), s') ∧ up s'.1 ∧
    (∀ p, p ≠ deviceFile root dev → filesOf s'.1 !! p = filesOf s.1 !! p).
Proof.
  intros Hup. destruct b; simpl; [|by exists s]. unfold on_adapter.
  assert (∃ a', upsertDeviceMetadata now root dev no_upsert_options s.1 = (Ok (), a') ∧ up a')
    as (a' & E & Hup').
  { unfold upsertDeviceMetadata, readJsonIfExists, readJson, catch. cbn [up_bootstrap no_upsert_options].
    destruct (up_read (deviceFile root dev) s.1 Hup) as (r & a1 & E & Hup1 & _).
    unfold mbind, M_bind, lift. rewrite E.
    assert (∀ d, ∃ a', writeJson (deviceFile root dev) d a1 = (Ok (), a') ∧ up a') as Hw.
    { intros d. by apply up_write. }
    destruct r as [d|]; simpl; [|apply Hw]. destruct (parse (decodeText d)) as [doc|]; simpl; [|apply Hw].
    destruct (if doc_truthy doc then Some doc else None); simpl; apply Hw. }
  rewrite E. eexists. split; [done|]. split; [done|]. intros p Hp. simpl.
  destruct (upsert_frame root dev now _ _ _ p E) as [?|?]; done.
Qed.
End primary.

Section head.
Context `{Platform} {A : Type} `{HA : !StorageAdapter A} (up : A → Prop) `{!ReliableAdapter up}.

Definition head_bytes (h : string) : Bytes := encodeText (stringify (DHead (mkHead (Some h)))).
(** The head the mailbox holds before the flush, if any. *)
Definition head_is (root : string) (a : A) (prior : option string) : Prop :=
  match prior with
  | Some p => canonical p ∧ filesOf a !! changesHead root = Some (head_bytes p)
  | None => filesOf a !! changesHead root = None
  end.

Lemma head_file now root b dev h prior (s : FlushState (A:=A)) :
  up s.1 → canonical h → head_is root s.1 prior →
  ∃ s' h', update_head now root b dev flush_emit h s = (Ok (), s') ∧ up s'.1 ∧ canonical h' ∧
    filesOf s'.1 !! changesHead root = Some (head_bytes h') ∧
    ¬ stamp_lt h' h ∧ (∀ p, prior = Some p → ¬ stamp_lt h' p) ∧ (h' = h ∨ prior = Some h').
Proof.
  intros Hup Hc Hhead. unfold update_head. rewrite canonical_truthy by done. cbn [negb].
  destruct (up_read_head up root s.1 prior) as (a1 & E1 & Hup1 & Hf1);
    [done|by destruct prior; [apply Hhead|]|].
  unfold mbind at 1, M_bind at 1. unfold on_adapter at 1. rewrite E1.
  assert (∀ (s2 : FlushState (A:=A)), up s2.1 → ∃ s', touch_device now root dev b s2 = (Ok (), s') ∧ up s'.1 ∧
    filesOf s'.1 !! changesHead root = filesOf s2.1 !! changesHead root) as Htouch.
  { intros s2 H2. destruct (up_touch up now root dev b s2 H2) as (s' & ? & ? & Hp).
    exists s'. split; [done|]. split; [done|]. apply Hp, head_ne_device. }
  unfold mbind at 1, M_bind at 1. cbn [flush_emit].
  assert (∀ (s2 : FlushState (A:=A)), up s2.1 → ∃ s',
    (on_adapter (writeJson (changesHead root) (DHead (mkHead (Some h))));;
     touch_device now root dev b) s2 = (Ok (), s') ∧ up s'.1 ∧
    filesOf s'.1 !! changesHead root = Some (head_bytes h)) as Hwrite.
  { intros s2 H2. unfold mbind at 1, M_bind at 1. unfold on_adapter at 1, writeJson at 1.
    destruct (up_write (changesHead root) (head_bytes h) s2.1 H2) as (a2 & E2 & Hup2).
    unfold head_bytes in E2. rewrite E2. destruct (Htouch (a2, s2.2) Hup2) as (s' & -> & ? & Hs').
    exists s'. split; [done|]. split; [done|]. apply write_ok in E2. rewrite Hs'. simpl. rewrite E2.
    apply lookup_insert_eq. }
  destruct prior as [p|].
  - destruct Hhead as [Hcp Hp]. rewrite opt_truthy_Some by by apply canonical_truthy.
    destruct (stamp_tests p h Hcp Hc) as [(Hlt & Hg & Hl & _)|[(-> & Hg & Hl & _)|(Hlt & Hg & Hl & _)]].
    + assert (num_geb (hlcCompareStr p h) (Num 0) = false) as ->.
      { destruct (hlcCompareStr p h) as [|z]; [done|]. unfold num_ltb, num_geb, num_leb in *. simpl in *. lia. }
      unfold mbind at 1, M_bind at 1. cbn [flush_emit]. rewrite Hg. cbn [negb when].
      edestruct Hwrite as (s' & -> & Hups & Hfile); [exact Hup1|].
      exists s', h. repeat split; try done; [by apply stamp_irrefl| |by left].
      intros ? [= <-]. by apply stamp_asym.
    + assert (num_geb (hlcCompareStr h h) (Num 0) = true) as ->.
      { pose proof (stamp_le_spec h h Hc Hc) as Hle. pose proof (stamp_irrefl h Hc) as Hirr.
        apply Hle in Hirr. destruct (hlcCompareStr h h) as [|z]; [done|].
        unfold num_ltb, num_geb, num_leb, num_gtb in *. simpl in *. lia. }
      unfold mbind at 1, M_bind at 1. cbn [flush_emit].
      edestruct Htouch as (s' & -> & Hups & Hfile); [exact Hup1|].
      exists s', h. rewrite Hfile. simpl. rewrite Hf1, Hp.
      repeat split; try done; [by apply stamp_irrefl| |by left].
      intros ? [= <-]. by apply stamp_irrefl.
    + assert (num_geb (hlcCompareStr p h) (Num 0) = true) as ->.
      { destruct (hlcCompareStr p h) as [|z]; [done|].
        unfold num_ltb, num_geb, num_leb, num_gtb in *. simpl in *. lia. }
      unfold mbind at 1, M_bind at 1. cbn [flush_emit].
      edestruct Htouch as (s' & -> & Hups & Hfile); [exact Hup1|].
      exists s', p. rewrite Hfile. simpl. rewrite Hf1, Hp.
      repeat split; try done; [by apply stamp_asym| |by right].
      intros ? [= <-]. by apply stamp_irrefl.
  - cbn [opt_truthy]. unfold mbind at 1, M_bind at 1. cbn [flush_emit negb when].
    edestruct Hwrite as (s' & -> & Hups & Hfile); [exact Hup1|].
    exists s', h. repeat split; try done; [by apply stamp_irrefl|by left].
Qed.
End head.

Section reliable_flush.
Context `{Platform} {A : Type} `{HA : !StorageAdapter A} (up : A → Prop) `{!ReliableAdapter up}.

(** Writing the entries leaves every other path alone. *)
Lemma write_entries_frame root st h es (s : FlushState (A:=A)) r s' p :
  (∀ e, p ≠ changeEntryPath root e) → write_entries root st h es s = (r, s') →
  filesOf s'.1 !! p = filesOf s.1 !! p.
Proof.
  intros Hp. revert h s. induction es as [|e es IH]; intros h s; simpl; [by intros [= _ <-]|].
  unfold mbind at 1, M_bind at 1, write_entry. rewrite lift_bind.
  destruct (encodeChangePayload st e) as [d|]; [|by intros [= _ <-]].
  unfold mbind at 1, M_bind at 1. unfold on_adapter at 1.
  destruct (writeFile (changeEntryPath root e) d s.1) as [[[]|err] a] eqn:E.
  - simpl. intros E'%IH. rewrite E'. simpl. apply write_ok in E. rewrite E.
    by rewrite lookup_insert_ne.
  - intros [= _ <-]. simpl. apply write_throw in E as [-> | ->]; [done|].
    by rewrite lookup_insert_ne.
Qed.

(** The head and device updates leave the published changes alone. *)
Lemma update_head_published now root b dev h st es (s : FlushState (A:=A)) r s' :
  update_head now root b dev flush_emit h s = (r, s') →
  published root st es s.1 → published root st es s'.1.
Proof.
  intros E Hpub e He. destruct (Hpub e He) as (d & Hd & Hf). exists d. split; [done|].
  apply (keeps_head root st [] dev now b flush_emit h (keeps_emit _ _ _ _)) in E.
  destruct (E (changeEntryPath root e)) as [->|[(? & ? & Hin & _)|[Hh|Hh]]]; [done|..].
  - by apply not_elem_of_nil in Hin.
  - by apply change_ne_head in Hh.
  - by apply change_ne_device in Hh.
Qed.

Lemma flush_reliable now root st dev entries mesh prior (a : A) :
  up a → entries ≠ [] → stamped entries → immutable root entries →
  opt_truthy (manifest_meshId (cs_manifest st)) = Some mesh → head_is root a prior →
  ∃ a' events, flushToAdapter now root entries true st dev flush_emit (a, []) =
      (Ok (), (a', events)) ∧ published root st entries a' ∧
    ∃ h, filesOf a' !! changesHead root = Some (head_bytes h) ∧ canonical h ∧
      (∀ e, e ∈ entries → ¬ stamp_lt h (ce_hlc e)) ∧ (∀ p, prior = Some p → ¬ stamp_lt h p).
Proof.
  intros Hup Hne Hst Him Hmesh Hhead. unfold flushToAdapter.
  destruct (up_ensure (changesFolder root) a Hup) as (a0 & E0 & Hup0).
  pose proof (ensure_files _ _ _ _ E0) as Hf0.
  unfold mbind at 1, M_bind at 1. unfold on_adapter at 1. cbn [fst snd]. rewrite E0.
  destruct (up_write_entries up root st "" entries mesh (a0, []) Hmesh Hup0) as (h & s1 & E1 & Hup1).
  rewrite (bind_ok _ _ _ _ _ E1). pose proof (write_entries_ok _ _ _ _ _ _ _ Him E1) as Hpub.
  destruct (write_entries_latest _ _ _ _ _ _ _ Hst (or_introl eq_refl) E1) as (_ & Hlat & _).
  assert (canonical h) as Hch.
  { destruct entries as [|e0 es]; [done|]. apply (Hlat e0). left. }
  assert (head_is root s1.1 prior) as Hhead1.
  { assert (filesOf s1.1 !! changesHead root = filesOf a !! changesHead root) as Hsame.
    { rewrite (write_entries_frame _ _ _ _ _ _ _ _ (λ e E, change_ne_head root e (eq_sym E)) E1).
      simpl. by rewrite Hf0. }
    unfold head_is in *. by rewrite Hsame. }
  destruct (head_file up now root true dev h prior s1 Hup1 Hch Hhead1)
    as ([a2 ev2] & h' & E2 & _ & Hc' & Hfile & Hge & Hprior & _).
  exists a2, ev2. split; [done|]. split; [by apply (update_head_published _ _ _ _ _ _ _ _ _ _ E2)|].
  exists h'. repeat split; try done. intros e He. destruct (Hlat e He) as [_ ?].
  unfold stamped in Hst. rewrite list.Forall_forall in Hst.
  apply (stamp_le_trans (ce_hlc e) h h'); auto.
Qed.
End reliable_flush.

(** ** Properties *)

(** Receipts precede publication.  However a flush ends, over an adapter whose calls may fail at
    any point, every change file it has added or altered on the remote is one of the
    flushed entries' files and already has its durable local receipt; if recording
    the receipts fails, the remote and the local store are exactly as before. *)
Theorem flush_receipts_precede_publication `{Platform} {A : Type} `{!StorageAdapter A}
    (env : Env) (cfg : Config) (entries : list ChangeEntry) (replicas : list (A * string))
    (s : Session A) (p : string) :
  stamped entries →
  let s' := fo_session (flushPrimary env cfg entries replicas s) in
  filesOf (ss_adapter s') !! p ≠ filesOf (ss_adapter s) !! p →
  p = changesHead (cf_remotePath cfg) ∨ p = deviceFile (cf_remotePath cfg) (cf_deviceId cfg) ∨
  ∃ e, e ∈ entries ∧ p = changeEntryPath (cf_remotePath cfg) e ∧
       entry_name e ∈ durable_seen (ss_local s').
Proof.
  intros Hst s' Hne.
  destruct (flushPrimary_spec env cfg entries replicas s)
    as [(_ & Ha & _)|(l & r & a & events & Hrec & Hfl & _ & Ha & Hl)]; fold s' in Ha.
  { by rewrite Ha in Hne. }
  fold s' in Hl. rewrite Ha in Hne. rewrite Hl.
  apply (flush_keeps _ _ _ _ _ _ flush_emit (keeps_emit _ _ _ _)) in Hfl.
  destruct (Hfl p) as [?|[(e & d & He & Hp & _)|[?|?]]]; [done| |by left|by right; left].
  right. right. exists e. split; [done|]. split; [done|].
  apply record_spec in Hrec as [(_ & _ & Hin & _)|[? _]]; [|done].
  apply Hin; [done|]. apply canonical_truthy. unfold stamped in Hst. rewrite list.Forall_forall in Hst. auto.
Qed.

(** A flush over a mailbox that answers completes, and publishes everything: every entry's file is in
    the mailbox with a payload that decodes to that entry in any store of the same mesh, every
    entry has its receipt, the outbox is not touched, and the head names a stamp
    no older than any published entry and no older than the head before. *)
Theorem flush_publishes_every_change `{Platform} {A : Type} `{!StorageAdapter A} (up : A → Prop)
    `{!ReliableAdapter up} (env : Env) (cfg : Config) (entries : list ChangeEntry)
    (replicas : list (A * string)) (s : Session A) (prior : option string) (mesh : string) :
  up (ss_adapter s) → entries ≠ [] → stamped entries →
  Forall (λ e, change_id (ce_id e) ∧ json_entry e = true) entries →
  immutable (cf_remotePath cfg) entries →
  opt_truthy (manifest_meshId (ss_manifest s)) = Some mesh →
  head_is (cf_remotePath cfg) (ss_adapter s) prior →
  let o := flushPrimary env cfg entries replicas s in
  let files := filesOf (ss_adapter (fo_session o)) in
  fo_result o = Ok () ∧
  ls_outbox (ss_local (fo_session o)) = ls_outbox (ss_local s) ∧
  (∀ e, e ∈ entries →
     entry_name e ∈ durable_seen (ss_local (fo_session o)) ∧
     ∃ d, files !! changeEntryPath (cf_remotePath cfg) e = Some d ∧
       ∀ local path, mesh_free mesh local →
         decodeChangePayload (codecState cfg s) d path local =
           (Ok e, store_setMeta "meshId" (VStr mesh) local)) ∧
  ∃ h, files !! changesHead (cf_remotePath cfg) = Some (head_bytes h) ∧ canonical h ∧
    (∀ e, e ∈ entries → ¬ stamp_lt h (ce_hlc e)) ∧ (∀ p, prior = Some p → ¬ stamp_lt h p).
Proof.
  intros Hup Hne Hst Hwf Him Hmesh Hhead o files.
  destruct (record_total entries (ss_local s)) as (l & Hrec).
  { rewrite list.Forall_forall in Hwf |- *. intros e He. destruct (Hwf e He) as [(u & Hu & Hid) _].
    unfold entry_name. rewrite Hid. exists (ce_hlc e). by apply changeFileHlc_name. }
  destruct (flush_reliable up (env_now env) (cf_remotePath cfg) (codecState cfg s) (cf_deviceId cfg)
    entries mesh prior (ss_adapter s)) as (a & events & Hfl & Hpub & Hh); [done..|].
  assert (fo_result o = Ok () ∧ ss_adapter (fo_session o) = a ∧ ss_local (fo_session o) = l)
    as (Hok & Ha & Hl).
  { unfold o, flushPrimary, loc. rewrite Hrec. cbn [ss_adapter set_local]. rewrite Hfl.
    cbn [fo_result fo_session]. split; [done|].
    destruct (add_events_fields events (set_adapter a (set_local l s))) as (-> & -> & _). done. }
  unfold files. rewrite Ha, Hl. split; [done|].
  apply record_spec in Hrec as [(_ & _ & Hin & _ & Hout & _)|[? _]]; [|done].
  split; [done|]. split; [|exact Hh]. intros e He.
  unfold stamped in Hst. rewrite list.Forall_forall in Hst, Hwf. split.
  - apply Hin; [done|]. by apply canonical_truthy, Hst.
  - destruct (Hpub e He) as (d & Hd & Hf). exists d. split; [done|]. intros local path Hfree.
    destruct (Hwf e He) as [_ Hj].
    destruct (change_decodes (codecState cfg s) e d path local Hj Hd) as (m & Hm & Hdec).
    cbn [cs_manifest codecState] in Hm. rewrite Hmesh in Hm. injection Hm as <-. by apply Hdec.
Qed.

(** A connected session, and one change to publish. *)
Definition connected_session {A} (a : A) (l : MemoryLocalStore) (device : string) : Session A :=
  mkSession a l ∅ ∅ (hlcInit 1711785600000 device) (Some (test_manifest "mesh_1" 1 None)) false
    None true [].
Definition first_change : ChangeEntry :=
  sample_change "chg_0190" (stamp_at 1711785600000 0 "dev1")
    [UpsertOp "todo" "r1" [("title", mkColumn (VStr "milk") (stamp_at 1711785600000 0 "dev1"))]].
Definition flush_session : Session (@MemoryAdapter test_platform) :=
  connected_session (@emptyAdapter test_platform "now") emptyStore "dev1".
Definition first_flush : @FlushOutcome (@MemoryAdapter test_platform) :=
  @flushPrimary test_platform _ _ test_env (test_config "dev1") [first_change] []
    flush_session.

Lemma first_change_stamped : stamped [first_change].
Proof. apply list.Forall_singleton, canonicalb_spec. by vm_compute. Qed.

Lemma flush_receipts_precede_publication_witness :
  entry_name first_change ∈ durable_seen (ss_local (fo_session first_flush)).
Proof.
  destruct (@flush_receipts_precede_publication test_platform _ memory_storage test_env
    (test_config "dev1") [first_change] [] flush_session
    (changeEntryPath "/mesh" first_change) first_change_stamped)
    as [Hh|[Hd|(e & He & _ & Hseen)]].
  - assert (filesOf (ss_adapter flush_session) !! changeEntryPath "/mesh" first_change = None)
      as -> by by vm_compute.
    assert (is_Some (filesOf (ss_adapter (fo_session first_flush)) !!
              changeEntryPath "/mesh" first_change)) as [d Hd] by (vm_compute; eauto).
    unfold first_flush in Hd. by rewrite Hd.
  - by vm_compute in Hh.
  - by vm_compute in Hd.
  - apply list_elem_of_singleton in He as ->. exact Hseen.
Defined.

Lemma flush_publishes_every_change_witness : fo_result first_flush = Ok ().
Proof.
  refine (proj1 (@flush_publishes_every_change test_platform _ memory_storage mem_up
    memory_reliable test_env (test_config "dev1") [first_change] [] flush_session None "mesh_1"
    _ _ first_change_stamped _ _ eq_refl _)).
  - constructor.
  - done.
  - apply list.Forall_singleton. split; [by exists "0190"|done].
  - by intros e1 e2 ->%list_elem_of_singleton ->%list_elem_of_singleton.
  - done.
Defined.

(** One failed read lets the head go backwards.  The flush treats a head it cannot read as absent and
    overwrites it with its own stamp, although the mailbox already holds a later one:
    the head hint is monotone only while it can be read. *)
Theorem head_regresses_when_unreadable :
  let later := stamp_at 1711785600999 0 "dev2" in
  let files := (mem_writeFile "/mesh/changes/head.json" (@head_bytes test_platform later)
                  (@emptyAdapter test_platform "now")).2 in
  let o := @flushPrimary test_platform _ _ test_env (test_config "dev1") [first_change]
             [] (connected_session (files, 1) emptyStore "dev1") in
  fo_result o = Ok () ∧
  filesOf (ss_adapter (fo_session o)) !! "/mesh/changes/head.json" =
    Some (@head_bytes test_platform (ce_hlc first_change)) ∧
  num_ltb (hlcCompareStr (ce_hlc first_change) later) (Num 0) = true.
Proof. vm_compute. done. Qed.
