(* ===== verification/Pull.v ===== *)
(** * Pull: merging remote changes
    ([packages/core/src/core/pull.ts], and [doLoadOrCreateManifest] of [sync-engine.ts])

    List the changes folder, order the files by stamp, skip those with a
    receipt, and for each of the rest decode, advance the clock, merge into the
    cached rows, store what changed and record the receipt; the receipts are
    committed together at the end.  The code keeps up to four reads in flight
    ahead of the file being applied; the files are immutable, so each read is
    modelled where its result is used.  The codec state is the one the pull was
    called with, before it loads the manifest.  The optional observer of changes only
    reads the merged rows; what it is told is in ChangeEffects.v. *)

From S2P Require Import Prelude JsString Hlc Values JsMap LocalStore Wire Crdt.
From S2P Require Import Observation Adapter Codec Session MergeStore Manifest Flush.
From Stdlib Require Import Ascii.
From Stdlib Require String.

Open Scope stdpp_scope.

Definition isRemoteAccessError (e : error) : bool :=
  match e with RemoteAccessErr _ _ _ => true | _ => false end.

(** The manifest object as it is cached in the store's [meta]. *)
Definition opt_str (o : option string) : jsval := match o with Some s => VStr s | None => VNull end.
Definition opt_num (o : option jsnum) : jsval :=
  match o with Some n => VNum n | None => VUndefined end.
Definition manifest_value (m : Manifest) : jsval :=
  let p := m_payload m in
  VObj [("generation", VNum (Num (m_generation p)));
        ("parentGeneration", VNum (Num (m_parentGeneration p)));
        ("writtenBy", VStr (m_writtenBy p)); ("writtenAt", VStr (m_writtenAt p));
        ("version", VNum (Num (m_version p))); ("meshId", VStr (m_meshId p));
        ("schema", VNum (Num (m_schema p)));
        ("encrypted", match m_encrypted p with Some b => VBool b | None => VUndefined end);
        ("server", VObj [("managed", VBool (sv_managed (m_server p)));
                         ("relayUrl", opt_str (sv_relayUrl (m_server p)));
                         ("serverId", VStr (sv_serverId (m_server p)))]);
        ("createdAt", VStr (m_createdAt p)); ("epoch", VNum (Num (m_epoch p)));
        ("watermarkHlc", VStr (m_watermarkHlc p)); ("snapshotPath", opt_str (m_snapshotPath p));
        ("deltaPath", opt_str (m_deltaPath p));
        ("retention", match m_retention p with
                      | Some r => VObj [("compactAfterMs", opt_num (ri_compactAfterMs r));
                                        ("maxOfflineDurationMs", opt_num (ri_maxOfflineDurationMs r))]
                      | None => VUndefined
                      end);
        ("lineage", opt_num (m_lineage p)); ("contentHash", VStr (contentHash m))].

Section pull.
Context `{Platform} {A : Type} `{!StorageOps A}.

Definition doLoadOrCreateManifest (env : Env) (cfg : Config) (reason : string) (force : bool)
    (opts : LoadOptions) (persistCache : bool) : M (Session A) bool :=
  s ← gets id;
  match ss_manifest s, ss_poison s with
  | Some m, None =>
      if negb force then
        emit (TraceManifest "cache-hit" reason "" (Some (m_generation (m_payload m))));;
        mret true
      else mret false
  | _, _ => mret false
  end ≫= λ hit : bool,
  if hit then mret false
  else
    '(manifest, bootstrapped) ← loadOrCreateManifest env cfg reason opts;
    modify (λ s, set_manifest (Some manifest)
      (default false (m_encrypted (m_payload manifest)) || ss_encrypted s) s);;
    when persistCache (loc (modify (store_setMeta "manifestCache" (manifest_value manifest))));;
    mret bootstrapped.

(** *** Merging one change *)

Definition schema_version (m : option Manifest) : Z :=
  from_option (λ m, m_schema (m_payload m)) 1%Z m.

(** [applyChangeEntry] on the session's tables, right after their refresh: the rows they share with the store
    change there too. *)
Definition apply_entry (cfg : Config) (st : CodecState) (entry : ChangeEntry) : M (Session A) (list Row) := λ s,
  let '(r, t) := applyChangeEntry entry (schema_version (cs_manifest st)) (cf_schema cfg)
                   (ss_tables s) in
  (r, set_local (foldl (write_through t) (ss_local s) (row_refs (ce_ops entry))) (set_tables t s)).

Definition emitAffectedRows (affected : list Row) : M (Session A) () :=
  for_each (λ row,
    modify (λ s, set_knownTables ({[rm_table (_meta row)]} ∪ ss_knownTables s) s);;
    if rm_deleted (_meta row)
    then emit (RowDelete (rm_table (_meta row)) (rm_rowId (_meta row)))
    else emit (RowChange (rm_table (_meta row)) (rm_rowId (_meta row)) row)) affected.

(** [local.putRows(affected)] and the notifications, when something changed. *)
Definition store_affected (affected : list Row) : M (Session A) () :=
  match affected with
  | [] => mret ()
  | _ => loc (modify (putRows affected));; emitAffectedRows affected
  end.

Record PullState := mkPull { ps_hlc : HLC; ps_ledger : Ledger; ps_merged : nat }.

(** The body of the [try] for one file.  The codec state [st] is the one the pull was called with. *)
Definition process_file (env : Env) (cfg : Config) (st : CodecState) (file : FileEntry) (p : PullState)
    : M (Session A) PullState :=
  raw ← remote (readFile (fe_path file));
  entry ← loc (decodeChangePayload st raw (fe_path file));
  let hlc' := hlcReceive (env_wall env) (ps_hlc p) (hlcParse (ce_hlc entry)) in
  ensureRowsCached (ce_ops entry);;
  affected ← apply_entry cfg st entry;
  store_affected affected;;
  '(late, ledger) ← lift (observe (ps_ledger p) (fe_name file) (ce_hlc entry));
  match late with Some l => emit (SyncLateChange l) | None => mret () end;;
  mret (mkPull hlc' ledger (ps_merged p + length affected)).

Definition pull_file (env : Env) (cfg : Config) (st : CodecState) (file : FileEntry) (p : PullState)
    : M (Session A) PullState :=
  catch (process_file env cfg st file p)
    (λ err, emit (DecodeError err (fe_path file) "pull");;
            e ← poisonRemote err (Some (fe_path file));
            throw e).

Fixpoint pull_files (env : Env) (cfg : Config) (st : CodecState) (files : list FileEntry) (p : PullState)
    : M (Session A) PullState :=
  match files with
  | [] => mret p
  | f :: files => p' ← pull_file env cfg st f p; pull_files env cfg st files p'
  end.

Definition compare_entries (a b : FileEntry) : jsnum := compareChangeFiles (fe_name a) (fe_name b).

(** The filter that drops the head, repeated names, other files and files with a receipt. *)
Fixpoint unseen_files (ledger : Ledger) (seenNames : gset string) (files : list FileEntry)
    : list FileEntry :=
  match files with
  | [] => []
  | f :: files =>
      if String.eqb (fe_name f) "head.json" || bool_decide (fe_name f ∈ seenNames)
      then unseen_files ledger seenNames files
      else
        let rest := unseen_files ledger ({[fe_name f]} ∪ seenNames) files in
        if bool_decide (is_Some (changeFileHlc (fe_name f))) && isUnseenChange ledger (fe_name f)
        then f :: rest else rest
  end.

(** Reading the head is only traced. *)
Definition trace_head (cfg : Config) : M (Session A) () :=
  head ← remote (readJsonIfExists (changesHead (cf_remotePath cfg)));
  emit (TraceHead "read" "pull-fast-path" (changesHead (cf_remotePath cfg))
          (head ≫= λ d, match d with DHead h => latestHlc h | _ => None end) None false).

(** [None] when the folder is missing and there is nothing to merge. *)
Definition list_changes (cfg : Config) : M (Session A) (option (list FileEntry)) :=
  catch (l ← remote (listFiles (changesFolder (cf_remotePath cfg))); mret (Some l))
    (λ err, if isRemoteAccessError err then throw err
            else emit (SyncComplete 0);; mret None).

(** Merge the listed files and commit the receipts and the clock. *)
Definition merge_listing (env : Env) (cfg : Config) (st : CodecState) (hlc0 : HLC) (ledger : Ledger)
    (files : list FileEntry) : M (Session A) HLC :=
  let unseen := unseen_files ledger ∅ (js_sort compare_entries files) in
  p ← pull_files env cfg st unseen (mkPull hlc0 ledger 0);
  _ ← loc (persist (ps_ledger p));
  loc (modify (store_setMeta "hlc" (VStr (hlcSerialize (ps_hlc p)))));;
  emit (SyncComplete (ps_merged p));;
  mret (ps_hlc p).

(** The engine passes its clock and its codec state, with the manifest of that moment, by value. *)
Definition pull (env : Env) (cfg : Config) : M (Session A) HLC :=
  '(hlc0, st) ← gets (λ s, (ss_hlc s, codecState cfg s));
  emit SyncStart;;
  catch
    (doLoadOrCreateManifest env cfg "pull" false (mkLoadOptions true (negb (cf_reader cfg))) true;;
     ledger ← loc (gets load);
     trace_head cfg;;
     listing ← list_changes cfg;
     match listing with
     | None => mret hlc0
     | Some files => merge_listing env cfg st hlc0 ledger files
     end)
    (λ err, emit (SyncError err);; throw err).
End pull.

(** ** What a pull leaves alone

    Until the receipts are committed, the steps of a pull change neither the
    receipts nor the queued local changes. *)
Section frame.
Context `{Platform} {A : Type} `{HA : !StorageAdapter A}.

Definition store_quiet (l l' : MemoryLocalStore) : Prop :=
  store_getMeta OBSERVATION_META_KEY l' = store_getMeta OBSERVATION_META_KEY l ∧
  ls_outbox l' = ls_outbox l ∧ ls_pendingBatch l' = ls_pendingBatch l.
Definition quiet (s s' : Session A) : Prop := store_quiet (ss_local s) (ss_local s').

#[global] Instance store_quiet_preorder : PreOrder store_quiet.
Proof. split; [done|]. intros l1 l2 l3 (? & ? & ?) (? & ? & ?). split_and!; congruence. Qed.
#[global] Instance quiet_preorder : PreOrder quiet.
Proof. split; [intros s; apply (reflexivity (R:=store_quiet))|].
  intros s1 s2 s3. apply (transitivity (R:=store_quiet)). Qed.

Lemma quiet_same s s' : ss_local s' = ss_local s → quiet s s'.
Proof. intros E. unfold quiet. by rewrite E. Qed.

Lemma quiet_modify f : (∀ s, ss_local (f s) = ss_local s) → keeps quiet (modify f : M (Session A) ()).
Proof. intros Hf s r s' [= _ <-]. by apply quiet_same. Qed.
Lemma quiet_emit e : keeps quiet (emit e : M (Session A) ()).
Proof. by apply quiet_modify. Qed.
Lemma quiet_remote {B} (m : M A B) : keeps quiet (remote m).
Proof.
  intros s r s'. unfold remote. destruct (m (ss_adapter s)). intros [= _ <-]. by apply quiet_same.
Qed.
Lemma quiet_loc {B} (m : M MemoryLocalStore B) : keeps store_quiet m → keeps quiet (loc m).
Proof.
  intros Hm s r s'. unfold loc. destruct (m (ss_local s)) as [r0 l] eqn:E. intros [= _ <-].
  unfold quiet. simpl. by eapply Hm.
Qed.
Lemma quiet_setMeta k v : k ≠ OBSERVATION_META_KEY → keeps store_quiet (modify (store_setMeta k v)).
Proof.
  intros Hk l r l' [= _ <-]. split_and!; try done.
  exact (@getMeta_setMeta_ne _ memory_meta_store k OBSERVATION_META_KEY v l Hk).
Qed.
Lemma quiet_putRows rows : keeps store_quiet (modify (putRows rows)).
Proof.
  intros l r l' [= _ <-]. destruct (putRows_frame rows l) as (? & ? & E).
  split_and!; try done. unfold store_getMeta. by rewrite E.
Qed.
Lemma quiet_assert m mesh : keeps store_quiet (assertExpectedMeshId m mesh).
Proof.
  intros l r l' [(_ & -> & _)|[_ ->]]%assert_spec; [|done].
  by eapply (quiet_setMeta "meshId").
Qed.
Lemma quiet_decode st d p : keeps store_quiet (decodeChangePayload st d p).
Proof. unfold decodeChangePayload. keeps_walk ltac:(apply quiet_assert). Qed.

(** The steps with a lemma of their own. *)
Ltac quiet_leaf := first
  [ apply quiet_emit | apply quiet_remote | by apply quiet_modify
  | apply quiet_loc; first [ apply quiet_decode | apply quiet_assert | apply quiet_putRows
                           | by apply quiet_setMeta | apply keeps_gets; apply _ ] ].

Lemma quiet_poison e p : keeps quiet (poisonRemote e p : M (Session A) error).
Proof. unfold poisonRemote. keeps_walk quiet_leaf. Qed.

Lemma quiet_check cfg m : keeps quiet (check_manifest cfg m : M (Session A) ()).
Proof. intros s r s' [_ E]%check_adapter. by apply quiet_same. Qed.

Lemma quiet_manifest env cfg reason opts :
  keeps quiet (loadOrCreateManifest env cfg reason opts : M (Session A) _).
Proof.
  unfold loadOrCreateManifest, obtain_manifest, createBootstrapManifest.
  keeps_walk ltac:(first [quiet_leaf | apply quiet_poison | apply quiet_check]).
Qed.

Lemma quiet_doLoad env cfg reason force opts pc :
  keeps quiet (doLoadOrCreateManifest env cfg reason force opts pc : M (Session A) _).
Proof. unfold doLoadOrCreateManifest. keeps_walk ltac:(first [quiet_leaf | apply quiet_manifest]). Qed.

Lemma quiet_apply cfg st e : keeps quiet (apply_entry cfg st e : M (Session A) _).
Proof.
  intros s r s'. unfold apply_entry. destruct (applyChangeEntry _ _ _ _) as [r0 t]. intros [= _ <-].
  unfold quiet, store_quiet, store_getMeta. cbn [ss_local set_local set_tables].
  by destruct (write_through_frame t (row_refs (ce_ops e)) (ss_local s)) as (-> & -> & _ & ->).
Qed.
Lemma quiet_affected rows : keeps quiet (emitAffectedRows rows : M (Session A) _).
Proof.
  apply keeps_for_each; [apply _|]. intros row _. keeps_walk quiet_leaf.
Qed.

Lemma quiet_process env cfg st f p : keeps quiet (process_file env cfg st f p : M (Session A) _).
Proof.
  unfold process_file, store_affected.
  keeps_walk ltac:(first [quiet_leaf | apply quiet_apply | apply quiet_affected]).
Qed.
Lemma quiet_pull_file env cfg st f p : keeps quiet (pull_file env cfg st f p : M (Session A) _).
Proof.
  unfold pull_file.
  keeps_walk ltac:(first [apply quiet_process | quiet_leaf | apply quiet_poison]).
Qed.
Lemma quiet_pull_files env cfg st files p : keeps quiet (pull_files env cfg st files p : M (Session A) _).
Proof.
  revert p. induction files as [|f files IH]; intros p; simpl; [apply keeps_ret; apply _|].
  keeps_walk ltac:(first [apply quiet_pull_file | apply IH]).
Qed.
Lemma quiet_trace_head cfg : keeps quiet (trace_head cfg : M (Session A) ()).
Proof. unfold trace_head. keeps_walk quiet_leaf. Qed.
Lemma quiet_list_changes cfg : keeps quiet (list_changes cfg : M (Session A) _).
Proof. unfold list_changes. keeps_walk quiet_leaf. Qed.
End frame.

(** ** Which files are merged *)
Lemma unseen_names led S files n :
  n ∈ fe_name <$> unseen_files led S files ↔
    n ∈ fe_name <$> files ∧ n ∉ S ∧ is_Some (changeFileHlc n) ∧ n ∉ seenChangeFiles led.
Proof.
  revert S. induction files as [|f files IH]; intros S; simpl.
  { split; [by intros ?%not_elem_of_nil|by intros [?%not_elem_of_nil _]]. }
  assert (changeFileHlc "head.json" = None) as Hhead by done.
  rewrite elem_of_cons. destruct (String.eqb_spec (fe_name f) "head.json") as [Eh|Hh]; simpl.
  { rewrite IH, Eh. split; [tauto|]. intros ([->|?] & ? & [h Hh] & ?); [congruence|eauto]. }
  case_bool_decide as HS; simpl.
  { rewrite IH. split; [tauto|]. intros ([->|?] & ? & ?); [done|tauto]. }
  unfold isUnseenChange, hasSeen. destruct (decide (n = fe_name f)) as [->|Hne].
  - destruct (changeFileHlc (fe_name f)) as [h|] eqn:Ehlc.
    + rewrite bool_decide_true by eauto. case_bool_decide as Hseen; simpl;
        rewrite ?elem_of_cons, IH, not_elem_of_union, not_elem_of_singleton; [tauto|].
      split; [intros [_|?]|]; [by eauto 10|tauto|tauto].
    + rewrite bool_decide_false by (intros [? ?]; done). simpl. rewrite IH.
      split; intros (_ & _ & [? ?] & _); congruence.
  - assert (n ∈ fe_name <$> unseen_files led ({[fe_name f]} ∪ S) files ↔
      (n = fe_name f ∨ n ∈ fe_name <$> files) ∧ n ∉ S ∧ is_Some (changeFileHlc n) ∧
      n ∉ seenChangeFiles led) as Hrest.
    { rewrite IH, not_elem_of_union, not_elem_of_singleton. tauto. }
    case_match; simpl; [rewrite elem_of_cons|]; rewrite Hrest; tauto.
Qed.

Lemma unseen_nodup led S files : NoDup (fe_name <$> unseen_files led S files).
Proof.
  revert S. induction files as [|f files IH]; intros S; simpl; [constructor|].
  case_match; [apply IH|]. case_match; [|apply IH]. simpl. apply list.NoDup_cons. split; [|apply IH].
  rewrite unseen_names, not_elem_of_union, not_elem_of_singleton. tauto.
Qed.

Lemma load_quiet l l' : store_quiet l l' → load l' = load l.
Proof. intros (E & _). by apply load_agree. Qed.

Section receipts.
Context `{Platform} {A : Type} `{HA : !StorageAdapter A}.

Lemma process_ledger env cfg st f p (s : Session A) p' s' :
  process_file env cfg st f p s = (Ok p', s') →
  generation (ps_ledger p') = generation (ps_ledger p) ∧
  seenChangeFiles (ps_ledger p') = {[fe_name f]} ∪ seenChangeFiles (ps_ledger p).
Proof.
  unfold process_file. intros (raw & s1 & _ & E)%bind_ok_inv.
  apply bind_ok_inv in E as (entry & s3 & _ & E).
  apply bind_ok_inv in E as (u & s4 & _ & E). apply bind_ok_inv in E as (affected & s5 & _ & E).
  apply bind_ok_inv in E as (u' & s6 & _ & E). rewrite lift_bind in E.
  destruct (observe (ps_ledger p) (fe_name f) (ce_hlc entry)) as [[late led]|] eqn:Eo; [|done].
  apply bind_ok_inv in E as (u'' & s7 & _ & E). injection E as <- <-.
  by apply observe_ok in Eo as (? & ? & _).
Qed.

Lemma pull_files_ledger env cfg st files p (s : Session A) p' s' :
  pull_files env cfg st files p s = (Ok p', s') →
  generation (ps_ledger p') = generation (ps_ledger p) ∧
  seenChangeFiles (ps_ledger p') = list_to_set (fe_name <$> files) ∪ seenChangeFiles (ps_ledger p).
Proof.
  revert p s. induction files as [|f files IH]; intros p s; simpl.
  { intros [= <- <-]. split; [done|set_solver]. }
  intros (p1 & s1 & E1 & E2)%bind_ok_inv. apply IH in E2 as [Hg Hs]. rewrite Hg, Hs. clear IH Hg Hs.
  unfold pull_file, catch in E1. destruct (process_file env cfg st f p s) as [[p0|e] s0] eqn:E.
  - injection E1 as <- <-. apply process_ledger in E as [Hg Hs]. rewrite Hg, Hs.
    split; [done|]. by rewrite union_assoc_L, (union_comm_L {[fe_name f]}).
  - by apply bind_ok_inv in E1 as (? & ? & _ & (? & ? & _ & ?)%bind_ok_inv).
Qed.

(** The merge of one entry, in the session: [cached_merge] on its tables and store. *)
Lemma emitAffected_ok rows (s : Session A) : ∃ s', emitAffectedRows rows s = (Ok tt, s') ∧
  ss_local s' = ss_local s ∧ ss_tables s' = ss_tables s.
Proof.
  unfold emitAffectedRows. revert s. induction rows as [|row rows IH]; intros s; [by exists s|].
  cbn [for_each]. unfold mbind at 1, M_bind at 1. unfold mbind at 1, M_bind at 1. cbn [modify].
  set (s1 := set_knownTables _ s). destruct (rm_deleted (_meta row)); cbn [emit modify];
    [destruct (IH (add_event (RowDelete (rm_table (_meta row)) (rm_rowId (_meta row))) s1)) as (s' & ? & ? & ?)
    |destruct (IH (add_event (RowChange (rm_table (_meta row)) (rm_rowId (_meta row)) row) s1)) as (s' & ? & ? & ?)]; by exists s'.
Qed.
Lemma merge_steps cfg st entry (s : Session A) :
  let '(r, s') := (ensureRowsCached (ce_ops entry);; affected ← apply_entry cfg st entry; store_affected affected;; mret affected) s in
  cached_merge (schema_version (cs_manifest st)) (cf_schema cfg) (ce_ops entry) (ss_tables s) (ss_local s) =
    (r, ss_tables s', ss_local s').
Proof.
  unfold cached_merge, ensureRowsCached, apply_entry, applyChangeEntry, mbind, M_bind. cbn [modify ss_tables ss_local set_tables].
  destruct (applyChanges _ _ _ _) as [[[|row rows]|e] T2]; cbn [ss_manifest]; [done| |done].
  unfold store_affected, mbind, M_bind, loc. cbn [modify ss_local set_local].
  destruct (emitAffected_ok (row :: rows) (set_local (putRows (row :: rows) (foldl (write_through T2) (ss_local s) (row_refs (ce_ops entry))))
    (set_local (foldl (write_through T2) (ss_local s) (row_refs (ce_ops entry))) (set_tables T2
      (set_tables (foldl (cache_row (ss_local s)) (ss_tables s) (row_refs (ce_ops entry))) s))))) as (s' & E & El & Et).
  cbn [ss_local set_local set_tables] in *. rewrite E. cbn. by rewrite El, Et.
Qed.

(** Committing the receipts of a finished merge. *)
Lemma merge_listing_spec env cfg st h0 led files (s : Session A) r s' :
  load (ss_local s) = led → merge_listing env cfg st h0 led files s = (r, s') →
  match r with
  | Throw _ => quiet s s'
  | Ok _ =>
      (∀ n, n ∈ durable_seen (ss_local s') ↔
         n ∈ durable_seen (ss_local s) ∨ (n ∈ fe_name <$> files ∧ is_Some (changeFileHlc n))) ∧
      ls_outbox (ss_local s') = ls_outbox (ss_local s) ∧
      ls_pendingBatch (ss_local s') = ls_pendingBatch (ss_local s)
  end.
Proof.
  intros Hled. unfold merge_listing. set (unseen := unseen_files led ∅ _).
  unfold mbind at 1, M_bind at 1.
  destruct (pull_files env cfg st unseen (mkPull h0 led 0) s) as [[p|e] s1] eqn:E;
    pose proof (quiet_pull_files _ _ _ _ _ _ _ _ E) as Hq; [|by intros [= <- <-]].
  apply pull_files_ledger in E as [Hgen Hseen]. cbn [ps_ledger] in Hgen, Hseen.
  rewrite loc_bind. pose proof (load_quiet _ _ Hq) as Hload.
  destruct (persist (ps_ledger p) (ss_local s1)) as [rp l1] eqn:Ep. pose proof Ep as Ep'.
  apply persist_spec in Ep as [(_ & _ & Hne)|(-> & _ & _ & Hdur)].
  { destruct Hne. rewrite Hgen, <- Hled, <- Hload. apply load_generation. }
  rewrite loc_bind. cbn [modify]. rewrite emit_bind. intros [= <- <-].
  cbn [ss_local add_event set_local]. split.
  - intros n.
    assert (durable_seen (store_setMeta "hlc" (VStr (hlcSerialize (ps_hlc p))) l1) = durable_seen l1) as ->.
    { unfold durable_seen. f_equal. apply load_agree.
      by apply (@getMeta_setMeta_ne _ memory_meta_store "hlc" OBSERVATION_META_KEY). }
    rewrite Hdur, Hseen. unfold durable_seen. rewrite Hload, Hled.
    rewrite !elem_of_union, elem_of_list_to_set. unfold unseen. rewrite unseen_names.
    assert (fe_name <$> js_sort compare_entries files ≡ₚ fe_name <$> files) as Hperm
      by by rewrite js_sort_perm.
    rewrite Hperm. destruct (decide (n ∈ seenChangeFiles led)); pose proof (not_elem_of_empty (C:=gset string) n); tauto.
  - unfold persist in Ep'. destruct (negb _); [done|]. injection Ep' as <-.
    destruct Hq as (_ & Ho & Hp). by rewrite <- Ho, <- Hp.
Qed.
End receipts.

Section pull_spec.
Context `{Platform} {A : Type} `{HA : !StorageAdapter A}.

(** What comes before the listing. *)
Definition prelude env cfg : M (Session A) () :=
  doLoadOrCreateManifest env cfg "pull" false (mkLoadOptions true (negb (cf_reader cfg))) true;; trace_head cfg.

(** How a pull can go: it fails and changes neither receipts nor queued work, or it finds
    nothing to merge, or it merges the listing of the changes folder. *)
Lemma pull_cases env cfg (s : Session A) r s' : pull env cfg s = (r, s') →
  match r with
  | Throw _ => quiet s s'
  | Ok h =>
      ∃ s0, prelude env cfg (add_event SyncStart s) = (Ok tt, s0) ∧ quiet s s0 ∧
        match listFiles (changesFolder (cf_remotePath cfg)) (ss_adapter s0) with
        | (Throw e, _) => isRemoteAccessError e = false ∧ quiet s s'
        | (Ok files, a') =>
            merge_listing env cfg (codecState cfg s) (ss_hlc s) (load (ss_local s)) files (set_adapter a' s0) = (Ok h, s')
        end
  end.
Proof.
  unfold pull. rewrite gets_bind, emit_bind. unfold catch. set (s0' := add_event SyncStart s).
  assert (quiet s s0') as Hq0 by by apply quiet_same. assert (codecState cfg s0' = codecState cfg s) as Hst by done.
  unfold prelude, mbind, M_bind.
  destruct (doLoadOrCreateManifest env cfg "pull" false _ true s0') as [[b|e1] s2] eqn:E1; apply quiet_doLoad in E1.
  2: { intros [= <- <-]. etrans; [exact Hq0|]. exact E1. }
  unfold loc at 1, gets. set (led := load (ss_local s2)). replace (set_local (ss_local s2) s2) with s2 by by destruct s2.
  destruct (trace_head cfg s2) as [[[]|e2] s3] eqn:E2; apply quiet_trace_head in E2.
  2: { intros [= <- <-]. etrans; [exact Hq0|]. etrans; [exact E1|]. exact E2. }
  assert (quiet s s3) as Hq3 by (etrans; [exact Hq0|]; by etrans).
  assert (led = load (ss_local s)) as Hload by (apply load_quiet; etrans; [exact Hq0|exact E1]).
  unfold list_changes, catch. unfold mbind, M_bind, remote.
  destruct (listFiles _ (ss_adapter s3)) as [[files|err] a'] eqn:El; cbn [mret M_ret].
  - rewrite Hload. destruct (merge_listing _ _ _ _ _ files _) as [[h|e] s4] eqn:Em.
    + intros [= <- <-]. exists s3. rewrite El. by split_and!.
    + intros [= <- <-]. apply merge_listing_spec in Em; [|cbn; by apply load_quiet].
      etrans; [exact Hq3|]. exact Em.
  - destruct (isRemoteAccessError err) eqn:Ea.
    + intros [= <- <-]. exact Hq3.
    + intros [= <- <-]. exists s3. rewrite El. by split_and!.
Qed.
Lemma pull_keeps_queue env cfg (s : Session A) r s' : pull env cfg s = (r, s') →
  ls_outbox (ss_local s') = ls_outbox (ss_local s) ∧ ls_pendingBatch (ss_local s') = ls_pendingBatch (ss_local s).
Proof.
  intros E%pull_cases. destruct r as [h|e]; [|by destruct E as (_ & ? & ?)]. destruct E as (s0 & _ & Hq & E).
  destruct (listFiles _ _) as [[files|e] a']; [|by destruct E as (_ & _ & ? & ?)].
  apply merge_listing_spec in E as (_ & Ho & Hp); [|by apply load_quiet]. destruct Hq as (_ & Hq1 & Hq2).
  by split; [etrans; [exact Ho|]|etrans; [exact Hp|]].
Qed.
End pull_spec.

(** ** Properties *)

(** C4: A pull commits exactly what it merged.  A pull that fails, at whatever point, leaves the receipts
    and the queued local changes as they were, so every file will be tried
    again.  A pull that returns has read the manifest and the head and then listed the changes folder: if that
    listing failed, with anything but an access decision, there was nothing to merge and the receipts are as they were; if it succeeded, the receipts
    are those there were and one for every change file of the listing, and nothing else.  Queued local
    changes are not touched. *)
Theorem pull_receipts_exact `{Platform} {A : Type} `{!StorageAdapter A} (env : Env) (cfg : Config)
    (s s' : Session A) (r : result HLC) :
  pull env cfg s = (r, s') →
  ls_outbox (ss_local s') = ls_outbox (ss_local s) ∧
  ls_pendingBatch (ss_local s') = ls_pendingBatch (ss_local s) ∧
  match r with
  | Throw _ => durable_seen (ss_local s') = durable_seen (ss_local s)
  | Ok _ =>
      ∃ s0, (doLoadOrCreateManifest env cfg "pull" false (mkLoadOptions true (negb (cf_reader cfg))) true;; trace_head cfg)
              (add_event SyncStart s) = (Ok tt, s0) ∧
        match (listFiles (changesFolder (cf_remotePath cfg)) (ss_adapter s0)).1 with
        | Throw e => isRemoteAccessError e = false ∧ durable_seen (ss_local s') = durable_seen (ss_local s)
        | Ok files =>
            ∀ n, n ∈ durable_seen (ss_local s') ↔
              n ∈ durable_seen (ss_local s) ∨ (n ∈ fe_name <$> files ∧ is_Some (changeFileHlc n))
        end
  end.
Proof.
  intros E. destruct (pull_keeps_queue _ _ _ _ _ E) as [Ho Hp]. split; [done|]. split; [done|].
  apply pull_cases in E. destruct r as [h|e].
  - destruct E as (s0 & E0 & Hq & E). pose proof (load_quiet _ _ Hq) as Hl0. exists s0. split; [exact E0|].
    destruct (listFiles _ _) as [[files|e] a'] eqn:El; cbn [fst].
    + apply merge_listing_spec in E as (Hn & _); [|done].
      intros n. rewrite Hn. unfold durable_seen. cbn [ss_local set_adapter]. by rewrite Hl0.
    + destruct E as [Ha Hl%load_quiet]. split; [done|]. unfold durable_seen. by rewrite Hl.
  - apply load_quiet in E. unfold durable_seen. by rewrite E.
Qed.

(** A second device pulls what the first has published. *)
Definition pull_session : Session (@MemoryAdapter test_platform) :=
  connected_session (ss_adapter (fo_session first_flush)) emptyStore "dev2".
Definition first_pull : result HLC * Session (@MemoryAdapter test_platform) :=
  @pull test_platform _ _ test_env (test_config "dev2") pull_session.

Lemma pull_receipts_exact_witness :
  is_ok first_pull.1 = true ∧
  bool_decide (entry_name first_change ∈ durable_seen (ss_local first_pull.2)) = true ∧
  ls_outbox (ss_local first_pull.2) = [].
Proof.
  split; [vm_cast_no_check (eq_refl true)|]. split; [vm_cast_no_check (eq_refl true)|].
  exact (proj1 (@pull_receipts_exact test_platform _ memory_storage test_env (test_config "dev2")
    pull_session first_pull.2 first_pull.1 (surjective_pairing _))).
Defined.

(** ** The order of merging *)

(** The order on the names a changes folder holds: changes by stamp, the head last. *)
Definition folder_name (n : string) : Prop := well_named n ∨ n = "head.json".
Definition folder_le (a b : string) : Prop :=
  name_le a b ∨ b = "head.json".

Lemma digit_lt_head n h : changeFileHlc n = Some h → canonical h → str_ltb n "head.json" = true.
Proof.
  intros Hn (c & Hv & Eh). destruct (hlc_valid_inv c Hv) as (t & k & nid & -> & Ht & Hk).
  destruct (serialize_shape t k nid Ht Hk) as (dt & dc & E & Hdt & _ & _ & _ & Hlen & _).
  assert (∃ d ds, dt = d :: ds ∧ (0 ≤ d < 10)%Z) as (d & ds & -> & Hd).
  { destruct dt as [|d ds]; [exfalso; by destruct (t <? 10 ^ 15)%Z; simpl in Hlen; lia|].
    exists d, ds. split; [done|]. unfold digits_ok in Hdt. rewrite list.Forall_forall in Hdt.
    apply Hdt. left. }
  assert (∃ rest, n = h +:+ rest) as [rest ->].
  { unfold changeFileHlc in Hn. destruct (lastIndexOf n "-chg_" =? -1)%Z; [done|].
    injection Hn as <-. apply slice_prefix. }
  rewrite Eh, E. cbn [dstr]. rewrite !str_app_cons. unfold str_ltb.
  assert (d = 0 ∨ d = 1 ∨ d = 2 ∨ d = 3 ∨ d = 4 ∨ d = 5 ∨ d = 6 ∨ d = 7 ∨ d = 8 ∨ d = 9)%Z as Hcase by lia.
  repeat destruct Hcase as [-> |Hcase]; try done. by subst.
Qed.

Lemma by_name_only a b : changeFileHlc a = None ∨ changeFileHlc b = None →
  compareChangeFiles a b = if str_ltb a b then Num (-1) else if str_ltb b a then Num 1 else Num 0.
Proof.
  intros [E|E]; unfold compareChangeFiles; rewrite E; [done|]. simpl.
  by destruct (opt_truthy (changeFileHlc a)).
Qed.

Lemma str_ltb_asym a b : str_ltb a b = true → str_ltb b a = false.
Proof.
  unfold str_ltb. rewrite (str_compare_antisym b a). by destruct (String.compare a b).
Qed.
Lemma str_ltb_irrefl a : str_ltb a a = false.
Proof. unfold str_ltb. by rewrite str_compare_refl. Qed.

Lemma folder_le_lt a b : folder_name a → folder_name b →
  num_ltb (compareChangeFiles a b) (Num 0) = true → folder_le a b.
Proof.
  intros [Ha| ->] [Hb| ->] Hlt; [left; by apply name_le_lt|by right| |by right].
  destruct Hb as (h & Eh & Hh). rewrite by_name_only in Hlt by by left.
  pose proof (digit_lt_head b h Eh Hh) as Hd. by rewrite (str_ltb_asym _ _ Hd), Hd in Hlt.
Qed.
Lemma folder_le_nlt a b : folder_name a → folder_name b →
  num_ltb (compareChangeFiles a b) (Num 0) = false → folder_le b a.
Proof.
  intros [Ha| ->] [Hb| ->] Hlt; [left; by apply name_le_nlt| |by right|by right].
  destruct Ha as (h & Eh & Hh). rewrite by_name_only in Hlt by by right.
  by rewrite (digit_lt_head a h Eh Hh) in Hlt.
Qed.
Lemma name_le_head a : ¬ name_le "head.json" a.
Proof.
  unfold name_le. assert (changeFileHlc "head.json" = None) as -> by done. by intros [].
Qed.
Lemma folder_le_trans a b c : folder_name a → folder_name b → folder_name c →
  folder_le a b → folder_le b c → folder_le a c.
Proof.
  intros Ha Hb Hc [Hab| ->] [Hbc| ->]; [|by right|by destruct (name_le_head c)|by right].
  destruct Ha as [Ha| ->]; [|by destruct (name_le_head b)].
  destruct Hb as [Hb| ->]; [|by destruct (name_le_head c)].
  destruct Hc as [Hc| ->]; [|by right]. left. by apply (name_le_trans a b c).
Qed.
Lemma folder_le_antisym a b : folder_name a → folder_name b →
  folder_le a b → folder_le b a → a = b.
Proof.
  intros Ha Hb [Hab| ->] [Hba|Eb]; [| |by destruct (name_le_head a)|congruence].
  - destruct Ha as [Ha| ->]; [|by destruct (name_le_head b)].
    destruct Hb as [Hb| ->]; [|by destruct (name_le_head a)]. by apply name_le_antisym.
  - subst a. by destruct (name_le_head b).
Qed.

(** Sorting entries sorts their names. *)
Lemma sort_names files :
  fe_name <$> js_sort compare_entries files = js_sort compareChangeFiles (fe_name <$> files).
Proof.
  assert (∀ f l, fe_name <$> sort_insert compare_entries f l =
                 sort_insert compareChangeFiles (fe_name f) (fe_name <$> l)) as Hins.
  { intros f l. induction l as [|g l IH]; simpl; [done|]. unfold compare_entries at 1.
    destruct (num_ltb _ _); simpl; [done|]. by f_equal. }
  unfold js_sort. change (@nil string) with (fe_name <$> []). generalize (@nil FileEntry).
  induction files as [|f files IH]; intros acc; [done|]. cbn [foldl fmap list_fmap].
  by rewrite <- Hins, <- IH.
Qed.

(** Filtering entries filters their names. *)
Fixpoint unseen_of_names (led : Ledger) (S : gset string) (names : list string) : list string :=
  match names with
  | [] => []
  | n :: names =>
      if String.eqb n "head.json" || bool_decide (n ∈ S) then unseen_of_names led S names
      else
        let rest := unseen_of_names led ({[n]} ∪ S) names in
        if bool_decide (is_Some (changeFileHlc n)) && isUnseenChange led n then n :: rest else rest
  end.
Lemma unseen_files_names led S files :
  fe_name <$> unseen_files led S files = unseen_of_names led S (fe_name <$> files).
Proof.
  revert S. induction files as [|f files IH]; intros S; simpl; [done|].
  case_match; [apply IH|]. case_match; simpl; by rewrite IH.
Qed.

Lemma unseen_sublist led S names : sublist (unseen_of_names led S names) names.
Proof.
  revert S. induction names as [|n names IH]; intros S; simpl; [constructor|].
  repeat case_match; try (by apply sublist_cons); by apply sublist_skip.
Qed.

Lemma StronglySorted_sublist {B} (R : B → B → Prop) l l' :
  sublist l l' → StronglySorted R l' → StronglySorted R l.
Proof.
  induction 1 as [|x l l' Hs IH|x l l' Hs IH]; intros Hss; [done|..];
    apply StronglySorted_inv in Hss as [Hss Hx]; [|by apply IH].
  constructor; [by apply IH|]. rewrite list.Forall_forall in Hx |- *. intros y Hy. apply Hx.
  by eapply elem_of_sublist.
Qed.

Definition merge_order (led : Ledger) (files : list FileEntry) : list string :=
  fe_name <$> unseen_files led ∅ (js_sort compare_entries files).

(** The order of merging does not depend on the listing.  For a folder of change files and the
    head, two listings with the same names in any order (and any repetition pattern
    that is a permutation) are merged in the same order: each file without a
    receipt exactly once, by increasing stamp. *)
Theorem pull_order_listing_independent (led : Ledger) (files1 files2 : list FileEntry) :
  Forall folder_name (fe_name <$> files1) → fe_name <$> files1 ≡ₚ fe_name <$> files2 →
  merge_order led files1 = merge_order led files2 ∧
  NoDup (merge_order led files1) ∧ StronglySorted folder_le (merge_order led files1) ∧
  (∀ n, n ∈ merge_order led files1 ↔
     n ∈ fe_name <$> files1 ∧ is_Some (changeFileHlc n) ∧ n ∉ seenChangeFiles led).
Proof.
  intros Hn Hp. unfold merge_order. split; [|split; [apply unseen_nodup|split]].
  - rewrite !unseen_files_names, !sort_names. f_equal.
    eapply (js_sort_unique compareChangeFiles folder_name folder_le folder_le_lt folder_le_nlt
              folder_le_trans); [apply folder_le_antisym|done|done].
  - rewrite unseen_files_names, sort_names. eapply StronglySorted_sublist; [apply unseen_sublist|].
    by apply (js_sort_sorted compareChangeFiles folder_name folder_le folder_le_lt folder_le_nlt
                folder_le_trans).
  - intros n. rewrite unseen_names.
    assert (fe_name <$> js_sort compare_entries files1 ≡ₚ fe_name <$> files1) as ->
      by by rewrite js_sort_perm.
    pose proof (not_elem_of_empty (C:=gset string) n). tauto.
Qed.

Definition listed_file (n : string) : FileEntry := mkFile n ("/mesh/changes/" +:+ n) 1 "now".
Lemma sample_named : well_named sample_file ∧ well_named other_file.
Proof.
  split; eexists; (split; [by vm_compute|]); apply canonicalb_spec; by vm_compute.
Qed.

Lemma pull_order_listing_independent_witness :
  merge_order (load emptyStore) [listed_file "head.json"; listed_file other_file; listed_file sample_file] =
  merge_order (load emptyStore) [listed_file sample_file; listed_file "head.json"; listed_file other_file] ∧
  merge_order (load emptyStore) [listed_file "head.json"; listed_file other_file; listed_file sample_file] =
    [sample_file; other_file].
Proof.
  split; [|by vm_compute].
  refine (proj1 (pull_order_listing_independent (load emptyStore) _ _ _ _)).
  - apply Forall_cons_2; [by right|]. apply Forall_cons_2; [left; apply sample_named|].
    apply Forall_cons_2; [left; apply sample_named|constructor].
  - cbn. etrans; [apply Permutation_skip, perm_swap|]. apply perm_swap.
Defined.
