(* ===== verification/Frame.v ===== *)
(** * Which remote objects a step can touch

    [touches P] relates two sessions whose remotes differ only at paths
    satisfying [P].  Every protocol step is built from adapter calls, so its frame
    follows from the frames of the calls; this file has those, and the frame
    of a pull: only the manifest files of a bootstrap. *)

From S2P Require Import Prelude JsString Hlc Values JsMap LocalStore Wire Crdt.
From S2P Require Import Observation Adapter Codec Session MergeStore Manifest Flush Pull.
From Stdlib Require String.

Open Scope stdpp_scope.

Section frame.
Context `{Platform} {A : Type} `{HA : !StorageAdapter A}.

Definition touches (P : string → Prop) (s s' : Session A) : Prop :=
  ∀ p, ¬ P p → filesOf (ss_adapter s') !! p = filesOf (ss_adapter s) !! p.

#[global] Instance touches_preorder P : PreOrder (touches P).
Proof. split; [done|]. intros s1 s2 s3 H12 H23 p Hp. by rewrite H23, H12. Qed.

Lemma touches_same P s s' : filesOf (ss_adapter s') = filesOf (ss_adapter s) → touches P s s'.
Proof. intros E p _. by rewrite E. Qed.
Lemma touches_weaken {B} (P Q : string → Prop) (m : M (Session A) B) :
  (∀ p, P p → Q p) → keeps (touches P) m → keeps (touches Q) m.
Proof. intros HPQ Hm s r s' E p Hp. eapply Hm; [done|]. auto. Qed.

Context (P : string → Prop).

Lemma touches_modify f : (∀ s, ss_adapter (f s) = ss_adapter s) →
  keeps (touches P) (modify f : M (Session A) ()).
Proof. intros Hf s r s' [= _ <-]. apply touches_same. by rewrite Hf. Qed.
Lemma touches_emit e : keeps (touches P) (emit e : M (Session A) ()).
Proof. by apply touches_modify. Qed.
Lemma touches_loc {B} (m : M MemoryLocalStore B) : keeps (touches P) (loc m : M (Session A) B).
Proof.
  intros s r s'. unfold loc. destruct (m (ss_local s)). intros [= _ <-]. by apply touches_same.
Qed.
Lemma touches_remote {B} (m : M A B) :
  (∀ a r a', m a = (r, a') → filesOf a' = filesOf a) → keeps (touches P) (remote m).
Proof.
  intros Hm s r s'. unfold remote. destruct (m (ss_adapter s)) as [r0 a] eqn:E. intros [= _ <-].
  apply touches_same. by eapply Hm.
Qed.
Lemma touches_read p : keeps (touches P) (remote (readFile p)).
Proof. apply touches_remote. intros a r a' [E _]%read_files. done. Qed.
Lemma touches_list p : keeps (touches P) (remote (listFiles p)).
Proof. apply touches_remote. intros a r a' [E _]%list_files. done. Qed.
Lemma touches_ensure p : keeps (touches P) (remote (ensureFolder p)).
Proof. apply touches_remote. intros a r a'. apply ensure_files. Qed.
Lemma touches_readJson p : keeps (touches P) (remote (readJson p)).
Proof. apply touches_remote, readJson_files. Qed.
Lemma readJsonIfExists_files p a r a' :
  readJsonIfExists p a = (r, a') → filesOf a' = filesOf a.
Proof.
  unfold readJsonIfExists, catch, mbind, M_bind. destruct (readJson p a) as [[d|e] a1] eqn:E;
    intros [= _ <-]; by apply readJson_files in E.
Qed.
Lemma touches_readJsonIfExists p : keeps (touches P) (remote (readJsonIfExists p)).
Proof. apply touches_remote, readJsonIfExists_files. Qed.
Lemma touches_write p d : P p → keeps (touches P) (remote (writeFile p d)).
Proof.
  intros Hp s r s'. unfold remote. destruct (writeFile p d (ss_adapter s)) as [r0 a] eqn:E.
  intros [= _ <-] q Hq. simpl. assert (p ≠ q) by congruence.
  destruct r0 as [[]|e]; [apply write_ok in E as ->|apply write_throw in E as [-> | ->]];
    by rewrite ?lookup_insert_ne.
Qed.
Lemma touches_writeJson p d : P p → keeps (touches P) (remote (writeJson p d)).
Proof. apply touches_write. Qed.
Lemma touches_delete p : P p → keeps (touches P) (remote (deleteFile p)).
Proof.
  intros Hp s r s'. unfold remote. destruct (deleteFile p (ss_adapter s)) as [r0 a] eqn:E.
  intros [= _ <-] q Hq. simpl. assert (p ≠ q) by congruence.
  destruct r0 as [[]|e]; [apply delete_ok in E as ->|apply delete_throw in E as [-> | ->]];
    by rewrite ?lookup_delete_ne.
Qed.
Lemma touches_poison e p : keeps (touches P) (poisonRemote e p : M (Session A) error).
Proof.
  unfold poisonRemote. keeps_walk ltac:(apply touches_emit).
  intros s r s' [= _ <-]. apply touches_same, reset_files.
Qed.
End frame.

(** The calls of a step, other than the objects it writes or deletes. *)
Ltac touches_leaf := first
  [ apply touches_emit | apply touches_loc | apply touches_read | apply touches_list
  | apply touches_ensure | apply touches_readJson | apply touches_readJsonIfExists
  | apply touches_poison | by apply touches_modify ].

Section pull_frame.
Context `{Platform} {A : Type} `{HA : !StorageAdapter A}.

(** The manifest files: the pointer and the generations. *)
Definition manifest_path (root p : string) : Prop :=
  p = manifestPointer root ∨ ∃ generation, p = manifestFile root generation.

Lemma touches_bootstrap env cfg mesh lineage :
  keeps (touches (manifest_path (cf_remotePath cfg)))
    (createBootstrapManifest env cfg mesh lineage : M (Session A) _).
Proof.
  unfold createBootstrapManifest.
  keeps_walk ltac:(first [touches_leaf | apply touches_writeJson; unfold manifest_path; eauto]).
Qed.
Lemma touches_check P cfg m : keeps (touches P) (check_manifest cfg m : M (Session A) ()).
Proof. intros s r s' [E _]%check_adapter. apply touches_same. by rewrite E. Qed.
Lemma touches_load env cfg reason opts :
  keeps (touches (manifest_path (cf_remotePath cfg)))
    (loadOrCreateManifest env cfg reason opts : M (Session A) _).
Proof.
  unfold loadOrCreateManifest, obtain_manifest.
  keeps_walk ltac:(first [touches_leaf | apply touches_bootstrap | apply touches_check]).
Qed.
Lemma touches_doLoad env cfg reason force opts pc :
  keeps (touches (manifest_path (cf_remotePath cfg)))
    (doLoadOrCreateManifest env cfg reason force opts pc : M (Session A) _).
Proof.
  unfold doLoadOrCreateManifest. keeps_walk ltac:(first [touches_leaf | apply touches_load]).
Qed.

Lemma touches_apply P cfg st e : keeps (touches P) (apply_entry cfg st e : M (Session A) _).
Proof.
  intros s r s'. unfold apply_entry. destruct (applyChangeEntry _ _ _ _). intros [= _ <-].
  by apply touches_same.
Qed.
Lemma touches_affected P rows : keeps (touches P) (emitAffectedRows rows : M (Session A) _).
Proof. apply keeps_for_each; [apply _|]. intros row _. keeps_walk touches_leaf. Qed.
Lemma touches_pull_file P env cfg st f p :
  keeps (touches P) (pull_file env cfg st f p : M (Session A) _).
Proof.
  unfold pull_file, process_file, store_affected, ensureRowsCached.
  keeps_walk ltac:(first [touches_leaf | apply touches_apply | apply touches_affected]).
Qed.
Lemma touches_pull_files P env cfg st files p :
  keeps (touches P) (pull_files env cfg st files p : M (Session A) _).
Proof.
  revert p. induction files as [|f files IH]; intros p; simpl; [apply keeps_ret; apply _|].
  keeps_walk ltac:(first [apply touches_pull_file | apply IH]).
Qed.

(** A pull writes no remote object but the manifest it may have to create. *)
Lemma touches_pull env cfg :
  keeps (touches (manifest_path (cf_remotePath cfg))) (pull env cfg : M (Session A) _).
Proof.
  unfold pull, trace_head, list_changes, merge_listing.
  keeps_walk ltac:(first [touches_leaf | apply touches_doLoad | apply touches_pull_files]).
Qed.
End pull_frame.

(** ** Paths of different folders *)
Lemma folder_ne (root x y : string) : x ≠ y → root +:+ x ≠ root +:+ y.
Proof. by intros Hne ?%str_app_inj_l. Qed.

Lemma change_not_manifest root n : ¬ manifest_path root (changeFile root n).
Proof.
  unfold manifest_path, changeFile, changesFolder, manifestPointer, manifestFile.
  rewrite str_app_assoc. intros [E|[g E]]; by apply str_app_inj_l in E.
Qed.
