(* ===== verification/Compaction.v ===== *)
(** * Compaction and rehydration
    ([packages/core/src/core/compaction.ts])

    [compact] publishes the local store as a snapshot, points the manifest at it and
    then deletes the change files the snapshot covers and the superseded snapshots;
    [rehydrate] replaces the local state by the snapshot a manifest names.  The
    context objects [CompactContext] and [RehydrateContext] carry values captured by
    the engine before the call (manifest, codec state, clock) and callbacks
    ([pull], [reloadManifest]); here they are records and arguments.  Deletions
    that the code starts together ([Promise.allSettled]) are performed in order: they
    are on different paths and a failure of one does not stop the others. *)

From S2P Require Import Prelude JsString Hlc Values JsMap LocalStore Wire Crdt.
From S2P Require Import Observation Adapter Codec Session MergeStore Manifest Flush Pull Frame.
From Stdlib Require Import Ascii.
From Stdlib Require String.

Open Scope stdpp_scope.

(** ** Snapshot file names: [/^snapshot-\d+-.+\.json$/] *)
Definition endsWith (s suffix : string) : bool :=
  (String.length suffix <=? String.length s)%nat &&
  String.eqb (str_drop (String.length s - String.length suffix) s) suffix.

Definition is_digit (c : ascii) : bool := bool_decide (is_Some (digit_val 10 c)).
Definition line_terminator (c : ascii) : bool :=
  bool_decide (c = "010"%char) || bool_decide (c = "013"%char).

(** The longest prefix of digits is dropped; [None] when there is none. *)
Fixpoint drop_digits (s : string) : string :=
  match s with
  | String.String c s' => if is_digit c then drop_digits s' else s
  | String.EmptyString => s
  end.
Definition isSnapshotName (name : string) : bool :=
  startsWith name "snapshot-" &&
  (let rest := str_drop 9 name in
   let tail := drop_digits rest in
   negb (String.eqb tail rest) && startsWith tail "-" &&
   (let body := str_drop 1 tail in
    endsWith body ".json" && (5 <? String.length body)%nat &&
    str_forall (λ c, negb (line_terminator c)) (str_take (String.length body - 5) body))).

(** The store's records, seen from the session. *)
#[global] Program Instance session_meta_store `{Platform} {A : Type} : MetaStore (Session A) := {
  getMeta k s := store_getMeta k (ss_local s);
  setMeta k v s := set_local (store_setMeta k v (ss_local s)) s }.
Next Obligation. intros ?? k v s. exact (@getMeta_setMeta _ memory_meta_store k v (ss_local s)). Qed.
Next Obligation. intros ?? k k' v s Hne. exact (@getMeta_setMeta_ne _ memory_meta_store k k' v (ss_local s) Hne). Qed.

Section compaction.
Context `{Platform} {A : Type} `{!StorageOps A}.

(** ** Cleanup *)
Record SnapshotCleanupResult := mkCleanup {
  cl_attempted : nat; cl_deleted : nat; cl_failedPaths : list string; cl_error : option error }.

(** [Promise.allSettled(paths.map(deleteFile))]: whether each deletion was fulfilled. *)
Fixpoint settle_deletes (paths : list string) : M (Session A) (list bool) :=
  match paths with
  | [] => mret []
  | p :: paths =>
      ok ← catch (remote (deleteFile p);; mret true) (λ _, mret false);
      rest ← settle_deletes paths;
      mret (ok :: rest)
  end.

Definition failed_of (paths : list string) (settled : list bool) : list string :=
  (zip paths settled) ≫= λ po, if po.2 : bool then [] else [po.1].

Definition emit_cleanup (active : string) (r : SnapshotCleanupResult) : M (Session A) () :=
  emit (SnapshotCleanup active (cl_attempted r) (cl_deleted r) (cl_failedPaths r) (cl_error r)).

Definition superseded (activeSnapshotPath : string) (files : list FileEntry) : list string :=
  let activeName := slice_from activeSnapshotPath (lastIndexOf activeSnapshotPath "/" + 1) in
  fe_path <$> List.filter
    (λ f, isSnapshotName (fe_name f) && negb (String.eqb (fe_name f) activeName)) files.

Definition pruneSupersededSnapshots (remotePath activeSnapshotPath : string)
    : M (Session A) SnapshotCleanupResult :=
  listed ← catch (files ← remote (listFiles (mainlineFolder remotePath));
                  mret (inr (superseded activeSnapshotPath files)))
                 (λ cause, mret (inl cause));
  match listed with
  | inl cause =>
      let result := mkCleanup 0 0 [] (Some cause) in
      emit_cleanup activeSnapshotPath result;; mret result
  | inr candidates =>
      settled ← settle_deletes candidates;
      let failedPaths := failed_of candidates settled in
      let result := mkCleanup (length candidates) (length candidates - length failedPaths)
                      failedPaths None in
      when (0 <? length candidates)%nat (emit_cleanup activeSnapshotPath result);;
      mret result
  end.

(** ** Compaction *)
Record CompactContext := mkCompact {
  cc_manifest : Manifest; cc_codec : CodecState; cc_hlc : HLC; cc_retention : RetentionPolicy }.

(** The rows per table, as the object the code builds: tables and rows appear in
    the order of their first row, and a later row with the same id replaces an earlier one. *)
Definition group_row (tables : list (string * list (string * Row))) (row : Row)
    : list (string * list (string * Row)) :=
  let m := _meta row in
  map_set (rm_table m) (map_set (rm_rowId m) row (default [] (assoc (rm_table m) tables))) tables.
Definition snapshot_tables (rows : list Row) : list (string * list (string * Row)) :=
  foldl group_row [] rows.

Definition snapshotPath (remotePath serverId : string) (epoch : Z) : string :=
  mainlineFolder remotePath +:+ "/snapshot-" +:+ num_toString 10 (Num epoch) +:+ "-" +:+
  serverId +:+ ".json".

Definition build_snapshot (env : Env) (ctx : CompactContext) (covered : list string)
    (rows : list Row) : Snapshot :=
  let m := m_payload (cc_manifest ctx) in
  mkSnapshot (env_newId env "snap") (env_now env) (hlcSerialize (cc_hlc ctx)) (m_epoch m + 1)
    (m_schema m) (Some covered) (snapshot_tables rows).

Definition next_manifest (env : Env) (cfg : Config) (ctx : CompactContext) : Manifest :=
  let m := m_payload (cc_manifest ctx) in
  let payload :=
    mkManifestPayload (m_generation m + 1) (m_generation m) (cf_serverId cfg) (env_now env) 3
      (m_meshId m) (m_schema m) (m_encrypted m) (m_server m) (m_createdAt m) (m_epoch m + 1)
      (hlcSerialize (cc_hlc ctx))
      (Some (snapshotPath (cf_remotePath cfg) (cf_serverId cfg) (m_epoch m + 1))) None
      (Some (retention_input (cc_retention ctx)))
      (Some (default (Num 1) (m_lineage m))) in
  mkManifest payload (hashPayload payload).

(** Capture the store and publish: snapshot, manifest, pointer, in this order. *)
Definition publish (env : Env) (cfg : Config) (ctx : CompactContext) (covered : list string)
    : M (Session A) Manifest :=
  let root := cf_remotePath cfg in
  let next := next_manifest env cfg ctx in
  let generation := m_generation (m_payload next) in
  allRows ← loc (gets getAllRows);
  payload ← lift (encodeSnapshotPayload (cc_codec ctx) (build_snapshot env ctx covered allRows));
  remote (writeFile (snapshotPath root (cf_serverId cfg) (m_epoch (m_payload next))) payload);;
  remote (writeJson (manifestFile root generation) (DManifest next));;
  remote (writeJson (manifestPointer root)
            (DPointer (mkPointer generation (manifestFileName generation))));;
  loc (modify (store_setMeta "epoch" (VNum (Num (m_epoch (m_payload next))))));;
  mret next.

(** Delete what the published snapshot makes redundant. *)
Definition cleanup (cfg : Config) (covered : list string) (next : Manifest)
    : M (Session A) () :=
  let root := cf_remotePath cfg in
  _ ← settle_deletes ((λ n, changesFolder root +:+ "/" +:+ n) <$> covered);
  _ ← pruneSupersededSnapshots root
        (snapshotPath root (cf_serverId cfg) (m_epoch (m_payload next)));
  mret ().

Definition compact (env : Env) (cfg : Config) (ctx : CompactContext)
    (ctx_pull : M (Session A) ()) : M (Session A) Manifest :=
  if sv_managed (m_server (m_payload (cc_manifest ctx))) &&
     negb (String.eqb (cf_deviceId cfg) (cf_serverId cfg))
  then throw (JsError "Compaction is allowed only for the authorized server writer")
  else
    ctx_pull;;
    observation ← loc (gets load);
    let covered := capturedChangeFileNames observation in
    next ← publish env cfg ctx covered;
    cleanup cfg covered next;;
    mret next.

(** ** Rehydration *)
Record RehydrateContext := mkRehydrate {
  rc_codec : CodecState; rc_manifest : option Manifest; rc_hlc : HLC;
  rc_preservedMeta : list (string * jsval) }.

(** Put the preserved records back, then the snapshot's rows, counted. *)
Definition preserve_meta (preserved : list (string * jsval)) (l : MemoryLocalStore)
    : MemoryLocalStore :=
  foldl (λ l kv, match kv.2 with VUndefined => l | v => store_setMeta kv.1 v l end) l preserved.
Definition put_tables (tables : list (string * list (string * Row))) (l : MemoryLocalStore)
    : MemoryLocalStore :=
  foldl (λ l t, putRows t.2.*2 l) l tables.
Definition count_rows (tables : list (string * list (string * Row))) : nat :=
  foldl (λ n t, n + length t.2) 0 tables.

(** The callback that replaces the local state.  It also assigns [ctx.tables],
    a field of the context object that nothing reads; the engine's own merge
    cache stays as it is. *)
Definition replaceLocalState (ctx : RehydrateContext) (snap : Snapshot) : M (Session A) () :=
  loc (modify store_clearAll);;
  loc (modify (preserve_meta (rc_preservedMeta ctx)));;
  modify (set_knownTables (list_to_set (sn_tables snap).*1));;
  loc (modify (put_tables (sn_tables snap))).

(** The row count and the clock after the snapshot of [path] is in place. *)
Definition restore (cfg : Config) (ctx : RehydrateContext) (path : string)
    : M (Session A) (nat * HLC) :=
  data ← remote (readFile path);
  snap ← loc (decodeSnapshotPayload (rc_codec ctx) data path);
  restoreSnapshot (sn_hlc snap) (default [] (sn_coveredChangeFiles snap))
    (replaceLocalState ctx snap);;
  let hlc := if truthy (sn_hlc snap)
             then let h := hlcParse (sn_hlc snap) in mkHLC (ts h) (counter h) (cf_deviceId cfg)
             else rc_hlc ctx in
  loc (modify (store_setMeta "epoch" (VNum (Num (sn_epoch snap)))));;
  mret (count_rows (sn_tables snap), hlc).

Definition rehydrate_failed {B} (path : string) (err : error) : M (Session A) B :=
  emit (DecodeError err path "rehydrate");;
  poisoned ← poisonRemote err (Some path);
  emit (SyncError poisoned);;
  throw poisoned.

(** Restore from [path]; when that fails and the manifest has moved on, once
    more from the path it names now. *)
Definition restore_or_reload (cfg : Config) (ctx : RehydrateContext)
    (reloadManifest : M (Session A) (option Manifest)) (path : string)
    : M (Session A) (nat * HLC) :=
  catch (restore cfg ctx path)
    (λ firstError,
       refreshed ← catch reloadManifest (rehydrate_failed path);
       match opt_truthy (refreshed ≫= λ m, m_snapshotPath (m_payload m)) with
       | Some path' =>
           if String.eqb path' path then rehydrate_failed path firstError
           else catch (restore cfg ctx path') (rehydrate_failed path')
       | None => rehydrate_failed path firstError
       end).

Definition rehydrate (cfg : Config) (ctx : RehydrateContext)
    (reloadManifest : M (Session A) (option Manifest)) (ctx_pull : M (Session A) ())
    : M (Session A) HLC :=
  emit RehydrateStart;;
  match opt_truthy (rc_manifest ctx ≫= λ m, m_snapshotPath (m_payload m)) with
  | None =>
      emit (RehydrateComplete 0);;
      ctx_pull;;
      mret (rc_hlc ctx)
  | Some path =>
      '(rowCount, hlc) ← restore_or_reload cfg ctx reloadManifest path;
      emit (RehydrateComplete rowCount);;
      ctx_pull;;
      mret hlc
  end.
End compaction.

Example snapshot_names :
  (isSnapshotName <$> ["snapshot-3-srv.json"; "snapshot-12-a-b.json"; "snapshot--srv.json";
                       "snapshot-3-.json"; "snapshot-3.json"; "manifest-3.json"; "snapshot-3-x.jso"])
    = [true; true; false; false; false; false; false].
Proof. reflexivity. Qed.

(** ** What a compaction writes and deletes *)
Section compact_theory.
Context `{Platform} {A : Type} `{HA : !StorageAdapter A}.

Lemma touches_settle (P : string → Prop) paths :
  Forall P paths → keeps (touches P) (settle_deletes paths : M (Session A) _).
Proof.
  induction 1 as [|p paths Hp _ IH]; simpl; [apply keeps_ret; apply _|].
  keeps_walk ltac:(first [by apply touches_delete | apply IH]).
Qed.

(** The paths of superseded snapshots: in the mainline folder, not the active one. *)
Definition superseded_path (root active p : string) : Prop :=
  ∃ name, p = mainlineFolder root +:+ "/" +:+ name ∧ isSnapshotName name = true ∧
          name ≠ slice_from active (lastIndexOf active "/" + 1).

Lemma superseded_paths root active files p :
  (∀ f, f ∈ files → fe_path f = mainlineFolder root +:+ "/" +:+ fe_name f) →
  p ∈ superseded active files → superseded_path root active p.
Proof.
  intros Hf (f & -> & [Hin Hname]%list_elem_of_In%filter_In)%list_elem_of_fmap.
  apply andb_true_iff in Hname as [Hs Hne]. apply negb_true_iff, String.eqb_neq in Hne.
  exists (fe_name f). split; [apply Hf; by apply list_elem_of_In|done].
Qed.

Lemma mainline_no_slash root : endsWith_slash (mainlineFolder root) = false.
Proof.
  unfold endsWith_slash, mainlineFolder. rewrite str_length_app. simpl.
  replace (String.length root + 9 - 1) with (String.length root + 8) by lia.
  by rewrite str_get_app_r.
Qed.

Lemma touches_prune root active :
  keeps (touches (superseded_path root active))
    (pruneSupersededSnapshots root active : M (Session A) _).
Proof.
  intros s r s'. unfold pruneSupersededSnapshots. unfold mbind at 1, M_bind at 1, catch.
  rewrite remote_bind. destruct (listFiles _ (ss_adapter s)) as [[files|e] a] eqn:E.
  - pose proof (list_files _ _ _ _ E) as [Ef Hl]. intros Hrun.
    transitivity (set_adapter a s); [by apply touches_same|]. revert Hrun. simpl.
    apply (keeps_bind _ (settle_deletes _)).
    + apply touches_settle. apply list.Forall_forall. intros p. apply superseded_paths.
      intros f Hf. by eapply (Hl files); [apply mainline_no_slash|..].
    + intros settled. unfold emit_cleanup. keeps_walk touches_leaf.
  - apply list_files in E as [E _]. simpl. intros [= _ <-]. by apply touches_same.
Qed.

(** A publication that succeeds. *)
Lemma publish_ok env cfg ctx covered (s s' : Session A) next :
  publish env cfg ctx covered s = (Ok next, s') →
  next = next_manifest env cfg ctx ∧
  ∃ payload, encodeSnapshotPayload (cc_codec ctx)
      (build_snapshot env ctx covered (getAllRows (ss_local s))) = Ok payload ∧
    let m := m_payload next in
    let root := cf_remotePath cfg in
    filesOf (ss_adapter s') =
      <[manifestPointer root := encodeText (stringify
          (DPointer (mkPointer (m_generation m) (manifestFileName (m_generation m)))))]>
      (<[manifestFile root (m_generation m) := encodeText (stringify (DManifest next))]>
      (<[snapshotPath root (cf_serverId cfg) (m_epoch m) := payload]> (filesOf (ss_adapter s)))) ∧
    ss_local s' = store_setMeta "epoch" (VNum (Num (m_epoch m))) (ss_local s).
Proof.
  unfold publish. rewrite loc_gets_bind, lift_bind.
  destruct (encodeSnapshotPayload _ _) as [payload|] eqn:Ep; [|done]. rewrite remote_bind.
  destruct (writeFile _ _ _) as [[[]|] a1] eqn:E1; [|done]. rewrite remote_bind.
  destruct (writeJson _ _ _) as [[[]|] a2] eqn:E2; [|done]. rewrite remote_bind.
  match goal with |- context [writeJson ?p ?d ?a] =>
    destruct (writeJson p d a) as [[[]|] a3] eqn:E3; [|done] end.
  intros [= <- <-].
  split; [done|]. exists payload. split; [done|]. unfold writeJson in E2, E3.
  apply write_ok in E1, E2, E3. simpl in *. by rewrite E3, E2, E1.
Qed.

Lemma touches_publish (P : string → Prop) env cfg ctx covered :
  (∀ p, manifest_path (cf_remotePath cfg) p → P p) →
  P (snapshotPath (cf_remotePath cfg) (cf_serverId cfg)
       (m_epoch (m_payload (cc_manifest ctx)) + 1)) →
  keeps (touches P) (publish env cfg ctx covered : M (Session A) _).
Proof.
  intros Hm Hs. unfold publish.
  keeps_walk ltac:(first [touches_leaf | by apply touches_write
                         | apply touches_writeJson, Hm; unfold manifest_path; eauto]).
Qed.

(** [f] only depends on the local store, which the adapter steps leave alone. *)
Definition same_local (s s' : Session A) : Prop := ss_local s' = ss_local s.
#[global] Instance same_local_preorder : PreOrder same_local.
Proof. split; [done|]. intros ??? H1 H2. by transitivity (ss_local y). Qed.
Lemma local_remote {B} (m : M A B) : keeps same_local (remote m).
Proof. intros s r s'. unfold remote. destruct (m (ss_adapter s)). by intros [= _ <-]. Qed.
Lemma local_emit e : keeps same_local (emit e : M (Session A) ()).
Proof. by intros s r s' [= _ <-]. Qed.
Lemma local_settle paths : keeps same_local (settle_deletes paths : M (Session A) _).
Proof.
  induction paths as [|p paths IH]; simpl; [apply keeps_ret; apply _|].
  keeps_walk ltac:(first [apply local_remote | apply IH]).
Qed.
Lemma local_cleanup cfg covered next :
  keeps same_local (cleanup cfg covered next : M (Session A) ()).
Proof.
  unfold cleanup, pruneSupersededSnapshots, emit_cleanup.
  keeps_walk ltac:(first [apply local_remote | apply local_emit | apply local_settle]).
Qed.

(** What the cleanup of [next] may delete: covered changes and superseded snapshots. *)
Definition redundant (root active : string) (covered : list string) (p : string) : Prop :=
  (∃ n, n ∈ covered ∧ p = changeFile root n) ∨ superseded_path root active p.

Lemma touches_cleanup cfg covered next :
  keeps (touches (redundant (cf_remotePath cfg)
           (snapshotPath (cf_remotePath cfg) (cf_serverId cfg) (m_epoch (m_payload next))) covered))
    (cleanup cfg covered next : M (Session A) ()).
Proof.
  unfold cleanup. apply keeps_bind; [apply _| |intros _; apply keeps_bind; [apply _| |]].
  - apply touches_settle, list.Forall_forall. intros p (n & -> & Hn)%list_elem_of_fmap. left. eauto.
  - eapply touches_weaken; [|apply touches_prune]. intros p Hp. by right.
  - intros _. apply keeps_ret, _.
Qed.
End compact_theory.

(** No failure of a deletion or of a listing escapes the cleanup. *)
Lemma settle_total `{Platform} {A : Type} `{HA : !StorageAdapter A} paths (s : Session A) :
  ∃ bs s', settle_deletes paths s = (Ok bs, s').
Proof.
  revert s. induction paths as [|p paths IH]; intros s; [by eexists _, _|]. simpl.
  unfold mbind at 1, M_bind at 1, catch. rewrite remote_bind.
  destruct (deleteFile p (ss_adapter s)) as [[[]|e] a]; simpl;
    destruct (IH (set_adapter a s)) as (bs & s' & E); rewrite (bind_ok _ _ _ _ _ E); by eexists _, _.
Qed.
Lemma prune_total `{Platform} {A : Type} `{HA : !StorageAdapter A} root active (s : Session A) :
  ∃ res s', pruneSupersededSnapshots root active s = (Ok res, s').
Proof.
  unfold pruneSupersededSnapshots. unfold mbind at 1, M_bind at 1, catch. rewrite remote_bind.
  destruct (listFiles _ (ss_adapter s)) as [[files|e] a]; [|by eexists _, _]. simpl.
  destruct (settle_total (superseded active files) (set_adapter a s)) as (bs & s' & E).
  rewrite (bind_ok _ _ _ _ _ E). unfold when. destruct (0 <? _)%nat; by eexists _, _.
Qed.
Lemma cleanup_total `{Platform} {A : Type} `{HA : !StorageAdapter A} cfg covered next
    (s : Session A) : ∃ s', cleanup cfg covered next s = (Ok (), s').
Proof.
  unfold cleanup.
  match goal with |- context [settle_deletes ?ps] =>
    destruct (settle_total ps s) as (bs & s1 & E1); rewrite (bind_ok _ _ _ _ _ E1) end.
  match goal with |- context [pruneSupersededSnapshots ?r ?a] =>
    destruct (prune_total r a s1) as (res & s2 & E2); rewrite (bind_ok _ _ _ _ _ E2) end.
  by eexists.
Qed.

(** ** The objects of a mailbox are apart *)
Lemma snapshot_name root sid epoch : no_slash sid = true →
  let active := snapshotPath root sid epoch in
  slice_from active (lastIndexOf active "/" + 1) =
    "snapshot-" +:+ num_toString 10 (Num epoch) +:+ "-" +:+ sid +:+ ".json".
Proof.
  intros Hsid. cbv zeta.
  set (name := "snapshot-" +:+ num_toString 10 (Num epoch) +:+ "-" +:+ sid +:+ ".json").
  change (snapshotPath root sid epoch) with (mainlineFolder root +:+ String "/" name).
  apply after_last_separator. unfold name. rewrite !str_forall_app.
  rewrite (numeral_forall (λ x, negb (Ascii.eqb x "/"))); [|done|by intros d Hd; digit_bash d].
  unfold no_slash in Hsid. by rewrite Hsid.
Qed.

Lemma active_not_redundant root sid epoch covered : no_slash sid = true →
  ¬ redundant root (snapshotPath root sid epoch) covered (snapshotPath root sid epoch).
Proof.
  intros Hsid [(n & _ & E)|(name & E & _ & Hne)].
  - unfold snapshotPath, mainlineFolder, changeFile, changesFolder in E.
    rewrite !str_app_assoc in E. by apply str_app_inj_l in E.
  - apply Hne. rewrite snapshot_name by done. unfold snapshotPath, mainlineFolder in E.
    rewrite !str_app_assoc in E. apply str_app_inj_l in E.
    change ("/mainline" +:+ ?x) with (String "/" ("mainline" +:+ x)) in E. by injection E.
Qed.
Lemma manifest_not_redundant root active covered p :
  manifest_path root p → ¬ redundant root active covered p.
Proof.
  intros Hp [(n & _ & ->)|(name & -> & _ & _)]; [by apply change_not_manifest in Hp|].
  unfold manifest_path, manifestPointer, manifestFile, mainlineFolder in Hp.
  rewrite str_app_assoc in Hp. destruct Hp as [E|[g E]]; by apply str_app_inj_l in E.
Qed.
Lemma snapshot_not_manifest root sid epoch : ¬ manifest_path root (snapshotPath root sid epoch).
Proof.
  unfold manifest_path, manifestPointer, manifestFile, snapshotPath, mainlineFolder.
  rewrite !str_app_assoc. intros [E|[g E]]; by apply str_app_inj_l in E.
Qed.
Lemma change_not_snapshot root n sid epoch : changeFile root n ≠ snapshotPath root sid epoch.
Proof.
  unfold snapshotPath, mainlineFolder, changeFile, changesFolder. rewrite !str_app_assoc.
  by intros E%str_app_inj_l.
Qed.

(** Records of other keys do not change the receipts. *)
Lemma seen_setMeta k v (l : MemoryLocalStore) :
  k ≠ OBSERVATION_META_KEY → durable_seen (store_setMeta k v l) = durable_seen l.
Proof.
  intros Hk. unfold durable_seen. f_equal. apply load_agree.
  exact (@getMeta_setMeta_ne _ memory_meta_store k OBSERVATION_META_KEY v l Hk).
Qed.

(** ** Safety *)
Section compact_claims.
Context `{Platform} {A : Type} `{HA : !StorageAdapter A}.

(** The mailbox after [next] was published over the snapshot [payload]. *)
Definition published_snapshot (cfg : Config) (next : Manifest) (payload : Bytes)
    (files : gmap string Bytes) : Prop :=
  let root := cf_remotePath cfg in
  let m := m_payload next in
  files !! manifestPointer root = Some (encodeText (stringify
    (DPointer (mkPointer (m_generation m) (manifestFileName (m_generation m)))))) ∧
  files !! manifestFile root (m_generation m) = Some (encodeText (stringify (DManifest next))) ∧
  m_snapshotPath m = Some (snapshotPath root (cf_serverId cfg) (m_epoch m)) ∧
  files !! snapshotPath root (cf_serverId cfg) (m_epoch m) = Some payload.

(** Neither publishing nor a pull touches a change file. *)
Definition no_change_file (cfg : Config) (p : string) : Prop :=
  ∀ n, p ≠ changeFile (cf_remotePath cfg) n.
Lemma change_file_is cfg n : ¬ no_change_file cfg (changeFile (cf_remotePath cfg) n).
Proof. intros Hn. by apply (Hn n). Qed.

Lemma publish_changes env cfg ctx covered :
  keeps (touches (no_change_file cfg)) (publish env cfg ctx covered : M (Session A) _).
Proof.
  apply touches_publish.
  - intros p Hp m ->. by apply change_not_manifest in Hp.
  - intros m E. symmetry in E. by apply change_not_snapshot in E.
Qed.
Lemma pull_changes env cfg : keeps (touches (no_change_file cfg)) (pull env cfg : M (Session A) _).
Proof.
  eapply touches_weaken; [|apply touches_pull]. intros p Hp n ->. by apply change_not_manifest in Hp.
Qed.

(** The cleanup leaves what was published in place. *)
Lemma published_after env cfg ctx covered payload (s1 s2 s3 : Session A) :
  no_slash (cf_serverId cfg) = true →
  let next := next_manifest env cfg ctx in
  let m := m_payload next in
  let root := cf_remotePath cfg in
  filesOf (ss_adapter s2) =
    <[manifestPointer root := encodeText (stringify
        (DPointer (mkPointer (m_generation m) (manifestFileName (m_generation m)))))]>
    (<[manifestFile root (m_generation m) := encodeText (stringify (DManifest next))]>
    (<[snapshotPath root (cf_serverId cfg) (m_epoch m) := payload]> (filesOf (ss_adapter s1)))) →
  cleanup cfg covered next s2 = (Ok (), s3) →
  published_snapshot cfg next payload (filesOf (ss_adapter s3)).
Proof.
  intros Hsid next m root Hfiles Eclean.
  pose proof (touches_cleanup _ _ _ _ _ _ Eclean) as Hframe.
  assert (∀ p, manifest_path root p → p ≠ snapshotPath root (cf_serverId cfg) (m_epoch m)) as Hms.
  { intros p Hp ->. by apply snapshot_not_manifest in Hp. }
  assert (manifest_path root (manifestPointer root)) as Hptr by by left.
  assert (manifest_path root (manifestFile root (m_generation m))) as Hfile by (right; by eexists).
  pose proof (pointer_ne_file root (m_generation m)) as Hpf.
  split_and!; [| |done|]; (rewrite Hframe; [rewrite Hfiles|]).
  - apply lookup_insert_eq.
  - by apply manifest_not_redundant.
  - rewrite lookup_insert_ne by done. apply lookup_insert_eq.
  - by apply manifest_not_redundant.
  - rewrite !lookup_insert_ne by auto. apply lookup_insert_eq.
  - by apply active_not_redundant.
Qed.

(** The two phases of a compaction that got as far as its cleanup. *)
Lemma compact_cases env cfg ctx ctx_pull (s s' : Session A) r :
  compact env cfg ctx ctx_pull s = (r, s') →
  keeps (touches (no_change_file cfg)) ctx_pull →
  no_slash (cf_serverId cfg) = true →
  (∀ n, filesOf (ss_adapter s') !! changeFile (cf_remotePath cfg) n =
        filesOf (ss_adapter s) !! changeFile (cf_remotePath cfg) n) ∨
  ∃ s1 s2 payload,
    let next := next_manifest env cfg ctx in
    let covered := sorted_names (durable_seen (ss_local s1)) in
    ctx_pull s = (Ok (), s1) ∧ publish env cfg ctx covered s1 = (Ok next, s2) ∧
    cleanup cfg covered next s2 = (Ok (), s') ∧ r = Ok next ∧
    encodeSnapshotPayload (cc_codec ctx)
      (build_snapshot env ctx covered (getAllRows (ss_local s1))) = Ok payload ∧
    published_snapshot cfg next payload (filesOf (ss_adapter s')) ∧
    ss_local s' = store_setMeta "epoch" (VNum (Num (m_epoch (m_payload next)))) (ss_local s1).
Proof.
  intros Hrun Hpull Hsid. unfold compact in Hrun. case_match; [injection Hrun as <- <-; by left|].
  pose proof (change_file_is cfg) as Hself.
  destruct (ctx_pull s) as [[[]|e] s1] eqn:Epull.
  2:{ rewrite (bind_throw _ _ _ _ _ Epull) in Hrun. injection Hrun as <- <-.
      left. intros n. by apply (Hpull _ _ _ Epull). }
  rewrite (bind_ok _ _ _ _ _ Epull), loc_gets_bind in Hrun.
  change (capturedChangeFileNames (load (ss_local s1)))
    with (sorted_names (durable_seen (ss_local s1))) in Hrun.
  set (covered := sorted_names _) in Hrun.
  destruct (publish env cfg ctx covered s1) as [[next|e] s2] eqn:Epub.
  2:{ rewrite (bind_throw _ _ _ _ _ Epub) in Hrun. injection Hrun as <- <-. left. intros n.
      rewrite <- (Hpull _ _ _ Epull (changeFile (cf_remotePath cfg) n) (Hself n)).
      by apply (publish_changes _ _ _ _ _ _ _ Epub). }
  rewrite (bind_ok _ _ _ _ _ Epub) in Hrun. right.
  pose proof (publish_ok _ _ _ _ _ _ _ Epub) as (-> & payload & Epay & Hfiles & Hloc).
  destruct (cleanup_total cfg covered (next_manifest env cfg ctx) s2) as [s3 Eclean].
  rewrite (bind_ok _ _ _ _ _ Eclean) in Hrun.
  injection Hrun as <- <-. exists s1, s2, payload. split_and!; try done.
  - by eapply published_after.
  - by rewrite (local_cleanup _ _ _ _ _ _ Eclean), Hloc.
Qed.
End compact_claims.

(** ** Completion on a mailbox that answers *)
Section compact_reliable.
Context `{Platform} {A : Type} `{HA : !StorageAdapter A} (up : A → Prop) `{HR : !ReliableAdapter up}.

Lemma up_settle paths (s : Session A) :
  up (ss_adapter s) →
  ∃ bs s', settle_deletes paths s = (Ok bs, s') ∧ up (ss_adapter s') ∧
    (∀ p, p ∈ paths → filesOf (ss_adapter s') !! p = None) ∧
    (∀ p, filesOf (ss_adapter s) !! p = None → filesOf (ss_adapter s') !! p = None).
Proof.
  revert s. induction paths as [|p paths IH]; intros s Hup.
  { eexists _, s. split; [reflexivity|]. split_and!; [done|by intros ? ?%not_elem_of_nil|done]. }
  destruct (up_delete p _ Hup) as (a & Ed & Hup'). simpl.
  unfold mbind at 1, M_bind at 1, catch. rewrite remote_bind, Ed. simpl.
  destruct (IH (set_adapter a s) Hup') as (bs & s' & E & Hup2 & Hdel & Hnone).
  rewrite (bind_ok _ _ _ _ _ E). eexists _, s'. split; [reflexivity|].
  apply delete_ok in Ed. cbn [ss_adapter set_adapter] in Hnone. rewrite Ed in Hnone.
  split_and!; [done| |].
  - intros q [-> | Hq]%elem_of_cons; [apply Hnone, lookup_delete_eq|by apply Hdel].
  - intros q Hq. apply Hnone. by rewrite lookup_delete_None; right.
Qed.

Lemma up_prune root active (s : Session A) :
  up (ss_adapter s) →
  ∃ res s', pruneSupersededSnapshots root active s = (Ok res, s') ∧ up (ss_adapter s') ∧
    (∀ p, filesOf (ss_adapter s) !! p = None → filesOf (ss_adapter s') !! p = None) ∧
    (∀ name, no_slash name = true → superseded_path root active (mainlineFolder root +:+ "/" +:+ name) →
       filesOf (ss_adapter s') !! (mainlineFolder root +:+ "/" +:+ name) = None).
Proof.
  intros Hup. destruct (up_list _ _ Hup (mainline_no_slash root)) as (files & a & El & Hup1 & _ & Hall).
  pose proof (list_files _ _ _ _ El) as [Ef Hpath].
  unfold pruneSupersededSnapshots. unfold mbind at 1, M_bind at 1, catch. rewrite remote_bind, El.
  cbn -[settle_deletes superseded].
  destruct (up_settle (superseded active files) (set_adapter a s) Hup1) as (bs & s2 & E2 & Hup2 & Hdel & Hnone).
  rewrite (bind_ok _ _ _ _ _ E2). cbn [ss_adapter set_adapter] in Hnone. rewrite Ef in Hnone.
  assert (∀ name, no_slash name = true →
    superseded_path root active (mainlineFolder root +:+ "/" +:+ name) →
    filesOf (ss_adapter s2) !! (mainlineFolder root +:+ "/" +:+ name) = None) as Hgone.
  { intros name Hns (name' & E & Hsn & Hne).
    apply str_app_inj_l in E. change (String "/" name = String "/" name') in E. injection E as <-.
    destruct (filesOf (ss_adapter s) !! (mainlineFolder root +:+ "/" +:+ name)) eqn:Ein;
      [|by apply Hnone].
    apply Hdel. assert (name ∈ fe_name <$> files) as (f & -> & Hf)%list_elem_of_fmap.
    { apply Hall; [done|]. by rewrite Ein. }
    destruct (Hpath files f (mainline_no_slash root) eq_refl Hf) as [<- _].
    unfold superseded. apply list_elem_of_fmap. exists f. split; [done|].
    apply list_elem_of_In, filter_In. split; [by apply list_elem_of_In|].
    rewrite Hsn. simpl. by apply negb_true_iff, String.eqb_neq. }
  unfold when. case_match; eexists _, _; (split; [reflexivity|done]).
Qed.

Lemma up_cleanup cfg covered next (s : Session A) :
  up (ss_adapter s) →
  ∃ s', cleanup cfg covered next s = (Ok (), s') ∧ up (ss_adapter s') ∧
    (∀ n, n ∈ covered → filesOf (ss_adapter s') !! changeFile (cf_remotePath cfg) n = None) ∧
    (∀ name, no_slash name = true →
       superseded_path (cf_remotePath cfg)
         (snapshotPath (cf_remotePath cfg) (cf_serverId cfg) (m_epoch (m_payload next)))
         (mainlineFolder (cf_remotePath cfg) +:+ "/" +:+ name) →
       filesOf (ss_adapter s') !! (mainlineFolder (cf_remotePath cfg) +:+ "/" +:+ name) = None).
Proof.
  intros Hup. unfold cleanup.
  match goal with |- context [settle_deletes ?ps] =>
    destruct (up_settle ps s Hup) as (bs & s1 & E1 & Hup1 & Hdel & _) end.
  rewrite (bind_ok _ _ _ _ _ E1).
  match goal with |- context [pruneSupersededSnapshots ?r ?a] =>
    destruct (up_prune r a s1 Hup1) as (res & s2 & E2 & Hup2 & Hnone & Hgone) end.
  rewrite (bind_ok _ _ _ _ _ E2). exists s2. split; [done|]. split_and!; [done| |done].
  intros n Hn. apply Hnone, Hdel. apply list_elem_of_fmap. by exists n.
Qed.

Lemma up_publish env cfg ctx covered mesh (s : Session A) :
  up (ss_adapter s) →
  opt_truthy (manifest_meshId (cs_manifest (cc_codec ctx))) = Some mesh →
  ∃ s', publish env cfg ctx covered s = (Ok (next_manifest env cfg ctx), s') ∧ up (ss_adapter s').
Proof.
  intros Hup Hmesh. unfold publish. rewrite loc_gets_bind, lift_bind.
  unfold encodeSnapshotPayload. rewrite Hmesh. rewrite remote_bind.
  match goal with |- context [writeFile ?p ?d (ss_adapter s)] =>
    destruct (up_write p d _ Hup) as (a1 & -> & Hup1) end.
  rewrite remote_bind. unfold writeJson.
  match goal with |- context [writeFile ?p ?d (ss_adapter (set_adapter a1 s))] =>
    destruct (up_write p d a1 Hup1) as (a2 & E2 & Hup2); cbn [ss_adapter set_adapter]; rewrite E2 end.
  rewrite remote_bind.
  match goal with |- context [writeFile ?p ?d (ss_adapter (set_adapter a2 ?x))] =>
    destruct (up_write p d a2 Hup2) as (a3 & E3 & Hup3); cbn [ss_adapter set_adapter]; rewrite E3 end.
  eexists. split; [reflexivity|]. done.
Qed.
End compact_reliable.

(** A compaction that returned has published its snapshot. *)
Lemma compact_publishes `{Platform} {A : Type} `{!StorageAdapter A} env cfg ctx
    (ctx_pull : M (Session A) ()) s s' next :
  compact env cfg ctx ctx_pull s = (Ok next, s') → no_slash (cf_serverId cfg) = true →
  next = next_manifest env cfg ctx ∧
  ∃ payload, encodeSnapshotPayload (cc_codec ctx)
      (build_snapshot env ctx (sorted_names (durable_seen (ss_local s')))
         (getAllRows (ss_local s'))) = Ok payload ∧
    published_snapshot cfg next payload (filesOf (ss_adapter s')).
Proof.
  intros Hrun Hsid. unfold compact in Hrun. case_match; [done|].
  apply bind_ok_inv in Hrun as (_ & s1 & _ & Hrun). rewrite loc_gets_bind in Hrun.
  apply bind_ok_inv in Hrun as (next' & s2 & Epub & Hrun).
  apply bind_ok_inv in Hrun as ([] & s3 & Eclean & [= -> ->]).
  pose proof (publish_ok _ _ _ _ _ _ _ Epub) as (-> & payload & Epay & Hfiles & Hloc).
  assert (ss_local s' = ss_local s2) as Hloc3 by exact (local_cleanup _ _ _ _ _ _ Eclean).
  split; [done|]. exists payload. split; [|by eapply published_after].
  by rewrite Hloc3, Hloc, seen_setMeta.
Qed.

(** C5: A compaction never loses a change.  However it ends, over a mailbox whose calls may fail at any
    point, a change file it has removed or altered has a receipt in the compactor's
    store and is among the files covered by a snapshot of all rows of that store, and this
    snapshot is in the mailbox, published: the pointer names a manifest of the next
    generation and that manifest names the snapshot. *)
Theorem compaction_deletes_only_covered `{Platform} {A : Type} `{!StorageAdapter A} (env : Env)
    (cfg : Config) (ctx : CompactContext) (ctx_pull : M (Session A) ()) (s s' : Session A)
    (r : result Manifest) (n : string) :
  no_slash (cf_serverId cfg) = true →
  keeps (touches (no_change_file cfg)) ctx_pull →
  compact env cfg ctx ctx_pull s = (r, s') →
  filesOf (ss_adapter s') !! changeFile (cf_remotePath cfg) n ≠
    filesOf (ss_adapter s) !! changeFile (cf_remotePath cfg) n →
  n ∈ durable_seen (ss_local s') ∧
  ∃ covered payload, n ∈ covered ∧
    encodeSnapshotPayload (cc_codec ctx)
      (build_snapshot env ctx covered (getAllRows (ss_local s'))) = Ok payload ∧
    published_snapshot cfg (next_manifest env cfg ctx) payload (filesOf (ss_adapter s')).
Proof.
  intros Hsid Hpull Hrun Hne.
  destruct (compact_cases _ _ _ _ _ _ _ Hrun Hpull Hsid)
    as [E|(s1 & s2 & payload & Epull & Epub & Eclean & _ & Epay & Hpubl & Hloc)]; [by destruct Hne|].
  rewrite Hloc. rewrite seen_setMeta by done. change (getAllRows (store_setMeta _ _ ?l)) with (getAllRows l).
  assert (n ∈ sorted_names (durable_seen (ss_local s1))) as Hn; [|split; [|by eexists _, _]].
  - destruct (decide (n ∈ sorted_names (durable_seen (ss_local s1)))) as [|Hn]; [done|].
    destruct Hne. pose proof (change_file_is cfg n) as Hself.
    rewrite (touches_cleanup _ _ _ _ _ _ Eclean).
    + rewrite (publish_changes _ _ _ _ _ _ _ Epub) by done. by rewrite (Hpull _ _ _ Epull).
    + intros [(n' & Hn' & E)|(name & E & _)].
      * apply changeFile_inj in E as ->. done.
      * unfold changeFile, changesFolder, mainlineFolder in E. rewrite !str_app_assoc in E.
        by apply str_app_inj_l in E.
  - apply (elem_of_list_to_set (C:=gset string)) in Hn. by rewrite sorted_names_set in Hn.
Qed.

(** C7: A compaction over a mailbox that answers completes: once its pull has succeeded, in a session that
    knows its mesh and may compact, it returns the next manifest, publishes it with a
    snapshot, and leaves neither a change file with a receipt nor a superseded snapshot
    behind, while change files without a receipt stay. *)
Theorem compaction_completes `{Platform} {A : Type} `{!StorageAdapter A} (up : A → Prop)
    `{!ReliableAdapter up} (env : Env) (cfg : Config) (ctx : CompactContext)
    (ctx_pull : M (Session A) ()) (s s1 : Session A) (mesh : string) :
  no_slash (cf_serverId cfg) = true →
  keeps (touches (no_change_file cfg)) ctx_pull →
  ctx_pull s = (Ok (), s1) → up (ss_adapter s1) →
  (sv_managed (m_server (m_payload (cc_manifest ctx))) = true → cf_deviceId cfg = cf_serverId cfg) →
  opt_truthy (manifest_meshId (cs_manifest (cc_codec ctx))) = Some mesh →
  let root := cf_remotePath cfg in
  let next := next_manifest env cfg ctx in
  let active := snapshotPath root (cf_serverId cfg) (m_epoch (m_payload next)) in
  ∃ s' payload, compact env cfg ctx ctx_pull s = (Ok next, s') ∧ up (ss_adapter s') ∧
    published_snapshot cfg next payload (filesOf (ss_adapter s')) ∧
    durable_seen (ss_local s') = durable_seen (ss_local s1) ∧
    (∀ n, filesOf (ss_adapter s') !! changeFile root n =
       if bool_decide (n ∈ durable_seen (ss_local s1)) then None
       else filesOf (ss_adapter s1) !! changeFile root n) ∧
    (∀ name, no_slash name = true → superseded_path root active (mainlineFolder root +:+ "/" +:+ name) →
       filesOf (ss_adapter s') !! (mainlineFolder root +:+ "/" +:+ name) = None).
Proof.
  intros Hsid Hpull Epull Hup Hauth Hmesh root next active.
  set (covered := sorted_names (durable_seen (ss_local s1))).
  destruct (up_publish up env cfg ctx covered mesh s1 Hup Hmesh) as (s2 & Epub & Hup2).
  destruct (up_cleanup up cfg covered next s2 Hup2) as (s3 & Eclean & Hup3 & Hdel & Hsup).
  assert (compact env cfg ctx ctx_pull s = (Ok next, s3)) as Hrun.
  { unfold compact. destruct (sv_managed _) eqn:Em; simpl.
    - rewrite Hauth, String.eqb_refl by done. simpl.
      by rewrite (bind_ok _ _ _ _ _ Epull), loc_gets_bind, (bind_ok _ _ _ _ _ Epub), (bind_ok _ _ _ _ _ Eclean).
    - by rewrite (bind_ok _ _ _ _ _ Epull), loc_gets_bind, (bind_ok _ _ _ _ _ Epub), (bind_ok _ _ _ _ _ Eclean). }
  pose proof (publish_ok _ _ _ _ _ _ _ Epub) as (_ & payload & _ & Hfiles & Hloc2).
  assert (ss_local s3 = ss_local s2) as Hloc3 by exact (local_cleanup _ _ _ _ _ _ Eclean).
  exists s3, payload. split_and!; [done|done| | | |done].
  - by eapply published_after.
  - by rewrite Hloc3, Hloc2, seen_setMeta.
  - intros n. case_bool_decide as Hn.
    + apply Hdel. apply (elem_of_list_to_set (C:=gset string)). unfold covered.
      by rewrite sorted_names_set.
    + rewrite (touches_cleanup _ _ _ _ _ _ Eclean).
      * apply (publish_changes _ _ _ _ _ _ _ Epub), change_file_is.
      * intros [(n' & Hn' & E)|(name & E & _)].
        -- apply changeFile_inj in E as ->. apply Hn. rewrite <- sorted_names_set.
           by apply elem_of_list_to_set.
        -- unfold changeFile, changesFolder, mainlineFolder in E. rewrite !str_app_assoc in E.
           by apply str_app_inj_l in E.
Qed.

(** The second device compacts after pulling the first one's change. *)
Definition test_context : @CompactContext test_platform :=
  mkCompact (test_manifest "mesh_1" 1 None)
    (@mkCodec test_platform None false (Some (test_manifest "mesh_1" 1 None)))
    (hlcInit 1711785600000 "dev2")
    (mkRetention (Num DEFAULT_COMPACT_AFTER_MS) (Num DEFAULT_MAX_OFFLINE_DURATION_MS)).
Definition test_pull : M (Session (@MemoryAdapter test_platform)) () :=
  @pull test_platform _ _ test_env (test_config "dev2");; mret ().
Definition after_pull : Session (@MemoryAdapter test_platform) := (test_pull pull_session).2.
Definition first_compact : result Manifest * Session (@MemoryAdapter test_platform) :=
  @compact test_platform _ _ test_env (test_config "dev2") test_context test_pull
    pull_session.

#[local] Strategy expand [after_pull first_compact].
Lemma ok_run {S} (run : result () * S) : is_ok run.1 = true → run = (Ok (), run.2).
Proof. by destruct run as [[[]|] ?]. Qed.
Lemma test_pull_changes :
  keeps (@touches test_platform _ memory_storage (no_change_file (test_config "dev2"))) test_pull.
Proof.
  apply keeps_bind; [apply _| |intros; apply keeps_ret, _].
  exact (@pull_changes test_platform _ memory_storage test_env (test_config "dev2")).
Qed.

Lemma compaction_deletes_only_covered_witness :
  entry_name first_change ∈ durable_seen (ss_local first_compact.2).
Proof.
  refine (proj1 (@compaction_deletes_only_covered test_platform _ memory_storage test_env
    (test_config "dev2") test_context test_pull pull_session first_compact.2 first_compact.1
    (entry_name first_change) eq_refl test_pull_changes (surjective_pairing _) _)).
  assert (is_Some (filesOf (ss_adapter pull_session) !! changeEntryPath "/mesh" first_change))
    as [d Hd] by (vm_compute; eauto).
  assert (filesOf (ss_adapter first_compact.2) !! changeEntryPath "/mesh" first_change = None)
    as Hn by by vm_compute.
  intros E. discriminate (eq_trans (eq_sym Hn) (eq_trans E Hd)).
Defined.

Lemma compaction_completes_witness : ∃ s' payload,
  @compact test_platform _ _ test_env (test_config "dev2") test_context test_pull
      pull_session =
    (Ok (next_manifest test_env (test_config "dev2") test_context), s') ∧
  published_snapshot (test_config "dev2") (next_manifest test_env (test_config "dev2") test_context)
    payload (filesOf (ss_adapter s')).
Proof.
  destruct (@compaction_completes test_platform _ memory_storage mem_up memory_reliable test_env
    (test_config "dev2") test_context test_pull pull_session after_pull "mesh_1" eq_refl
    test_pull_changes) as (s' & payload & E & _ & Hp & _).
  - refine (ok_run (test_pull pull_session) _). by vm_compute.
  - apply (bool_decide_unpack (NoDup (ma_files (ss_adapter after_pull)).*1)). by vm_compute.
  - by intros.
  - reflexivity.
  - exists s', payload. split; [exact E|exact Hp].
Defined.
