(* ===== verification/Rehydrate.v ===== *)
(** * What a snapshot restores
    (theory of [packages/core/src/core/compaction.ts])

    Grouping the rows of a store by table and putting the groups into an empty store
    gives the store back; so a device that rehydrates from a mailbox another
    device has compacted ends with that device's rows, receipts and clock. *)

From S2P Require Import Prelude JsString Hlc Values JsMap LocalStore Wire Crdt.
From S2P Require Import Observation Adapter Codec Session MergeStore Manifest Flush Pull Frame.
From S2P Require Import Compaction.
From Stdlib Require String.

Open Scope stdpp_scope.

(** ** Replacing one entry of a [Map] *)
Lemma map_set_split {V} k (v : V) (m : list (string * V)) :
  (assoc k m = None ∧ map_set k v m = m ++ [(k, v)]) ∨
  ∃ v0 m1 m2, assoc k m = Some v0 ∧ m = m1 ++ (k, v0) :: m2 ∧ map_set k v m = m1 ++ (k, v) :: m2.
Proof.
  induction m as [|[k1 v1] m IH]; simpl; [by left|].
  destruct (String.eqb_spec k k1) as [<-|Hne]; [right; by exists v1, [], m|].
  destruct IH as [[-> ->]|(v0 & m1 & m2 & -> & Em & Es)]; [by left|right].
  exists v0, ((k1, v1) :: m1), m2. rewrite Es. split; [done|]. by rewrite Em at 1.
Qed.

(** ** Grouping *)
Definition row_id (row : Row) : string * string := (rm_table (_meta row), rm_rowId (_meta row)).
Definition rows_of (tables : list (string * list (string * Row))) : list Row :=
  tables ≫= λ t, t.2.*2.

(** Every row is filed under its own table and id. *)
Definition filed (tables : list (string * list (string * Row))) : Prop :=
  Forall (λ t, Forall (λ kr, row_id kr.2 = (t.1, kr.1)) t.2) tables.

Lemma group_row_perm tables row :
  filed tables → row_id row ∉ row_id <$> rows_of tables →
  filed (group_row tables row) ∧ rows_of (group_row tables row) ≡ₚ row :: rows_of tables.
Proof.
  intros Hf Hfresh. unfold group_row.
  assert (∀ t1 t2 rows, tables = t1 ++ (rm_table (_meta row), rows) :: t2 →
    assoc (rm_rowId (_meta row)) rows = None) as Hnone.
  { intros t1 t2 rows ->. destruct (assoc _ rows) as [row'|] eqn:E; [|done]. exfalso.
    apply assoc_elem in E. apply Hfresh. apply Forall_app in Hf as [_ Hf%Forall_cons_1].
    destruct Hf as [Hf _]. rewrite list.Forall_forall in Hf. apply Hf in E as Er. simpl in Er.
    apply list_elem_of_fmap. exists row'. split; [by rewrite Er|].
    unfold rows_of. rewrite bind_app, elem_of_app. right. simpl. rewrite elem_of_app. left.
    apply list_elem_of_fmap. by exists (rm_rowId (_meta row), row'). }
  destruct (map_set_split (rm_table (_meta row))
    (map_set (rm_rowId (_meta row)) row (default [] (assoc (rm_table (_meta row)) tables))) tables)
    as [[E Es]|(rows & t1 & t2 & E & Et & Es)]; rewrite Es, E; simpl.
  - split.
    + apply Forall_app. split; [done|]. repeat constructor.
    + unfold rows_of. rewrite bind_app. simpl. by rewrite Permutation_app_comm.
  - specialize (Hnone _ _ _ Et). subst tables. apply Forall_app in Hf as [Hf1 Hf2].
    apply Forall_cons_1 in Hf2 as [Hf2 Hf3]. simpl in Hf2.
    destruct (map_set_split (rm_rowId (_meta row)) row rows) as [[_ Er]|(? & ? & ? & Hs & _)];
      [|congruence]. rewrite Er. split.
    + apply Forall_app. split; [done|]. constructor; [|done]. apply Forall_app. split; [done|].
      by constructor.
    + unfold rows_of. rewrite !bind_app. simpl. rewrite fmap_app. simpl.
      rewrite <- !app_assoc. simpl. by rewrite <- !Permutation_middle.
Qed.

Lemma snapshot_tables_perm rows :
  NoDup (row_id <$> rows) →
  filed (snapshot_tables rows) ∧ rows_of (snapshot_tables rows) ≡ₚ rows.
Proof.
  induction rows as [|row rows IH] using rev_ind; [by split; [constructor|]|].
  rewrite fmap_app, list.NoDup_app. intros (Hnd & Hfresh & _). destruct (IH Hnd) as [Hf Hp].
  unfold snapshot_tables. rewrite foldl_app. simpl.
  destruct (group_row_perm (snapshot_tables rows) row Hf) as [Hf' Hp'].
  { rewrite Hp. intros Hin. eapply Hfresh; [done|]. simpl. left. }
  split; [done|]. fold (snapshot_tables rows). rewrite Hp', Hp. by rewrite Permutation_app_comm.
Qed.

Lemma put_tables_rows tables l : put_tables tables l = putRows (rows_of tables) l.
Proof.
  revert l. induction tables as [|t tables IH]; intros l; [done|].
  simpl. rewrite IH. unfold rows_of, putRows. simpl. by rewrite foldl_app.
Qed.
Lemma count_rows_length tables : count_rows tables = length (rows_of tables).
Proof.
  unfold count_rows. rewrite <- (Nat.add_0_l (length _)). generalize 0.
  induction tables as [|t tables IH]; intros n; simpl; [lia|].
  rewrite IH. unfold rows_of. simpl. rewrite length_app, length_fmap. lia.
Qed.

(** ** Storing rows with distinct ids *)
Lemma putRows_get rows l t r :
  no_slash t = true → Forall (λ row, no_slash (rm_table (_meta row)) = true) rows →
  NoDup (row_id <$> rows) →
  (∀ row, row ∈ rows → row_id row = (t, r) →
     store_getRow (putRows rows l) t r = Some (with_key (rowKey t r) row)) ∧
  ((t, r) ∉ row_id <$> rows → store_getRow (putRows rows l) t r = store_getRow l t r).
Proof.
  intros Ht. revert l. induction rows as [|row rows IH]; intros l Hns Hnd.
  { split; [by intros ? ?%not_elem_of_nil|done]. }
  apply Forall_cons_1 in Hns as [Hn Hns]. apply list.NoDup_cons in Hnd as [Hrow Hnd].
  destruct (IH (putRow row l) Hns Hnd) as [Hin Hout].
  change (putRows (row :: rows) l) with (putRows rows (putRow row l)). split.
  - intros row' [-> | Hr]%elem_of_cons Hid; [|by apply Hin].
    rewrite Hout by (rewrite <- Hid; exact Hrow). rewrite getRow_putRow by done.
    unfold row_id in Hid. by rewrite bool_decide_true.
  - cbn [fmap list_fmap]. intros [Hne Hnin]%not_elem_of_cons. rewrite Hout by done.
    rewrite getRow_putRow by done. by rewrite bool_decide_false.
Qed.

(** A well-kept store has one row per id. *)
Lemma store_rows_distinct l :
  store_ok l →
  NoDup (row_id <$> getAllRows l) ∧
  Forall (λ row, no_slash (rm_table (_meta row)) = true) (getAllRows l).
Proof.
  unfold store_ok, getAllRows. intros [Hnd Hown]. induction (ls_rows l) as [|[k row] rows IH]; simpl.
  { split; constructor. }
  apply list.NoDup_cons in Hnd as [Hk Hnd]. apply Forall_cons_1 in Hown as [[Ek Ht] Hown].
  destruct (IH Hnd Hown) as [IH1 IH2]. simpl in *. split; [|by constructor].
  apply list.NoDup_cons. split; [|done]. intros Hin. apply Hk.
  rewrite <- list_fmap_compose in Hin. apply list_elem_of_fmap in Hin as ([k' row'] & E & Hin).
  rewrite list.Forall_forall in Hown. apply Hown in Hin as Ho. destruct Ho as [Ek' _]. simpl in *.
  apply list_elem_of_fmap. exists (k', row'). split; [|done]. simpl.
  unfold row_id in E. injection E as E1 E2. by rewrite Ek, Ek', E1, E2.
Qed.

Lemma store_rows_get l t r :
  store_ok l → no_slash t = true →
  (∀ row, store_getRow l t r = Some row → row ∈ getAllRows l ∧ row_id row = (t, r)) ∧
  (store_getRow l t r = None → (t, r) ∉ row_id <$> getAllRows l).
Proof.
  intros Hok Ht. split.
  - intros row E. split; [|by apply (getRow_own l t r row) in E as [<- <-]].
    apply assoc_elem in E. apply list_elem_of_fmap. by eexists (_, row).
  - intros E%assoc_none Hin. apply E. unfold getAllRows in Hin.
    rewrite <- list_fmap_compose in Hin. apply list_elem_of_fmap in Hin as ([k row] & Eid & Hin).
    destruct Hok as [_ Hown]. rewrite list.Forall_forall in Hown. apply Hown in Hin as Ho.
    destruct Ho as [Ek _]. simpl in *. apply list_elem_of_fmap. exists (k, row).
    split; [|done]. unfold row_id in Eid. injection Eid as -> ->. by symmetry.
Qed.

(** A snapshot of a store, put into a store without rows, is that store's rows. *)
Lemma snapshot_roundtrip l l0 t r :
  store_ok l → ls_rows l0 = [] → no_slash t = true →
  store_getRow (put_tables (snapshot_tables (getAllRows l)) l0) t r =
    with_key (rowKey t r) <$> store_getRow l t r.
Proof.
  intros Hok Hempty Ht. destruct (store_rows_distinct l Hok) as [Hnd Hns].
  destruct (snapshot_tables_perm _ Hnd) as [_ Hp]. rewrite put_tables_rows.
  destruct (putRows_get (rows_of (snapshot_tables (getAllRows l))) l0 t r) as [Hin Hout];
    [done|by rewrite Hp|by rewrite Hp|].
  destruct (store_rows_get l t r Hok Ht) as [Hsome Hnone].
  destruct (store_getRow l t r) as [row|] eqn:E; simpl.
  - destruct (Hsome row eq_refl) as [Hr Hid]. apply Hin; [by rewrite Hp|done].
  - rewrite Hout by (rewrite Hp; by apply Hnone). unfold store_getRow. by rewrite Hempty.
Qed.

(** ** Restoring *)
Section restore.
Context `{Platform} {A : Type} `{HA : !StorageAdapter A}.

(** What decoding needs of the codec state: the key, the mode, and the mesh. *)
Definition codec_agree (st st' : CodecState) : Prop :=
  cs_encryptionKey st' = cs_encryptionKey st ∧ cs_encrypted st' = cs_encrypted st ∧
  opt_truthy (manifest_meshId (cs_manifest st')) = opt_truthy (manifest_meshId (cs_manifest st)).

Lemma decode_agree {S} `{!MetaStore S} st st' data path (s : S) :
  codec_agree st st' → decodeSnapshotPayload st' data path s = decodeSnapshotPayload st data path s.
Proof.
  intros (Ek & Ee & Em). unfold decodeSnapshotPayload, decodeFromCloud, assertExpectedMeshId.
  by rewrite Ek, Ee, Em.
Qed.

(** The covered names of a snapshot are all accepted. *)
Lemma observe_all_total msg names l :
  Forall (λ n, is_Some (changeFileHlc n)) names → ∃ l', observe_all msg l names = Ok l'.
Proof.
  intros Hn. revert l. induction Hn as [|n names [h Hh] _ IH]; intros l; simpl; [by eexists|].
  rewrite Hh. unfold observe. rewrite Hh. apply IH.
Qed.

Lemma preserve_frame preserved l :
  ls_rows (preserve_meta preserved l) = ls_rows l ∧
  ls_outbox (preserve_meta preserved l) = ls_outbox l ∧
  ls_pendingBatch (preserve_meta preserved l) = ls_pendingBatch l.
Proof.
  apply (foldl_inv (λ l', ls_rows l' = ls_rows l ∧ ls_outbox l' = ls_outbox l ∧
           ls_pendingBatch l' = ls_pendingBatch l) (λ _, True)); [|done|by apply Forall_true].
  intros l' [k v] Hl _. by destruct v.
Qed.

(** The state a restored snapshot leaves. *)
Lemma restore_ok cfg ctx path data snap (s : Session A) a l :
  readFile path (ss_adapter s) = (Ok data, a) →
  decodeSnapshotPayload (rc_codec ctx) data path (ss_local s) = (Ok snap, l) →
  Forall (λ n, is_Some (changeFileHlc n)) (default [] (sn_coveredChangeFiles snap)) →
  ∃ s', restore cfg ctx path s =
      (Ok (count_rows (sn_tables snap),
           if truthy (sn_hlc snap)
           then mkHLC (ts (hlcParse (sn_hlc snap))) (counter (hlcParse (sn_hlc snap)))
                  (cf_deviceId cfg)
           else rc_hlc ctx), s') ∧
    ss_adapter s' = a ∧ ss_tables s' = ss_tables s ∧ ss_manifest s' = ss_manifest s ∧
    ss_poison s' = ss_poison s ∧
    ls_rows (ss_local s') = ls_rows (put_tables (sn_tables snap)
      (preserve_meta (rc_preservedMeta ctx) emptyStore)) ∧
    ls_outbox (ss_local s') = [] ∧ ls_pendingBatch (ss_local s') = None ∧
    durable_seen (ss_local s') = list_to_set (default [] (sn_coveredChangeFiles snap)) ∧
    store_getMeta "epoch" (ss_local s') = VNum (Num (sn_epoch snap)).
Proof.
  intros Hread Hdec Hnames. unfold restore. rewrite remote_bind, Hread, loc_bind.
  cbn [ss_local set_adapter]. rewrite Hdec.
  set (s1 := set_local l (set_adapter a s)).
  set (l2 := put_tables (sn_tables snap) (preserve_meta (rc_preservedMeta ctx) emptyStore)).
  assert (replaceLocalState ctx snap s1 =
    (Ok (), set_local l2 (set_knownTables (list_to_set (sn_tables snap).*1) s1))) as Erep by done.
  destruct (observe_all_total "Invalid snapshot change filename: " _
    (mkLedger (sn_hlc snap) ∅ ∅ true (observationGeneration s1 + 1)) Hnames) as [led Hled].
  destruct (restoreSnapshot (sn_hlc snap) (default [] (sn_coveredChangeFiles snap))
    (replaceLocalState ctx snap) s1) as [r s2] eqn:Eres.
  assert (r = Ok () ∧ ∃ st, s2 = store_state st (set_local l2
    (set_knownTables (list_to_set (sn_tables snap).*1) s1))) as [-> [st Est]].
  { revert Eres. unfold restoreSnapshot. rewrite Erep, Hled. intros [= <- <-].
    split; [done|]. eexists. reflexivity. }
  rewrite (bind_ok _ _ _ _ _ Eres). unfold mbind, M_bind, loc, modify, mret, M_ret.
  eexists. split; [reflexivity|]. subst s2. unfold store_state.
  destruct (preserve_frame (rc_preservedMeta ctx) emptyStore) as (_ & Eo & Ep).
  assert (ls_outbox l2 = [] ∧ ls_pendingBatch l2 = None) as [El El'].
  { unfold l2. rewrite put_tables_rows.
    destruct (putRows_frame (rows_of (sn_tables snap)) (preserve_meta (rc_preservedMeta ctx) emptyStore))
      as (E1 & E2 & _). by rewrite E1, E2, Eo, Ep. }
  split_and!; try done.
  - pose proof (restoreSnapshot_spec _ _ _ _ _ Eres) as [_ Hseen]. rewrite <- Hseen.
    exact (seen_setMeta "epoch" _ (ss_local (store_state st _)) ltac:(done)).
  - exact (@getMeta_setMeta _ memory_meta_store "epoch" _ (ss_local (store_state st _))).
Qed.

Lemma snapshot_json env ctx covered rows :
  NoDup (row_id <$> rows) → Forall (λ row, json_row row = true) rows →
  json_snapshot (build_snapshot env ctx covered rows) = true.
Proof.
  intros Hnd Hj. destruct (snapshot_tables_perm rows Hnd) as [_ Hp].
  assert (Forall (λ row, json_row row = true) (rows_of (snapshot_tables rows))) as Hj' by by rewrite Hp.
  unfold json_snapshot, build_snapshot. cbn [sn_tables]. revert Hj'. clear.
  induction (snapshot_tables rows) as [|[t trows] tables IH]; [done|]. unfold rows_of. simpl.
  intros [Ht Hts]%Forall_app. apply andb_true_iff. split; [|by apply IH].
  clear -Ht. induction trows as [|[r row] trows IH]; [done|]. simpl in *.
  apply Forall_cons_1 in Ht as [-> Ht]. by apply IH.
Qed.

Lemma truthy_app a b : truthy b = true → truthy (a +:+ b) = true.
Proof. by destruct a. Qed.
Lemma snapshotPath_truthy root sid epoch :
  opt_truthy (Some (snapshotPath root sid epoch)) = Some (snapshotPath root sid epoch).
Proof.
  unfold opt_truthy, snapshotPath, mainlineFolder. by rewrite str_app_assoc, truthy_app.
Qed.
End restore.

(** C6: What one device compacts, another recovers, as long as the columns hold what JSON can carry.
    The condition is that every column of every row of the compactor's store is a JSON value: [JSON.stringify] turns a date
    into a text, NaN into null, and drops undefined, and nothing turns them back, so for such columns the
    claim is not made.  After a compaction has returned, a device of the same
    mesh that rehydrates from that mailbox with the new manifest restores every row of
    the compactor's store under its table and id (tables without slashes), the
    compactor's receipts, and its clock under its own node id; its queued local changes
    are gone; then it continues with its pull.  (The compactor's clock is
    valid, its store files rows under their keys and its receipts are those of change files; the two devices encode with the same
    key, the second has pinned no other mesh, and its remote can be reached.) *)
Theorem rehydrate_recovers_compacted_state `{Platform} {A : Type} `{!StorageAdapter A}
    (up : A → Prop) `{!ReliableAdapter up} (env : Env) (cfg cfg2 : Config) (ctx : CompactContext)
    (ctx2 : RehydrateContext) (ctx_pull pull2 : M (Session A) ())
    (reload : M (Session A) (option Manifest)) (s s' s2 : Session A) (next : Manifest) :
  compact env cfg ctx ctx_pull s = (Ok next, s') →
  no_slash (cf_serverId cfg) = true → hlc_valid (cc_hlc ctx) → store_ok (ss_local s') →
  Forall (λ row, json_row row = true) (getAllRows (ss_local s')) →
  (∀ n, n ∈ durable_seen (ss_local s') → is_Some (changeFileHlc n)) →
  filesOf (ss_adapter s2) = filesOf (ss_adapter s') → up (ss_adapter s2) →
  codec_agree (cc_codec ctx) (rc_codec ctx2) → rc_manifest ctx2 = Some next →
  (∀ m, opt_truthy (manifest_meshId (cs_manifest (cc_codec ctx))) = Some m →
     mesh_free m (ss_local s2)) →
  ∃ s3, rehydrate cfg2 ctx2 reload pull2 s2 =
      (emit (RehydrateComplete (length (getAllRows (ss_local s'))));; pull2;;
       mret (mkHLC (ts (cc_hlc ctx)) (counter (cc_hlc ctx)) (cf_deviceId cfg2))) s3 ∧
    (∀ t r, no_slash t = true → store_getRow (ss_local s3) t r =
       with_key (rowKey t r) <$> store_getRow (ss_local s') t r) ∧
    durable_seen (ss_local s3) = durable_seen (ss_local s') ∧
    store_getMeta "epoch" (ss_local s3) = VNum (Num (m_epoch (m_payload next))) ∧
    ls_outbox (ss_local s3) = [] ∧ ls_pendingBatch (ss_local s3) = None.
Proof.
  intros Hrun Hsid Hclock Hok Hj Hnames Hfiles Hup Hagree Hman Hmesh.
  destruct (compact_publishes _ _ _ _ _ _ _ Hrun Hsid) as (-> & payload & Epay & Hpubl).
  destruct Hpubl as (_ & _ & Hpath & Hsnap). cbv zeta in Hsnap. rewrite <- Hfiles in Hsnap.
  destruct (store_rows_distinct _ Hok) as [Hnd Hns].
  set (rows := getAllRows (ss_local s')) in *. set (covered := sorted_names _) in Epay.
  set (path := snapshotPath _ _ _) in Hsnap.
  destruct (up_read path _ Hup) as (rd & a & Eread & _ & Hrd). rewrite (Hrd _ Hsnap) in Eread.
  destruct (snapshot_decodes (S:=MemoryLocalStore) (cc_codec ctx) _ payload path (ss_local s2)
    (snapshot_json env ctx covered rows Hnd Hj) Epay) as (m & Em & Hdec).
  pose proof (Hdec (Hmesh m Em)) as Edec. rewrite <- (decode_agree _ _ _ _ _ Hagree) in Edec.
  destruct (restore_ok cfg2 ctx2 path _ _ (add_event RehydrateStart s2) a _ Eread Edec) as
    (s3 & Eres & _ & _ & _ & _ & Hrows & Hout & Hpend & Hseen & Hep).
  { apply list.Forall_forall. intros n Hn. apply Hnames.
    apply (elem_of_list_to_set (C:=gset string)) in Hn. unfold covered in Hn. simpl in Hn.
    by rewrite sorted_names_set in Hn. }
  destruct (snapshot_tables_perm rows Hnd) as [_ Hp]. cbn [sn_hlc build_snapshot] in Eres.
  rewrite serialize_truthy, parse_serialize, count_rows_length in Eres by done.
  cbn [sn_tables build_snapshot] in Eres. rewrite Hp in Eres.
  exists s3. split.
  - unfold rehydrate. rewrite emit_bind, Hman. cbn [mbind option_bind]. rewrite Hpath.
    rewrite snapshotPath_truthy. fold path. unfold restore_or_reload.
    by rewrite (bind_ok _ _ _ _ _ (catch_ok _ _ _ _ _ Eres)).
  - split_and!; try done.
    + intros t r Ht. unfold store_getRow at 1. rewrite Hrows.
      apply (snapshot_roundtrip (ss_local s')); [done| |done].
      by destruct (preserve_frame (rc_preservedMeta ctx2) emptyStore) as (-> & _).
    + rewrite Hseen. cbn. apply sorted_names_set.
Qed.

(** A third device takes over the mailbox the second one compacted. *)
Definition compacted : Manifest := next_manifest test_env (test_config "dev2") test_context.
Definition newcomer : Session (@MemoryAdapter test_platform) :=
  connected_session (ss_adapter first_compact.2) emptyStore "dev3".
Definition newcomer_context : @RehydrateContext test_platform :=
  mkRehydrate (@mkCodec test_platform None false (Some compacted)) (Some compacted)
    (hlcInit 1711785600000 "dev3") [].

Lemma connected_adapter {A} (a : A) l d : ss_adapter (connected_session a l d) = a.
Proof. done. Qed.
#[local] Instance store_ok_dec l : Decision (store_ok l).
Proof. unfold store_ok, own_key. apply _. Defined.

(** A run that returns the next manifest, from the flag of its success. *)
Lemma compact_run `{Platform} {A : Type} `{!StorageAdapter A} env cfg ctx
    (ctx_pull : M (Session A) ()) s :
  no_slash (cf_serverId cfg) = true → is_ok (compact env cfg ctx ctx_pull s).1 = true →
  compact env cfg ctx ctx_pull s =
    (Ok (next_manifest env cfg ctx), (compact env cfg ctx ctx_pull s).2).
Proof.
  intros Hsid Hok. destruct (compact env cfg ctx ctx_pull s) as [[m|e] s'] eqn:E; [|done].
  by destruct (compact_publishes _ _ _ _ _ _ _ E Hsid) as [-> _].
Qed.

Lemma rehydrate_recovers_compacted_state_witness : ∃ s3 : Session (@MemoryAdapter test_platform),
  store_getRow (ss_local s3) "todo" "r1" =
    with_key "todo/r1" <$> store_getRow (ss_local first_compact.2) "todo" "r1" ∧
  durable_seen (ss_local s3) = durable_seen (ss_local first_compact.2).
Proof.
  destruct (@rehydrate_recovers_compacted_state test_platform _ memory_storage mem_up
    memory_reliable test_env (test_config "dev2") (test_config "dev3") test_context newcomer_context
    test_pull (mret ()) (mret None) pull_session first_compact.2 newcomer compacted)
    as (s3 & _ & Hrows & Hseen & _).
  - refine (compact_run test_env (test_config "dev2") test_context test_pull pull_session eq_refl _).
    by vm_compute.
  - reflexivity.
  - by vm_compute.
  - apply (bool_decide_unpack (store_ok (ss_local first_compact.2))). by vm_compute.
  - apply (bool_decide_unpack (Forall (λ row, json_row row = true)
      (getAllRows (ss_local first_compact.2)))). by vm_compute.
  - apply (bool_decide_unpack (set_Forall (λ n, is_Some (changeFileHlc n))
      (durable_seen (ss_local first_compact.2)))). by vm_compute.
  - apply f_equal, connected_adapter.
  - unfold newcomer. rewrite connected_adapter.
    apply (bool_decide_unpack (NoDup (ma_files (ss_adapter first_compact.2)).*1)). by vm_compute.
  - by repeat split.
  - reflexivity.
  - intros m Hm. exact I.
  - exists s3. split; [exact (Hrows "todo" "r1" eq_refl)|exact Hseen].
Defined.
