(* ===== verification/ChangeEffects.v ===== *)
(** * Change observation effects ([packages/core/src/core/change-effects.ts], and
    [recordPendingLocalEffect] of [sync-engine.ts])

    What an observer of changes is told: per row an operation names, the columns
    whose value or stamp changed.  The rows are captured before the merge
    mutates them; [structuredClone] is the identity on values that are not
    shared.  [JSON.stringify([table, rowId])] identifies the pair, so the
    captured rows are keyed by the pair itself. *)

From S2P Require Import Prelude JsString Hlc Values Crdt JsMap LocalStore Wire Session MergeStore.
From Stdlib Require String.

Open Scope stdpp_scope.

(** ** Data *)
Inductive RowChangeKind := KCreate | KUpdate | KDelete | KResurrect.

Record ColumnChangeEffect := mkColumnEffect {
  cc_before : option ColumnEntry; cc_after : option ColumnEntry }.
Record RowChangeEffect := mkEffect {
  ef_table : string; ef_rowId : string; ef_kind : RowChangeKind;
  ef_fields : gmap string ColumnChangeEffect }.
Record CapturedRow := mkCaptured {
  cap_table : string; cap_rowId : string; cap_before : option Row }.

Definition cap_ref (c : CapturedRow) : string * string := (cap_table c, cap_rowId c).
Definition ef_ref (e : RowChangeEffect) : string * string := (ef_table e, ef_rowId e).

(** ** Operations *)

(** [valuesEqual] is a second copy of the merge engine's [columnValuesEqual]. *)
Definition valuesEqual : jsval → jsval → bool := columnValuesEqual.

Definition columnEntriesEqual (left right : option ColumnEntry) : bool :=
  match left, right with
  | Some l, Some r => String.eqb (hlc l) (hlc r) && valuesEqual (value l) (value r)
  | None, None => true
  | _, _ => false
  end.

Fixpoint capture (tables : Tables) (ops : list Op) (captured : list CapturedRow)
    : list CapturedRow :=
  match ops with
  | [] => captured
  | op :: ops =>
      if bool_decide ((op_table op, op_rowId op) ∈ cap_ref <$> captured)
      then capture tables ops captured
      else capture tables ops
             (captured ++ [mkCaptured (op_table op) (op_rowId op)
                             (getRow tables (op_table op) (op_rowId op))])
  end.
Definition captureRowsForOps (tables : Tables) (ops : list Op) : list CapturedRow :=
  capture tables ops [].

(** The fields object: a name of either payload, unless its entries are equal. *)
Definition changed_fields (before after : gmap string ColumnEntry)
    : gmap string ColumnChangeEffect :=
  merge (λ previous next, if columnEntriesEqual previous next then None
                          else Some (mkColumnEffect previous next)) before after.

Definition createRowChangeEffect (table rowId : string) (before after : option Row)
    : option RowChangeEffect :=
  match after with
  | None => None
  | Some after =>
      let fields := changed_fields (from_option payload ∅ before) (payload after) in
      let beforeDeleted := from_option (λ b, rm_deleted (_meta b)) false before in
      let afterDeleted := rm_deleted (_meta after) in
      let kind := if afterDeleted then KDelete
                  else if beforeDeleted then KResurrect
                  else match before with Some _ => KUpdate | None => KCreate end in
      if bool_decide (is_Some before) && Bool.eqb beforeDeleted afterDeleted &&
         bool_decide (fields = ∅)
      then None
      else Some (mkEffect table rowId kind fields)
  end.

Fixpoint effectsFromCapturedRows (tables : Tables) (captured : list CapturedRow)
    : list RowChangeEffect :=
  match captured with
  | [] => []
  | c :: captured =>
      option_list (createRowChangeEffect (cap_table c) (cap_rowId c) (cap_before c)
                     (getRow tables (cap_table c) (cap_rowId c)))
      ++ effectsFromCapturedRows tables captured
  end.

(** The effects of local writes, kept until their batch is promoted: the first
    [before] and the last [after] of each row ([recordPendingLocalEffect]). *)
Record PendingLocalRowEffect := mkPending {
  pe_table : string; pe_rowId : string; pe_before : option Row; pe_after : Row }.

Fixpoint recordPendingLocalEffect (table rowId : string) (before : option Row) (after : Row)
    (pending : list PendingLocalRowEffect) : list PendingLocalRowEffect :=
  match pending with
  | [] => [mkPending table rowId before after]
  | p :: pending =>
      if bool_decide ((pe_table p, pe_rowId p) = (table, rowId))
      then mkPending table rowId (pe_before p) after :: pending
      else p :: recordPendingLocalEffect table rowId before after pending
  end.

(** The effects [flushPendingBatch] emits. *)
Definition pending_effects (pending : list PendingLocalRowEffect) : list RowChangeEffect :=
  pending ≫= λ p, option_list
    (createRowChangeEffect (pe_table p) (pe_rowId p) (pe_before p) (Some (pe_after p))).

(** ** Theory *)

Lemma changed_fields_lookup b a k :
  changed_fields b a !! k =
    if columnEntriesEqual (b !! k) (a !! k) then None
    else Some (mkColumnEffect (b !! k) (a !! k)).
Proof. unfold changed_fields. rewrite lookup_merge. by destruct (b !! k), (a !! k). Qed.

(** What a row must not hold for it to equal itself: invalid dates. *)
Definition plain_row (row : Row) : Prop :=
  ∀ k e, payload row !! k = Some e → value_wf (value e).

Lemma changed_fields_same row : plain_row row → changed_fields (payload row) (payload row) = ∅.
Proof.
  intros Hp. apply map_eq. intros k. rewrite changed_fields_lookup, lookup_empty.
  destruct (payload row !! k) as [e|] eqn:E; simpl; [|done].
  rewrite String.eqb_refl. unfold valuesEqual.
  by rewrite columnValuesEqual_refl by (by eapply Hp).
Qed.
Lemma effect_same t r row : plain_row row → createRowChangeEffect t r (Some row) (Some row) = None.
Proof.
  intros Hp. unfold createRowChangeEffect. simpl. rewrite changed_fields_same by done.
  rewrite eqb_reflx. by rewrite bool_decide_true by done.
Qed.
Lemma effect_ref t r b a eff : createRowChangeEffect t r b a = Some eff → ef_ref eff = (t, r).
Proof.
  unfold createRowChangeEffect. destruct a as [a|]; [|done]. simpl. case_match; [done|].
  by intros [= <-].
Qed.

(** *** Captured rows *)
Definition capture_inv (tables : Tables) (refs : list (string * string)) (l : list CapturedRow) :=
  NoDup (cap_ref <$> l) ∧
  (∀ ref, ref ∈ cap_ref <$> l ↔ ref ∈ refs) ∧
  Forall (λ c, cap_before c = getRow tables (cap_table c) (cap_rowId c)) l.

Lemma capture_spec tables ops refs l :
  capture_inv tables refs l → capture_inv tables (refs ++ (op_ref <$> ops)) (capture tables ops l).
Proof.
  revert refs l. induction ops as [|op ops IH]; intros refs l (Hnd & Hin & Hb); simpl.
  { by rewrite app_nil_r. }
  rewrite (cons_middle (op_ref op)), app_assoc. case_bool_decide as Hd; apply IH.
  - split_and!; [done| |done]. intros ref. rewrite Hin, elem_of_app, list_elem_of_singleton.
    split; [by left|]. intros [ | -> ]; [done|]. by apply Hin.
  - split_and!.
    + rewrite fmap_app. apply list.NoDup_app. split; [done|]. split; [|apply NoDup_singleton].
      intros x Hx ->%list_elem_of_singleton. done.
    + intros ref. by rewrite fmap_app, !elem_of_app, Hin.
    + apply Forall_app. split; [done|]. by constructor.
Qed.
Lemma captured_spec tables ops : capture_inv tables (op_ref <$> ops) (captureRowsForOps tables ops).
Proof.
  apply (capture_spec tables ops [] []). split_and!; [constructor| |constructor].
  intros ref. simpl. done.
Qed.

Lemma elem_of_effects tables l eff :
  eff ∈ effectsFromCapturedRows tables l ↔
  ∃ c, c ∈ l ∧ createRowChangeEffect (cap_table c) (cap_rowId c) (cap_before c)
                 (getRow tables (cap_table c) (cap_rowId c)) = Some eff.
Proof.
  induction l as [|c l IH]; simpl.
  - split; [by intros ?%not_elem_of_nil|]. by intros (c & ?%not_elem_of_nil & _).
  - rewrite elem_of_app, IH.
    assert (∀ o, eff ∈ option_list o ↔ o = Some eff) as ->.
    { intros [e|]; simpl; [rewrite list_elem_of_singleton; naive_solver|].
      split; [by intros ?%not_elem_of_nil|done]. }
    split.
    + intros [E|(c' & Hc & E)]; [exists c|exists c']; split; (done || by constructor).
    + intros (c' & [ -> |Hc]%elem_of_cons & E); [by left|right; eauto].
Qed.
Lemma effects_nodup tables l : NoDup (cap_ref <$> l) →
  NoDup (ef_ref <$> effectsFromCapturedRows tables l).
Proof.
  induction l as [|c l IH]; simpl; [constructor|]. intros [Hc Hnd]%list.NoDup_cons.
  destruct (createRowChangeEffect _ _ _ _) as [eff|] eqn:E; simpl; [|by apply IH].
  apply list.NoDup_cons. split; [|by apply IH]. intros (eff' & E1 & E2)%list_elem_of_fmap.
  apply elem_of_effects in E2 as (c' & Hc' & E2). apply Hc. apply list_elem_of_fmap.
  exists c'. split; [|done]. apply effect_ref in E, E2. unfold cap_ref. congruence.
Qed.

(** *** What an observation should say *)

(** The same value: of one kind, dates of one instant, arrays item by item, objects with the same
    fields in whatever order. *)
Inductive same_value : jsval → jsval → Prop :=
  | same_plain v : match v with VDate _ | VArr _ | VObj _ => False | _ => True end → same_value v v
  | same_date t : same_value (VDate (Num t)) (VDate (Num t))
  | same_items l l' : Forall2 same_value l l' → same_value (VArr l) (VArr l')
  | same_fields fs fs' : fs.*1 ≡ₚ fs'.*1 →
      (∀ k v, (k, v) ∈ fs → ∃ w, assoc k fs' = Some w ∧ same_value v w) →
      same_value (VObj fs) (VObj fs').

Lemma sorted_keys_perm {A B} (l : list (string * A)) (l' : list (string * B)) :
  sorted_keys l = sorted_keys l' ↔ l.*1 ≡ₚ l'.*1.
Proof.
  unfold sorted_keys. split.
  - intros E. rewrite <- (merge_sort_Permutation String.le l.*1), E. apply merge_sort_Permutation.
  - intros Hp. apply (StronglySorted_unique String.le); [apply StronglySorted_merge_sort; apply _..|].
    by rewrite !merge_sort_Permutation.
Qed.

Lemma valuesEqual_spec v w : valuesEqual v w = true ↔ same_value v w.
Proof.
  unfold valuesEqual. revert w.
  induction v as [| |b|n|s|t|l IH|fs IH] using jsval_nested_ind; intros w.
  1-5: destruct w; simpl; (split; [intros H; try discriminate H|intros H; inversion H; subst]).
  all: try (by constructor).
  - apply eqb_prop in H as ->. by constructor.
  - apply eqb_reflx.
  - apply bool_decide_eq_true in H as ->. by constructor.
  - by apply bool_decide_true.
  - apply String.eqb_eq in H as ->. by constructor.
  - apply String.eqb_refl.
  - destruct w as [| | | | |t'| |]; simpl; (split; intros H; [try done|by inversion H; subst; try apply Z.eqb_refl]).
    destruct t as [|z], t' as [|z']; try done. apply Z.eqb_eq in H as ->. apply same_date.
  - destruct w as [| | | | | |l'|]; simpl; try (split; [done|by inversion 1]).
    trans (Forall2 same_value l l'); [|split; [by apply same_items|by inversion 1]].
    revert l'. induction IH as [|x l Hx Hl IHl]; intros [|y l']; try (split; [done|by inversion 1]).
    rewrite andb_true_iff, Hx, IHl. split; [by intros [??]; constructor|by inversion 1].
  - destruct w as [| | | | | | |fs']; simpl; try (split; [done|by inversion 1]).
    rewrite andb_true_iff, bool_decide_eq_true, sorted_keys_perm.
    trans (fs.*1 ≡ₚ fs'.*1 ∧ ∀ k v, (k, v) ∈ fs → ∃ w, assoc k fs' = Some w ∧ same_value v w);
      [|split; [by intros [??]; apply same_fields|by inversion 1]].
    apply and_iff_compat_l. clear -IH. induction IH as [|[k v] fs Hv Hfs IHfs].
    { split; [by intros _ ? ? ?%not_elem_of_nil|done]. }
    simpl in Hv. split.
    + intros H k' v' [[= -> ->]|Hin]%elem_of_cons; destruct (assoc k fs') as [w|] eqn:E; try done;
        apply andb_true_iff in H as [H1 H2].
      * exists w. split; [done|]. by apply Hv.
      * by apply IHfs in Hin.
    + intros H. destruct (H k v) as (w & -> & Hw); [left|]. apply Hv in Hw as ->.
      apply IHfs. intros k' v' Hin. apply H. by right.
Qed.

(** The entry a row has in a column, a missing row having none. *)
Definition entry_at (row : option Row) (k : string) : option ColumnEntry :=
  row ≫= λ row, payload row !! k.
Definition same_entry (l r : option ColumnEntry) : Prop :=
  match l, r with
  | Some l, Some r => hlc l = hlc r ∧ same_value (value l) (value r)
  | None, None => True
  | _, _ => False
  end.
Definition tombstoned (row : option Row) : Prop :=
  match row with Some row => rm_deleted (_meta row) = true | None => False end.

(** The row is new, was deleted or brought back, or has a column with another entry. *)
Definition changed (before after : option Row) : Prop :=
  before = None ∨ ¬ (tombstoned before ↔ tombstoned after) ∨
  ∃ k, ¬ same_entry (entry_at before k) (entry_at after k).

(** The effect says what became of the row, and of each column that has another entry, both
    entries. *)
Definition tells (eff : RowChangeEffect) (before after : option Row) : Prop :=
  match ef_kind eff with
  | KDelete => tombstoned after
  | KResurrect => ¬ tombstoned after ∧ tombstoned before
  | KUpdate => ¬ tombstoned after ∧ ¬ tombstoned before ∧ is_Some before
  | KCreate => ¬ tombstoned after ∧ before = None
  end ∧
  ∀ k, (same_entry (entry_at before k) (entry_at after k) → ef_fields eff !! k = None) ∧
       (¬ same_entry (entry_at before k) (entry_at after k) →
        ef_fields eff !! k = Some (mkColumnEffect (entry_at before k) (entry_at after k))).

Lemma columnEntriesEqual_spec l r : columnEntriesEqual l r = true ↔ same_entry l r.
Proof.
  destruct l, r; simpl; try done. by rewrite andb_true_iff, String.eqb_eq, valuesEqual_spec.
Qed.
Lemma entry_at_payload row k : from_option payload ∅ row !! k = entry_at row k.
Proof. by destruct row. Qed.

(** The code's effect tells the difference there is, and there is one when there is a difference. *)
Lemma effect_tells t r before after eff :
  createRowChangeEffect t r before (Some after) = Some eff → tells eff before (Some after).
Proof.
  unfold createRowChangeEffect. case_match; [done|]. intros [= <-]. split.
  - simpl. unfold tombstoned. destruct (rm_deleted (_meta after)); [done|].
    destruct before as [b|]; simpl; [|done]. by destruct (rm_deleted (_meta b)).
  - intros k. cbn [ef_fields]. rewrite changed_fields_lookup, entry_at_payload.
    change (payload after !! k) with (entry_at (Some after) k).
    rewrite <- columnEntriesEqual_spec. by destruct (columnEntriesEqual _ _).
Qed.
Lemma fields_differ before after :
  changed_fields (from_option payload ∅ before) (payload after) ≠ ∅ ↔
  ∃ k, ¬ same_entry (entry_at before k) (entry_at (Some after) k).
Proof.
  assert (∀ k, changed_fields (from_option payload ∅ before) (payload after) !! k = None ↔
    same_entry (entry_at before k) (entry_at (Some after) k)) as Hk.
  { intros k. rewrite changed_fields_lookup, entry_at_payload, <- columnEntriesEqual_spec.
    change (payload after !! k) with (entry_at (Some after) k). by destruct (columnEntriesEqual _ _). }
  split.
  - intros (k & c & E)%map_choose. exists k. rewrite <- Hk. by rewrite E.
  - intros (k & Hne) E. apply Hne, Hk. rewrite E. apply lookup_empty.
Qed.
Lemma effect_iff_changed t r before after :
  is_Some (createRowChangeEffect t r before (Some after)) ↔ changed before (Some after).
Proof.
  unfold changed. rewrite <- fields_differ. unfold createRowChangeEffect.
  destruct before as [b|]; [|split; [by left|by rewrite bool_decide_false by (by intros [? ?])]].
  rewrite (bool_decide_true (is_Some _)) by done. cbn [from_option andb tombstoned].
  destruct (rm_deleted (_meta b)), (rm_deleted (_meta after)); cbn [Bool.eqb andb].
  2,3: split; [intros _; right; left; naive_solver|done].
  all: case_bool_decide as Hc; (split; [|naive_solver]); [by intros [? ?]|].
  all: intros _; by right; right.
Qed.

Lemma unchanged_row row : plain_row row → ¬ changed (Some row) (Some row).
Proof. intros Hp. rewrite <- (effect_iff_changed "" ""), effect_same by done. by intros [? ?]. Qed.

(** The effects are those of the rows the operations name. *)
Lemma elem_of_observed ops T T' eff :
  eff ∈ effectsFromCapturedRows T' (captureRowsForOps T ops) ↔ ef_ref eff ∈ op_ref <$> ops ∧
     createRowChangeEffect (ef_table eff) (ef_rowId eff)
       (getRow T (ef_table eff) (ef_rowId eff)) (getRow T' (ef_table eff) (ef_rowId eff))
     = Some eff.
Proof.
  destruct (captured_spec T ops) as (_ & Href & Hbefore). rewrite list.Forall_forall in Hbefore.
  rewrite elem_of_effects. split.
  - intros (c & Hc & Ec). pose proof (effect_ref _ _ _ _ _ Ec) as Er.
    rewrite (Hbefore c) in Ec by done. split.
    + apply Href, list_elem_of_fmap. exists c. by rewrite Er.
    + unfold ef_ref in Er. injection Er as -> ->. done.
  - intros [(c & Ecr & Hc)%Href%list_elem_of_fmap Ec]. exists c. split; [done|].
    unfold ef_ref, cap_ref in Ecr. injection Ecr as E1 E2. rewrite E1, E2 in Ec.
    by rewrite (Hbefore c) by done.
Qed.

Section observed.
Context (sv : Z) (schema : option DatabaseSchemaDefinition).

(** C37: A change observation tells the whole difference a change made and nothing
    else.  When the operations of an entry have been merged into rows that hold no invalid date (one
    never equals itself), the rows that have an effect are, of the whole store, exactly those that are new, were deleted or
    brought back, or have a column whose stamp or value is another one, and each has one effect.  The effect names the kind of change
    and gives, for exactly the columns that differ, the entry from before and the entry from after, and
    its row, as it now is, is among the rows the merge returned.  No row has disappeared. *)
Theorem observed_effects_exact ops T affected T' :
  (∀ t r row, getRow T t r = Some row → plain_row row) →
  applyChanges ops sv schema T = (Ok affected, T') →
  let effects := effectsFromCapturedRows T' (captureRowsForOps T ops) in
  NoDup (ef_ref <$> effects) ∧
  (∀ t r, (t, r) ∈ ef_ref <$> effects ↔
     is_Some (getRow T' t r) ∧ changed (getRow T t r) (getRow T' t r)) ∧
  (∀ eff, eff ∈ effects →
     tells eff (getRow T (ef_table eff) (ef_rowId eff)) (getRow T' (ef_table eff) (ef_rowId eff)) ∧
     ∃ row, getRow T' (ef_table eff) (ef_rowId eff) = Some row ∧ row ∈ affected) ∧
  (∀ t r, is_Some (getRow T t r) → is_Some (getRow T' t r)).
Proof.
  intros Hw E effects. unfold applyChanges in E.
  apply bind_ok_inv in E as (refs & T2 & E & E2). injection E2 as <- <-.
  destruct (reported_spec sv schema ops T refs T2 E) as [Hrefs Hsame].
  assert (∀ t r, is_Some (getRow T t r) → is_Some (getRow T2 t r)) as Hstay.
  { intros t r. replace T2 with (reported ops sv schema T).2 by by rewrite E. apply reported_some. }
  assert (∀ t r row, getRow T2 t r = Some row → changed (getRow T t r) (Some row) → (t, r) ∈ refs) as Hnamed.
  { intros t r row Erow Hc. apply dec_stable. intros Hn. rewrite <- Hsame, Erow in Hc by done.
    apply (unchanged_row row); [|done]. rewrite Hsame in Erow by done. by eapply Hw. }
  split_and!; [apply effects_nodup, captured_spec| | |done].
  - intros t r. split.
    + intros (eff & Er & (_ & Ec)%elem_of_observed)%list_elem_of_fmap. injection Er as -> ->.
      destruct (getRow T2 _ _) as [row|]; [|done]. split; [done|]. apply (effect_iff_changed (ef_table eff) (ef_rowId eff)).
      by rewrite Ec.
    + intros [[row Erow] Hc]. rewrite Erow in Hc. pose proof Hc as [eff Ec]%(effect_iff_changed t r).
      apply list_elem_of_fmap. exists eff. pose proof (effect_ref _ _ _ _ _ Ec) as Er. split; [done|].
      apply elem_of_observed. rewrite Er. injection Er as -> ->. rewrite Erow. split; [|done].
      by apply (Hrefs (t, r)), (Hnamed t r row).
  - intros eff [_ Ec]%elem_of_observed. destruct (getRow T2 _ _) as [row|] eqn:Erow; [|done].
    split; [by eapply effect_tells|]. exists row. split; [done|]. apply list_elem_of_omap.
    exists (ef_ref eff). split; [|done]. apply (Hnamed _ _ row Erow), (effect_iff_changed (ef_table eff) (ef_rowId eff)).
    by rewrite Ec.
Qed.
End observed.

(** *** Local batches *)

Definition row_ref (row : Row) : string * string := (rm_table (_meta row), rm_rowId (_meta row)).

(** A run of local writes, each recorded against the row it replaces. *)
Fixpoint record_writes (rows : list Row) (T : Tables) (pending : list PendingLocalRowEffect)
    : Tables * list PendingLocalRowEffect :=
  match rows with
  | [] => (T, pending)
  | row :: rows =>
      let t := rm_table (_meta row) in
      let r := rm_rowId (_meta row) in
      record_writes rows (setRow T t r row) (recordPendingLocalEffect t r (getRow T t r) row pending)
  end.

Definition tracks (T : Tables) (p : PendingLocalRowEffect) (c : CapturedRow) : Prop :=
  cap_ref c = (pe_table p, pe_rowId p) ∧ cap_before c = pe_before p ∧
  getRow T (pe_table p) (pe_rowId p) = Some (pe_after p).

Lemma tracks_other T row pending captured :
  row_ref row ∉ cap_ref <$> captured → Forall2 (tracks T) pending captured →
  Forall2 (tracks (setRow T (rm_table (_meta row)) (rm_rowId (_meta row)) row)) pending captured.
Proof.
  intros Hn. induction 1 as [|p c pending captured (Ec & Eb & Ea) Htr IH]; [constructor|].
  rewrite fmap_cons in Hn. apply not_elem_of_cons in Hn as [Hne Hn].
  constructor; [|by apply IH]. split_and!; [done..|].
  rewrite getRow_setRow_ne; [done|]. by rewrite <- Ec.
Qed.

Lemma record_tracks T row before pending captured :
  NoDup (cap_ref <$> captured) → Forall2 (tracks T) pending captured →
  Forall2 (tracks (setRow T (rm_table (_meta row)) (rm_rowId (_meta row)) row))
    (recordPendingLocalEffect (rm_table (_meta row)) (rm_rowId (_meta row)) before row pending)
    (if bool_decide (row_ref row ∈ cap_ref <$> captured) then captured
     else captured ++ [mkCaptured (rm_table (_meta row)) (rm_rowId (_meta row)) before]).
Proof.
  intros Hnd Htr. induction Htr as [|p c pending captured Hpc Htr IH].
  { simpl. constructor; [|constructor].
    split_and!; [done..|]. apply getRow_setRow_eq. }
  rewrite fmap_cons in Hnd |- *. apply list.NoDup_cons in Hnd as [Hc Hnd].
  destruct Hpc as (Ec & Eb & Ea). cbn [recordPendingLocalEffect].
  destruct (decide ((pe_table p, pe_rowId p) = row_ref row)) as [Hr|Hr].
  - rewrite bool_decide_true by done. rewrite bool_decide_true by (rewrite Ec, Hr; left). constructor.
    + split_and!; [by rewrite Ec|done|]. apply getRow_setRow_eq.
    + apply tracks_other; [|done]. by rewrite Ec, Hr in Hc.
  - specialize (IH Hnd). rewrite bool_decide_false by done.
    assert (tracks (setRow T (rm_table (_meta row)) (rm_rowId (_meta row)) row) p c) as Hp.
    { split_and!; [done..|]. rewrite getRow_setRow_ne; [done|]. intros E. by destruct Hr. }
    destruct (decide (row_ref row ∈ cap_ref <$> captured)) as [Hin|Hin].
    + rewrite bool_decide_true in IH |- * by (done || by right). by constructor.
    + rewrite bool_decide_false in IH by done. rewrite bool_decide_false; [by constructor|].
      intros [E|]%elem_of_cons; [|done]. destruct Hr. by rewrite E.
Qed.

Lemma tracked_effects T pending captured : Forall2 (tracks T) pending captured →
  pending_effects pending = effectsFromCapturedRows T captured.
Proof.
  induction 1 as [|p c pending captured (Ec & Eb & Ea) Htr IH]; [done|].
  unfold pending_effects. rewrite bind_cons. fold (pending_effects pending). rewrite IH. simpl.
  unfold cap_ref in Ec. injection Ec as -> ->. by rewrite Eb, Ea.
Qed.

Lemma record_writes_tracks rows ops T0 T pending captured refs :
  Forall2 (λ row op, row_ref row = op_ref op) rows ops →
  capture_inv T0 refs captured →
  (∀ t r, (t, r) ∉ refs → getRow T t r = getRow T0 t r) →
  Forall2 (tracks T) pending captured →
  Forall2 (tracks (record_writes rows T pending).1) (record_writes rows T pending).2
    (capture T0 ops captured).
Proof.
  intros Href. revert T pending captured refs.
  induction Href as [|row op rows ops Hro Href IH]; intros T pending captured refs Hinv Hsame Htr;
    [done|]. pose proof Hinv as (Hnd & Hin & _). simpl.
  pose proof (record_tracks T row (getRow T (rm_table (_meta row)) (rm_rowId (_meta row)))
                pending captured Hnd Htr) as Hstep.
  pose proof (capture_spec T0 [op] refs captured Hinv) as Hinv'. simpl in Hinv'.
  unfold row_ref, op_ref in Hro. injection Hro as Et Er. unfold row_ref in Hstep.
  rewrite Et, Er in *. case_bool_decide as Hd; eapply IH; try exact Hinv'.
  1,3: intros t r [Ho Hne]%not_elem_of_app; rewrite getRow_setRow_ne; [by apply Hsame|];
       intros E; apply Hne, list_elem_of_singleton; by rewrite <- E.
  - done.
  - rewrite <- Hsame by (by rewrite <- Hin). done.
Qed.

(** A local observer is told of a batch what a remote observer is told of the
    entry it becomes.  Whatever rows a batch writes and however often, the effects
    recorded write by write are those computed from the rows as they were before
    the batch and as they are after it, one per row, in order of first write. *)
Theorem batch_effects_are_net rows ops T :
  Forall2 (λ row op, row_ref row = op_ref op) rows ops →
  pending_effects (record_writes rows T []).2 =
    effectsFromCapturedRows (record_writes rows T []).1 (captureRowsForOps T ops).
Proof.
  intros Href. apply tracked_effects.
  apply (record_writes_tracks rows ops T T [] [] []); [done| |done|constructor].
  split_and!; [constructor| |constructor]. done.
Qed.

(** *** A batch and a merge, observed *)
Definition col (v h : string) : ColumnEntry := mkColumn (VStr v) h.
Definition live (r : string) (p : gmap string ColumnEntry) : Row :=
  mkRow (mkMeta "t" r false None 1 None None) p.
Definition before_merge : Tables :=
  setRow (setRow ∅ "t" "a" (live "a" {["x" := col "old" "000000000000005-0000-d"]}))
    "t" "b" (live "b" {["x" := col "new" "000000000000009-0000-d"]}).
Definition merged_ops : list Op :=
  [ UpsertOp "t" "a" [("x", col "mid" "000000000000007-0000-e")];
    UpsertOp "t" "b" [("x", col "mid" "000000000000007-0000-e")];
    DeleteOp "t" "c" "000000000000008-0000-e" ].

Lemma before_merge_rows t r row : getRow before_merge t r = Some row →
  (t = "t" ∧ r = "b" ∧ row = live "b" {["x" := col "new" "000000000000009-0000-d"]}) ∨
  (t = "t" ∧ r = "a" ∧ row = live "a" {["x" := col "old" "000000000000005-0000-d"]}).
Proof.
  unfold before_merge. intros H.
  destruct (decide (("t", "b") = (t, r))) as [[= <- <-]|Hb].
  { rewrite getRow_setRow_eq in H. injection H as <-. by left. }
  rewrite getRow_setRow_ne in H by done.
  destruct (decide (("t", "a") = (t, r))) as [[= <- <-]|Ha].
  { rewrite getRow_setRow_eq in H. injection H as <-. by right. }
  by rewrite getRow_setRow_ne in H by done.
Qed.
Lemma live_plain r v h : plain_row (live r {["x" := col v h]}).
Proof. unfold plain_row, live. cbn [payload]. by intros k e [_ <-]%lookup_singleton_Some. Qed.

Lemma observed_effects_exact_witness :
  let res := applyChanges merged_ops 1 None before_merge in
  let effects := effectsFromCapturedRows res.2 (captureRowsForOps before_merge merged_ops) in
  ∃ affected, res.1 = Ok affected ∧
    (λ eff, (ef_ref eff, ef_kind eff)) <$> effects = [(("t", "a"), KUpdate); (("t", "c"), KDelete)] ∧
    ∀ eff, eff ∈ effects →
      tells eff (getRow before_merge (ef_table eff) (ef_rowId eff)) (getRow res.2 (ef_table eff) (ef_rowId eff)) ∧
      ∃ row, getRow res.2 (ef_table eff) (ef_rowId eff) = Some row ∧ row ∈ affected.
Proof.
  intros res.
  assert (is_ok res.1 = true) as H by by vm_compute.
  assert ((λ eff, (ef_ref eff, ef_kind eff)) <$>
    effectsFromCapturedRows res.2 (captureRowsForOps before_merge merged_ops) =
    [(("t", "a"), KUpdate); (("t", "c"), KDelete)]) as He by by vm_compute.
  revert H He. unfold res. clear res.
  destruct (applyChanges merged_ops 1 None before_merge) as [[affected|] T'] eqn:E; [|done].
  intros _ He. exists affected. split; [exact eq_refl|]. split; [exact He|].
  refine (proj1 (proj2 (proj2 (observed_effects_exact 1 None merged_ops before_merge affected T' _ E)))).
  intros t r row [(-> & -> & ->)|(-> & -> & ->)]%before_merge_rows; apply live_plain.
Defined.

Lemma batch_effects_are_net_witness :
  let rows := [live "c" {["x" := col "1" "000000000000009-0000-d"]};
               live "a" {["x" := col "2" "000000000000009-0001-d"]};
               live "c" {["x" := col "3" "000000000000009-0002-d"]}] in
  ef_kind <$> pending_effects (record_writes rows before_merge []).2 = [KCreate; KUpdate] ∧
  pending_effects (record_writes rows before_merge []).2 =
    effectsFromCapturedRows (record_writes rows before_merge []).1
      (captureRowsForOps before_merge
         [DeleteOp "t" "c" ""; DeleteOp "t" "a" ""; DeleteOp "t" "c" ""]).
Proof.
  split; [by vm_compute|]. apply batch_effects_are_net. repeat constructor.
Defined.
