(* ===== verification/LocalWrites.v ===== *)
(** * Local writes ([putNow], [deleteNow], [getRowHlc] and [rowToSyncOp] of
    [packages/core/src/core/sync-engine.ts])

    A local write edits its row directly, without going through the merge
    engine, and hands the edited row to the other replicas as one operation.  The
    theorems here say when the author's row is the one a replica computes by
    merging that operation, and give the two cases where it is not. *)

From S2P Require Import Prelude JsString Hlc Values Crdt Convergence.
From Stdlib Require String.

Open Scope stdpp_scope.

(** ** The row a write leaves *)

(** A new or resurrected row starts with an empty payload. *)
Definition put_base (table rowId : string) (schemaVersion : Z) (current : option Row) : Row :=
  match current with
  | Some current =>
      mkRow (_meta current) (if rm_deleted (_meta current) then ∅ else payload current)
  | None => mkRow (mkMeta table rowId false None schemaVersion None None) ∅
  end.
Definition stored_value (v : jsval) : jsval := match v with VUndefined => VNull | _ => v end.
Definition put_columns (stamp : string) (columns : list (string * jsval))
    (p : gmap string ColumnEntry) : gmap string ColumnEntry :=
  foldl (λ p kv, <[kv.1 := mkColumn (stored_value kv.2) stamp]> p) p columns.
Definition with_owner (m : RowMeta) (owner : string) : RowMeta :=
  mkMeta (rm_table m) (rm_rowId m) (rm_deleted m) (rm_deletedHlc m) (rm_schemaVersion m)
    (Some owner) (rm_key m).
Definition put_row (device stamp : string) (columns : list (string * jsval)) (base : Row) : Row :=
  mkRow (with_owner (with_deleted (_meta base) false None) device)
    (put_columns stamp columns (payload base)).
Definition delete_row (device stamp : string) (current : Row) : Row :=
  mkRow (with_owner (with_deleted (_meta current) true (Some stamp)) device) ∅.

(** ** The operation it becomes *)
Definition later_stamp (latest : string) (entry : ColumnEntry) : string :=
  if negb (truthy (hlc entry)) then latest
  else if negb (truthy latest) || num_gtb (hlcCompareStr (hlc entry) latest) (Num 0)
  then hlc entry else latest.
Definition getRowHlc (row : Row) : string :=
  foldl later_stamp (default "" (rm_deletedHlc (_meta row))) (map_to_list (payload row)).*2.

Definition rowToSyncOp (row : Row) : option Op :=
  if rm_deleted (_meta row) then
    let h := default (getRowHlc row) (rm_deletedHlc (_meta row)) in
    if truthy h then Some (DeleteOp (rm_table (_meta row)) (rm_rowId (_meta row)) h) else None
  else
    match filter (λ kv, truthy (hlc kv.2) = true) (map_to_list (payload row)) with
    | [] => None
    | columns => Some (UpsertOp (rm_table (_meta row)) (rm_rowId (_meta row)) columns)
    end.

(** ** Theory *)

(** The replicated part of a row: all but the owner and the storage key. *)
Definition same_state (a b : Row) : Prop :=
  rm_table (_meta a) = rm_table (_meta b) ∧ rm_rowId (_meta a) = rm_rowId (_meta b) ∧
  rm_deleted (_meta a) = rm_deleted (_meta b) ∧
  rm_deletedHlc (_meta a) = rm_deletedHlc (_meta b) ∧ payload a = payload b.

(** [stamp] is newer than every stamp the row holds. *)
Definition dominates (stamp : string) (row : Row) : Prop :=
  (∀ k e, payload row !! k = Some e → slt (hlc e) stamp) ∧
  (∀ d, rm_deletedHlc (_meta row) = Some d → slt d stamp).

Lemma put_columns_lookup stamp columns p k e :
  put_columns stamp columns p !! k = Some e →
  (e = mkColumn (value e) stamp ∧ ∃ v, (k, v) ∈ columns ∧ value e = stored_value v) ∨
  p !! k = Some e.
Proof.
  unfold put_columns. revert p. induction columns as [|[k' v] columns IH]; intros p; simpl.
  { by right. }
  intros [(He & w & Hw & Ev)|Hk]%IH.
  - left. split; [done|]. exists w. split; [by right|done].
  - destruct (decide (k' = k)) as [->|]; [|rewrite lookup_insert_ne in Hk by done; by right].
    rewrite lookup_insert_eq in Hk. injection Hk as <-. left. split; [done|]. exists v.
    split; [left|done].
Qed.
Lemma put_columns_mono stamp columns p k :
  is_Some (p !! k) → is_Some (put_columns stamp columns p !! k).
Proof.
  unfold put_columns. revert p. induction columns as [|[k' v] columns IH]; intros p Hk; [done|].
  simpl. apply IH. destruct (decide (k' = k)) as [->|].
  - by rewrite lookup_insert_eq.
  - by rewrite lookup_insert_ne.
Qed.
Lemma put_columns_nonempty stamp columns p : columns ≠ [] → put_columns stamp columns p ≠ ∅.
Proof.
  destruct columns as [|[k v] columns]; [done|]. intros _ E.
  destruct (put_columns_mono stamp columns (<[k := mkColumn (stored_value v) stamp]> p) k) as [e He].
  { by rewrite lookup_insert_eq. }
  assert (put_columns stamp ((k, v) :: columns) p !! k = Some e) as H by done.
  rewrite E in H. done.
Qed.

Lemma put_columns_stamped stamp columns p : columns ≠ [] →
  ∃ k e, put_columns stamp columns p !! k = Some e ∧ hlc e = stamp.
Proof.
  destruct columns as [|[k v] cs]; [done|]. intros _. exists k.
  destruct (put_columns_mono stamp cs (<[k := mkColumn (stored_value v) stamp]> p) k) as [e He].
  { by rewrite lookup_insert_eq. }
  exists e. split; [done|]. apply put_columns_lookup in He as [[-> _]|He]; [done|].
  rewrite lookup_insert_eq in He. by injection He as <-.
Qed.

(** The join with the entries of a map. *)
Lemma join_cols_other p cols k : k ∉ cols.*1 → join_cols p cols !! k = p !! k.
Proof.
  unfold join_cols. revert p. induction cols as [|kv cols IH]; intros p Hk; [done|].
  rewrite fmap_cons in Hk. apply not_elem_of_cons in Hk as [Hne Hk]. simpl. rewrite IH by done.
  unfold join_step. by rewrite lookup_insert_ne.
Qed.
Lemma join_cols_here p cols k e : NoDup cols.*1 → (k, e) ∈ cols →
  join_cols p cols !! k = Some (col_join (p !! k) e).
Proof.
  unfold join_cols. revert p. induction cols as [|kv cols IH]; intros p Hnd Hin.
  { by apply not_elem_of_nil in Hin. }
  rewrite fmap_cons in Hnd. apply list.NoDup_cons in Hnd as [Hkv Hnd]. simpl.
  apply elem_of_cons in Hin as [<-|Hin].
  - rewrite join_cols_other by done. unfold join_step. by rewrite lookup_insert_eq.
  - rewrite IH by done. unfold join_step. rewrite lookup_insert_ne; [done|].
    intros E. apply Hkv. rewrite E. apply list_elem_of_fmap. by exists (k, e).
Qed.
Lemma join_map p q :
  (∀ k, is_Some (p !! k) → is_Some (q !! k)) →
  (∀ k e, q !! k = Some e → col_join (p !! k) e = e) →
  join_cols p (map_to_list q) = q.
Proof.
  intros Hdom Hj. apply map_eq. intros k. destruct (q !! k) as [e|] eqn:E.
  - rewrite (join_cols_here p (map_to_list q) k e); [by rewrite (Hj k e)|apply NoDup_fst_map_to_list|].
    by apply elem_of_map_to_list.
  - rewrite join_cols_other.
    + destruct (p !! k) eqn:Ep; [|done]. destruct (Hdom k) as [e He]; [by eexists|congruence].
    + intros ([k' e] & -> & He)%list_elem_of_fmap. apply elem_of_map_to_list in He. simpl in E. congruence.
Qed.

(** *** The stamp of a written row is the stamp of the write *)
Definition below (stamp s : string) : Prop := s = "" ∨ (canonical s ∧ (s = stamp ∨ slt s stamp)).

Lemma later_truthy latest e :
  truthy (later_stamp latest e) = truthy latest || truthy (hlc e).
Proof.
  unfold later_stamp. destruct (truthy (hlc e)) eqn:E; simpl; [|by rewrite orb_false_r].
  rewrite orb_true_r. destruct (truthy latest) eqn:E'; simpl; [|done]. by case_match.
Qed.
Lemma latest_truthy entries latest :
  truthy (foldl later_stamp latest entries) = truthy latest || existsb (λ e, truthy (hlc e)) entries.
Proof.
  revert latest. induction entries as [|e entries IH]; intros latest; simpl; [by rewrite orb_false_r|].
  by rewrite IH, later_truthy, orb_assoc.
Qed.

Lemma later_stamp_below stamp latest e :
  canonical stamp → below stamp latest → below stamp (hlc e) →
  below stamp (later_stamp latest e) ∧
  (latest = stamp ∨ hlc e = stamp → later_stamp latest e = stamp).
Proof.
  intros Hs Hl He. assert (truthy stamp = true) as Hts by by apply canonical_truthy.
  assert (truthy "" = false) as Ht0 by done. unfold later_stamp.
  destruct He as [E|[Hce He]].
  { rewrite E, Ht0. simpl. split; [done|]. intros [|E']; [done|]. rewrite <- E' in Hts. done. }
  rewrite (canonical_truthy _ Hce). simpl. destruct Hl as [->|[Hcl Hl]].
  { rewrite Ht0. simpl. split; [by right|]. intros [<-|]; [by rewrite Ht0 in Hts|done]. }
  rewrite (canonical_truthy _ Hcl). simpl. fold (newer (hlc e) latest).
  destruct (newer (hlc e) latest) eqn:En.
  - split; [by right|]. intros [->|]; [|done]. apply newer_spec in En; [|done..].
    destruct He as [|He]; [done|]. by destruct (stamp_asym (hlc e) stamp Hce Hs He).
  - split; [by right|]. intros [|E]; [done|]. apply newer_false in En; [|done..].
    destruct Hl as [|Hl]; [done|]. by rewrite E in En.
Qed.

Lemma latest_stamp stamp entries latest :
  canonical stamp → below stamp latest → Forall (λ e, below stamp (hlc e)) entries →
  latest = stamp ∨ (∃ e, e ∈ entries ∧ hlc e = stamp) →
  foldl later_stamp latest entries = stamp.
Proof.
  intros Hs Hl Hall. revert latest Hl. induction Hall as [|e entries He Hall IH]; intros latest Hl Hex; simpl.
  { destruct Hex as [|(e & ?%not_elem_of_nil & _)]; done. }
  destruct (later_stamp_below stamp latest e Hs Hl He) as [Hb Heq]. apply IH; [done|].
  destruct Hex as [E|(e' & [<-|Hin]%elem_of_cons & E)]; [left; by apply Heq; left| |right; eauto].
  left. by apply Heq; right.
Qed.

Section theory.
Context (U : string → string → string → ColumnEntry → Prop) `{HU : !Universe U}.
Context (schema : option DatabaseSchemaDefinition) (sv : Z).
Context (Hlww : ∀ t k, resolveStrategy schema t k = Ok Lww).

Local Hint Resolve U_canonical : interocitor.

(** A write as the theorems need it: at least one column, each entry it makes
    belongs to the history, and its stamp is newer than the row. *)
Record put_ready (t r stamp : string) (columns : list (string * jsval)) (o : option Row) : Prop := {
  pr_columns : columns ≠ [];
  pr_history : ∀ k v, (k, v) ∈ columns → U t r k (mkColumn (stored_value v) stamp);
  pr_row : ∀ row, o = Some row → row_ok U t r row;
  pr_newer : ∀ row, o = Some row → dominates stamp row }.

Lemma put_base_ok t r sv' o :
  (∀ row, o = Some row → row_ok U t r row) → payload_ok U t r (payload (put_base t r sv' o)).
Proof.
  intros Ho. destruct o as [row|]; simpl; [|apply payload_ok_empty; exact U].
  destruct (Ho row eq_refl) as (_ & _ & Hp & _). case_match; [|done].
  by intros k e ?%lookup_empty_Some.
Qed.

Lemma put_entries t r stamp columns o k e :
  put_ready t r stamp columns o →
  put_columns stamp columns (payload (put_base t r sv o)) !! k = Some e →
  U t r k e ∧ canonical stamp ∧
  (hlc e = stamp ∨ (payload (put_base t r sv o) !! k = Some e ∧ slt (hlc e) stamp)).
Proof.
  intros Hr Hk. assert (canonical stamp) as Hs.
  { destruct columns as [|[k' v] cs] eqn:E; [by destruct (pr_columns _ _ _ _ _ Hr)|].
    exact (U_canonical _ _ _ _ (pr_history _ _ _ _ _ Hr k' v (list_elem_of_here _ _))). }
  apply put_columns_lookup in Hk as [(He & v & Hin & Ev)|Hk].
  - split_and!; [|done|left; by rewrite He]. rewrite He, Ev. by apply Hr.
  - split_and!; [|done|].
    + eapply put_base_ok; [|exact Hk]. apply Hr.
    + right. split; [done|]. destruct o as [row|]; simpl in Hk; [|by apply lookup_empty_Some in Hk].
      destruct (rm_deleted (_meta row)); [by apply lookup_empty_Some in Hk|].
      by eapply (proj1 (pr_newer _ _ _ _ _ Hr row eq_refl)).
Qed.

Lemma put_row_meta t r device stamp columns o :
  (∀ row, o = Some row → row_ok U t r row) →
  let row := put_row device stamp columns (put_base t r sv o) in
  rm_table (_meta row) = t ∧ rm_rowId (_meta row) = r ∧
  rm_deleted (_meta row) = false ∧ rm_deletedHlc (_meta row) = None.
Proof. intros Ho. destruct o as [cur|]; simpl; [|done]. by destruct (Ho cur eq_refl) as (-> & -> & _). Qed.

(** The operation of a write carries every column of the row it leaves. *)
Lemma put_op t r device stamp columns o :
  put_ready t r stamp columns o →
  let row := put_row device stamp columns (put_base t r sv o) in
  rowToSyncOp row = Some (UpsertOp t r (map_to_list (payload row))) ∧
  getRowHlc row = stamp ∧ cols_ok U t r (map_to_list (payload row)).
Proof.
  intros Hr row. pose proof (pr_row _ _ _ _ _ Hr) as Hok.
  destruct (put_row_meta t r device stamp columns o Hok) as (Et & Er & Ed & Edh). fold row in Et, Er, Ed, Edh.
  assert (∀ k e, (k, e) ∈ map_to_list (payload row) → U t r k e ∧ canonical stamp ∧
            (hlc e = stamp ∨ slt (hlc e) stamp)) as Hent.
  { intros k e Hin%elem_of_map_to_list. unfold row in Hin. simpl in Hin.
    destruct (put_entries _ _ _ _ _ _ _ Hr Hin) as (? & ? & [|[_ ?]]); auto. }
  assert (map_to_list (payload row) ≠ []) as Hne.
  { rewrite map_to_list_empty_iff. by apply put_columns_nonempty, (pr_columns _ _ _ _ _ Hr). }
  split_and!.
  - unfold rowToSyncOp. rewrite Ed, Et, Er.
    assert (filter (λ kv, truthy (hlc kv.2) = true) (map_to_list (payload row)) =
      map_to_list (payload row)) as ->.
    { apply filter_all. apply list.Forall_forall. intros [k e] Hin.
      apply canonical_truthy. destruct (Hent k e Hin) as [HU' _]. eauto with interocitor. }
    by destruct (map_to_list (payload row)).
  - unfold getRowHlc. rewrite Edh. simpl.
    destruct columns as [|[k v] cs] eqn:Ec; [by destruct (pr_columns _ _ _ _ _ Hr)|].
    assert (canonical stamp) as Hs.
    { exact (U_canonical _ _ _ _ (pr_history _ _ _ _ _ Hr k v (list_elem_of_here _ _))). }
    apply latest_stamp; [done|by left| |right].
    + apply list.Forall_forall. intros e ([k' e'] & -> & Hin)%list_elem_of_fmap.
      destruct (Hent k' e' Hin) as (HU' & _ & Hle). right. split; [eauto with interocitor|done].
    + destruct (put_columns_stamped stamp ((k, v) :: cs) (payload (put_base t r sv o)))
        as (k' & e & He & Ee); [done|]. exists e. split; [|done].
      apply list_elem_of_fmap. exists (k', e). split; [done|]. by apply elem_of_map_to_list.
  - apply list.Forall_forall. intros [k e] Hin. by apply Hent.
Qed.

Lemma put_merge t r device stamp columns o :
  put_ready t r stamp columns o →
  let row := put_row device stamp columns (put_base t r sv o) in
  same_state (upsert_result sv t r (map_to_list (payload row)) o) row.
Proof.
  intros Hr row. pose proof (pr_row _ _ _ _ _ Hr) as Hok.
  destruct (put_row_meta t r device stamp columns o Hok) as (Et & Er & Ed & Edh). fold row in Et, Er, Ed, Edh.
  assert (join_cols (payload (put_base t r sv o)) (map_to_list (payload row)) = payload row) as Hjoin.
  { apply join_map; [intros k; apply put_columns_mono|]. intros k e He.
    destruct (put_entries _ _ _ _ _ k e Hr He) as (HU' & Hs & Hcase).
    destruct (payload (put_base t r sv o) !! k) as [e0|] eqn:E0; [|done]. simpl.
    destruct Hcase as [Es|[[= <-] _]]; [|by case_match].
    assert (newer (hlc e) (hlc e0) = true) as ->; [|done].
    pose proof (put_base_ok t r sv o Hok k e0 E0). rewrite newer_spec, Es by eauto with interocitor.
    destruct o as [cur|]; simpl in E0; [|by apply lookup_empty_Some in E0].
    destruct (rm_deleted (_meta cur)); [by apply lookup_empty_Some in E0|].
    by eapply (proj1 (pr_newer _ _ _ _ _ Hr cur eq_refl)). }
  assert (∀ k e, payload row !! k = Some e → U t r k e ∧ canonical stamp ∧
            (hlc e = stamp ∨ payload (put_base t r sv o) !! k = Some e ∧ slt (hlc e) stamp)) as Hent.
  { intros k e. by apply put_entries. }
  assert (payload row ≠ ∅) as Hne by by apply put_columns_nonempty, (pr_columns _ _ _ _ _ Hr).
  clearbody row. unfold upsert_result. destruct o as [cur|]; cbn [default from_option id put_base payload] in *.
  2:{ unfold same_state. simpl. by rewrite Et, Er, Ed, Edh. }
  pose proof (Hok cur eq_refl) as Hcur. pose proof Hcur as (Ht & Hrr & _ & _).
  destruct (row_ok_cases U t r cur Hcur) as [(-> & Hdel & Hdh & Hp)|(d & -> & Hcd & Hpe & Erow)].
  - rewrite Hdel in Hjoin. unfold same_state. cbn. rewrite Et, Er, Ed, Edh. by split_and!.
  - assert (rm_deleted (_meta cur) = true) as Hdl by by rewrite Erow. rewrite Hdl in Hjoin, Hent.
    assert (fresh_cols d (map_to_list (payload row)) = map_to_list (payload row)) as ->.
    { unfold fresh_cols. apply filter_all. apply list.Forall_forall.
      intros [k e] Hin%elem_of_map_to_list. destruct (Hent k e Hin) as (HU' & Hs & Hcase).
      simpl. apply newer_spec; [eauto with interocitor|done|].
      destruct Hcase as [->|[E _]]; [|by apply lookup_empty_Some in E].
      apply (pr_newer _ _ _ _ _ Hr cur eq_refl). by rewrite Erow. }
    destruct (map_to_list (payload row)) as [|kv l] eqn:El; [by apply map_to_list_empty_iff in El|].
    unfold same_state. cbn [_meta with_deleted rm_table rm_rowId rm_deleted rm_deletedHlc payload].
    rewrite Et, Er, Ed, Edh. by split_and!.
Qed.

Lemma delete_dominated t r stamp cur :
  payload_ok U t r (payload cur) → rm_deletedHlc (_meta cur) = None → canonical stamp →
  (∀ k e, payload cur !! k = Some e → slt (hlc e) stamp) →
  deleteRow (Some cur) t r stamp sv =
    Some (mkRow (with_deleted (_meta cur) true (Some stamp)) ∅).
Proof.
  intros Hp Hd Hs Hlt. unfold deleteRow. rewrite Hd. cbn.
  assert (hasNewerColumn (payload cur) stamp = false) as ->; [|done].
  apply not_true_iff_false. rewrite (hasNewerColumn_spec U t r) by done.
  intros (k & e & He & Hn). destruct (stamp_asym stamp (hlc e)); [done| |done|by eapply Hlt].
  eauto with interocitor.
Qed.

(** *** States up to the author's bookkeeping *)
#[global] Instance same_state_equiv : Equivalence same_state.
Proof.
  unfold same_state. constructor.
  - intros a. by split_and!.
  - intros a b (? & ? & ? & ? & ?). by split_and!.
  - intros a b c (? & ? & ? & ? & ?) (? & ? & ? & ? & ?). split_and!; congruence.
Qed.

Definition same_tables (T1 T2 : Tables) : Prop :=
  ∀ t r, option_Forall2 same_state (getRow T1 t r) (getRow T2 t r).
#[global] Instance same_tables_equiv : Equivalence same_tables.
Proof.
  unfold same_tables. split.
  - intros T t r. reflexivity.
  - intros T1 T2 H t r. symmetry. apply H.
  - intros T1 T2 T3 H1 H2 t r. etransitivity; [apply H1|apply H2].
Qed.

Lemma upsert_result_proper t r cols : Proper (option_Forall2 same_state ==> same_state)
  (upsert_result sv t r cols).
Proof.
  intros o1 o2 Ho. unfold upsert_result.
  assert (same_state (default (blankRow t r sv false None) o1)
            (default (blankRow t r sv false None) o2)) as Hd by by destruct Ho.
  revert Hd. generalize (default (blankRow t r sv false None) o1), (default (blankRow t r sv false None) o2).
  intros r1 r2 Hd. pose proof Hd as (E1 & E2 & E3 & E4 & E5). unfold tomb_stamp. rewrite E3, E4.
  destruct (if rm_deleted (_meta r2) then _ else _) as [d|].
  - destruct (fresh_cols d cols); [done|]. unfold same_state. simpl. by rewrite E1, E2.
  - unfold same_state. simpl. by rewrite E1, E2, E3, E4, E5.
Qed.

Lemma setRow_same_tables t r row1 row2 T1 T2 :
  same_state row1 row2 → same_tables T1 T2 → same_tables (setRow T1 t r row1) (setRow T2 t r row2).
Proof.
  intros Hr HT t' r'. destruct (decide ((t, r) = (t', r'))) as [[= <- <-]|].
  - rewrite !getRow_setRow_eq. by constructor.
  - by rewrite !getRow_setRow_ne.
Qed.
Lemma step_upsert_same t r cols T1 T2 : same_tables T1 T2 →
  same_tables (step_tables sv T1 (UpsertOp t r cols)) (step_tables sv T2 (UpsertOp t r cols)).
Proof. intros HT. apply setRow_same_tables; [|done]. by apply upsert_result_proper. Qed.
Lemma steps_upsert_same ops T1 T2 : Forall is_upsert ops → same_tables T1 T2 →
  same_tables (foldl (step_tables sv) T1 ops) (foldl (step_tables sv) T2 ops).
Proof.
  intros Hops. revert T1 T2. induction Hops as [|[t r cols|] ops Hop Hops IH]; intros T1 T2 HT;
    [done| |done]. simpl. by apply IH, step_upsert_same.
Qed.

(** *** Runs of a device

    A device writes rows of its own and merges the operations of others. *)
Inductive action :=
  | Write (table rowId stamp : string) (columns : list (string * jsval))
  | Merge (op : Op).

Definition written device T t r stamp columns : Row :=
  put_row device stamp columns (put_base t r sv (getRow T t r)).
Fixpoint run (device : string) (acts : list action) (T : Tables) : Tables * list Op :=
  match acts with
  | [] => (T, [])
  | Write t r stamp columns :: acts =>
      let row := written device T t r stamp columns in
      let '(T', ops) := run device acts (setRow T t r row) in
      (T', option_list (rowToSyncOp row) ++ ops)
  | Merge op :: acts =>
      let '(T', ops) := run device acts (applyOp op sv schema T).2 in (T', op :: ops)
  end.
(** Every write is made with a clock that is past its row; what is merged belongs to the history. *)
Fixpoint run_ready (device : string) (acts : list action) (T : Tables) : Prop :=
  match acts with
  | [] => True
  | Write t r stamp columns :: acts =>
      put_ready t r stamp columns (getRow T t r) ∧
      run_ready device acts (setRow T t r (written device T t r stamp columns))
  | Merge op :: acts =>
      op_ok U op ∧ is_upsert op ∧ run_ready device acts (applyOp op sv schema T).2
  end.

Lemma written_row_ok device T t r stamp columns :
  put_ready t r stamp columns (getRow T t r) → row_ok U t r (written device T t r stamp columns).
Proof.
  intros Hr. pose proof (pr_row _ _ _ _ _ Hr) as Hok.
  destruct (put_row_meta t r device stamp columns _ Hok) as (Et & Er & Ed & Edh).
  unfold row_ok, written. rewrite Et, Er, Ed, Edh. split_and!; try done.
  intros k e He. by apply (put_entries _ _ _ _ _ k e Hr).
Qed.
Lemma setRow_tables_ok t r row T : row_ok U t r row → tables_ok U T → tables_ok U (setRow T t r row).
Proof.
  intros Hrow HT t' r' row'. destruct (decide ((t, r) = (t', r'))) as [[= <- <-]|].
  - rewrite getRow_setRow_eq. by intros [= <-].
  - rewrite getRow_setRow_ne by done. apply HT.
Qed.

(** A run leaves what merging all its operations leaves. *)
Lemma run_merges device acts T : tables_ok U T → run_ready device acts T →
  same_tables (run device acts T).1 (foldl (step_tables sv) T (run device acts T).2) ∧
  Forall (op_ok U) (run device acts T).2 ∧ Forall is_upsert (run device acts T).2.
Proof.
  revert T. induction acts as [|[t r stamp columns|op] acts IH]; intros T HT; simpl.
  { intros _. split_and!; [reflexivity|constructor|constructor]. }
  - intros [Hr Hacts]. destruct (put_op t r device stamp columns _ Hr) as (Hop & _ & Hcols).
    fold (written device T t r stamp columns) in Hop, Hcols. rewrite Hop.
    pose proof (put_merge t r device stamp columns _ Hr) as Hm.
    fold (written device T t r stamp columns) in Hm. set (row := written _ _ _ _ _ _) in *.
    destruct (IH (setRow T t r row)) as (Hs & Hok & Hup);
      [by apply setRow_tables_ok; [apply written_row_ok|]|done|].
    destruct (run device acts (setRow T t r row)) as [T' ops]. simpl in *.
    split_and!; [|by constructor..]. etransitivity; [exact Hs|]. apply steps_upsert_same; [done|].
    apply setRow_same_tables; [by symmetry|reflexivity].
  - intros (Hop & Hup & Hacts). destruct (applyOp_step U schema sv Hlww op T Hop HT) as (res & E & _).
    rewrite E in *. simpl in *. destruct (IH (step_tables sv T op)) as (Hs & Hok & Hups);
      [by apply step_tables_ok|done|].
    destruct (run device acts (step_tables sv T op)) as [T' ops]. simpl in *.
    split_and!; [done|by constructor..].
Qed.
End theory.

(** ** Properties *)



(** A write without columns to a deleted row revives it on its author alone: no
    operation is made, so every other replica keeps the tombstone, and the
    author's row has forgotten it was deleted. *)
Theorem empty_put_revives_one_replica_only (device stamp d : string) (sv : Z) (cur : Row) :
  rm_deleted (_meta cur) = true → rm_deletedHlc (_meta cur) = Some d →
  let row := put_row device stamp []
               (put_base (rm_table (_meta cur)) (rm_rowId (_meta cur)) sv (Some cur)) in
  rowToSyncOp row = None ∧ getRowHlc row = "" ∧
  rm_deleted (_meta row) = false ∧ rm_deletedHlc (_meta row) = None.
Proof. intros Hdel Hd. unfold put_row, put_base, rowToSyncOp, getRowHlc. simpl. rewrite Hdel. done. Qed.

(** *** A clock held back by the skew limit *)

(** Row 1 holds a column stamped an hour ahead of every clock. *)
Definition future_row : Row :=
  mkRow (mkMeta "tasks" "1" false None 1 None None)
    {["x" := mkColumn (VStr "remote") "001711789200000-0000-a"]}.
Definition future_tables : Tables := setRow ∅ "tasks" "1" future_row.
Definition capped_clock : HLC :=
  hlcNow 1711785600000 (hlcReceive 1711785600000 (hlcInit 1711785600000 "b")
                          (hlcParse "001711789200000-0000-a")).
Definition late_write : Row :=
  put_row "b" (hlcSerialize capped_clock) [("x", VStr "local")]
    (put_base "tasks" "1" 1 (Some future_row)).

(** A device that has merged a column stamped beyond the five-minute skew limit
    and then writes the column itself keeps its own value, while the operation it
    publishes loses to the old column on every replica that has it: the author
    and the others disagree although all have seen both writes. *)
Theorem write_behind_a_capped_clock_diverges :
  readColumn late_write "x" = VStr "local" ∧
  match rowToSyncOp late_write with
  | Some op => (applyOp op 1 None future_tables).1 = Ok None ∧
               from_option (λ row, readColumn row "x") VNull
                 (getRow (applyOp op 1 None future_tables).2 "tasks" "1") = VStr "remote"
  | None => False
  end.
Proof. by vm_compute. Qed.

(** *** Witnesses *)
Lemma first_put_ready U r stamp c v :
  U "tasks" r c (mkColumn (VStr v) stamp) → put_ready U "tasks" r stamp [(c, VStr v)] None.
Proof.
  intros Hu. split; [done| |done|done]. intros k w Hin. apply list_elem_of_singleton in Hin.
  by injection Hin as -> ->.
Qed.

Definition acts1 : list action := [Write "tasks" "1" stampA [("x", VStr "old")]; Merge opB].
Definition acts2 : list action := [Write "tasks" "1" stampB [("y", VStr "new")]; Merge opA].



Lemma empty_put_revives_one_replica_only_witness :
  rowToSyncOp (put_row "a" stampB [] (put_base "tasks" "1" 1
    (Some (blankRow "tasks" "1" 1 true (Some stampD))))) = None.
Proof.
  exact (proj1 (empty_put_revives_one_replica_only "a" stampB stampD 1
    (blankRow "tasks" "1" 1 true (Some stampD)) eq_refl eq_refl)).
Defined.
