(* ===== verification/Promises.v ===== *)
(** * The promises of background compaction
    ([compact], [maybeAutoCompact] and [runDelayedCompact] of
    [packages/core/src/core/sync-engine.ts])

    The engine shares one running compaction between its callers through the field
    [compactInFlight].  What matters of the language's promises is here: an
    [async] function suspends at its first [await] even when there is nothing to
    wait for, and a promise that is returned another promise settles when that one does. *)

From S2P Require Import Prelude.

Open Scope stdpp_scope.

(** ** State *)
Inductive promise :=
  | Waiting                   (** a call that is suspended at [await this.ensureReady()] *)
  | Working                   (** the locked part of a compaction *)
  | Follows (p : nat)         (** settles when [p] settles *)
  | Settled.

(** The promises made so far by number, the field [compactInFlight], and the
    suspended calls in the order they resume. *)
Record Runtime := mkRuntime {
  rt_promises : list promise; rt_inFlight : option nat; rt_jobs : list nat }.
Definition idle_runtime : Runtime := mkRuntime [] None [].

(** ** Operations *)
Definition new_promise (p : promise) (rt : Runtime) : nat * Runtime :=
  (length (rt_promises rt), mkRuntime (rt_promises rt ++ [p]) (rt_inFlight rt) (rt_jobs rt)).
Definition set_promise (i : nat) (p : promise) (rt : Runtime) : Runtime :=
  mkRuntime (<[i := p]> (rt_promises rt)) (rt_inFlight rt) (rt_jobs rt).
Definition set_inFlight (o : option nat) (rt : Runtime) : Runtime :=
  mkRuntime (rt_promises rt) o (rt_jobs rt).

(** [compact()] up to its first [await]. *)
Definition call_compact (rt : Runtime) : nat * Runtime :=
  let '(i, rt) := new_promise Waiting rt in
  (i, mkRuntime (rt_promises rt) (rt_inFlight rt) (rt_jobs rt ++ [i])).

(** The rest of [compact()]: join the compaction in flight, or start one. *)
Definition resume_compact (rt : Runtime) : Runtime :=
  match rt_jobs rt with
  | [] => rt
  | i :: jobs =>
      let rt := mkRuntime (rt_promises rt) (rt_inFlight rt) jobs in
      match rt_inFlight rt with
      | Some run => set_promise i (Follows run) rt
      | None =>
          let '(run, rt) := new_promise Working rt in
          set_inFlight (Some run) (set_promise i (Follows run) rt)
      end
  end.

(** The locked part of compaction [run] ends, whether it failed or not. *)
Definition finish_compact (run : nat) (rt : Runtime) : Runtime :=
  let rt := set_promise run Settled rt in
  if bool_decide (rt_inFlight rt = Some run) then set_inFlight None rt else rt.

(** What [maybeAutoCompact] starts, and waits for: it chains its handlers to a call
    of [compact()] and publishes the chain as the compaction in flight, before
    that call has resumed. *)
Definition start_immediate (rt : Runtime) : nat * Runtime :=
  let '(i, rt) := call_compact rt in
  let '(run, rt) := new_promise (Follows i) rt in
  (run, set_inFlight (Some run) rt).
(** What [runDelayedCompact] starts: the same chain, not published. *)
Definition start_delayed (rt : Runtime) : nat * Runtime :=
  let '(i, rt) := call_compact rt in new_promise (Follows i) rt.

(** ** Behaviour over time *)
Inductive rstep : Runtime → Runtime → Prop :=
  | step_call rt : rstep rt (call_compact rt).2
  | step_resume rt : rstep rt (resume_compact rt)
  | step_finish run rt : rt_promises rt !! run = Some Working → rstep rt (finish_compact run rt)
  | step_immediate rt : rt_inFlight rt = None → rstep rt (start_immediate rt).2
  | step_delayed rt : rt_inFlight rt = None → rstep rt (start_delayed rt).2.

Inductive settled (rt : Runtime) : nat → Prop :=
  | settled_done p : rt_promises rt !! p = Some Settled → settled rt p
  | settled_follows p q : rt_promises rt !! p = Some (Follows q) → settled rt q → settled rt p.

(** Every suspended call is waiting. *)
Definition runtime_ok (rt : Runtime) : Prop :=
  NoDup (rt_jobs rt) ∧ ∀ i, i ∈ rt_jobs rt → rt_promises rt !! i = Some Waiting.

Lemma idle_ok : runtime_ok idle_runtime.
Proof. split; [constructor|]. by intros i ?%not_elem_of_nil. Qed.

(** *** The cycle *)

(** [run] follows [i], which will follow [run] or does already. *)
Definition entangled (i run : nat) (rt : Runtime) : Prop :=
  runtime_ok rt ∧ rt_inFlight rt = Some run ∧ rt_promises rt !! run = Some (Follows i) ∧
  (rt_promises rt !! i = Some Waiting ∨ rt_promises rt !! i = Some (Follows run)).

Lemma entangled_never_settles i run rt p :
  entangled i run rt → p = i ∨ p = run → ¬ settled rt p.
Proof.
  intros (_ & _ & Hrun & Hi) Hp Hs. revert Hp. induction Hs as [p Hd|p q Hq Hs IH].
  - intros [-> | ->]; [|congruence]. destruct Hi; congruence.
  - intros [-> | ->]; apply IH; [destruct Hi; [congruence|right; congruence]|left; congruence].
Qed.

Lemma call_ok rt : runtime_ok rt → runtime_ok (call_compact rt).2.
Proof.
  intros [Hnd Hw]. unfold call_compact, new_promise. split; simpl.
  - apply list.NoDup_app. split; [done|]. split; [|apply NoDup_singleton].
    intros j Hj ->%list_elem_of_singleton. apply Hw, lookup_lt_Some in Hj. lia.
  - intros j [Hj| ->%list_elem_of_singleton]%elem_of_app; [by apply lookup_app_l_Some, Hw|].
    rewrite lookup_app_r by done. by rewrite Nat.sub_diag.
Qed.

Lemma entangled_step i run rt rt' : entangled i run rt → rstep rt rt' → entangled i run rt'.
Proof.
  intros (Hok & Hfl & Hrun & Hi) Hst. destruct Hst as [rt|rt|w rt Hw|rt Hn|rt Hn]; [..|congruence|congruence].
  - split; [by apply call_ok|]. unfold call_compact, new_promise. simpl.
    split; [done|]. split; [by apply lookup_app_l_Some|].
    destruct Hi; [left|right]; by apply lookup_app_l_Some.
  - unfold resume_compact. destruct (rt_jobs rt) as [|j jobs] eqn:Ej; [done|]. cbn [rt_inFlight].
    rewrite Hfl. destruct Hok as [Hnd Hw]. rewrite Ej in Hnd, Hw.
    apply list.NoDup_cons in Hnd as [Hj Hnd]. pose proof (Hw j (list_elem_of_here _ _)) as Hjw.
    assert (j < length (rt_promises rt)) as Hlt by by eapply lookup_lt_Some.
    split; [split; [done|]|split; [done|]]; unfold set_promise; simpl.
    + intros k Hk. rewrite list_lookup_insert_ne; [apply Hw; by right|]. by intros <-.
    + rewrite list_lookup_insert_ne by congruence. split; [done|].
      destruct (decide (j = i)) as [->|]; [right; by apply list_lookup_insert_eq|].
      by rewrite list_lookup_insert_ne.
  - unfold finish_compact. cbn [rt_inFlight set_promise]. rewrite bool_decide_false by (rewrite Hfl; congruence).
    destruct Hok as [Hnd Hwait]. split; [split; [done|]|split; [done|]]; unfold set_promise; simpl.
    + intros k Hk. rewrite list_lookup_insert_ne; [by apply Hwait|]. intros <-. apply Hwait in Hk. congruence.
    + rewrite list_lookup_insert_ne by congruence. split; [done|].
      rewrite list_lookup_insert_ne; [done|]. intros <-. destruct Hi; congruence.
Qed.

Lemma immediate_entangles rt : runtime_ok rt →
  entangled (length (rt_promises rt)) (start_immediate rt).1 (start_immediate rt).2.
Proof.
  intros Hok. pose proof (call_ok rt Hok) as [Hnd Hw]. unfold call_compact, new_promise in Hnd, Hw.
  unfold start_immediate, call_compact, new_promise. simpl in *. split; [split; [done|]|split; [done|]]; simpl.
  - intros j Hj. by apply lookup_app_l_Some, Hw.
  - split.
    + rewrite lookup_app_r by done. by rewrite Nat.sub_diag.
    + left. apply lookup_app_l_Some, Hw, elem_of_app. right. by apply list_elem_of_singleton.
Qed.

(** The timer's chain does settle. *)
Example delayed_compaction_settles :
  let '(run, rt) := start_delayed idle_runtime in
  let rt := finish_compact 2 (resume_compact rt) in
  rt_promises rt = [Follows 2; Follows 0; Settled] ∧ rt_inFlight rt = None ∧ settled rt run.
Proof.
  simpl. split_and!; [done..|]. apply settled_follows with 0; [done|].
  apply settled_follows with 2; [done|]. by apply settled_done.
Qed.

(** The promises of this step are followed for ever. *)
Lemma entangled_forever i run rt rt' : entangled i run rt → rtc rstep rt rt' → entangled i run rt'.
Proof. intros H Hst. revert H. induction Hst as [|rt rt1 rt2 H1 _ IH]; [done|]. intros H. eapply IH, entangled_step; eauto. Qed.
