(* ===== verification/Engine.v ===== *)
(** * The engine's write path and queue
    ([packages/core/src/core/sync-engine.ts])

    The engine owns one session and, around it, the state of the write path: the
    pending batch, the flush timer, the observers of local changes, the connection
    status and the timers of background compaction.  Every operation below runs
    under the engine's sync lock, so it is one step of the state; a timer is the
    record that it is armed, its callback is the operation it calls. *)

From S2P Require Import Prelude JsString Hlc Values JsMap LocalStore Wire Crdt.
From S2P Require Import Observation Adapter Codec Session MergeStore Manifest Flush Pull Compaction.
From S2P Require Import ChangeEffects LocalWrites Promises.
From Stdlib Require String.

Open Scope stdpp_scope.

(** [Date.parse]. *)
Class DateText := { dateParse : string → jsnum }.

(** ** Configuration and state *)
Record EngineConfig := mkEngineConfig {
  ec_batchWindowMs : Z; ec_flushThreshold : nat;
  ec_compactWarnThreshold : nat; ec_compactAutoThreshold : nat; ec_autoCompact : bool;
  ec_compactAutoSampleNumerator : Z; ec_compactAutoDeviceCount : Z;
  ec_firstCompactDelayMs : Z; ec_firstCompactDelayJitterMs : Z;
  ec_secondCompactDelayMs : Z; ec_secondCompactDelayJitterMs : Z;
  ec_compactRemoteChangeThreshold : nat;
  ec_retentionConfigured : bool; ec_upsert : UpsertOptions }.

(** The clock, fresh names, and [Math.floor(Math.random() * n)]. *)
Record Host := mkHost { h_env : Env; h_roll : Z → Z }.

(** A local change as its observers see it. *)
Record LocalObservation := mkObservation { lo_change : ChangeEntry; lo_effects : list RowChangeEffect }.

Record WriteState := mkWrite {
  w_pendingBatch : bool; w_batchDepth : nat; w_batchTimer : bool;
  w_pendingCount : nat; w_flushTimer : bool; w_flushRequested : bool; w_warned : bool }.
Record ObserverState := mkObservers {
  o_subscribed : gset nat; o_captured : option (gset nat);
  o_effects : list PendingLocalRowEffect; o_emitted : list (nat * LocalObservation) }.
Record CompactState := mkCompactState {
  c_version : Z; c_checkTimer : option Z; c_runTimer : option Z; c_retentionDueAt : option Z;
  c_runtime : Runtime }.

(** [pollBaseIntervalMs] and [pollCurrentIntervalMs], whether a polling loop is
    running, [pollingHalted], and whether the adapter's invalidations are subscribed. *)
Record PollState := mkPoll {
  p_base : Z; p_current : Z; p_running : bool; p_halted : bool; p_relay : bool }.

Definition stop_poll (p : PollState) : PollState :=
  mkPoll 0 (p_current p) false (p_halted p) (p_relay p).
Definition halt_poll (p : PollState) : PollState :=
  mkPoll 0 (p_current p) false true (p_relay p).
Definition start_poll (intervalMs : Z) (p : PollState) : PollState :=
  if p_halted p then p else mkPoll intervalMs intervalMs true false (p_relay p).
Definition set_relay (b : bool) (p : PollState) : PollState :=
  mkPoll (p_base p) (p_current p) (p_running p) (p_halted p) b.

Section engine.
Context `{Platform} {A : Type} `{!StorageOps A} `{!DateText}.

Record Engine := mkEngine {
  en_session : Session A; en_adapter : bool; en_replicas : list (A * string);
  en_status : ConnectionStatus; en_access : option error; en_readerManifestFresh : bool;
  en_write : WriteState; en_observers : ObserverState; en_compact : CompactState;
  en_poll : PollState;
  (** An eviction was reported and waits for [refillEvictedMesh()]. *)
  en_awaitingRefill : bool }.

Definition with_session s (e : Engine) : Engine :=
  mkEngine s (en_adapter e) (en_replicas e) (en_status e) (en_access e) (en_readerManifestFresh e)
    (en_write e) (en_observers e) (en_compact e) (en_poll e) (en_awaitingRefill e).
Definition with_replicas r (e : Engine) : Engine :=
  mkEngine (en_session e) (en_adapter e) r (en_status e) (en_access e) (en_readerManifestFresh e)
    (en_write e) (en_observers e) (en_compact e) (en_poll e) (en_awaitingRefill e).
Definition with_status st (e : Engine) : Engine :=
  mkEngine (en_session e) (en_adapter e) (en_replicas e) st (en_access e) (en_readerManifestFresh e)
    (en_write e) (en_observers e) (en_compact e) (en_poll e) (en_awaitingRefill e).
Definition with_access err (e : Engine) : Engine :=
  mkEngine (en_session e) (en_adapter e) (en_replicas e) (en_status e) err (en_readerManifestFresh e)
    (en_write e) (en_observers e) (en_compact e) (en_poll e) (en_awaitingRefill e).
Definition with_fresh b (e : Engine) : Engine :=
  mkEngine (en_session e) (en_adapter e) (en_replicas e) (en_status e) (en_access e) b
    (en_write e) (en_observers e) (en_compact e) (en_poll e) (en_awaitingRefill e).
Definition with_write w (e : Engine) : Engine :=
  mkEngine (en_session e) (en_adapter e) (en_replicas e) (en_status e) (en_access e)
    (en_readerManifestFresh e) w (en_observers e) (en_compact e) (en_poll e) (en_awaitingRefill e).
Definition with_observers o (e : Engine) : Engine :=
  mkEngine (en_session e) (en_adapter e) (en_replicas e) (en_status e) (en_access e)
    (en_readerManifestFresh e) (en_write e) o (en_compact e) (en_poll e) (en_awaitingRefill e).
Definition with_compact c (e : Engine) : Engine :=
  mkEngine (en_session e) (en_adapter e) (en_replicas e) (en_status e) (en_access e)
    (en_readerManifestFresh e) (en_write e) (en_observers e) c (en_poll e) (en_awaitingRefill e).
Definition with_poll p (e : Engine) : Engine :=
  mkEngine (en_session e) (en_adapter e) (en_replicas e) (en_status e) (en_access e)
    (en_readerManifestFresh e) (en_write e) (en_observers e) (en_compact e) p (en_awaitingRefill e).
Definition with_awaitingRefill b (e : Engine) : Engine :=
  mkEngine (en_session e) (en_adapter e) (en_replicas e) (en_status e) (en_access e)
    (en_readerManifestFresh e) (en_write e) (en_observers e) (en_compact e) (en_poll e) b.

Definition set_write (f : WriteState → WriteState) : M Engine () :=
  modify (λ e, with_write (f (en_write e)) e).
Definition set_observers (f : ObserverState → ObserverState) : M Engine () :=
  modify (λ e, with_observers (f (en_observers e)) e).
Definition set_compact (f : CompactState → CompactState) : M Engine () :=
  modify (λ e, with_compact (f (en_compact e)) e).
Definition set_poll (f : PollState → PollState) : M Engine () :=
  modify (λ e, with_poll (f (en_poll e)) e).
(** A step of the session, and of its local store.  [poisonRemote] also halts
    polling and cancels the scheduled flush. *)
Definition after_poison (s s' : Session A) (e : Engine) : Engine :=
  if bool_decide (ss_poison s = None) && negb (bool_decide (ss_poison s' = None))
  then with_poll (halt_poll (en_poll e)) (with_write (let w := en_write e in
    mkWrite (w_pendingBatch w) (w_batchDepth w) (w_batchTimer w) (w_pendingCount w) false
      (w_flushRequested w) (w_warned w)) e)
  else e.
Definition sess {B} (m : M (Session A) B) : M Engine B := λ e,
  let '(r, s) := m (en_session e) in (r, after_poison (en_session e) s (with_session s e)).
Definition store {B} (m : M MemoryLocalStore B) : M Engine B := sess (loc m).
Definition announce (ev : SyncEvent) : M Engine () := sess (emit ev).

Definition en_local (e : Engine) : MemoryLocalStore := ss_local (en_session e).
Definition en_connected (e : Engine) : bool := ss_connected (en_session e).
Definition set_connected (b : bool) (s : Session A) : Session A :=
  mkSession (ss_adapter s) (ss_local s) (ss_tables s) (ss_knownTables s) (ss_hlc s)
    (ss_manifest s) (ss_encrypted s) (ss_poison s) b (ss_events s).

Definition with_pendingBatch b (w : WriteState) : WriteState :=
  mkWrite b (w_batchDepth w) (w_batchTimer w) (w_pendingCount w) (w_flushTimer w)
    (w_flushRequested w) (w_warned w).
Definition with_batchDepth d (w : WriteState) : WriteState :=
  mkWrite (w_pendingBatch w) d (w_batchTimer w) (w_pendingCount w) (w_flushTimer w)
    (w_flushRequested w) (w_warned w).
Definition with_batchTimer b (w : WriteState) : WriteState :=
  mkWrite (w_pendingBatch w) (w_batchDepth w) b (w_pendingCount w) (w_flushTimer w)
    (w_flushRequested w) (w_warned w).
Definition with_pendingCount n (w : WriteState) : WriteState :=
  mkWrite (w_pendingBatch w) (w_batchDepth w) (w_batchTimer w) n (w_flushTimer w)
    (w_flushRequested w) (w_warned w).
Definition with_flushTimer b (w : WriteState) : WriteState :=
  mkWrite (w_pendingBatch w) (w_batchDepth w) (w_batchTimer w) (w_pendingCount w) b
    (w_flushRequested w) (w_warned w).
Definition with_flushRequested b (w : WriteState) : WriteState :=
  mkWrite (w_pendingBatch w) (w_batchDepth w) (w_batchTimer w) (w_pendingCount w) (w_flushTimer w)
    b (w_warned w).
Definition with_warned b (w : WriteState) : WriteState :=
  mkWrite (w_pendingBatch w) (w_batchDepth w) (w_batchTimer w) (w_pendingCount w) (w_flushTimer w)
    (w_flushRequested w) b.
Definition with_captured c (o : ObserverState) : ObserverState :=
  mkObservers (o_subscribed o) c (o_effects o) (o_emitted o).
Definition with_effects f (o : ObserverState) : ObserverState :=
  mkObservers (o_subscribed o) (o_captured o) f (o_emitted o).
Definition with_emitted l (o : ObserverState) : ObserverState :=
  mkObservers (o_subscribed o) (o_captured o) (o_effects o) l.

(** ** Timers and warnings *)
Definition clearBatchTimer : M Engine () := set_write (with_batchTimer false).
Definition clearScheduledFlush : M Engine () := set_write (with_flushTimer false).
Definition isBatching (e : Engine) : bool := 0 <? w_batchDepth (en_write e).
Definition armImplicitBatchTimer : M Engine () := modify (λ e,
  if isBatching e then e else with_write (with_batchTimer true (en_write e)) e).

Definition jitterDelay (host : Host) (baseMs jitterMs : Z) : Z :=
  if (jitterMs <=? 0)%Z then Z.max 0 baseMs
  else let lo := Z.max 0 (baseMs - jitterMs) in
       (lo + h_roll host (baseMs + jitterMs - lo + 1))%Z.

Definition managed (e : Engine) : bool :=
  from_option (λ m, sv_managed (m_server (m_payload m))) false (ss_manifest (en_session e)).

Definition setConnectionStatus (st : ConnectionStatus) : M Engine () :=
  modify (with_status st);; announce (ConnectionStatusEvent st).

Definition maybeEmitCompactWarning (ec : EngineConfig) : M Engine () :=
  e ← gets id;
  when (negb (w_warned (en_write e)) &&
        (ec_compactWarnThreshold ec <=? w_pendingCount (en_write e)))
    (set_write (with_warned true);;
     announce (CompactWarning (w_pendingCount (en_write e)) (ec_compactWarnThreshold ec))).
Definition resetCompactWarning : M Engine () := modify (λ e,
  if w_pendingCount (en_write e) =? 0 then with_write (with_warned false (en_write e)) e else e).

Definition armDelayedCompactAfterChange (host : Host) (cfg : Config) (ec : EngineConfig)
    : M Engine () :=
  e ← gets id;
  when (ec_autoCompact ec && truthy (cf_remotePath cfg) && managed e)
    (let delayMs := jitterDelay host (ec_firstCompactDelayMs ec) (ec_firstCompactDelayJitterMs ec) in
     set_compact (λ c, mkCompactState (c_version c + 1) (Some (c_version c + 1)%Z) (c_runTimer c)
                         (c_retentionDueAt c) (c_runtime c));;
     announce (CompactDelayedScheduled (w_pendingCount (en_write e)) delayMs "check")).

(** The flush itself is asynchronous: reaching the threshold only requests it. *)
Definition scheduleFlush (host : Host) (cfg : Config) (ec : EngineConfig) : M Engine () :=
  set_write (λ w, with_pendingCount (S (w_pendingCount w)) w);;
  maybeEmitCompactWarning ec;;
  armDelayedCompactAfterChange host cfg ec;;
  set_write (λ w, if ec_flushThreshold ec <=? w_pendingCount w then with_flushRequested true w
                  else with_flushTimer true w).

(** ** Batches and local writes *)
Definition shouldCaptureLocalObservation : M Engine bool := λ e,
  let e := if negb (w_pendingBatch (en_write e)) && bool_decide (o_captured (en_observers e) = None)
           then with_observers (with_captured (Some (o_subscribed (en_observers e)))
                                  (en_observers e)) e
           else e in
  (Ok (from_option (λ s, bool_decide (s ≠ ∅)) false (o_captured (en_observers e))), e).

Definition emitChangeObservation (obs : LocalObservation) (listeners : gset nat) : M Engine () :=
  set_observers (λ o, with_emitted (o_emitted o ++ ((λ l, (l, obs)) <$> elements listeners)) o).

Definition flushPendingBatch (host : Host) (cfg : Config) (ec : EngineConfig) : M Engine () :=
  clearBatchTimer;;
  pending ← store (λ l, let '(p, l') := promotePendingBatch l in (Ok p, l'));
  match pending with
  | None => mret ()
  | Some pending =>
      set_write (with_pendingBatch false);;
      o ← gets en_observers;
      let effects := pending_effects (o_effects o) in
      set_observers (λ o, with_captured None (with_effects [] o));;
      when (negb (bool_decide (effects = [])))
        (match o_captured o with
         | Some listeners => emitChangeObservation (mkObservation pending effects) listeners
         | None => mret ()
         end);;
      scheduleFlush host cfg ec
  end.

(** *** One local mutation *)
Definition recordPendingEffect (row : Row) (before : option Row) : M Engine () :=
  set_observers (λ o, with_effects
    (recordPendingLocalEffect (rm_table (_meta row)) (rm_rowId (_meta row)) before row (o_effects o)) o).

Definition commit_mutation (host : Host) (cfg : Config) (ec : EngineConfig) (row : Row) (op : Op)
    (hlc0 : string) (captureObservation : bool) (before : option Row) : M Engine () :=
  let env := h_env host in
  store (modify (commitLocalMutation row
    (mkChange (env_newId env "chg") (env_wall env) (cf_deviceId cfg) None hlc0 [op])));;
  set_write (with_pendingBatch true);;
  when captureObservation (recordPendingEffect row before);;
  e ← gets id;
  if isBatching e then mret ()
  else if (ec_batchWindowMs ec <=? 0)%Z then flushPendingBatch host cfg ec
  else armImplicitBatchTimer.

(** [refreshHlcFromLocal]: another engine on the same store may have ticked further. *)
Definition refresh_clock (cfg : Config) (saved : jsval) (clock : HLC) : HLC :=
  match saved with
  | VStr saved =>
      if num_leb (hlcCompareStr saved (hlcSerialize clock)) (Num 0) then clock
      else let h := hlcParse saved in mkHLC (ts h) (counter h) (cf_deviceId cfg)
  | _ => clock
  end.
Definition refreshHlcFromLocal (cfg : Config) : M Engine () := sess (modify (λ s,
  set_clock (refresh_clock cfg (store_getMeta "hlc" (ss_local s)) (ss_hlc s)) s)).

(** [this.hlc = hlcNow(this.hlc)]; returns the stamp. *)
Definition tick (host : Host) : M Engine string := sess (λ s,
  let next := hlcNow (env_wall (h_env host)) (ss_hlc s) in
  (Ok (hlcSerialize next), set_clock next s)).

(** Commit the row, or only store it when there is nothing to publish. *)
Definition commit_or_store (host : Host) (cfg : Config) (ec : EngineConfig) (row : Row)
    (capture : bool) (before : option Row) : M Engine () :=
  match rowToSyncOp row, opt_truthy (Some (getRowHlc row)) with
  | Some op, Some h => commit_mutation host cfg ec row op h capture before
  | _, _ =>
      store (modify (putRow row));;
      modify (λ e, if w_pendingBatch (en_write e) then e
                   else with_observers (with_captured None (en_observers e)) e)
  end.

Definition putNow (host : Host) (cfg : Config) (ec : EngineConfig) (table rowId : string)
    (columns : list (string * jsval)) : M Engine Row :=
  refreshHlcFromLocal cfg;;
  current ← store (gets (λ l, store_getRow l table rowId));
  capture ← shouldCaptureLocalObservation;
  let before := if (capture : bool) then current else None in
  stamp ← tick host;
  let sv := default 0%Z (cf_schema cfg ≫= sd_version) in
  let row := put_row (cf_deviceId cfg) stamp columns (put_base table rowId sv current) in
  commit_or_store host cfg ec row capture before;;
  sess (modify (λ s, set_knownTables ({[table]} ∪ ss_knownTables s) s));;
  announce (RowChange table rowId row);;
  mret row.

Definition deleteNow (host : Host) (cfg : Config) (ec : EngineConfig) (table rowId : string)
    : M Engine () :=
  refreshHlcFromLocal cfg;;
  current ← store (gets (λ l, store_getRow l table rowId));
  match current with
  | None => mret ()
  | Some current =>
      if rm_deleted (_meta current) then mret ()
      else
        capture ← shouldCaptureLocalObservation;
        let before := if (capture : bool) then Some current else None in
        stamp ← tick host;
        let row := delete_row (cf_deviceId cfg) stamp current in
        commit_or_store host cfg ec row capture before;;
        announce (RowDelete table rowId)
  end.

(** [batch(fn)]: the depth is restored, and the outermost batch flushed, however [fn] ends. *)
Definition batch {R} (host : Host) (cfg : Config) (ec : EngineConfig) (fn : M Engine R) : M Engine R :=
  set_write (λ w, with_batchDepth (S (w_batchDepth w)) w);;
  let leave : M Engine () :=
    set_write (λ w, with_batchDepth (w_batchDepth w - 1) w);;
    e ← gets id;
    when (w_batchDepth (en_write e) =? 0) (flushPendingBatch host cfg ec) in
  r ← catch fn (λ err, leave;; throw err);
  leave;;
  mret r.

(** ** Offline retention *)
Definition LAST_SUCCESSFUL_SYNC_AT_META : string := "lastSuccessfulSyncAt".
Definition OFFLINE_RETENTION_EXPIRED_AT_META : string := "offlineRetentionExpiredAt".
Definition QUARANTINED_OFFLINE_CHANGES_META : string := "quarantinedOfflineChanges".

Definition policy_input (p : RetentionPolicy) : RetentionPolicyInput :=
  mkRetentionInput (Some (compactAfterMs p)) (Some (maxOfflineDurationMs p)).
Definition activeRetentionPolicy (cfg : Config) (e : Engine) : result RetentionPolicy :=
  resolveRetentionPolicy (Some (default (policy_input (cf_retention cfg))
    (ss_manifest (en_session e) ≫= λ m, m_retention (m_payload m)))).

(** The stamp of the last sync when the device has been away for too long. *)
Definition offlineRetentionState (host : Host) (policy : RetentionPolicy) (stored : jsval)
    : option string :=
  match stored with
  | VStr stored =>
      if negb (truthy stored) then None
      else let last := dateParse stored in
           if negb (num_finite last) ||
              num_gtb (num_sub (Num (env_wall (h_env host))) last) (maxOfflineDurationMs policy)
           then Some stored else None
  | _ => None
  end.

(** *** Change entries as the quarantine holds them *)
Definition column_value (c : ColumnEntry) : jsval :=
  VObj [("value", value c); ("hlc", VStr (hlc c))].
Definition op_value (op : Op) : jsval :=
  match op with
  | UpsertOp t r cols =>
      VObj [("type", VStr "upsert"); ("table", VStr t); ("rowId", VStr r);
            ("columns", VObj ((λ kc, (kc.1, column_value kc.2)) <$> cols))]
  | DeleteOp t r h =>
      VObj [("type", VStr "delete"); ("table", VStr t); ("rowId", VStr r); ("hlc", VStr h)]
  end.
Definition change_value (e : ChangeEntry) : jsval :=
  VObj [("id", VStr (ce_id e)); ("ts", VNum (Num (ce_ts e))); ("device", VStr (ce_device e));
        ("user", match ce_user e with Some u => VStr u | None => VUndefined end);
        ("hlc", VStr (ce_hlc e)); ("ops", VArr (op_value <$> ce_ops e))].

Definition items (v : jsval) : list jsval := match v with VArr l => l | _ => [] end.
(** Every entry of a quarantine is a change entry, whose [id] is a string. *)
Definition id_of (v : jsval) : string := match field "id" v with VStr s => s | _ => "" end.

(** The [Map] keyed by id: the entries already withheld, then the queue. *)
Definition merge_by_id (withheld queued : list jsval) : list jsval :=
  (foldl (λ byId v, map_set (id_of v) v byId) [] (withheld ++ queued)).*2.

Definition quarantine_value (expiredAt last : string) (policy : RetentionPolicy)
    (entries : list jsval) : jsval :=
  VObj [("expiredAt", VStr expiredAt); ("lastSuccessfulSyncAt", VStr last);
        ("maxOfflineDurationMs", VNum (maxOfflineDurationMs policy)); ("entries", VArr entries)].

(** Withhold everything queued when the device has been away for too long.  The
    record is stored before the queue is emptied. *)
Definition quarantineExpiredOfflineWrites (host : Host) (cfg : Config) (ec : EngineConfig)
    : M Engine bool :=
  e ← gets id;
  policy ← lift (activeRetentionPolicy cfg e);
  match offlineRetentionState host policy
          (store_getMeta LAST_SUCCESSFUL_SYNC_AT_META (en_local e)) with
  | None => mret false
  | Some last =>
      flushPendingBatch host cfg ec;;
      queued ← store (gets peekOutbox);
      existing ← store (gets (store_getMeta QUARANTINED_OFFLINE_CHANGES_META));
      let expiredAt := env_now (h_env host) in
      let entries := merge_by_id (items (field "entries" existing)) (change_value <$> queued) in
      store (modify (store_setMeta QUARANTINED_OFFLINE_CHANGES_META
                       (quarantine_value expiredAt last policy entries)));;
      store (modify (store_setMeta OFFLINE_RETENTION_EXPIRED_AT_META (VStr expiredAt)));;
      store (modify (acknowledgeOutbox (ce_id <$> queued)));;
      set_write (λ w, with_pendingCount 0 (with_pendingBatch false w));;
      clearScheduledFlush;;
      resetCompactWarning;;
      announce (OfflineRetentionExpired expiredAt last (maxOfflineDurationMs policy) (length entries));;
      mret true
  end.

Definition markSuccessfulRemoteSync (host : Host) : M Engine () :=
  store (modify (store_setMeta LAST_SUCCESSFUL_SYNC_AT_META (VStr (env_now (h_env host)))));;
  store (modify (store_setMeta OFFLINE_RETENTION_EXPIRED_AT_META VNull)).

Definition preservedRetentionMeta (l : MemoryLocalStore) : list (string * jsval) :=
  (λ k, (k, store_getMeta k l)) <$>
    [QUARANTINED_OFFLINE_CHANGES_META; OFFLINE_RETENTION_EXPIRED_AT_META;
     LAST_SUCCESSFUL_SYNC_AT_META; "meshId"; MESH_LINEAGE_META].

(** ** Remote access *)
Definition requireAdapter (operation : string) : M Engine () :=
  e ← gets id;
  match ss_poison (en_session e) with
  | Some err => throw err
  | None => if en_adapter e then mret ()
            else throw (JsError ("No remote storage adapter configured. Call setRemoteStorage() before "
                                 +:+ operation +:+ "."))
  end.
Definition requireRemotePath (cfg : Config) (operation : string) : M Engine () :=
  if truthy (cf_remotePath cfg) then mret ()
  else throw (JsError (operation +:+ " requires remotePath; configure mesh before connecting")).

(** [RemoteAccessError.denied]. *)
Definition denied (err : error) : bool :=
  match err with
  | RemoteAccessErr kind _ _ => match kind with Unauthenticated | Forbidden | NotFound => true | _ => false end
  | _ => false
  end.

(** The polling interval after a temporary refusal: doubled, at least what the remote
    asks for, at most five minutes; untouched when polling is off. *)
Definition MAX_ACCESS_BACKOFF_MS : Z := 300000.
Definition access_backoff (err : error) (p : PollState) : PollState :=
  if (p_base p =? 0)%Z then p
  else
    let doubled := Z.max (p_current p * 2) (p_base p) in
    let retryAfter := match err with RemoteAccessErr _ _ (Some ms) => ms | _ => 0%Z end in
    mkPoll (p_base p) (Z.min (Z.max doubled retryAfter) MAX_ACCESS_BACKOFF_MS)
      (p_running p) (p_halted p) (p_relay p).

(** A denial pauses the remote session; a temporary refusal backs polling off. *)
Definition handleRemoteAccessError (err : error) (stage : string) : M Engine () :=
  if negb (isRemoteAccessError err) then mret ()
  else
    (if denied err then
       e ← gets id;
       let wasPaused := bool_decide (is_Some (en_access e)) in
       modify (with_access (Some err));;
       set_poll halt_poll;; set_poll (set_relay false);;
       clearScheduledFlush;;
       set_compact (λ c, mkCompactState (c_version c + 1) None None None (c_runtime c));;
       sess (modify (set_connected false));;
       when (negb wasPaused || negb (bool_decide (en_status e = Offline)))
         (setConnectionStatus Offline)
     else set_poll (access_backoff err));;
    announce (RemoteAccess err stage (denied err)).

Definition load_manifest (host : Host) (cfg : Config) (reason : string) (force : bool)
    (createIfMissing : bool) : M Engine () :=
  e ← gets id;
  when (force || negb (bool_decide (is_Some (ss_manifest (en_session e)))) ||
        bool_decide (is_Some (ss_poison (en_session e))))
    (requireAdapter "manifest";; requireRemotePath cfg "manifest");;
  _ ← sess (doLoadOrCreateManifest (h_env host) cfg reason force
              (mkLoadOptions true createIfMissing) true);
  mret ().

Definition acknowledgeManifest (host : Host) (cfg : Config) (ec : EngineConfig) : M Engine () :=
  e ← gets id;
  match ss_manifest (en_session e) with
  | Some m =>
      let p := m_payload m in
      if cf_reader cfg || negb (en_adapter e) || negb (truthy (cf_remotePath cfg)) ||
         (negb (truthy (m_watermarkHlc p)) && (m_epoch p =? 0)%Z)
      then mret ()
      else sess (remote (upsertDeviceMetadata (env_now (h_env host)) (cf_remotePath cfg) (cf_deviceId cfg)
             (mkUpsert (up_displayName (ec_upsert ec)) (up_deviceType (ec_upsert ec))
                (Some (m_generation p)) (Some (m_epoch p)) (Some (m_watermarkHlc p)) false true)))
  | None => mret ()
  end.

(** ** Retention timer *)
Definition MAX_TIMER_DELAY_MS : Z := 2147000000.
Definition RETENTION_RETRY_DELAY_MS : Z := 60 * 60000.

Definition scheduleRetentionCompactionCheck (host : Host) (cfg : Config) (ec : EngineConfig)
    (delayMs : Z) : M Engine () :=
  e ← gets id;
  if cf_reader cfg || negb (en_connected e) || negb (truthy (cf_remotePath cfg)) ||
     negb (managed e)
  then mret ()
  else
    let dueAt := (env_wall (h_env host) + Z.max 0 delayMs)%Z in
    if match c_retentionDueAt (en_compact e) with Some d => (d <=? dueAt)%Z | None => false end
    then mret ()
    else
      set_compact (λ c, mkCompactState (c_version c) (c_checkTimer c) (c_runTimer c) (Some dueAt)
                          (c_runtime c));;
      announce (CompactRetentionScheduled dueAt).

(** The default delay, [compactAfterMs] of the policy in force. *)
Definition schedule_after_policy (host : Host) (cfg : Config) (ec : EngineConfig) : M Engine () :=
  e ← gets id;
  policy ← lift (activeRetentionPolicy cfg e);
  match compactAfterMs policy with
  | Num ms => scheduleRetentionCompactionCheck host cfg ec ms
  | NaN => mret ()
  end.

(** ** Flush *)
Definition run_flushPrimary (host : Host) (cfg : Config) (entries : list ChangeEntry)
    : M Engine () := λ e,
  let o := flushPrimary (h_env host) cfg entries (en_replicas e) (en_session e) in
  let errors := omap (λ ie, ReplicaError ie.1 <$> ie.2) (imap pair (fo_replicaErrors o)) in
  (fo_result o,
   with_replicas (fo_replicas o)
     (after_poison (en_session e) (fo_session o)
        (with_session (foldl (λ s ev, add_event ev s) (fo_session o) errors) e))).

Definition idle_if_connected : M Engine () :=
  e ← gets id; when (en_connected e) (setConnectionStatus Idle).

(** The body of the [try], on the entries taken from the outbox. *)
Definition publish_entries (host : Host) (cfg : Config) (ec : EngineConfig)
    (entries : list ChangeEntry) : M Engine () :=
  requireRemotePath cfg "flush()";;
  run_flushPrimary host cfg entries;;
  store (modify (acknowledgeOutbox (ce_id <$> entries)));;
  markSuccessfulRemoteSync host;;
  scheduleRetentionCompactionCheck host cfg ec 0;;
  announce FlushComplete;;
  idle_if_connected.

Definition flush_attempt (host : Host) (cfg : Config) (ec : EngineConfig)
    (entries : list ChangeEntry) (triggerQueuedChangeCount : nat) : M Engine nat :=
  announce (FlushStart (length entries));;
  e ← gets id;
  when (en_connected e) (setConnectionStatus Syncing);;
  set_write (with_pendingCount 0);;
  resetCompactWarning;;
  clearScheduledFlush;;
  catch (publish_entries host cfg ec entries;; mret triggerQueuedChangeCount)
    (λ err,
       handleRemoteAccessError err "flush";;
       idle_if_connected;;
       set_write (with_pendingCount (length entries));;
       maybeEmitCompactWarning ec;;
       throw err).

Definition doFlush (host : Host) (cfg : Config) (ec : EngineConfig) : M Engine nat :=
  e ← gets id;
  if negb (en_adapter e) then clearScheduledFlush;; mret 0
  else if bool_decide (is_Some (en_access e)) then clearScheduledFlush;; mret 0
  else
    let triggerQueuedChangeCount := w_pendingCount (en_write e) in
    entries ← store (gets peekOutbox);
    match entries with
    | [] => set_write (with_pendingCount 0);; resetCompactWarning;; mret 0
    | _ =>
        load_manifest host cfg "flush-retention" true true;;
        quarantined ← quarantineExpiredOfflineWrites host cfg ec;
        if quarantined : bool then mret 0
        else flush_attempt host cfg ec entries triggerQueuedChangeCount
    end.

(** ** Pull, rehydrate, compact *)
Definition reader_stale (l : MemoryLocalStore) (e : Engine) : bool :=
  let localEpoch := match store_getMeta "epoch" l with VNum n => n | _ => Num 0 end in
  match ss_manifest (en_session e) with
  | Some m => num_gtb (Num (m_epoch (m_payload m))) localEpoch &&
              bool_decide (is_Some (opt_truthy (m_snapshotPath (m_payload m))))
  | None => false
  end.

(** The part of a pull that runs when no newer snapshot has to be restored first. *)
Definition pull_changes_now (host : Host) (cfg : Config) (ec : EngineConfig) : M Engine () :=
  requireRemotePath cfg "pull()";;
  hlc ← sess (pull (h_env host) cfg);
  sess (modify (set_clock hlc));;
  e ← gets id;
  when (en_connected e)
    (markSuccessfulRemoteSync host;; schedule_after_policy host cfg ec);;
  acknowledgeManifest host cfg ec.

Definition pull_failed {B} (err : error) : M Engine B :=
  handleRemoteAccessError err "pull";; idle_if_connected;; throw err.

(** Restore the snapshot of the manifest; the clock it gives. *)
Definition restore_step (host : Host) (cfg : Config) (preserved : list (string * jsval))
    : M Engine HLC :=
  requireAdapter "rehydrate()";;
  e ← gets id;
  let s := en_session e in
  let reload : M (Session A) (option Manifest) :=
    _ ← doLoadOrCreateManifest (h_env host) cfg "rehydrate-stale-snapshot" true
          (mkLoadOptions true (negb (cf_reader cfg))) true;
    gets ss_manifest in
  sess (rehydrate cfg (mkRehydrate (codecState cfg s) (ss_manifest s) (ss_hlc s) preserved)
          reload (mret ())).

(** A rehydration restores the snapshot and then pulls, with the manifest that is
    loaded; a reader that has just restored pulls without reloading the manifest.
    The clock of the snapshot, not that of the pull, is the one kept. *)
Definition rehydrate_then (host : Host) (cfg : Config) (ec : EngineConfig)
    (preserved : list (string * jsval)) (pullAfter : M Engine ()) : M Engine () :=
  hlc ← restore_step host cfg preserved;
  pullAfter;;
  sess (modify (set_clock hlc));;
  acknowledgeManifest host cfg ec.

(** Must a newer snapshot be restored first?  Only a reader asks. *)
Definition reader_check (host : Host) (cfg : Config) (ec : EngineConfig) : M Engine bool :=
  if cf_reader cfg then
    e ← gets id;
    when (negb (en_readerManifestFresh e)) (load_manifest host cfg "reader-pull" true false);;
    modify (with_fresh false);;
    gets (λ e, reader_stale (en_local e) e)
  else mret false.

(** A reader that finds a newer snapshot restores it and pulls again: the recursion
    ends as soon as the restored epoch is the manifest's, so [fuel] bounds the
    number of snapshots in a row that turn out to be out of date (one, when a
    snapshot carries the epoch of the manifest that names it: ReaderPull.v). *)
Fixpoint pullNow (fuel : nat) (host : Host) (cfg : Config) (ec : EngineConfig) : M Engine () :=
  requireAdapter "pull()";;
  e ← gets id;
  when (en_connected e) (setConnectionStatus Syncing);;
  catch
    (stale ← reader_check host cfg ec;
     if stale : bool then
       modify (with_fresh true);;
       match fuel with
       | S fuel => rehydrate_then host cfg ec [] (pullNow fuel host cfg ec)
       | O => throw (JsError "pull: out of fuel")
       end
     else pull_changes_now host cfg ec)
    pull_failed;;
  idle_if_connected.

Definition rehydrateNow (fuel : nat) (host : Host) (cfg : Config) (ec : EngineConfig)
    (preserved : list (string * jsval)) : M Engine () :=
  rehydrate_then host cfg ec preserved (pullNow fuel host cfg ec).

Definition flushAndRehydrateNow (fuel : nat) (host : Host) (cfg : Config) (ec : EngineConfig)
    : M Engine () :=
  flushPendingBatch host cfg ec;;
  _ ← doFlush host cfg ec;
  preserved ← store (gets preservedRetentionMeta);
  rehydrateNow fuel host cfg ec preserved.

(** Local state given up for the remote's: only the retention records survive. *)
Definition resetExpiredClientFromRemote (fuel : nat) (host : Host) (cfg : Config)
    (ec : EngineConfig) : M Engine () :=
  preserved ← store (gets preservedRetentionMeta);
  e ← gets id;
  if bool_decide (is_Some (opt_truthy (ss_manifest (en_session e) ≫= λ m, m_snapshotPath (m_payload m))))
  then rehydrateNow fuel host cfg ec preserved
  else
    store (modify store_clearAll);;
    store (modify (preserve_meta preserved));;
    sess (modify (λ s, set_knownTables ∅ (set_tables ∅ s)));;
    pullNow fuel host cfg ec.

(** What [compact()] runs under the sync lock.  The pull that [doCompact] calls back
    into runs first, unless its writer check is going to refuse; the context
    objects are read before the pull, as in the code. *)
Definition compact_locked (fuel : nat) (host : Host) (cfg : Config) (ec : EngineConfig)
    : M Engine () :=
  load_manifest host cfg "compact-retention" true true;;
  quarantined ← quarantineExpiredOfflineWrites host cfg ec;
  if quarantined : bool then resetExpiredClientFromRemote fuel host cfg ec
  else
    flushPendingBatch host cfg ec;;
    _ ← doFlush host cfg ec;
    requireAdapter "compact()";;
    e ← gets id;
    match ss_manifest (en_session e) with
    | None => throw (JsError "Engine is not connected")
    | Some m =>
        requireRemotePath cfg "compact()";;
        policy ← (if ec_retentionConfigured ec then mret (cf_retention cfg)
                  else lift (activeRetentionPolicy cfg e));
        let ctx := mkCompact m (codecState cfg (en_session e)) (ss_hlc (en_session e)) policy in
        when (negb (sv_managed (m_server (m_payload m)) &&
                    negb (String.eqb (cf_deviceId cfg) (cf_serverId cfg))))
          (pullNow fuel host cfg ec);;
        m' ← sess (compact (h_env host) cfg ctx (mret ()));
        sess (modify (λ s, set_manifest (Some m') (ss_encrypted s) s));;
        acknowledgeManifest host cfg ec
    end.
End engine.
Arguments Engine : clear implicits.
