(* ===== verification/Files.v ===== *)
(** * Durable files
    ([putFile], [openFile], [getFile], [deleteFile], [getFileMetadata] and their helpers of
     [packages/core/src/core/sync-engine.ts])

    Files live beside the rows, under the same mesh key, and are neither merged nor
    compacted.  The operations work on the adapter, and the engine adds its decision about
    remote access errors.  The memo of the path key is left out: it is a function of the
    mesh key. *)

From S2P Require Import Prelude JsString Hlc Values JsMap LocalStore Octets Encryption StoredFile.
From S2P Require Import Wire Crdt Convergence Observation Adapter Codec Session MergeStore Manifest Flush Pull.
From S2P Require Import Compaction ChangeEffects LocalWrites Promises Engine.
From Stdlib Require String.

Open Scope stdpp_scope.

(** The bytes of the platform, seen one by one. *)
Class ByteView `{Platform} := {
  toBytes : list Z → Bytes;
  ofBytes : Bytes → list Z;
  ofBytes_toBytes l : ofBytes (toBytes l) = l;
  byteLength_toBytes l : byteLength (toBytes l) = Z.of_nat (length l) }.

(** What an adapter offers for durable files; the first four are optional in the interface.
    A read returns an object the remote holds, and only writes and deletions change it.
    The etag is left out. *)
Class FileStore `{StorageAdapter A} := {
  putStoredFile : option (string → Bytes → option string → option string → M A StoredFileMetadata);
  getStoredFile : option (string → M A Bytes);
  deleteStoredFile : option (string → option string → M A ());
  getStoredFileMetadata : option (string → M A (option StoredFileMetadata));
  getFileMetadata : string → M A (option FileEntry);
  put_stored put p d dev g a m a' : putStoredFile = Some put → put p d dev g a = (Ok m, a') →
    filesOf a' = <[p := d]> (filesOf a);
  get_stored get p a r a' : getStoredFile = Some get → get p a = (r, a') →
    filesOf a' = filesOf a ∧ (∀ d, r = Ok d → filesOf a !! p = Some d);
  stored_meta_files meta p a r a' : getStoredFileMetadata = Some meta → meta p a = (r, a') →
    filesOf a' = filesOf a;
  meta_files p a r a' : getFileMetadata p a = (r, a') → filesOf a' = filesOf a }.

(** What the engine knows of its mesh: [fl_key] is the mesh key once [resolveEncryption]
    has run, and [fl_now] the time. *)
Record FileEnv := mkFileEnv {
  fl_remotePath : string; fl_deviceId : string; fl_encrypted : bool; fl_key : option MeshKey; fl_now : string }.
Record FileSeal := mkSeal { seal_taint : string; seal_key : MeshKey }.
Inductive FileData := RawBytes (bytes : list Z) | TextData (s : string).

(** [StoredFileMetadata] with what the frame header adds. *)
Record FileInfo := mkFileInfo {
  fi_meta : StoredFileMetadata; fi_plaintextSize : jsval; fi_storedSize : Z; fi_contentType : jsval;
  fi_taint : jsval; fi_digest : jsval }.

Section files.
Context `{Platform} {A : Type} `{HA : !StorageAdapter A} `{!ByteView} `{!FileStore} `{!WebCrypto}.
Implicit Types fl : FileEnv.

(** [Promise.all] of two calls, both started: the first failure is the result. *)
Definition settle_both {B C} (m1 : M A B) (m2 : M A C) : M A (B * C) := λ a,
  let '(r1, a1) := m1 a in let '(r2, a2) := m2 a1 in ((x ← r1; y ← r2; Ok (x, y)), a2).

Definition strip_slash (s : string) : string := if endsWith_slash s then str_take (String.length s - 1) s else s.
(** [path.split("/").pop()]. *)
Definition last_segment (path : string) : string :=
  let i := lastIndexOf path "/" in if (i =? -1)%Z then path else slice_from path (i + 1).
Definition meshFileKey fl : result (option MeshKey) :=
  if negb (fl_encrypted fl) then Ok None
  else match fl_key fl with
       | Some k => Ok (Some k)
       | None => Throw (JsError "Object storage requires an encryption key")
       end.
Definition storedFilePath fl (path : string) : result string :=
  if negb (truthy (fl_remotePath fl))
  then Throw (JsError "file storage requires remotePath; configure mesh before connecting")
  else
    clean ← cleanFilePath path;
    meshKey ← meshFileKey fl;
    name ← match meshKey with
           | Some k => pathKey ← deriveFilePathKey k; hideFilePath pathKey clean
           | None => Ok clean
           end;
    Ok (strip_slash (fl_remotePath fl) +:+ "/files/" +:+ name).

Definition file_bytes (data : FileData) : list Z :=
  match data with RawBytes b => b | TextData s => utf8_encode s end.
(** [...(x ? { k: x } : {})]. *)
Definition truthy_field (s : option string) : jsval :=
  match opt_truthy s with Some s => VStr s | None => VUndefined end.
Definition file_header (data : FileData) (contentType : option string) (seal : option FileSeal)
    : StoredFileHeader :=
  mkFileHeader (VNum (Num (Z.of_nat (length (file_bytes data))))) (VStr (sha256Hex (file_bytes data)))
    (truthy_field contentType) (match seal with Some s => VStr (seal_taint s) | None => VUndefined end).
(** The two initialisation vectors, of the sealed body and of the frame, are arguments. *)
Definition encodeStoredFile fl (bodyIv frameIv : list Z) (data : FileData) (contentType : option string)
    (seal : option FileSeal) : result (list Z * StoredFileHeader) :=
  let header := file_header data contentType seal in
  body ← match seal with
         | Some s => encryptBytes (seal_key s) bodyIv (file_bytes data)
         | None => Ok (file_bytes data)
         end;
  meshKey ← meshFileKey fl;
  stored ← sealStoredFrame meshKey frameIv (encodeStoredFrame header body);
  Ok (stored, header).
Definition decodeStoredFile fl (stored : list Z) : result (StoredFileHeader * list Z) :=
  meshKey ← meshFileKey fl;
  frame ← openStoredFrame meshKey stored;
  decodeStoredFrame frame.
Definition describeStoredFile (m : StoredFileMetadata) (h : StoredFileHeader) : FileInfo :=
  mkFileInfo m (sh_size h) (default (sm_size m) (sm_storedSize m)) (sh_contentType h) (sh_taint h) (sh_digest h).
Definition fileGuard (sealKey : MeshKey) (filePath : string) : result string :=
  deriveFileGuard sealKey (last_segment filePath).

(** ** Writing *)
Definition putFileImpl fl (bodyIv frameIv : list Z) (path : string) (data : FileData)
    (contentType : option string) (seal : option FileSeal) : M A FileInfo :=
  lift (match seal with
        | Some s => if truthy (trim (seal_taint s)) then Ok ()
                    else Throw (JsError "Object seal taint must not be empty")
        | None => Ok ()
        end);;
  filePath ← lift (storedFilePath fl path);
  '(stored, header) ← lift (encodeStoredFile fl bodyIv frameIv data contentType seal);
  sealGuard ← lift (match seal with
                    | Some s => g ← fileGuard (seal_key s) filePath; Ok (Some g)
                    | None => Ok None
                    end);
  match putStoredFile with
  | Some put =>
      m ← put filePath (toBytes stored) (Some (fl_deviceId fl)) sealGuard;
      mret (describeStoredFile m header)
  | None =>
      ensureFolder (strip_slash (fl_remotePath fl) +:+ "/files");;
      writeFile filePath (toBytes stored);;
      m ← getFileMetadata filePath;
      let size := Z.of_nat (length stored) in
      mret (describeStoredFile
        (mkStoredMeta (from_option fe_name (last_segment filePath) m) filePath (from_option fe_size size m)
           (from_option fe_modifiedTime (fl_now fl) m) None (Some (fl_deviceId fl)) (Some size) None None) header)
  end.

(** ** Reading *)
Definition readObject (filePath : string) : M A Bytes :=
  match getStoredFile with Some get => get filePath | None => readFile filePath end.
Definition entry_meta (e : FileEntry) : StoredFileMetadata :=
  mkStoredMeta (fe_name e) (fe_path e) (fe_size e) (fe_modifiedTime e) None None (Some (fe_size e)) None None.
Definition readMetadata (filePath : string) : M A (option StoredFileMetadata) :=
  match getStoredFileMetadata with
  | Some meta => meta filePath
  | None => e ← getFileMetadata filePath; mret (entry_meta <$> e)
  end.

(** A downloaded file, its plaintext still closed. *)
Record SealedFile := mkSealed {
  sl_info : FileInfo; sl_taint : jsval; sl_body : list Z; sl_path : string; sl_expected : option string }.
Definition js_truthy (v : jsval) : bool :=
  match v with
  | VUndefined | VNull | VBool false | VNum NaN | VNum (Num 0) => false
  | VStr s => truthy s
  | _ => true
  end.
Definition open_sealed (f : SealedFile) (key : option MeshKey) : result (list Z) :=
  plaintext ← match js_truthy (sl_taint f), key with
              | true, None => Throw (JsError ("Object " +:+ sl_path f +:+ " is tainted; a matching key is required"))
              | true, Some k => decryptBytes k (sl_body f)
              | false, _ => Ok (sl_body f)
              end;
  match opt_truthy (sl_expected f) with
  | Some digest =>
      if String.eqb (sha256Hex plaintext) digest then Ok plaintext
      else Throw (JsError ("FileIntegrityError: " +:+ sl_path f))
  | None => Ok plaintext
  end.

Definition openFileImpl fl (path : string) (expected : option string) : M A SealedFile :=
  filePath ← lift (storedFilePath fl path);
  '(stored, metadata) ← settle_both (readObject filePath) (readMetadata filePath);
  let bytes := ofBytes stored in
  '(header, body) ← lift (decodeStoredFile fl bytes);
  let size := Z.of_nat (length bytes) in
  mret (mkSealed
    (describeStoredFile (default (mkStoredMeta (last_segment filePath) filePath size (fl_now fl) None None (Some size)
                                    None None) metadata) header)
    (sh_taint header) body path expected).
Definition getFileMetadataImpl fl (path : string) : M A (option FileInfo) :=
  filePath ← lift (storedFilePath fl path);
  m ← readMetadata filePath;
  match m with
  | None => mret None
  | Some _ => f ← openFileImpl fl path None; mret (Some (sl_info f))
  end.

(** ** Deleting *)
Definition deleteFileImpl fl (path : string) (sealKey : option MeshKey) : M A () :=
  filePath ← lift (storedFilePath fl path);
  match deleteStoredFile with
  | Some del =>
      guard ← lift (match sealKey with
                    | Some k => g ← fileGuard k filePath; Ok (Some g)
                    | None => Ok None
                    end);
      del filePath guard
  | None => deleteFile filePath
  end.

(** ** The engine's operations *)
Definition fileAccess {B} (op : M (Engine A) B) : M (Engine A) B :=
  catch op (λ err, handleRemoteAccessError err "file";; throw err).
Definition putFile fl (bodyIv frameIv : list Z) (path : string) (data : FileData)
    (contentType : option string) (seal : option FileSeal) : M (Engine A) FileInfo :=
  fileAccess (requireAdapter "putFile()";; sess (remote (putFileImpl fl bodyIv frameIv path data contentType seal))).
Definition openFile fl (target : FileTarget) : M (Engine A) SealedFile :=
  fileAccess (requireAdapter "openFile()";;
              sess (remote (openFileImpl fl (fileTargetPath target) (expectedFileDigest target)))).
Definition getFile fl (target : FileTarget) : M (Engine A) (list Z) :=
  sealed ← openFile fl target;
  if js_truthy (sl_taint sealed)
  then throw (JsError ("Object " +:+ fileTargetPath target +:+ " is tainted; unlock the matching key"))
  else lift (open_sealed sealed None).
Definition deleteFile' fl (target : FileTarget) (sealKey : option MeshKey) : M (Engine A) () :=
  fileAccess (requireAdapter "deleteFile()";; sess (remote (deleteFileImpl fl (fileTargetPath target) sealKey))).
Definition getFileMetadata' fl (target : FileTarget) : M (Engine A) (option FileInfo) :=
  fileAccess (requireAdapter "getFileMetadata()";; sess (remote (getFileMetadataImpl fl (fileTargetPath target)))).

(** [toFileRef]. *)
Definition toFileRef (path : string) (info : FileInfo) : result FileRef :=
  if negb (js_truthy (fi_digest info)) then Throw (JsError ("Stored file metadata for " +:+ path +:+ " carries no digest"))
  else Ok (mkFileRef path (match fi_digest info with VStr s => s | _ => "" end)
             (match fi_plaintextSize info with
              | VUndefined | VNull => VNum (Num (sm_size (fi_meta info)))
              | v => v
              end)
             (opt_truthy (str_meta (fi_contentType info))) (opt_truthy (str_meta (fi_taint info)))).
End files.

(** ** Theory *)
Section theory.
Context `{Platform} {A : Type} `{HA : !StorageAdapter A} `{!ByteView} `{!FileStore} `{!WebCrypto}.
Implicit Types fl : FileEnv.

Lemma read_object p a r a' : readObject p a = (r, a') →
  filesOf a' = filesOf a ∧ (∀ d, r = Ok d → filesOf a !! p = Some d).
Proof.
  unfold readObject. destruct getStoredFile as [get|] eqn:E.
  - by apply (get_stored get).
  - apply read_files.
Qed.

(** A successful upload leaves exactly the encoded bytes at the stored path. *)
Lemma put_file_stores fl bodyIv frameIv path data ct seal a info a1 filePath :
  storedFilePath fl path = Ok filePath →
  putFileImpl fl bodyIv frameIv path data ct seal a = (Ok info, a1) →
  ∃ stored, encodeStoredFile fl bodyIv frameIv data ct seal = Ok (stored, file_header data ct seal) ∧
    filesOf a1 !! filePath = Some (toBytes stored) ∧
    (∀ s, seal = Some s → truthy (trim (seal_taint s)) = true).
Proof.
  intros Hp. unfold putFileImpl, mbind, M_bind, lift. rewrite Hp. cbn beta iota.
  destruct (match seal with Some s => _ | None => Ok () end) as [[]|] eqn:Es; [|done].
  destruct (encodeStoredFile _ _ _ _ _ _) as [[stored header]|] eqn:Ee; [|done].
  assert (header = file_header data ct seal) as ->.
  { revert Ee. unfold encodeStoredFile, mbind, result_bind. by repeat (case_match; try done); intros [= _ <-]. }
  destruct (match seal with Some s => _ | None => Ok None end) as [guard|]; [|done].
  intros Hrun. exists stored. split; [done|]. split.
  - destruct putStoredFile as [put|] eqn:Eput.
    + destruct (put _ _ _ _ a) as [[m|] a'] eqn:E; [|done]. injection Hrun as _ <-.
      rewrite (put_stored put _ _ _ _ _ _ _ Eput E). apply lookup_insert_eq.
    + destruct (ensureFolder _ a) as [[[]|] a0] eqn:E0; [|done].
      destruct (writeFile _ _ a0) as [[[]|] a2] eqn:E2; [|done].
      destruct (getFileMetadata _ a2) as [[m|] a3] eqn:E3; [|done]. injection Hrun as _ <-.
      rewrite (meta_files _ _ _ _ E3), (write_ok _ _ _ _ E2). apply lookup_insert_eq.
  - intros s ->. by destruct (truthy (trim (seal_taint s))).
Qed.

Definition header_short (data : FileData) (ct : option string) (seal : option FileSeal) : Prop :=
  (Z.of_nat (length (utf8_encode (json_stringify (frame_header (file_header data ct seal))))) < 2 ^ 32)%Z.
Lemma file_header_ok data ct seal : header_ok (file_header data ct seal) = true.
Proof. unfold file_header, truthy_field. by destruct (opt_truthy ct), seal. Qed.

(** What was encoded decodes to its header and its body. *)
Lemma decode_encoded fl bodyIv frameIv data ct seal stored header :
  length frameIv = IV_LENGTH → header_short data ct seal →
  encodeStoredFile fl bodyIv frameIv data ct seal = Ok (stored, header) →
  ∃ body, decodeStoredFile fl stored = Ok (file_header data ct seal, body) ∧
    match seal with
    | Some s => encryptBytes (seal_key s) bodyIv (file_bytes data) = Ok body
    | None => body = file_bytes data
    end.
Proof.
  intros Hiv Hh. unfold encodeStoredFile, decodeStoredFile, mbind, result_bind.
  destruct (match seal with Some s => _ | None => _ end) as [body|] eqn:Eb; [|done].
  destruct (meshFileKey fl) as [meshKey|]; [|done]. intros E. exists body.
  assert (openStoredFrame meshKey stored = Ok (encodeStoredFrame (file_header data ct seal) body)) as ->.
  { unfold sealStoredFrame, openStoredFrame in *. destruct meshKey as [k|]; [|by injection E as <- <-].
    destruct (envelope_opens k frameIv (encodeStoredFrame (file_header data ct seal) body) Hiv)
      as (env & Henv & Hd & _). rewrite Henv in E. by injection E as <- <-. }
  split.
  - apply frame_roundtrip; [apply file_header_ok|done].
  - destruct seal; [done|by injection Eb].
Qed.

Lemma taint_truthy s : truthy (trim s) = true → truthy s = true.
Proof. by destruct s. Qed.
Lemma open_ok f key p : open_sealed f key = Ok p →
  ∀ d, opt_truthy (sl_expected f) = Some d → sha256Hex p = d.
Proof.
  unfold open_sealed, mbind, result_bind. intros Ho d Hd. rewrite Hd in Ho.
  destruct (js_truthy (sl_taint f)), key; repeat (case_match; try done); simplify_eq/=;
    by apply String.eqb_eq.
Qed.
Lemma open_impl_expects fl path expected a f a' :
  openFileImpl fl path expected a = (Ok f, a') → sl_expected f = expected.
Proof.
  unfold openFileImpl, mbind, M_bind, lift. destruct (storedFilePath fl path); [|done].
  destruct (settle_both _ _ a) as [[[stored m]|] a1]; [|done].
  destruct (decodeStoredFile _ _) as [[h b]|]; [|done]. by intros [= <- _].
Qed.
Lemma file_access_ok {B} (op : M (Engine A) B) e x e' : fileAccess op e = (Ok x, e') → op e = (Ok x, e').
Proof.
  unfold fileAccess, catch. destruct (op e) as [[y|err] e1]; [done|].
  unfold mbind, M_bind. by destruct (handleRemoteAccessError _ _ _) as [[]].
Qed.
Lemma open_file_expects fl target e f e' :
  openFile fl target e = (Ok f, e') → sl_expected f = expectedFileDigest target.
Proof.
  intros Ho. apply file_access_ok in Ho. revert Ho. unfold mbind, M_bind.
  destruct (requireAdapter _ e) as [[[]|] e1]; [|done]. unfold sess, remote.
  destruct (openFileImpl _ _ _ _) as [[f'|] a'] eqn:E; intros [= <- _]. by eapply open_impl_expects.
Qed.
End theory.

(** ** Properties *)

(** C34: A stored file reads back.  After a successful upload, and as long as the object at
    its stored path is the one written, any later read of it that reaches the adapter opens: the
    description gives the size, digest, content type and taint of the upload; opening it with the
    key it was sealed with (with none when it was not sealed) returns the uploaded bytes, also when
    they are checked against their digest; and a sealed file does not open without a key. *)
Theorem stored_file_reads_back `{Platform} {A : Type} `{!StorageAdapter A} `{!ByteView} `{!FileStore} `{!WebCrypto}
    (fl : FileEnv) (bodyIv frameIv : list Z) (path filePath : string) (data : FileData) (ct : option string)
    (seal : option FileSeal) (a a1 a2 a3 : A) (info : FileInfo) (stored : Bytes)
    (m : option StoredFileMetadata) (expected : option string) :
  length bodyIv = IV_LENGTH → length frameIv = IV_LENGTH → header_short data ct seal →
  storedFilePath fl path = Ok filePath →
  putFileImpl fl bodyIv frameIv path data ct seal a = (Ok info, a1) →
  filesOf a2 !! filePath = filesOf a1 !! filePath →
  settle_both (readObject filePath) (readMetadata filePath) a2 = (Ok (stored, m), a3) →
  expected = None ∨ expected = Some (sha256Hex (file_bytes data)) →
  ∃ f, openFileImpl fl path expected a2 = (Ok f, a3) ∧
    fi_plaintextSize (sl_info f) = VNum (Num (Z.of_nat (length (file_bytes data)))) ∧
    fi_digest (sl_info f) = VStr (sha256Hex (file_bytes data)) ∧
    fi_contentType (sl_info f) = truthy_field ct ∧
    fi_taint (sl_info f) = from_option (λ s, VStr (seal_taint s)) VUndefined seal ∧
    open_sealed f (seal_key <$> seal) = Ok (file_bytes data) ∧
    (is_Some seal → is_ok (open_sealed f None) = false).
Proof.
  intros Hb Hf Hh Hp Hput Hsame Hread Hexp.
  destruct (put_file_stores _ _ _ _ _ _ _ _ _ _ _ Hp Hput) as (bytes & Henc & Hat & Htaint).
  assert (stored = toBytes bytes) as ->.
  { revert Hread. unfold settle_both. destruct (readObject filePath a2) as [r1 a4] eqn:E.
    apply read_object in E as [_ E]. destruct (readMetadata filePath a4) as [[?|] ?], r1 as [d|]; try done.
    intros [= <- _ _]. specialize (E d eq_refl). congruence. }
  destruct (decode_encoded _ _ _ _ _ _ _ _ Hf Hh Henc) as (body & Hdec & Hbody).
  unfold openFileImpl, mbind, M_bind, lift. rewrite Hp. cbn beta iota. rewrite Hread.
  rewrite ofBytes_toBytes, Hdec. eexists. split; [done|]. split_and!; try by destruct seal.
  - unfold open_sealed, mbind, result_bind. cbn [sl_taint sl_body sl_expected sl_path].
    assert (∀ p, p = file_bytes data → match opt_truthy expected with
      | Some d => if String.eqb (sha256Hex p) d then Ok p else Throw (JsError ("FileIntegrityError: " +:+ path))
      | None => Ok p end = Ok (file_bytes data)) as Hcheck.
    { intros p ->. destruct Hexp as [-> | ->]; [done|]. unfold opt_truthy.
      destruct (truthy _); [|done]. by rewrite String.eqb_refl. }
    destruct seal as [s|]; cbn [file_header sh_taint js_truthy fmap option_fmap option_map].
    + rewrite (taint_truthy _ (Htaint s eq_refl)).
      destruct (envelope_opens (seal_key s) bodyIv (file_bytes data) Hb) as (env & Henv & Hopen & _).
      rewrite Hbody in Henv. injection Henv as <-. rewrite Hopen. by apply Hcheck.
    + by apply Hcheck.
  - intros [s ->]. unfold open_sealed. cbn [file_header sh_taint js_truthy sl_taint].
    by rewrite (taint_truthy _ (Htaint s eq_refl)).
Qed.

(** A reference pins its content.  Whatever the adapter holds or returns, a file opened
    through a reference with a digest yields only bytes with that digest, whichever key opens it, and so
    does [getFile]; bytes that differ are refused. *)
Theorem reference_pins_content `{Platform} {A : Type} `{!StorageAdapter A} `{!ByteView} `{!FileStore} `{!WebCrypto}
    (fl : FileEnv) (ref : FileRef) (e : Engine A) (bytes : list Z) :
  truthy (fr_digest ref) = true →
  (∀ f e' key, openFile fl (AtRef ref) e = (Ok f, e') → open_sealed f key = Ok bytes →
     sha256Hex bytes = fr_digest ref) ∧
  (∀ e', getFile fl (AtRef ref) e = (Ok bytes, e') → sha256Hex bytes = fr_digest ref).
Proof.
  intros Ht. assert (∀ f e' key, openFile fl (AtRef ref) e = (Ok f, e') → open_sealed f key = Ok bytes →
    sha256Hex bytes = fr_digest ref) as Hopen.
  { intros f e' key Ho Hk. apply open_file_expects in Ho. eapply open_ok; [done|].
    rewrite Ho. by apply opt_truthy_Some. }
  split; [done|]. intros e'. unfold getFile, mbind, M_bind, lift.
  destruct (openFile fl (AtRef ref) e) as [[f|] e1] eqn:E; [|done].
  destruct (js_truthy (sl_taint f)); [done|]. intros [= Hk <-]. by eapply Hopen.
Qed.

(** ** The in-memory adapter as a file store *)
Lemma mem_put_files `{Platform} p d dev g a m a' : mem_putStoredFile p d dev g a = (Ok m, a') →
  mem_filesOf a' = <[p := d]> (mem_filesOf a) ∧
  ma_sealGuards a' = match opt_truthy g with
                     | Some g => map_set p g (ma_sealGuards a)
                     | None => map_delete p (ma_sealGuards a)
                     end.
Proof.
  unfold mem_putStoredFile, mbind, M_bind. destruct (requireSealGuard p g a) as [[[]|] a0] eqn:E; [|done].
  apply guard_state in E as ->. intros [= _ <-]. split; [|done].
  exact (mem_write_files p d a).
Qed.
#[global] Program Instance memory_file_store `{Platform} : FileStore (A := MemoryAdapter) := {
  putStoredFile := Some mem_putStoredFile; getStoredFile := Some mem_getStoredFile;
  deleteStoredFile := Some mem_deleteStoredFile; getStoredFileMetadata := Some mem_getStoredFileMetadata;
  getFileMetadata := mem_getFileMetadata }.
Next Obligation. intros ? put p d dev g a m a' [= <-] Hp. exact (proj1 (mem_put_files _ _ _ _ _ _ _ Hp)). Qed.
Next Obligation.
  intros ? get p a r a' [= <-]. unfold mem_getStoredFile, mem_readFile, mbind, M_bind. simpl.
  destruct (assoc p (ma_files a)) as [f|] eqn:E; intros [= <- <-]; [|done].
  split; [by destruct (assoc p (ma_storedFileMetadata a))|]. intros d [= <-].
  by rewrite filesOf_lookup, E.
Qed.
Next Obligation.
  intros ? meta p a r a' [= <-]. unfold mem_getStoredFileMetadata.
  by destruct (assoc p (ma_storedFileMetadata a)); intros [= _ <-].
Qed.
Next Obligation. by intros ? p a r a' [= _ <-]. Qed.

(** The guard of a write or a deletion by the holder of [key], or of none. *)
Definition presented `{WebCrypto} (key : option MeshKey) (filePath : string) : result (option string) :=
  match key with Some k => g ← fileGuard k filePath; Ok (Some g) | None => Ok None end.

(** The in-memory adapter hands out what it holds. *)
Lemma mem_object_read `{Platform} p d (a : MemoryAdapter) : filesOf a !! p = Some d →
  ∃ m a', settle_both (readObject p) (readMetadata p) a = (Ok (d, m), a').
Proof.
  intros Hf. assert (∃ a1, readObject p a = (Ok d, a1)) as [a1 E1].
  { unfold readObject. cbn [getStoredFile memory_file_store]. unfold mem_getStoredFile, mem_readFile, mbind, M_bind.
    change (mem_filesOf a !! p = Some d) in Hf. rewrite filesOf_lookup in Hf.
    destruct (assoc p (ma_files a)) as [f|]; [|done]. injection Hf as <-. by eexists. }
  assert (∃ m a2, readMetadata p a1 = (Ok m, a2)) as (m & a2 & E2).
  { unfold readMetadata. cbn [getStoredFileMetadata memory_file_store]. unfold mem_getStoredFileMetadata.
    destruct (assoc p (ma_storedFileMetadata a1)); [by eexists _, _|]. unfold mem_getFileMetadata, mbind, M_bind. cbn. by eexists _, _. }
  exists m, a2. unfold settle_both. by rewrite E1, E2.
Qed.

(** C35: Only the seal's key overwrites or removes a sealed file.  After a sealed upload to the
    in-memory adapter, a later upload to the same path, or its deletion, that holds no key, or a key whose
    guard is another one, is rejected and leaves the stored object as it was; and reading the file, as [openFile] does, hands
    the object out closed: marked with the seal's taint, its body the bytes encrypted under the seal's key, and
    refusing to open without a key.  (The upload's header fits its length prefix and its vector has the
    length of one.) *)
Theorem sealed_file_needs_its_key `{Platform} `{!ByteView} `{!WebCrypto} (fl : FileEnv)
    (bodyIv frameIv bodyIv' frameIv' : list Z) (path filePath : string) (data data' : FileData)
    (ct ct' : option string) (seal : FileSeal) (seal' : option FileSeal) (key : option MeshKey)
    (a a1 : MemoryAdapter) (info : FileInfo) (guard : string) :
  length frameIv = IV_LENGTH → header_short data ct (Some seal) →
  storedFilePath fl path = Ok filePath →
  fileGuard (seal_key seal) filePath = Ok guard →
  putFileImpl fl bodyIv frameIv path data ct (Some seal) a = (Ok info, a1) →
  presented (seal_key <$> seal') filePath ≠ Ok (Some guard) →
  presented key filePath ≠ Ok (Some guard) →
  (∃ err, putFileImpl fl bodyIv' frameIv' path data' ct' seal' a1 = (Throw err, a1)) ∧
  (∃ err, deleteFileImpl fl path key a1 = (Throw err, a1)) ∧
  (∀ expected, ∃ f a2, openFileImpl fl path expected a1 = (Ok f, a2) ∧
     fi_taint (sl_info f) = VStr (seal_taint seal) ∧
     encryptBytes (seal_key seal) bodyIv (file_bytes data) = Ok (sl_body f) ∧
     is_ok (open_sealed f None) = false).
Proof.
  intros Hiv Hh Hp Hg Hput Hs' Hk. assert (assoc filePath (ma_sealGuards a1) = Some guard ∧ truthy guard = true) as [Ha Ht].
  { revert Hput. unfold putFileImpl, mbind, M_bind, result_bind, lift. rewrite Hp, Hg. cbn beta iota.
    destruct (truthy _); [|done]. destruct (encodeStoredFile _ _ _ _ _ _) as [[st h]|]; [|done].
    cbn [putStoredFile memory_file_store]. destruct (mem_putStoredFile _ _ _ _ a) as [[m|] a'] eqn:E; [|done].
    intros [= _ <-]. apply mem_put_files in E as [_ E]. pose proof (guard_truthy _ _ _ Hg) as Ht.
    rewrite opt_truthy_Some in E by done. rewrite E. split; [apply assoc_map_set_eq|done]. }
  assert (∀ g, g ≠ Some guard → ∃ err, requireSealGuard filePath g a1 = (Throw err, a1)) as Hblock.
  { intros g Hne. unfold requireSealGuard. rewrite Ha, opt_truthy_Some by done.
    rewrite bool_decide_false by done. eauto. }
  split_and!.
  - unfold putFileImpl, mbind, M_bind, result_bind, lift. rewrite Hp. cbn beta iota.
    destruct (match seal' with Some s => _ | None => Ok () end); [|by eauto].
    destruct (encodeStoredFile _ _ _ _ _ _) as [[st h]|]; [|by eauto].
    assert (match seal' with Some s => match fileGuard (seal_key s) filePath with Ok g => Ok (Some g) | Throw err => Throw err end
      | None => Ok None end = presented (seal_key <$> seal') filePath) as -> by (by destruct seal').
    destruct (presented _ filePath) as [g|] eqn:E; [|by eauto].
    destruct (Hblock g ltac:(congruence)) as [err He]. exists err.
    cbn [putStoredFile memory_file_store]. unfold mem_putStoredFile, mbind, M_bind. by rewrite He.
  - unfold deleteFileImpl, mbind, M_bind, lift. rewrite Hp. cbn [deleteStoredFile memory_file_store].
    change (match key with Some k => _ | None => Ok None end) with (presented key filePath).
    destruct (presented key filePath) as [g|] eqn:E; [|by eauto].
    destruct (Hblock g ltac:(congruence)) as [err He]. exists err.
    unfold mem_deleteStoredFile, mbind, M_bind. by rewrite He.
  - intros expected. destruct (put_file_stores _ _ _ _ _ _ _ _ _ _ _ Hp Hput) as (bytes & Henc & Hat & Htaint).
    destruct (decode_encoded _ _ _ _ _ _ _ _ Hiv Hh Henc) as (body & Hdec & Hbody).
    destruct (mem_object_read filePath _ a1 Hat) as (m & a2 & Hread).
    unfold openFileImpl, mbind, M_bind, lift. rewrite Hp. cbn beta iota. rewrite Hread, ofBytes_toBytes, Hdec.
    eexists _, a2. split_and!; [done..|]. unfold open_sealed. cbn [file_header sh_taint js_truthy sl_taint].
    by rewrite (taint_truthy _ (Htaint seal eq_refl)).
Qed.

(** ** Witnesses *)

(** A platform whose bytes are octets or an opaque document. *)
Definition file_platform : Platform := {|
  Text := Doc; Bytes := (list Z + option Z * Doc)%type; CryptoKey := Z;
  byteLength b := match b with inl l => Z.of_nat (length l) | inr _ => 1%Z end;
  stringify d := d; parse d := Ok d; encodeText d := inr (None, d);
  decodeText b := match b with inl _ => DOther VNull | inr (_, d) => d end;
  encryptEntry k d := inr (Some k, d);
  decryptEntry k b := match b with
                      | inr (k', d) => if bool_decide (k' = Some k) then Ok d
                                       else Throw (JsError "decryption failed")
                      | inl _ => Throw (JsError "decryption failed")
                      end;
  hashPayload m := num_toString 10 (Num (m_generation m));
  parse_stringify d _ := eq_refl; decode_encode d := eq_refl;
  decrypt_encrypt k t := ltac:(simpl; by rewrite bool_decide_true) |}.
#[local] Existing Instance file_platform.
#[local] Existing Instance toy_crypto.
#[local] Instance file_bytes_view : ByteView := {|
  toBytes := inl; ofBytes b := match b with inl l => l | inr _ => [] end;
  ofBytes_toBytes l := eq_refl; byteLength_toBytes l := eq_refl |}.

Definition w_fl : FileEnv := mkFileEnv "m" "d" true (Some toy_key) "now".
Definition w_seal : FileSeal := mkSeal "k" (mkMeshKey (replicate 16 3%Z) true false).
Definition w_upload : result FileInfo * MemoryAdapter :=
  putFileImpl w_fl toy_iv toy_iv "/a//b" (TextData "hi") None (Some w_seal) (emptyAdapter "now").
Definition w_after : MemoryAdapter := w_upload.2.
Definition w_path : string := match storedFilePath w_fl "/a//b" with Ok p => p | Throw _ => "" end.
Definition or_absent (r : result FileInfo) : FileInfo :=
  match r with Ok i => i | Throw _ => describeStoredFile (mkStoredMeta "" "" 0 "" None None None None None)
    (mkFileHeader VNull VNull VNull VNull) end.
Definition w_later : MemoryAdapter :=
  (putFileImpl w_fl toy_iv toy_iv "c" (TextData "other") None None w_after).2.
Definition w_read : result (Bytes * option StoredFileMetadata) * MemoryAdapter :=
  settle_both (readObject w_path) (readMetadata w_path) w_later.
Definition w_stored : Bytes * option StoredFileMetadata :=
  match w_read.1 with Ok x => x | Throw _ => (inl [], None) end.
#[local] Strategy expand [w_upload w_after w_path w_read w_stored w_later or_absent].
Lemma w_uploaded :
  putFileImpl w_fl toy_iv toy_iv "/a//b" (TextData "hi") None (Some w_seal) (emptyAdapter "now") =
  (Ok (or_absent w_upload.1), w_after).
Proof. assert (w_upload.1 = Ok (or_absent w_upload.1)) as <- by (by vm_compute). apply surjective_pairing. Qed.
Lemma w_reads :
  settle_both (readObject w_path) (readMetadata w_path) w_later = (Ok (w_stored.1, w_stored.2), w_read.2).
Proof.
  assert (w_read.1 = Ok (w_stored.1, w_stored.2)) as <- by (by vm_compute). apply surjective_pairing.
Qed.

Lemma w_header : header_short (TextData "hi") None (Some w_seal).
Proof. by vm_compute. Qed.
Lemma w_path_ok : storedFilePath w_fl "/a//b" = Ok w_path.
Proof. by vm_compute. Qed.
Lemma w_kept : mem_filesOf w_later !! w_path = mem_filesOf w_after !! w_path.
Proof. by vm_compute. Qed.
Lemma stored_file_reads_back_witness :
  ∃ f, openFileImpl w_fl "/a//b" None w_later = (Ok f, w_read.2) ∧
    open_sealed f (Some (seal_key w_seal)) = Ok (char_codes "hi") ∧ is_ok (open_sealed f None) = false.
Proof.
  destruct (stored_file_reads_back w_fl toy_iv toy_iv "/a//b" w_path (TextData "hi") None (Some w_seal)
    (emptyAdapter "now") w_after w_later w_read.2 (or_absent w_upload.1) w_stored.1 w_stored.2 None
    eq_refl eq_refl w_header w_path_ok w_uploaded w_kept w_reads
    (or_introl eq_refl)) as (f & Ho & _ & _ & _ & _ & Hk & Hn).
  exists f. split; [exact Ho|]. split; [exact Hk|]. apply Hn. by exists w_seal.
Defined.

(** The other file, by reference, through an engine. *)
Definition w_ref : FileRef := mkFileRef "c" (sha256Hex (char_codes "other")) (VNum (Num 5)) None None.
Definition w_engine : Engine MemoryAdapter :=
  mkEngine (mkSession w_later emptyStore ∅ ∅ (hlcInit 0 "d") None true None true []) true [] Idle None false
    (mkWrite false 0 false 0 false false false) (mkObservers ∅ None [] [])
    (mkCompactState 0 None None None idle_runtime) (mkPoll 0 0 false false false) false.
Definition w_got : result (list Z) * Engine MemoryAdapter := getFile w_fl (AtRef w_ref) w_engine.
#[local] Strategy expand [w_got].
Lemma w_gets : getFile w_fl (AtRef w_ref) w_engine = (Ok (char_codes "other"), w_got.2).
Proof. assert (w_got.1 = Ok (char_codes "other")) as <- by (by vm_compute). apply surjective_pairing. Qed.
Lemma reference_pins_content_witness :
  is_ok (getFile w_fl (AtRef w_ref) w_engine).1 = true ∧ sha256Hex (char_codes "other") = fr_digest w_ref.
Proof.
  split; [by rewrite w_gets|].
  exact (proj2 (reference_pins_content w_fl w_ref w_engine (char_codes "other") ltac:(by vm_compute)) w_got.2 w_gets).
Defined.

Definition w_guard : string := match fileGuard (seal_key w_seal) w_path with Ok g => g | Throw _ => "" end.
Lemma w_guard_ok : fileGuard (seal_key w_seal) w_path = Ok w_guard.
Proof. by vm_compute. Qed.
Lemma w_other_guard : presented (Some toy_key) w_path ≠ Ok (Some w_guard).
Proof. by vm_compute. Qed.
Lemma w_no_guard : presented (seal_key <$> None) w_path ≠ Ok (Some w_guard).
Proof. done. Qed.
Lemma sealed_file_needs_its_key_witness :
  (∃ err, deleteFileImpl w_fl "/a//b" (Some toy_key) w_after = (Throw err, w_after)) ∧
  ∃ f a2, openFileImpl w_fl "/a//b" None w_after = (Ok f, a2) ∧ is_ok (open_sealed f None) = false.
Proof.
  destruct (sealed_file_needs_its_key w_fl toy_iv toy_iv toy_iv toy_iv "/a//b" w_path (TextData "hi")
    (RawBytes []) None None w_seal None (Some toy_key) (emptyAdapter "now") w_after (or_absent w_upload.1)
    w_guard eq_refl w_header w_path_ok w_guard_ok w_uploaded w_no_guard w_other_guard) as (_ & Hd & Ho).
  split; [exact Hd|]. destruct (Ho None) as (f & a2 & E & _ & _ & Hc). by exists f, a2.
Defined.
