(* ===== verification/Queue.v ===== *)
(** * What happens to a local change
    (the write path of [packages/core/src/core/sync-engine.ts], continued)

    A change that was committed locally stays in the outbox until it is published
    or withheld.  The lemmas sort the engine's steps into those that only announce
    and arm timers, and those that touch the store; the theorems follow a change
    through batching, flushing and the offline limit. *)

From S2P Require Import Prelude JsString Hlc Values JsMap LocalStore Wire Crdt.
From S2P Require Import Observation Adapter Codec Session MergeStore Manifest Flush Pull Compaction.
From S2P Require Import ChangeEffects LocalWrites Promises Engine.
From Stdlib Require String.

Open Scope stdpp_scope.

Section calm.
Context `{Platform} {A : Type} `{HA : !StorageAdapter A} `{!DateText}.

(** ** Steps that leave the store and the mailbox alone *)
Definition still (e e' : Engine A) : Prop :=
  en_local e' = en_local e ∧ ss_adapter (en_session e') = ss_adapter (en_session e) ∧
  w_batchDepth (en_write e') = w_batchDepth (en_write e).
#[global] Instance still_preorder : PreOrder still.
Proof. split; [done|]. intros e1 e2 e3 (? & ? & ?) (? & ? & ?). split_and!; congruence. Qed.

(** Steps that return, and leave both alone. *)
Definition calm {B} (m : M (Engine A) B) : Prop :=
  ∀ e, ∃ b e', m e = (Ok b, e') ∧ still e e'.

Lemma calm_ret {B} (b : B) : calm (mret b).
Proof. intros e. by exists b, e. Qed.
Lemma calm_gets {B} (f : Engine A → B) : calm (gets f).
Proof. intros e. by exists (f e), e. Qed.
Lemma calm_bind {B C} (m : M (Engine A) B) (f : B → M (Engine A) C) :
  calm m → (∀ b, calm (f b)) → calm (m ≫= f).
Proof.
  intros Hm Hf e. destruct (Hm e) as (b & e1 & E1 & H1). destruct (Hf b e1) as (c & e2 & E2 & H2).
  exists c, e2. rewrite (bind_ok _ _ _ _ _ E1). split; [done|]. by transitivity e1.
Qed.
Lemma calm_when b (m : M (Engine A) ()) : calm m → calm (when b m).
Proof. intros Hm. destruct b; [done|apply calm_ret]. Qed.
Lemma calm_modify f : (∀ e, still e (f e)) → calm (modify f).
Proof. intros Hf e. by exists (), (f e). Qed.
Lemma still_poison s s' e : still e (after_poison s s' e).
Proof. unfold after_poison. by case_match. Qed.
Lemma calm_sess (f : Session A → Session A) :
  (∀ s, ss_local (f s) = ss_local s) → (∀ s, ss_adapter (f s) = ss_adapter s) →
  calm (sess (modify f)).
Proof.
  intros Hl Ha e. eexists _, _. split; [done|]. cbn.
  etransitivity; [|apply still_poison]. split_and!; unfold en_local; simpl; [apply Hl|apply Ha|done].
Qed.
Lemma calm_announce ev : calm (announce ev).
Proof. by apply calm_sess. Qed.

End calm.

Ltac calm_walk :=
  repeat (intros; lazymatch goal with
    | |- calm (announce _) => apply calm_announce
    | |- calm (mret _) => apply calm_ret
    | |- calm (gets _) => apply calm_gets
    | |- calm (when _ _) => apply calm_when
    | |- calm (mbind _ _) => apply calm_bind
    | |- calm (modify _) => apply calm_modify; intros; first [done | case_match; done]
    | |- calm (set_write _) => unfold set_write
    | |- calm (set_observers _) => unfold set_observers
    | |- calm (set_compact _) => unfold set_compact
    | |- calm (set_poll _) => unfold set_poll
    | |- calm clearScheduledFlush => unfold clearScheduledFlush
    | |- calm clearBatchTimer => unfold clearBatchTimer
    | |- calm resetCompactWarning => unfold resetCompactWarning
    | |- calm (emitChangeObservation _ _) => unfold emitChangeObservation
    | |- calm (scheduleFlush _ _ _) => unfold scheduleFlush
    | |- calm (armDelayedCompactAfterChange _ _ _) => unfold armDelayedCompactAfterChange
    | |- calm (maybeEmitCompactWarning _) => unfold maybeEmitCompactWarning
    | |- calm (setConnectionStatus _) => unfold setConnectionStatus
    | |- calm (match ?x with _ => _ end) => destruct x
    end).

Section queue.
Context `{Platform} {A : Type} `{HA : !StorageAdapter A} `{!DateText}.

Lemma calm_status st : calm (setConnectionStatus st : M (Engine A) ()).
Proof. unfold setConnectionStatus. calm_walk. Qed.
Lemma calm_idle : calm (idle_if_connected : M (Engine A) ()).
Proof. unfold idle_if_connected. calm_walk; apply calm_status. Qed.
Lemma calm_warning ec : calm (maybeEmitCompactWarning ec : M (Engine A) ()).
Proof. unfold maybeEmitCompactWarning. calm_walk. Qed.
Lemma calm_reset : calm (resetCompactWarning : M (Engine A) ()).
Proof. unfold resetCompactWarning. calm_walk. Qed.
Lemma calm_schedule host cfg ec : calm (scheduleFlush host cfg ec : M (Engine A) ()).
Proof.
  unfold scheduleFlush, armDelayedCompactAfterChange. calm_walk; try apply calm_warning.
Qed.
Lemma calm_access err stage : calm (handleRemoteAccessError err stage : M (Engine A) ()).
Proof. unfold handleRemoteAccessError. calm_walk; try apply calm_status. by apply calm_sess. Qed.
Lemma calm_retention host cfg ec ms : calm (scheduleRetentionCompactionCheck host cfg ec ms : M (Engine A) ()).
Proof. unfold scheduleRetentionCompactionCheck. calm_walk. Qed.

(** ** Steps of the store *)
Definition at_store (l : MemoryLocalStore) (e : Engine A) : Engine A :=
  with_session (set_local l (en_session e)) e.

Lemma en_local_at l e : en_local (at_store l e) = l.
Proof. done. Qed.
Lemma at_store_at l l' e : at_store l (at_store l' e) = at_store l e.
Proof. done. Qed.
Lemma adapter_at l e : ss_adapter (en_session (at_store l e)) = ss_adapter (en_session e).
Proof. done. Qed.
Lemma poison_same s s' (e : Engine A) : ss_poison s' = ss_poison s → after_poison s s' e = e.
Proof. intros E. unfold after_poison. rewrite E. by case_bool_decide. Qed.
Lemma store_bind {B C} (m : M MemoryLocalStore B) (f : B → M (Engine A) C) (e : Engine A) :
  (store m ≫= f) e =
    match m (en_local e) with
    | (Ok b, l) => f b (at_store l e)
    | (Throw err, l) => (Throw err, at_store l e)
    end.
Proof.
  unfold mbind, M_bind, store, sess, loc, en_local, at_store.
  destruct (m (ss_local (en_session e))) as [[b|err] l]; by rewrite poison_same.
Qed.
Lemma store_gets_bind {B C} (g : MemoryLocalStore → B) (f : B → M (Engine A) C) (e : Engine A) :
  (store (gets g) ≫= f) e = f (g (en_local e)) e.
Proof. rewrite store_bind. by destruct e as [[]]. Qed.
Lemma store_modify_bind {C} (g : MemoryLocalStore → MemoryLocalStore) (f : () → M (Engine A) C)
    (e : Engine A) :
  (store (modify g) ≫= f) e = f () (at_store (g (en_local e)) e).
Proof. by rewrite store_bind. Qed.
Lemma calm_run {B} (m : M (Engine A) B) (e : Engine A) :
  calm m → ∃ b e1, still e e1 ∧ ∀ C (f : B → M (Engine A) C), (m ≫= f) e = f b e1.
Proof.
  intros Hm. destruct (Hm e) as (b & e1 & E & Hs). exists b, e1. split; [done|].
  intros C f. by rewrite (bind_ok _ _ _ _ _ E).
Qed.
Lemma calm_then {B C} (m : M (Engine A) B) (f : B → M (Engine A) C) (e e' : Engine A) r :
  calm m → (m ≫= f) e = (r, e') → ∃ b e1, still e e1 ∧ f b e1 = (r, e').
Proof.
  intros Hm. destruct (calm_run m e Hm) as (b & e1 & Hs & E). rewrite E. eauto.
Qed.
Lemma calm_result {B} (m : M (Engine A) B) (e0 : Engine A) (P : B → Engine A → Prop) :
  calm m → (∀ b e', still e0 e' → P b e') → ∃ b e', m e0 = (Ok b, e') ∧ P b e'.
Proof. intros Hm HP. destruct (Hm e0) as (b & e' & E & Hs). eauto. Qed.

(** Calm steps before a known return value. *)
Definition calm_to {B} (v : B) (m : M (Engine A) B) : Prop :=
  ∀ e, ∃ e', m e = (Ok v, e') ∧ still e e'.
Lemma calm_to_ret {B} (v : B) : calm_to v (mret v).
Proof. intros e. by exists e. Qed.
Lemma calm_to_bind {B C} (v : C) (m : M (Engine A) B) (k : B → M (Engine A) C) :
  calm m → (∀ b, calm_to v (k b)) → calm_to v (m ≫= k).
Proof.
  intros Hm Hk e. destruct (Hm e) as (b & e1 & E & H1). destruct (Hk b e1) as (e2 & E2 & H2).
  exists e2. rewrite (bind_ok _ _ _ _ _ E). split; [done|]. by transitivity e1.
Qed.

Lemma flushPendingBatch_spec host cfg ec (e : Engine A) :
  ∃ u e', flushPendingBatch host cfg ec e = (Ok u, e') ∧
    en_local e' = (promotePendingBatch (en_local e)).2 ∧
    ss_adapter (en_session e') = ss_adapter (en_session e) ∧
    w_batchDepth (en_write e') = w_batchDepth (en_write e).
Proof.
  unfold flushPendingBatch.
  destruct (calm_run clearBatchTimer e) as (u & e1 & (El & Ea & Ed) & Erun); [by apply calm_modify|].
  rewrite Erun, store_bind, <- El, <- Ea, <- Ed.
  destruct (promotePendingBatch (en_local e1)) as [[p|] l].
  - apply calm_result; [|by intros b e2 (-> & -> & ->)]. calm_walk.
  - by eexists _, _.
Qed.

(** ** The quarantine *)
Lemma ack_all s : ls_outbox (acknowledgeOutbox (ce_id <$> ls_outbox s) s) = [].
Proof.
  destruct s as [rows q pb cs mt]. unfold acknowledgeOutbox. cbn [ls_outbox].
  assert (∀ l ids, (∀ y, y ∈ l → ce_id y ∈ ids) → List.filter (λ y, negb (bool_decide
    (ce_id y ∈ (list_to_set ids : gset string)))) l = []) as Hf.
  { induction l as [|y l IH]; intros ids Hl; [done|]. simpl. rewrite bool_decide_true.
    - apply IH. intros z Hz. apply Hl. by right.
    - apply elem_of_list_to_set, Hl. left. }
  destruct q as [|x q]; [done|]. apply (Hf (x :: q) (ce_id <$> x :: q)).
  intros y Hy. apply list_elem_of_fmap. by exists y.
Qed.

Definition queue_of (l : MemoryLocalStore) : list ChangeEntry :=
  ls_outbox l ++ option_list (ls_pendingBatch l).
Lemma promoted_queue l : ls_outbox (promotePendingBatch l).2 = queue_of l.
Proof.
  unfold promotePendingBatch, queue_of. destruct (ls_pendingBatch l); [done|]. by rewrite app_nil_r.
Qed.
Lemma promoted_pending l : ls_pendingBatch (promotePendingBatch l).2 = None.
Proof. unfold promotePendingBatch. by destruct (ls_pendingBatch l) eqn:E. Qed.
Lemma promoted_meta l : ls_meta (promotePendingBatch l).2 = ls_meta l.
Proof. unfold promotePendingBatch. by destruct (ls_pendingBatch l). Qed.

Lemma getMeta_set k v l : store_getMeta k (store_setMeta k v l) = v.
Proof. exact (@getMeta_setMeta _ memory_meta_store k v l). Qed.
Lemma getMeta_set_ne k k' v l : k ≠ k' → store_getMeta k' (store_setMeta k v l) = store_getMeta k' l.
Proof. exact (@getMeta_setMeta_ne _ memory_meta_store k k' v l). Qed.
Lemma ack_meta k ids l : store_getMeta k (acknowledgeOutbox ids l) = store_getMeta k l.
Proof. by destruct ids. Qed.

(** The device has a record of its last sync, and that is no date or too long ago. *)
Definition overdue (now : Z) (limit : jsnum) (stored : jsval) : Prop :=
  ∃ last, stored = VStr last ∧ last ≠ "" ∧
    (dateParse last = NaN ∨ ∃ at_ max, dateParse last = Num at_ ∧ limit = Num max ∧ (max < now - at_)%Z).
Lemma offline_overdue host policy stored : is_Some (offlineRetentionState host policy stored) ↔
  overdue (env_wall (h_env host)) (maxOfflineDurationMs policy) stored.
Proof.
  unfold offlineRetentionState, overdue. split.
  - intros [last' E]. destruct stored as [| | | |last| | |]; try done. exists last. split; [done|].
    destruct last as [|c last]; [done|]. split; [done|]. cbn [truthy negb] in E.
    destruct (dateParse (String c last)) as [|t]; [by left|]. right. cbn [num_finite negb orb num_sub num_lift2] in E.
    destruct (maxOfflineDurationMs policy) as [|m]; [done|]. exists t, m. split_and!; [done..|].
    unfold num_gtb, num_ltb in E. cbn in E. destruct (Z.ltb_spec m (env_wall (h_env host) - t)); [done|done].
  - intros (last & -> & Hne & Hd). destruct last as [|c last]; [done|]. cbn [truthy negb].
    destruct Hd as [->|(t & m & -> & -> & Hlt)]; [by eexists|]. unfold num_gtb, num_ltb. cbn.
    rewrite (proj2 (Z.ltb_lt _ _) Hlt). by eexists.
Qed.

Lemma quarantine_spec host cfg ec (e e' : Engine A) r :
  quarantineExpiredOfflineWrites host cfg ec e = (r, e') →
  ((∀ policy, activeRetentionPolicy cfg e = Ok policy →
      ¬ is_Some (offlineRetentionState host policy (store_getMeta LAST_SUCCESSFUL_SYNC_AT_META (en_local e)))) ∧
   r ≠ Ok true ∧ still e e') ∨
  ∃ last policy, r = Ok true ∧ ss_adapter (en_session e') = ss_adapter (en_session e) ∧
    ls_outbox (en_local e') = [] ∧ ls_pendingBatch (en_local e') = None ∧
    store_getMeta QUARANTINED_OFFLINE_CHANGES_META (en_local e') =
      quarantine_value (env_now (h_env host)) last policy
        (merge_by_id (items (field "entries" (store_getMeta QUARANTINED_OFFLINE_CHANGES_META (en_local e))))
           (change_value <$> queue_of (en_local e))).
Proof.
  unfold quarantineExpiredOfflineWrites. rewrite gets_bind, lift_bind. cbn [id].
  destruct (activeRetentionPolicy cfg e) as [policy|err]; [|intros [= <- <-]; by left].
  destruct (offlineRetentionState _ _ _) as [last|] eqn:Eoff.
  2: { intros [= <- <-]. left. split; [|done]. intros policy' [= <-]. rewrite Eoff. by intros []. }
  destruct (flushPendingBatch_spec host cfg ec e) as (u & e1 & E & El & Ea & _).
  rewrite (bind_ok _ _ _ _ _ E). rewrite !store_gets_bind, !store_modify_bind.
  rewrite !en_local_at, !at_store_at.
  intros Hrun. right. exists last, policy. revert Hrun.
  match goal with |- (?m ≫= ?f) ?e0 = _ → _ =>
    assert (calm_to true (m ≫= f)) as Hcalm; [|destruct (Hcalm e0) as (e2 & -> & El2 & Ea2 & _)] end.
  { repeat (apply calm_to_bind; [by calm_walk|intros ?]). apply calm_to_ret. }
  intros [= <- <-]. rewrite El2, Ea2, adapter_at, en_local_at. split; [done|]. split; [done|].
  unfold peekOutbox. rewrite <- (promoted_queue (en_local e)), <- El.
  assert (∀ k, store_getMeta k (en_local e1) = store_getMeta k (en_local e)) as Hm.
  { intros k. unfold store_getMeta. by rewrite El, promoted_meta. }
  split; [|split].
  - match goal with |- ls_outbox (acknowledgeOutbox _ ?s) = _ => apply (ack_all s) end.
  - pose proof (promoted_pending (en_local e)) as Hp. rewrite <- El in Hp.
    by destruct (ls_outbox (en_local e1)).
  - rewrite ack_meta. rewrite getMeta_set_ne by discriminate. by rewrite getMeta_set, Hm.
Qed.

(** The last entry under an id stays. *)
Lemma by_id_keeps (l : list jsval) m k v : assoc k m = Some v → k ∉ id_of <$> l →
  assoc k (foldl (λ byId v, map_set (id_of v) v byId) m l) = Some v.
Proof.
  revert m. induction l as [|w l IH]; intros m Hm Hk; [done|]. rewrite fmap_cons in Hk.
  apply not_elem_of_cons in Hk as [Hne Hk]. simpl. apply IH; [|done].
  by rewrite assoc_map_set_ne by congruence.
Qed.
Lemma merge_by_id_last l1 v l2 withheld queued :
  withheld ++ queued = l1 ++ v :: l2 → id_of v ∉ id_of <$> l2 → v ∈ merge_by_id withheld queued.
Proof.
  intros E Hv. unfold merge_by_id. rewrite E, foldl_app. simpl. apply list_elem_of_fmap.
  exists (id_of v, v). split; [done|]. apply assoc_elem, by_id_keeps; [|done].
  apply assoc_map_set_eq.
Qed.
Lemma id_of_change c : id_of (change_value c) = ce_id c.
Proof. done. Qed.
Lemma merge_has_queued withheld q c : NoDup (ce_id <$> q) → c ∈ q →
  change_value c ∈ merge_by_id withheld (change_value <$> q).
Proof.
  intros Hnd Hc. apply list_elem_of_split in Hc as (q1 & q2 & E). rewrite E in Hnd |- *.
  rewrite fmap_app, fmap_cons in Hnd. rewrite fmap_app, fmap_cons.
  apply (merge_by_id_last (withheld ++ (change_value <$> q1)) _ (change_value <$> q2)).
  - by rewrite <- app_assoc.
  - rewrite id_of_change, <- list_fmap_compose. apply list.NoDup_app in Hnd as (_ & _ & Hnd).
    by apply list.NoDup_cons in Hnd as [Hc _].
Qed.
Lemma merge_has_withheld withheld q v : NoDup (id_of <$> withheld) → v ∈ withheld →
  id_of v ∉ ce_id <$> q → v ∈ merge_by_id withheld (change_value <$> q).
Proof.
  intros Hnd Hv Hq. apply list_elem_of_split in Hv as (l1 & l2 & E). rewrite E in Hnd |- *. rewrite fmap_app, fmap_cons in Hnd.
  apply (merge_by_id_last l1 _ (l2 ++ (change_value <$> q))).
  - by rewrite <- app_assoc.
  - rewrite fmap_app, <- list_fmap_compose. apply list.NoDup_app in Hnd as (_ & _ & Hnd).
    apply list.NoDup_cons in Hnd as [Hc _]. apply not_elem_of_app. done.
Qed.

(** ** Following a change *)
Definition withheld (l : MemoryLocalStore) : list jsval :=
  items (field "entries" (store_getMeta QUARANTINED_OFFLINE_CHANGES_META l)).
Definition published_file (root : string) (c : ChangeEntry) (a : A) : Prop :=
  ∃ st d, encodeChangePayload st c = Ok d ∧ filesOf a !! changeEntryPath root c = Some d.
(** A change is still queued, or on the remote, or in the quarantine. *)
Definition accounted (root : string) (c : ChangeEntry) (e : Engine A) : Prop :=
  c ∈ queue_of (en_local e) ∨ published_file root c (ss_adapter (en_session e)) ∨
  change_value c ∈ withheld (en_local e).

Definition same_queue (e e' : Engine A) : Prop :=
  ls_outbox (en_local e') = ls_outbox (en_local e) ∧
  ls_pendingBatch (en_local e') = ls_pendingBatch (en_local e).
#[global] Instance same_queue_preorder : PreOrder same_queue.
Proof. split; [done|]. intros e1 e2 e3 [??] [??]. split; congruence. Qed.

Lemma queue_sess {B} (m : M (Session A) B) : keeps quiet m → keeps same_queue (sess m).
Proof.
  intros Hm e r e'. unfold sess. destruct (m (en_session e)) as [r0 s] eqn:E. intros [= _ <-].
  apply Hm in E as (_ & Ho & Hp). unfold after_poison. case_match; done.
Qed.
Lemma queue_calm {B} (m : M (Engine A) B) : calm m → keeps same_queue m.
Proof. intros Hm e r e' E. destruct (Hm e) as (b & e1 & E1 & [El _]). unfold same_queue.
  rewrite E in E1. injection E1 as _ <-. by rewrite El. Qed.
Lemma queue_manifest host cfg reason force create :
  keeps same_queue (load_manifest host cfg reason force create).
Proof.
  unfold load_manifest, requireAdapter, requireRemotePath.
  keeps_walk ltac:(apply queue_sess, quiet_doLoad).
Qed.

(** A flush that returns has published; it never touches the queue. *)
Lemma flushToAdapter_published now root es b st dev (s : FlushState (A:=A)) r s' :
  immutable root es → flushToAdapter now root es b st dev flush_emit s = (r, s') → is_ok r = true →
  published root st es s'.1.
Proof.
  intros Him E Hok. destruct r as [[]|]; [|done]. unfold flushToAdapter in E.
  apply bind_ok_inv in E as (u & s1 & _ & E). apply bind_ok_inv in E as (h & s2 & Hw & E).
  eapply update_head_published; [exact E|]. by eapply write_entries_ok.
Qed.
Lemma run_flush_spec host cfg es (e e' : Engine A) r :
  immutable (cf_remotePath cfg) es → run_flushPrimary host cfg es e = (r, e') →
  same_queue e e' ∧
  (is_ok r = true → ∀ c, c ∈ es → published_file (cf_remotePath cfg) c (ss_adapter (en_session e'))).
Proof.
  intros Him. unfold run_flushPrimary. intros [= <- <-].
  set (o := flushPrimary _ _ _ _ _).
  assert (∀ f, en_local (with_replicas (fo_replicas o) (after_poison (en_session e) (fo_session o)
      (with_session (foldl (λ s ev, add_event ev s) (fo_session o) f) e))) = ss_local (fo_session o) ∧
    ss_adapter (en_session (with_replicas (fo_replicas o) (after_poison (en_session e) (fo_session o)
      (with_session (foldl (λ s ev, add_event ev s) (fo_session o) f) e)))) = ss_adapter (fo_session o))
    as Hf.
  { intros f. destruct (add_events_fields f (fo_session o)) as (Ha & Hl & _).
    unfold en_local, after_poison. case_match; simpl; by rewrite Ha, Hl. }
  destruct (Hf (omap (λ ie, ReplicaError ie.1 <$> ie.2) (imap pair (fo_replicaErrors o)))) as [El Ea].
  unfold same_queue. rewrite El, Ea. clear Hf El Ea. unfold en_local.
  destruct (flushPrimary_spec (h_env host) cfg es (en_replicas e) (en_session e))
    as [(Hno & _ & Hl)|(l & r & a & evs & Hrec & Hfl & Hok & Ha & Hl)]; fold o in Hl.
  - fold o in Hno. by rewrite Hl, Hno.
  - fold o in Hok, Ha. rewrite Hl, Ha, Hok.
    apply record_spec in Hrec as [(_ & _ & _ & _ & Ho & Hp & _)|[? _]]; [|done].
    split; [by rewrite Ho, Hp|]. intros Hr c Hc.
    destruct (flushToAdapter_published _ _ _ _ _ _ _ _ _ Him Hfl Hr c Hc) as (d & Hd & Hfile).
    by exists (codecState cfg (en_session e)), d.
Qed.

Lemma still_accounted root c e e' : still e e' → accounted root c e → accounted root c e'.
Proof. intros (El & Ea & _). unfold accounted. by rewrite El, Ea. Qed.
Lemma queue_accounted root c e e' : same_queue e e' → c ∈ queue_of (en_local e) → accounted root c e'.
Proof. intros [Eo Ep] Hc. left. unfold queue_of. by rewrite Eo, Ep. Qed.

(** Steps that may empty the outbox but touch neither the mailbox nor the pending batch. *)
Definition settles (e e' : Engine A) : Prop :=
  ss_adapter (en_session e') = ss_adapter (en_session e) ∧
  ls_pendingBatch (en_local e') = ls_pendingBatch (en_local e).
#[global] Instance settles_preorder : PreOrder settles.
Proof. split; [done|]. intros e1 e2 e3 [??] [??]. split; congruence. Qed.
Lemma settles_calm {B} (m : M (Engine A) B) : calm m → keeps settles m.
Proof.
  intros Hm e r e' E. destruct (Hm e) as (b & e1 & E1 & El & Ea & _). rewrite E in E1.
  injection E1 as _ <-. split; [done|by rewrite El].
Qed.
Lemma settles_store (f : MemoryLocalStore → MemoryLocalStore) : (∀ l, ls_pendingBatch (f l) = ls_pendingBatch l) →
  keeps settles (store (modify f) : M (Engine A) ()).
Proof.
  intros Hf e r e'. unfold store, sess, loc. cbn. rewrite poison_same by done. intros [= _ <-].
  split; [done|]. apply Hf.
Qed.
Lemma ack_pending ids l : ls_pendingBatch (acknowledgeOutbox ids l) = ls_pendingBatch l.
Proof. by destruct ids. Qed.

(** Publishing the outbox: whatever fails, a change is queued or on the remote. *)
Lemma publish_accounts host cfg ec (e e' : Engine A) r c :
  immutable (cf_remotePath cfg) (ls_outbox (en_local e)) → c ∈ queue_of (en_local e) →
  publish_entries host cfg ec (ls_outbox (en_local e)) e = (r, e') → accounted (cf_remotePath cfg) c e'.
Proof.
  intros Him Hc. unfold publish_entries, requireRemotePath.
  destruct (truthy (cf_remotePath cfg)); [|intros [= _ <-]; by left].
  unfold mbind at 1, M_bind at 1. cbn [mret M_ret].
  unfold mbind at 1, M_bind at 1.
  destruct (run_flushPrimary host cfg (ls_outbox (en_local e)) e) as [r0 e1] eqn:E.
  destruct (run_flush_spec _ _ _ _ _ _ Him E) as [Hq Hpub].
  destruct r0 as [u|err]; [|intros [= _ <-]; by eapply queue_accounted].
  intros Hrun. assert (settles e1 e') as [Ea Ep].
  { revert Hrun. match goal with |- ?m e1 = _ → _ => assert (keeps settles m) as Hm; [|by intros ?%Hm] end.
    unfold markSuccessfulRemoteSync.
    keeps_walk ltac:(first [ apply settles_store; intros; done
      | apply settles_store; intros; apply ack_pending
      | apply settles_calm; first [apply calm_retention | apply calm_announce | apply calm_idle] ]). }
  unfold queue_of in Hc. apply elem_of_app in Hc as [Hc|Hc].
  - right; left. rewrite Ea. by apply Hpub.
  - left. unfold queue_of. rewrite Ep. destruct Hq as [_ ->]. apply elem_of_app. by right.
Qed.

Lemma catch_accounts {B} root c (m : M (Engine A) B) h (e e' : Engine A) r :
  (∀ r0 e0, m e = (r0, e0) → accounted root c e0) →
  (∀ err, keeps still (h err)) →
  catch m h e = (r, e') → accounted root c e'.
Proof.
  intros Hm Hh. unfold catch. destruct (m e) as [[b|err] e0] eqn:E.
  - intros [= _ <-]. by eapply Hm.
  - intros E'. eapply still_accounted; [by eapply Hh|]. by eapply Hm.
Qed.
Lemma still_calm {B} (m : M (Engine A) B) : calm m → keeps still m.
Proof.
  intros Hm e r e' E. destruct (Hm e) as (b & e1 & E1 & Hs). rewrite E in E1. by injection E1 as _ <-.
Qed.

Lemma attempt_accounts host cfg ec n (e e' : Engine A) r c :
  immutable (cf_remotePath cfg) (ls_outbox (en_local e)) → c ∈ queue_of (en_local e) →
  flush_attempt host cfg ec (ls_outbox (en_local e)) n e = (r, e') →
  accounted (cf_remotePath cfg) c e'.
Proof.
  intros Him Hc Hrun. unfold flush_attempt in Hrun. set (q0 := ls_outbox (en_local e)) in *.
  apply calm_then in Hrun as (? & e3 & [El3 _] & Hrun); [|apply calm_announce].
  apply calm_then in Hrun as (? & e4 & [El4 _] & Hrun); [|apply calm_gets].
  apply calm_then in Hrun as (? & e5 & [El5 _] & Hrun); [|apply calm_when, calm_status].
  apply calm_then in Hrun as (? & e6 & [El6 _] & Hrun); [|by apply calm_modify].
  apply calm_then in Hrun as (? & e7 & [El7 _] & Hrun); [|apply calm_reset].
  apply calm_then in Hrun as (? & e8 & [El8 _] & Hrun); [|by apply calm_modify].
  assert (en_local e8 = en_local e) as El by congruence. unfold q0 in *. rewrite <- El in *.
  refine (catch_accounts _ _ _ _ _ _ _ _ _ Hrun).
  - intros r0 e0. unfold mbind at 1, M_bind at 1.
    destruct (publish_entries _ _ _ _ e8) as [rp ep] eqn:Ep.
    apply publish_accounts with (c := c) in Ep; [|done|done]. destruct rp; by intros [= _ <-].
  - intros err. apply (keeps_bind still); [apply still_calm, calm_access|intros _].
    apply (keeps_bind still); [apply still_calm, calm_idle|intros _].
    apply (keeps_bind still); [apply still_calm; by apply calm_modify|intros _].
    apply (keeps_bind still); [apply still_calm, calm_warning|intros _]. apply keeps_throw. apply _.
Qed.

Lemma calm_skip : calm (clearScheduledFlush;; mret 0 : M (Engine A) nat).
Proof. calm_walk. Qed.
Lemma calm_nothing : calm (set_write (with_pendingCount 0);; resetCompactWarning;; mret 0 : M (Engine A) nat).
Proof. calm_walk. Qed.
Lemma calm_accounts {B} root c (m : M (Engine A) B) (e e' : Engine A) r :
  c ∈ queue_of (en_local e) → calm m → m e = (r, e') → accounted root c e'.
Proof. intros Hc Hm E%(still_calm m Hm). eapply still_accounted; [done|by left]. Qed.
End queue.

(** ** Properties *)

(** C9: A write that came too late is withheld, not uploaded and not lost, and no other write is.  The
    device is overdue when it has recorded a last sync and that record is no date, or lies further back
    than the mesh's offline limit.  A pass of an overdue device says so, leaves the mailbox exactly
    as it was, empties the outbox and the pending batch, and keeps every change
    they held in the quarantine, together with those withheld earlier; a pass of any other device
    changes nothing at all.  (The mesh's policy is a valid one, and change ids are distinct in the queue and
    among the withheld.) *)
Theorem quarantine_withholds_every_write `{Platform} {A : Type} `{!StorageAdapter A} `{!DateText}
    (host : Host) (cfg : Config) (ec : EngineConfig) (policy : RetentionPolicy) (e e' : Engine A) (r : result bool) :
  quarantineExpiredOfflineWrites host cfg ec e = (r, e') →
  activeRetentionPolicy cfg e = Ok policy →
  NoDup (ce_id <$> queue_of (en_local e)) → NoDup (id_of <$> withheld (en_local e)) →
  let late := overdue (env_wall (h_env host)) (maxOfflineDurationMs policy)
                (store_getMeta LAST_SUCCESSFUL_SYNC_AT_META (en_local e)) in
  (¬ late → r = Ok false ∧ e' = e) ∧
  (late → r = Ok true ∧
     ss_adapter (en_session e') = ss_adapter (en_session e) ∧
     queue_of (en_local e') = [] ∧
     (∀ c, c ∈ queue_of (en_local e) → change_value c ∈ withheld (en_local e')) ∧
     (∀ v, v ∈ withheld (en_local e) → id_of v ∉ ce_id <$> queue_of (en_local e) →
        v ∈ withheld (en_local e'))).
Proof.
  intros E Hpol Hq Hw late. pose proof (offline_overdue host policy (store_getMeta LAST_SUCCESSFUL_SYNC_AT_META (en_local e))) as Hover.
  fold late in Hover. split.
  - intros Hnot. revert E. unfold quarantineExpiredOfflineWrites. rewrite gets_bind, lift_bind. cbn [id]. rewrite Hpol.
    destruct (offlineRetentionState _ _ _) as [last|]; [|by intros [= <- <-]]. destruct Hnot. by apply Hover.
  - intros Hlate%Hover. apply quarantine_spec in E as [[Hr _]|(last & policy' & -> & Ea & Eo & Ep & Em)].
    + destruct (Hr policy Hpol Hlate).
    + split; [done|]. split; [done|]. split; [unfold queue_of; by rewrite Eo, Ep|].
      unfold withheld at 1 3. rewrite Em. cbn. split.
      * intros c Hc. by apply merge_has_queued.
      * intros v Hv Hid. by apply merge_has_withheld.
Qed.

(** C8: A flush never loses a change.  However it ends, over an adapter whose calls may
    fail at any point, every change that was in the outbox or the pending batch
    is still there, or its file is on the remote, or it is in the quarantine. *)
Theorem flush_never_loses_a_change `{Platform} {A : Type} `{!StorageAdapter A} `{!DateText}
    (host : Host) (cfg : Config) (ec : EngineConfig) (e e' : Engine A) (r : result nat)
    (c : ChangeEntry) :
  doFlush host cfg ec e = (r, e') →
  NoDup (ce_id <$> queue_of (en_local e)) →
  immutable (cf_remotePath cfg) (ls_outbox (en_local e)) →
  c ∈ queue_of (en_local e) → accounted (cf_remotePath cfg) c e'.
Proof.
  intros E Hnd Him Hc. revert E. unfold doFlush. rewrite gets_bind. cbn [id].
  destruct (negb (en_adapter e)); [apply calm_accounts; [done|]; apply calm_skip|].
  destruct (bool_decide (is_Some (en_access e))); [apply calm_accounts; [done|]; apply calm_skip|].
  rewrite store_gets_bind. unfold peekOutbox. destruct (ls_outbox (en_local e)) as [|c0 q] eqn:Eo.
  { apply calm_accounts; [done|]. apply calm_nothing. }
  rewrite <- Eo in *. unfold mbind at 1, M_bind at 1.
  destruct (load_manifest host cfg "flush-retention" true true e) as [r1 e1] eqn:E1.
  apply queue_manifest in E1 as [Eo1 Ep1].
  assert (queue_of (en_local e1) = queue_of (en_local e)) as Eq by (unfold queue_of; by rewrite Eo1, Ep1).
  rewrite <- Eq in Hc, Hnd. rewrite <- Eo1 in *.
  destruct r1 as [u|err]; [|intros [= _ <-]; by left]. unfold mbind at 1, M_bind at 1.
  destruct (quarantineExpiredOfflineWrites host cfg ec e1) as [r2 e2] eqn:E2.
  destruct (quarantine_spec _ _ _ _ _ _ E2) as [(_ & Hr & Hst & _)|(last & policy & -> & _ & _ & _ & Em)].
  2:{ intros [= _ <-]. right; right. unfold withheld. rewrite Em. cbn. by apply merge_has_queued. }
  rewrite <- Hst in *. destruct r2 as [[]|err]; [done| |intros [= _ <-]; by left].
  by apply attempt_accounts.
Qed.

(** ** Witnesses *)
#[local] Instance test_dates : DateText :=
  {| dateParse s := if String.eqb s "1970-01-01T00:00:00.000Z" then Num 0 else NaN |}.
Definition test_host : Host := mkHost test_env (λ n, n - 1)%Z.
Definition test_engine_config : EngineConfig :=
  mkEngineConfig 1000 50 100 200 true 10 10 1000 0 1000 0 2 false no_upsert_options.
(** An engine with the given adapter and store, connected and idle. *)
Definition test_engine {A} (a : A) (l : MemoryLocalStore) : Engine A :=
  mkEngine (connected_session a l "dev1") true [] Idle None false
    (mkWrite false 0 false 0 false false false) (mkObservers {[1]} None [] [])
    (mkCompactState 0 None None None idle_runtime) (mkPoll 30000 30000 true false false) false.
(** A store with one queued change, last synchronised in 1970. *)
Definition late_store : MemoryLocalStore :=
  pushOutbox first_change
    (store_setMeta LAST_SUCCESSFUL_SYNC_AT_META (VStr "1970-01-01T00:00:00.000Z") emptyStore).
Definition late_engine : Engine (@MemoryAdapter test_platform) :=
  test_engine (@emptyAdapter test_platform "now") late_store.
Definition late_pass :=
  quarantineExpiredOfflineWrites test_host (test_config "dev1") test_engine_config late_engine.
#[local] Strategy expand [late_pass].

Lemma late_pass_quarantines : late_pass = (Ok true, late_pass.2).
Proof.
  assert (late_pass.1 = Ok true) as H by by vm_compute.
  exact (eq_trans (surjective_pairing late_pass) (f_equal (λ r, (r, late_pass.2)) H)).
Qed.
Lemma late_queue : queue_of (en_local late_engine) = [first_change].
Proof. reflexivity. Qed.
Lemma late_unique : NoDup (ce_id <$> queue_of (en_local late_engine)).
Proof. rewrite late_queue. apply NoDup_singleton. Qed.
Lemma late_withheld : NoDup (id_of <$> withheld (en_local late_engine)).
Proof. assert (withheld (en_local late_engine) = []) as -> by reflexivity. constructor. Qed.

Lemma quarantine_withholds_every_write_witness :
  queue_of (en_local late_pass.2) = [] ∧
  change_value first_change ∈ withheld (en_local late_pass.2).
Proof.
  destruct (activeRetentionPolicy (test_config "dev1") late_engine) as [policy|err] eqn:Epol; [|discriminate Epol].
  destruct (quarantine_withholds_every_write test_host
    (test_config "dev1") test_engine_config policy late_engine late_pass.2 (Ok true) late_pass_quarantines Epol
    late_unique late_withheld) as [_ Hlate].
  assert (overdue (env_wall (h_env test_host)) (maxOfflineDurationMs policy)
    (store_getMeta LAST_SUCCESSFUL_SYNC_AT_META (en_local late_engine))) as Hover.
  { apply offline_overdue.
    assert (match activeRetentionPolicy (test_config "dev1") late_engine with
            | Ok p => bool_decide (is_Some (offlineRetentionState test_host p
                        (store_getMeta LAST_SUCCESSFUL_SYNC_AT_META (en_local late_engine))))
            | Throw _ => false
            end = true) as Hs by (vm_compute; reflexivity).
    rewrite Epol in Hs. exact (bool_decide_eq_true_1 _ Hs). }
  destruct (Hlate Hover) as (_ & _ & Hq & Hw & _).
  split; [exact Hq|]. apply Hw. rewrite late_queue. left.
Defined.

(** A mailbox whose first two reads fail, and a change queued in time. *)
Definition flaky_engine : Engine (@MemoryAdapter test_platform * nat) :=
  test_engine (@emptyAdapter test_platform "now", 2) (pushOutbox first_change emptyStore).
Definition flaky_flush := @doFlush test_platform _ _ _ test_host (test_config "dev1")
  test_engine_config flaky_engine.
#[local] Strategy expand [flaky_flush].

Lemma flaky_queue : queue_of (en_local flaky_engine) = [first_change].
Proof. reflexivity. Qed.
Lemma flaky_unique : NoDup (ce_id <$> queue_of (en_local flaky_engine)).
Proof. rewrite flaky_queue. apply NoDup_singleton. Qed.
Lemma flaky_immutable : immutable "/mesh" (ls_outbox (en_local flaky_engine)).
Proof. intros e1 e2 H1 H2 _. apply list_elem_of_singleton in H1, H2. by rewrite H1, H2. Qed.

Lemma flaky_queued : first_change ∈ queue_of (en_local flaky_engine).
Proof. rewrite flaky_queue. left. Qed.

Lemma flush_never_loses_a_change_witness :
  @accounted test_platform _ flaky_storage "/mesh" first_change flaky_flush.2.
Proof.
  exact (@flush_never_loses_a_change test_platform _ flaky_storage _ test_host (test_config "dev1")
    test_engine_config flaky_engine flaky_flush.2 flaky_flush.1 first_change
    (surjective_pairing _) flaky_unique flaky_immutable flaky_queued).
Defined.
