(* ===== verification/Batch.v ===== *)
(** * Batches ([batch], [putNow] and [flushPendingBatch] of
    [packages/core/src/core/sync-engine.ts])

    Writes made inside a batch accumulate in one pending change, which the end of
    the outermost batch moves to the outbox, however the batch ends. *)

From S2P Require Import Prelude JsString Hlc Values JsMap LocalStore Wire Crdt.
From S2P Require Import Observation Adapter Codec Session MergeStore Manifest Flush Pull Compaction.
From S2P Require Import ChangeEffects LocalWrites Promises Engine Queue.
From Stdlib Require String.

Open Scope stdpp_scope.

(** A write of an application: table, row and columns. *)
Record put_call := mkPut { pc_table : string; pc_rowId : string; pc_columns : list (string * jsval) }.
Definition pc_ref (w : put_call) : string * string := (pc_table w, pc_rowId w).

(** ** A row with a stamped column has an operation *)
Lemma stamped_row_op row k e : rm_deleted (_meta row) = false → payload row !! k = Some e →
  truthy (hlc e) = true →
  truthy (getRowHlc row) = true ∧
  ∃ cols, rowToSyncOp row = Some (UpsertOp (rm_table (_meta row)) (rm_rowId (_meta row)) cols).
Proof.
  intros Hd Hk Ht. apply elem_of_map_to_list in Hk as Hin. split.
  - unfold getRowHlc. rewrite latest_truthy. apply orb_true_iff. right. apply existsb_exists.
    exists e. split; [|done]. apply list_elem_of_In, list_elem_of_fmap. by exists (k, e).
  - unfold rowToSyncOp. rewrite Hd.
    destruct (filter _ (map_to_list (payload row))) as [|kv l] eqn:E; [|by eexists].
    assert ((k, e) ∈ filter (λ kv : string * ColumnEntry, truthy (hlc kv.2) = true)
              (map_to_list (payload row))) as H by by apply list_elem_of_filter.
    rewrite E in H. by apply not_elem_of_nil in H.
Qed.

Section batch.
Context `{Platform} {A : Type} `{HA : !StorageAdapter A} `{!DateText}.
Context (host : Host) (cfg : Config) (ec : EngineConfig).

Definition put_all (ws : list put_call) : M (Engine A) () :=
  for_each (λ w, _ ← putNow host cfg ec (pc_table w) (pc_rowId w) (pc_columns w); mret ()) ws.

(** Inside a batch, a mutation only reaches the pending change. *)
Definition batching (e e' : Engine A) : Prop :=
  w_batchDepth (en_write e') = w_batchDepth (en_write e) ∧
  ss_adapter (en_session e') = ss_adapter (en_session e).
Definition appended (ops : list Op) (l l' : MemoryLocalStore) : Prop :=
  ls_outbox l' = ls_outbox l ∧
  match ls_pendingBatch l' with
  | Some p => ce_ops p = from_option ce_ops [] (ls_pendingBatch l) ++ ops
  | None => ls_pendingBatch l = None ∧ ops = []
  end.

Lemma commit_appended row c l : appended (ce_ops c) l (commitLocalMutation row c l).
Proof.
  unfold appended, commitLocalMutation. simpl. split; [done|].
  destruct (ls_pendingBatch l) as [p|]; [|done]. by destruct (str_ltb _ _).
Qed.
Lemma appended_trans ops1 ops2 l1 l2 l3 :
  appended ops1 l1 l2 → appended ops2 l2 l3 → appended (ops1 ++ ops2) l1 l3.
Proof.
  intros [Ho1 Hp1] [Ho2 Hp2]. split; [congruence|]. destruct (ls_pendingBatch l3) as [p|].
  - rewrite Hp2. destruct (ls_pendingBatch l2) as [q|]; simpl; [by rewrite Hp1, app_assoc|].
    destruct Hp1 as [-> ->]. done.
  - destruct Hp2 as [E2 ->]. rewrite E2 in Hp1. destruct Hp1 as [-> ->]. done.
Qed.

Lemma calm_capture : calm (shouldCaptureLocalObservation : M (Engine A) bool).
Proof. intros e. unfold shouldCaptureLocalObservation. eexists _, _. split; [done|]. by case_match. Qed.
Lemma tick_spec (e : Engine A) : ∃ h e1, tick host e = (Ok (hlcSerialize h), e1) ∧ still e e1.
Proof. eexists _, _. split; [done|]. etransitivity; [|apply still_poison]. done. Qed.

(** The row of a write with columns, and the operation it makes. *)
Lemma put_makes_op sv stamp t r columns current :
  columns ≠ [] → truthy stamp = true →
  (∀ cur, current = Some cur → rm_table (_meta cur) = t ∧ rm_rowId (_meta cur) = r) →
  let row := put_row (cf_deviceId cfg) stamp columns (put_base t r sv current) in
  rm_table (_meta row) = t ∧ rm_rowId (_meta row) = r ∧ truthy (getRowHlc row) = true ∧
  ∃ cols, rowToSyncOp row = Some (UpsertOp t r cols).
Proof.
  intros Hc Ht Hcur row. assert (rm_table (_meta row) = t ∧ rm_rowId (_meta row) = r) as [Et Er].
  { unfold row. destruct current as [cur|]; simpl; [by apply Hcur|done]. }
  destruct (put_columns_stamped stamp columns (payload (put_base t r sv current)) Hc) as (k & e & Hk & He).
  destruct (stamped_row_op row k e) as (Htr & cols & Hop); [done|done|by rewrite He|].
  rewrite Et, Er in Hop. eauto 6.
Qed.

Lemma commit_batched row op h capture before (e : Engine A) :
  isBatching e = true →
  ∃ u e' c, commit_mutation host cfg ec row op h capture before e = (Ok u, e') ∧ batching e e' ∧
    ce_ops c = [op] ∧ en_local e' = commitLocalMutation row c (en_local e).
Proof.
  intros Hb. unfold commit_mutation. rewrite store_modify_bind.
  destruct (calm_run (set_write (with_pendingBatch true)) (at_store (commitLocalMutation row
    (mkChange (env_newId (h_env host) "chg") (env_wall (h_env host)) (cf_deviceId cfg) None h [op])
    (en_local e)) e)) as (u1 & e1 & (El1 & Ea1 & Ed1) & ->); [by apply calm_modify|].
  destruct (calm_run (when capture (recordPendingEffect row before)) e1)
    as (u2 & e2 & (El2 & Ea2 & Ed2) & ->); [apply calm_when; by apply calm_modify|].
  rewrite gets_bind. cbn [id]. assert (isBatching e2 = true) as ->.
  { unfold isBatching in *. rewrite Ed2, Ed1. done. }
  eexists _, _, _. split; [done|]. split; [|split; [|by rewrite El2, El1]].
  - split; [by rewrite Ed2, Ed1|by rewrite Ea2, Ea1].
  - done.
Qed.

Lemma put_batched w (e : Engine A) :
  isBatching e = true → pc_columns w ≠ [] → store_ok (en_local e) → no_slash (pc_table w) = true →
  ∃ row e' op, putNow host cfg ec (pc_table w) (pc_rowId w) (pc_columns w) e = (Ok row, e') ∧
    batching e e' ∧ store_ok (en_local e') ∧ op_ref op = pc_ref w ∧
    appended [op] (en_local e) (en_local e').
Proof.
  destruct w as [t r columns]. cbn [pc_table pc_rowId pc_columns]. intros Hb Hc Hok Hs. unfold putNow.
  destruct (calm_run (refreshHlcFromLocal cfg) e) as (u1 & e1 & (El1 & Ea1 & Ed1) & ->);
    [by apply calm_sess|]. rewrite store_gets_bind. cbv beta. rewrite El1.
  set (current := store_getRow (en_local e) t r).
  destruct (calm_run shouldCaptureLocalObservation e1) as (capture & e2 & (El2 & Ea2 & Ed2) & ->);
    [apply calm_capture|].
  destruct (tick_spec e2) as (h & e3 & E3 & (El3 & Ea3 & Ed3)). rewrite (bind_ok _ _ _ _ _ E3).
  set (sv := default 0%Z _).
  destruct (put_makes_op sv (hlcSerialize h) t r columns current) as (Et & Er & Htr & cols & Hop);
    [done|apply serialize_truthy| |].
  { intros cur Hcur. by apply (getRow_own _ _ _ _ Hok Hs Hcur). }
  set (row := put_row _ _ _ _) in *. unfold commit_or_store. rewrite Hop, opt_truthy_Some by done.
  destruct (commit_batched row (UpsertOp t r cols) (getRowHlc row) capture
    (if capture then current else None) e3) as (u4 & e4 & c & E4 & [Ed4 Ea4] & Hcops & El4).
  { unfold isBatching in *. by rewrite Ed3, Ed2, Ed1. }
  rewrite (bind_ok _ _ _ _ _ E4).
  match goal with |- ∃ row0 e' op, ?m e4 = _ ∧ _ =>
    assert (calm_to row m) as Hend end.
  { apply calm_to_bind; [by apply calm_sess|intros ?]. apply calm_to_bind; [apply calm_announce|intros ?].
    apply calm_to_ret. }
  destruct (Hend e4) as (e5 & E5 & (El5 & Ea5 & Ed5)). exists row, e5, (UpsertOp t r cols).
  split; [exact E5|]. rewrite El5, El4, El3, El2, El1. split; [split; congruence|].
  split; [by apply commit_ok; [rewrite Et|]|]. split; [done|]. rewrite <- Hcops. apply commit_appended.
Qed.

Lemma put_all_batched ws (e : Engine A) :
  isBatching e = true → store_ok (en_local e) →
  Forall (λ w, pc_columns w ≠ [] ∧ no_slash (pc_table w) = true) ws →
  ∃ u e' ops, put_all ws e = (Ok u, e') ∧ batching e e' ∧ op_ref <$> ops = pc_ref <$> ws ∧
    appended ops (en_local e) (en_local e').
Proof.
  intros Hb Hok Hws. revert e Hb Hok. induction Hws as [|w ws [Hc Hs] Hws IH]; intros e Hb Hok.
  { exists (), e, []. split_and!; try done. split; [done|]. destruct (ls_pendingBatch (en_local e)); simpl; [|done].
    by rewrite app_nil_r. }
  destruct (put_batched w e Hb Hc Hok Hs) as (row & e1 & op & E1 & [Ed1 Ea1] & Hok1 & Hr1 & Ha1).
  destruct (IH e1) as (u & e2 & ops & E2 & [Ed2 Ea2] & Hr2 & Ha2);
    [unfold isBatching in *; by rewrite Ed1|done|].
  exists u, e2, (op :: ops). split.
  { unfold put_all. cbn [for_each]. unfold mbind at 1, M_bind at 1. by rewrite (bind_ok _ _ _ _ _ E1). }
  split; [split; congruence|]. split; [by rewrite !fmap_cons, Hr1, Hr2|].
  exact (appended_trans [op] ops _ _ _ Ha1 Ha2).
Qed.
End batch.

(** ** Properties *)

(** A batch becomes one change, even when it fails.  The writes of an outermost
    batch leave the outbox with exactly one more entry, which holds one operation
    per write, in order; nothing stays pending, nothing is uploaded; and when the
    callback throws after its writes, the error comes back but the entry is queued all the same. *)
Theorem batch_is_one_change `{Platform} {A : Type} `{!StorageAdapter A} `{!DateText}
    (host : Host) (cfg : Config) (ec : EngineConfig) (ws : list put_call) (outcome : result ())
    (e : Engine A) :
  w_batchDepth (en_write e) = 0 → ls_pendingBatch (en_local e) = None → store_ok (en_local e) →
  ws ≠ [] → Forall (λ w, pc_columns w ≠ [] ∧ no_slash (pc_table w) = true) ws →
  ∃ e' entry, batch host cfg ec (put_all host cfg ec ws;; lift outcome) e = (outcome, e') ∧
    ls_outbox (en_local e') = ls_outbox (en_local e) ++ [entry] ∧
    op_ref <$> ce_ops entry = pc_ref <$> ws ∧
    ls_pendingBatch (en_local e') = None ∧ w_batchDepth (en_write e') = 0 ∧
    filesOf (ss_adapter (en_session e')) = filesOf (ss_adapter (en_session e)).
Proof.
  intros Hd Hp Hok Hne Hws. unfold batch.
  set (e1 := with_write (with_batchDepth (S (w_batchDepth (en_write e))) (en_write e)) e).
  destruct (put_all_batched host cfg ec ws e1) as (u & e2 & ops & E2 & [Ed2 Ea2] & Hr & Ho & Hpend);
    [done|done|done|].
  set (e3 := with_write (with_batchDepth (w_batchDepth (en_write e2) - 1) (en_write e2)) e2).
  destruct (flushPendingBatch_spec host cfg ec e3) as ([] & e4 & E4 & El4 & Ea4 & Ed4).
  assert (w_batchDepth (en_write e3) = 0) as Hd3 by (simpl; rewrite Ed2; simpl; lia).
  assert (∃ entry, ls_pendingBatch (en_local e2) = Some entry ∧ ce_ops entry = ops) as (entry & Ep & Eops).
  { change (en_local e1) with (en_local e) in Hpend. rewrite Hp in Hpend.
    destruct (ls_pendingBatch (en_local e2)) as [p|]; [by exists p|]. destruct Hpend as [_ ->].
    by destruct ws. }
  exists e4, entry. rewrite Eops, El4. split; [|split; [|split; [done|]]].
  - unfold mbind at 1, M_bind at 1. change (set_write _ e) with (Ok () : result (), e1). cbv beta iota.
    set (leave := set_write _ ≫= _). assert (leave e2 = (Ok (), e4)) as Hleave.
    { unfold leave, mbind at 1, M_bind at 1. change (set_write _ e2) with (Ok () : result (), e3).
      cbv beta iota. rewrite gets_bind. unfold id. rewrite Hd3. exact E4. }
    unfold mbind at 1, M_bind at 1, catch. rewrite (bind_ok _ _ _ _ _ E2). unfold lift.
    destruct outcome as [[]|err]; cbv beta iota; by rewrite (bind_ok _ _ _ _ _ Hleave).
  - change (ls_outbox (en_local e)) with (ls_outbox (en_local e1)). rewrite <- Ho.
    change (en_local e3) with (en_local e2). unfold promotePendingBatch. by rewrite Ep.
  - split; [apply promoted_pending|]. split; [by rewrite Ed4|]. rewrite Ea4.
    change (filesOf (ss_adapter (en_session e2)) = filesOf (ss_adapter (en_session e1))). by rewrite Ea2.
Qed.

Definition two_puts : list put_call :=
  [mkPut "todo" "r1" [("title", VStr "milk")]; mkPut "todo" "r2" [("title", VStr "bread")]].
Definition fresh_engine : Engine (@MemoryAdapter test_platform) :=
  test_engine (@emptyAdapter test_platform "now") emptyStore.
#[local] Strategy expand [fresh_engine].

Lemma batch_is_one_change_witness :
  ∃ e' entry,
    batch (R:=()) test_host (test_config "dev1") test_engine_config
      (put_all test_host (test_config "dev1") test_engine_config two_puts;; lift (Throw (JsError "oops")))
      fresh_engine = (Throw (JsError "oops"), e') ∧
    ls_outbox (en_local e') = [entry] ∧ op_ref <$> ce_ops entry = [("todo", "r1"); ("todo", "r2")].
Proof.
  destruct (@batch_is_one_change test_platform _ memory_storage test_dates test_host (test_config "dev1")
    test_engine_config two_puts (Throw (JsError "oops")) fresh_engine eq_refl eq_refl)
    as (e' & entry & E & Ho & Hr & _).
  - split; constructor.
  - discriminate.
  - repeat constructor; discriminate.
  - exists e', entry. split; [exact E|]. split; [exact Ho|exact Hr].
Defined.
