(* ===== verification/AutoCompact.v ===== *)
(** * Background compaction
    ([maybeAutoCompact], [runDelayedCompactCheck], [runDelayedCompact],
     [scheduleRetentionCompactionCheck] and [runRetentionCompactionCheck] of
     [packages/core/src/core/sync-engine.ts])

    Three schedules decide when an engine compacts by itself: at once after a large flush,
    after a quiet period, and when the oldest change file reaches the retention
    age.  Each decision is a step of the engine; a step that starts a
    compaction returns the promise it then waits for. *)

From S2P Require Import Prelude JsString Hlc Values JsMap LocalStore Wire Crdt.
From S2P Require Import Observation Adapter Codec Session MergeStore Manifest Flush Pull Compaction.
From S2P Require Import ChangeEffects LocalWrites Promises Engine Queue.
From Stdlib Require Import Ascii.
From Stdlib Require String.

Open Scope stdpp_scope.

Section auto_compact.
Context `{Platform} {A : Type} `{HA : !StorageAdapter A} `{!DateText}.

(** A step of the promises, in the engine. *)
Definition runtime_step {B} (f : Runtime → B * Runtime) : M (Engine A) B := λ e,
  let c := en_compact e in
  let '(b, rt) := f (c_runtime c) in
  (Ok b, with_compact (mkCompactState (c_version c) (c_checkTimer c) (c_runTimer c)
                         (c_retentionDueAt c) rt) e).
Definition in_flight (e : Engine A) : bool :=
  bool_decide (is_Some (rt_inFlight (c_runtime (en_compact e)))).
Definition poisoned (e : Engine A) : bool := bool_decide (is_Some (ss_poison (en_session e))).

(** ** At once, after a flush *)
Definition sampleWindow (ec : EngineConfig) : Z :=
  Z.max 1 (ec_compactAutoDeviceCount ec / Z.max 1 (ec_compactAutoSampleNumerator ec)).

(** The first reason not to compact, in the order of the code. *)
Definition auto_skip_reason (cfg : Config) (ec : EngineConfig) (sampleRoll : Z) (e : Engine A)
    : option string :=
  if negb (ec_autoCompact ec) then Some "disabled"
  else if negb (en_adapter e) || negb (truthy (cf_remotePath cfg)) then Some "missing-remote"
  else if negb (en_connected e) then Some "not-connected"
  else if negb (managed e) then Some "peer-mode"
  else if poisoned e then Some "poisoned"
  else if in_flight e then Some "already-running"
  else if negb (sampleRoll =? 0)%Z then Some "sampling"
  else None.

(** The promise it waits for, when it starts a compaction. *)
Definition maybeAutoCompact (host : Host) (cfg : Config) (ec : EngineConfig)
    (triggerQueuedChangeCount : nat) : M (Engine A) (option nat) :=
  if triggerQueuedChangeCount <? ec_compactAutoThreshold ec then mret None
  else
    let sampleRoll := h_roll host (sampleWindow ec) in
    e ← gets id;
    match auto_skip_reason cfg ec sampleRoll e with
    | Some reason =>
        announce (CompactAutoSkip triggerQueuedChangeCount "immediate" reason);; mret None
    | None =>
        announce (CompactAutoStart triggerQueuedChangeCount "immediate");;
        run ← runtime_step start_immediate;
        mret (Some run)
    end.

(** [flushQueued]: what the caller of [flush()] waits for besides the flush. *)
Definition flushQueued (host : Host) (cfg : Config) (ec : EngineConfig) (includePendingBatch : bool)
    : M (Engine A) (option nat) :=
  when includePendingBatch (flushPendingBatch host cfg ec);;
  triggerQueuedChangeCount ← doFlush host cfg ec;
  maybeAutoCompact host cfg ec triggerQueuedChangeCount.

(** ** After a quiet period *)

(** The name test [/-chg_[^/]+\.json$/] on the last segment of a path. *)
Fixpoint has_change_id (s : string) : bool :=
  match s with
  | EmptyString => false
  | String _ rest =>
      (startsWith s "-chg_" &&
         let tail := str_drop 5 s in
         endsWith tail ".json" && (5 <? String.length tail) &&
         str_forall (λ c, negb (Ascii.eqb c "/")) (str_take (String.length tail - 5) tail))
      || has_change_id rest
  end.
(** [/\/changes\/[^/]+-chg_[^/]+\.json$/] on a path. *)
Definition is_change_path (path : string) : bool :=
  let slash := lastIndexOf path "/" in
  let name := slice_from path (slash + 1) in
  endsWith (str_take (Z.to_nat slash) path) "/changes" && has_change_id (str_drop 1 name).

Definition with_checkTimer t (c : CompactState) : CompactState :=
  mkCompactState (c_version c) t (c_runTimer c) (c_retentionDueAt c) (c_runtime c).
Definition with_runTimer t (c : CompactState) : CompactState :=
  mkCompactState (c_version c) (c_checkTimer c) t (c_retentionDueAt c) (c_runtime c).
Definition with_dueAt d (c : CompactState) : CompactState :=
  mkCompactState (c_version c) (c_checkTimer c) (c_runTimer c) d (c_runtime c).

(** The check timer armed at [version] fires. *)
Definition runDelayedCompactCheck (host : Host) (cfg : Config) (ec : EngineConfig) (version : Z)
    : M (Engine A) () :=
  set_compact (with_checkTimer None);;
  e ← gets id;
  if negb (version =? c_version (en_compact e))%Z || negb (ec_autoCompact ec) ||
     negb (en_connected e) || negb (en_adapter e) || negb (truthy (cf_remotePath cfg)) || poisoned e
  then mret ()
  else
    listed ← sess (remote (catch (listFiles (cf_remotePath cfg +:+ "/changes")) (λ _, mret [])));
    let count := length (List.filter (λ f, is_change_path (fe_path f)) listed) in
    let queued := w_pendingCount (en_write e) in
    announce (CompactDelayedCheck queued count);;
    if count <=? ec_compactRemoteChangeThreshold ec
    then announce (CompactAutoSkip queued "delayed" "below-remote-threshold")
    else
      let delayMs := jitterDelay host (ec_secondCompactDelayMs ec) (ec_secondCompactDelayJitterMs ec) in
      announce (CompactDelayedScheduled queued delayMs "compact");;
      set_compact (with_runTimer (Some version)).

Definition delayed_skip_reason (cfg : Config) (ec : EngineConfig) (version : Z) (e : Engine A)
    : option string :=
  if negb (version =? c_version (en_compact e))%Z then Some "superseded"
  else if negb (ec_autoCompact ec) || negb (en_connected e) || negb (en_adapter e) ||
          negb (truthy (cf_remotePath cfg))
  then Some (if en_connected e then if ec_autoCompact ec then "missing-remote" else "disabled"
             else "not-connected")
  else if poisoned e then Some "poisoned"
  else if in_flight e then Some "already-running"
  else None.

(** The run timer armed at [version] fires. *)
Definition runDelayedCompact (cfg : Config) (ec : EngineConfig) (version : Z)
    (queuedChangeCount : nat) : M (Engine A) (option nat) :=
  set_compact (with_runTimer None);;
  e ← gets id;
  match delayed_skip_reason cfg ec version e with
  | Some reason => announce (CompactAutoSkip queuedChangeCount "delayed" reason);; mret None
  | None =>
      announce (CompactAutoStart queuedChangeCount "delayed");;
      run ← runtime_step start_delayed;
      mret (Some run)
  end.

(** ** At the retention age *)

Definition minimum (o : option jsnum) (x : jsnum) : jsnum :=
  match o with Some y => num_min y x | None => x end.
(** The oldest change file; a file without a usable time counts as old as can be. *)
Definition oldest_change (files : list FileEntry) : option jsnum :=
  foldl (λ oldest f,
    if has_change_id (fe_name f)
    then let modifiedAt := dateParse (fe_modifiedTime f) in
         Some (minimum oldest (if num_finite modifiedAt then modifiedAt else Num 0))
    else oldest) None files.

(** Drop superseded snapshots under the sync lock; tells whether some could not be dropped. *)
Definition retention_cleanup (host : Host) (cfg : Config) : M (Engine A) bool :=
  load_manifest host cfg "snapshot-retention-check" true true;;
  e ← gets id;
  match opt_truthy (ss_manifest (en_session e) ≫= λ m, m_snapshotPath (m_payload m)) with
  | Some active =>
      cleanup ← sess (pruneSupersededSnapshots (cf_remotePath cfg) active);
      mret (bool_decide (is_Some (cl_error cleanup)) || negb (bool_decide (cl_failedPaths cleanup = [])))
  | None => mret false
  end.

(** What the check decides once the change files are listed: the delay to wait, or
    that the oldest change, of this time and age, is due. *)
Definition retention_decision (now compactAfterMs : Z) (needsRetry : bool) (oldest : option Z)
    : Z + Z * Z :=
  match oldest with
  | None => inl (if needsRetry then RETENTION_RETRY_DELAY_MS else compactAfterMs)
  | Some oldest =>
      let ageMs := Z.max 0 (now - oldest) in
      if (ageMs <? compactAfterMs)%Z then
        let delayMs := (compactAfterMs - ageMs)%Z in
        inl (if needsRetry then Z.min delayMs RETENTION_RETRY_DELAY_MS else delayMs)
      else inr (oldest, ageMs)
  end.

Definition policy_compactAfterMs (policy : RetentionPolicy) : Z :=
  match compactAfterMs policy with Num ms => ms | NaN => DEFAULT_COMPACT_AFTER_MS end.
Definition oldest_ms (o : option jsnum) : option Z :=
  match o with Some (Num z) => Some z | _ => None end.

(** Report a failure of a check and come back in an hour. *)
Definition retention_failed {B} (host : Host) (cfg : Config) (ec : EngineConfig)
    (oldest : option Z) (b : B) (err : error) : M (Engine A) B :=
  announce (CompactRetentionError oldest err);;
  scheduleRetentionCompactionCheck host cfg ec RETENTION_RETRY_DELAY_MS;;
  mret b.

(** The check.  When the oldest change is due and no compaction is in flight it calls
    [compact()] and returns the promise it waits for, with the change's time and age. *)
Definition runRetentionCompactionCheck (host : Host) (cfg : Config) (ec : EngineConfig)
    : M (Engine A) (option (nat * Z * Z)) :=
  e ← gets id;
  if cf_reader cfg || negb (en_connected e) || negb (en_adapter e) ||
     negb (truthy (cf_remotePath cfg)) || negb (managed e)
  then mret None
  else if poisoned e then
    scheduleRetentionCompactionCheck host cfg ec RETENTION_RETRY_DELAY_MS;; mret None
  else
    cleaned ← catch (b ← retention_cleanup host cfg; mret (Some b))
                (retention_failed host cfg ec None None);
    match cleaned with
    | None => mret None
    | Some needsRetry =>
        listed ← catch (l ← sess (remote (listFiles (changesFolder (cf_remotePath cfg)))); mret (Some l))
                   (retention_failed host cfg ec None None);
        match listed with
        | None => mret None
        | Some files =>
            e ← gets id;
            policy ← lift (activeRetentionPolicy cfg e);
            match retention_decision (env_wall (h_env host)) (policy_compactAfterMs policy) needsRetry
                    (oldest_ms (oldest_change files)) with
            | inl delayMs => scheduleRetentionCompactionCheck host cfg ec delayMs;; mret None
            | inr (oldest, ageMs) =>
                if in_flight e then
                  scheduleRetentionCompactionCheck host cfg ec 60000;; mret None
                else
                  announce (CompactRetentionStart oldest ageMs);;
                  run ← runtime_step call_compact;
                  mret (Some (run, oldest, ageMs))
            end
        end
    end.

(** After the compaction it waited for: clear the timer and come back in an hour,
    whatever the outcome, so that failing deletes cannot cause a tight loop. *)
Definition retention_done (host : Host) (cfg : Config) (ec : EngineConfig) (oldest ageMs : Z)
    (outcome : result ()) : M (Engine A) () :=
  announce (match outcome with
            | Ok _ => CompactRetentionComplete oldest ageMs
            | Throw err => CompactRetentionError (Some oldest) err
            end);;
  set_compact (with_dueAt None);;
  scheduleRetentionCompactionCheck host cfg ec RETENTION_RETRY_DELAY_MS.

(** The wait of the timer, and its callback: a wait longer than a timer can hold is
    taken in steps. *)
Definition retention_wait (now dueAt : Z) : Z := Z.min (Z.max 0 (dueAt - now)) MAX_TIMER_DELAY_MS.
Definition retention_timer_fires (host : Host) (cfg : Config) (ec : EngineConfig)
    : M (Engine A) (option (nat * Z * Z)) :=
  e ← gets id;
  match c_retentionDueAt (en_compact e) with
  | None => mret None
  | Some targetDueAt =>
      set_compact (with_dueAt None);;
      let now := env_wall (h_env host) in
      if (now <? targetDueAt)%Z
      then scheduleRetentionCompactionCheck host cfg ec (targetDueAt - now);; mret None
      else runRetentionCompactionCheck host cfg ec
  end.
End auto_compact.

Example change_ids :
  (has_change_id <$> ["0-chg_1.json"; "-chg_x.json"; "0-chg_.json"; "0-chg_1.jso"; "0-chg_a/b.json"; "head.json"])
    = [true; true; false; false; false; false].
Proof. reflexivity. Qed.
Example change_paths :
  (is_change_path <$> ["/m/changes/0-chg_1.json"; "/m/changes/-chg_1.json"; "/m/change/0-chg_1.json";
                       "/m/changes/d/0-chg_1.json"; "changes/0-chg_1.json"])
    = [true; false; false; false; false].
Proof. reflexivity. Qed.

(** ** Theory *)
Section theory.
Context `{Platform} {A : Type} `{HA : !StorageAdapter A} `{!DateText}.

(** An engine that schedules no retention check. *)
Definition dormant (cfg : Config) (e : Engine A) : Prop :=
  cf_reader cfg = true ∨ en_connected e = false ∨ en_adapter e = false ∨
  truthy (cf_remotePath cfg) = false ∨ managed e = false.
Definition armed (e : Engine A) : Prop := is_Some (c_retentionDueAt (en_compact e)).

Lemma with_compact_session c (e : Engine A) : en_session (with_compact c e) = en_session e.
Proof. done. Qed.

Lemma schedule_arms host cfg ec ms (e : Engine A) :
  ∃ e', scheduleRetentionCompactionCheck host cfg ec ms e = (Ok (), e') ∧ (dormant cfg e' ∨ armed e').
Proof.
  unfold scheduleRetentionCompactionCheck. rewrite gets_bind. cbn [id].
  destruct (cf_reader cfg || negb (en_connected e) || negb (truthy (cf_remotePath cfg)) || negb (managed e)) eqn:E.
  - eexists. split; [done|]. left. unfold dormant. rewrite !orb_true_iff, !negb_true_iff in E. tauto.
  - destruct (c_retentionDueAt (en_compact e)) as [d|] eqn:Ed.
    + destruct (d <=? _)%Z; eexists; (split; [done|]); right; [exists d; exact Ed|].
      cbn. rewrite poison_same by done. by eexists.
    + eexists. split; [done|]. right. cbn. rewrite poison_same by done. by eexists.
Qed.

(** What a check may end in. *)
Definition check_outcome (cfg : Config) (r : result (option (nat * Z * Z))) (e : Engine A) : Prop :=
  (∃ started, r = Ok (Some started)) ∨ dormant cfg e ∨ armed e ∨
  ∃ err, r = Throw err ∧ activeRetentionPolicy cfg e = Throw err.

Lemma schedule_outcome host cfg ec ms (e e' : Engine A) r :
  (scheduleRetentionCompactionCheck host cfg ec ms;; mret None) e = (r, e') → check_outcome cfg r e'.
Proof.
  destruct (schedule_arms host cfg ec ms e) as (e1 & E & Hd). rewrite (bind_ok _ _ _ _ _ E).
  intros [= <- <-]. unfold check_outcome. tauto.
Qed.

(** A failing part of the check is reported, and the check comes back. *)
Lemma failed_outcome {B} host cfg ec (m : M (Engine A) B)
    (k : B → M (Engine A) (option (nat * Z * Z))) (e e' : Engine A) r :
  (∀ b e1 r e', k b e1 = (r, e') → check_outcome cfg r e') →
  (o ← catch (b ← m; mret (Some b)) (retention_failed host cfg ec None None);
   match o with None => mret None | Some b => k b end) e = (r, e') →
  check_outcome cfg r e'.
Proof.
  intros Hk. unfold mbind at 1, M_bind at 1, catch. unfold mbind at 1, M_bind at 1.
  destruct (m e) as [[b|err] e1]; [apply Hk|]. unfold retention_failed.
  destruct (calm_run (announce (CompactRetentionError None err)) e1 (calm_announce _))
    as (u & e2 & _ & Erun). rewrite Erun.
  destruct (schedule_arms host cfg ec RETENTION_RETRY_DELAY_MS e2) as (e3 & E3 & Hd).
  rewrite (bind_ok _ _ _ _ _ E3). cbn. intros [= <- <-]. unfold check_outcome. tauto.
Qed.
End theory.

(** ** Properties *)

(** An immediate background compaction never ends, and with it the flush that
    triggered it.  When [maybeAutoCompact] starts a compaction, the promise it
    waits for follows a suspended call of [compact()], and that call, when it resumes, finds
    this very promise as the compaction in flight and follows it: whatever happens
    later, the promise never settles and stays in flight, so no compaction of this
    engine ever runs again. *)
Theorem immediate_compaction_never_settles `{Platform} {A : Type} `{!StorageAdapter A} `{!DateText}
    (host : Host) (cfg : Config) (ec : EngineConfig) (n run : nat) (e e' : Engine A) (rt : Runtime) :
  runtime_ok (c_runtime (en_compact e)) →
  maybeAutoCompact host cfg ec n e = (Ok (Some run), e') →
  rtc rstep (c_runtime (en_compact e')) rt →
  ¬ settled rt run ∧ rt_inFlight rt = Some run.
Proof.
  intros Hok Hrun Hst. unfold maybeAutoCompact in Hrun. destruct (n <? _); [done|].
  rewrite gets_bind in Hrun. cbn [id] in Hrun. destruct (auto_skip_reason _ _ _ _) as [reason|]; [done|].
  assert (entangled (length (rt_promises (c_runtime (en_compact e)))) run (c_runtime (en_compact e')))
    as He.
  { pose proof (immediate_entangles _ Hok) as Hen. revert Hrun Hen.
    unfold mbind at 1, M_bind at 1, announce, sess, emit. cbn. unfold after_poison. cbn.
    case_match; cbn; by intros [= <- <-]. }
  apply entangled_forever with (rt' := rt) in He; [|done]. split; [|by destruct He as (_ & ? & _)].
  eapply entangled_never_settles; [exact He|by right].
Qed.

(** C15: A retention check never goes silent.  Over any adapter, a check that does not
    start a compaction leaves the retention timer armed, unless the engine is no
    longer one that schedules checks (reader, disconnected, without remote or
    server-managed manifest) or its retention policy does not resolve. *)
Theorem retention_check_comes_back `{Platform} {A : Type} `{!StorageAdapter A} `{!DateText}
    (host : Host) (cfg : Config) (ec : EngineConfig) (e e' : Engine A)
    (r : result (option (nat * Z * Z))) :
  runRetentionCompactionCheck host cfg ec e = (r, e') → check_outcome cfg r e'.
Proof.
  unfold runRetentionCompactionCheck. rewrite gets_bind. cbn [id].
  destruct (cf_reader cfg || negb (en_connected e) || negb (en_adapter e) ||
    negb (truthy (cf_remotePath cfg)) || negb (managed e)) eqn:E.
  { intros [= <- <-]. right; left. unfold dormant. rewrite !orb_true_iff, !negb_true_iff in E. tauto. }
  destruct (poisoned e); [apply schedule_outcome|].
  apply failed_outcome. intros needsRetry e1 r1 e1'.
  apply failed_outcome. intros files e2 r2 e2'. rewrite gets_bind, lift_bind. cbn [id].
  destruct (activeRetentionPolicy cfg e2) as [policy|err] eqn:Ep.
  - destruct (retention_decision _ _ _ _) as [ms|[oldest age]]; [apply schedule_outcome|].
    destruct (in_flight e2); [apply schedule_outcome|].
    unfold mbind at 1, M_bind at 1, announce, sess, emit. cbn. intros [= <- <-]. left. by eexists.
  - intros [= <- <-]. right; right; right. by exists err.
Qed.

(** ** Witnesses *)
#[local] Instance test_dates : DateText := {| dateParse _ := Num 0 |}.
Definition managed_manifest : Manifest :=
  let p := m_payload (test_manifest "mesh_1" 1 None) in
  mkManifest (mkManifestPayload (m_generation p) (m_parentGeneration p) (m_writtenBy p) (m_writtenAt p)
    (m_version p) (m_meshId p) (m_schema p) (m_encrypted p) (mkServer true None "srv") (m_createdAt p)
    (m_epoch p) (m_watermarkHlc p) (m_snapshotPath p) (m_deltaPath p) (m_retention p) (m_lineage p)) "".
Definition managed_engine : Engine (@MemoryAdapter test_platform) :=
  let e := test_engine (@emptyAdapter test_platform "now") emptyStore in
  with_session (set_manifest (Some managed_manifest) false (en_session e)) e.
Definition auto_run :=
  maybeAutoCompact test_host (test_config "dev1") test_engine_config 1000 managed_engine.
#[local] Strategy expand [auto_run].

Lemma auto_run_starts : auto_run = (Ok (Some 1), auto_run.2).
Proof.
  assert (auto_run.1 = Ok (Some 1)) as H by by vm_compute.
  exact (eq_trans (surjective_pairing auto_run) (f_equal (λ r, (r, auto_run.2)) H)).
Qed.

Lemma immediate_compaction_never_settles_witness :
  let rt := resume_compact (c_runtime (en_compact auto_run.2)) in
  rt_promises rt = [Follows 1; Follows 0] ∧ ¬ settled rt 1 ∧ rt_inFlight rt = Some 1.
Proof.
  split; [by vm_compute|].
  exact (@immediate_compaction_never_settles test_platform _ memory_storage test_dates test_host
    (test_config "dev1") test_engine_config 1000 1 managed_engine auto_run.2 _ idle_ok auto_run_starts
    (rtc_once _ _ (step_resume _))).
Defined.

Definition retention_run :=
  @runRetentionCompactionCheck test_platform _ memory_storage test_dates test_host
    (test_config "dev1") test_engine_config managed_engine.
#[local] Strategy expand [retention_run].

Lemma retention_check_comes_back_witness :
  check_outcome (test_config "dev1") retention_run.1 retention_run.2.
Proof.
  exact (@retention_check_comes_back test_platform _ memory_storage test_dates test_host
    (test_config "dev1") test_engine_config managed_engine retention_run.2 retention_run.1
    (surjective_pairing _)).
Defined.
