(* ===== verification/CatchUp.v ===== *)
(** * Catching up from a snapshot
    ([pullNow] and [rehydrateNow] of [packages/core/src/core/sync-engine.ts] with
     [compact] and [rehydrate] of [packages/core/src/core/compaction.ts])

    A pull may have to restore a snapshot first, which pulls again: when that comes to an
    end.  And the clock of a device that has caught up: the snapshot carries the
    clock the compactor had before its own last pull. *)

From S2P Require Import Prelude JsString Hlc Values JsMap LocalStore Wire Crdt.
From S2P Require Import Observation Adapter Codec Session MergeStore Manifest Flush Pull Compaction.
From S2P Require Import Rehydrate ChangeEffects LocalWrites Promises Engine Queue.
From Stdlib Require String.

Open Scope stdpp_scope.

(** ** Pulls come to an end *)
Section catch_up.
Context `{Platform} {A : Type} `{HA : !StorageAdapter A}.
Implicit Types e : Engine A.

(** Everything a pull asks before it decides whether to restore, unchanged. *)
Definition same_question (e e' : Engine A) : Prop :=
  en_local e' = en_local e ∧ ss_manifest (en_session e') = ss_manifest (en_session e) ∧
  en_readerManifestFresh e' = en_readerManifestFresh e ∧ en_adapter e' = en_adapter e.

Lemma status_question st e : ∃ e', setConnectionStatus st e = (Ok (), e') ∧ same_question e e'.
Proof.
  eexists. split; [done|]. cbn. by rewrite poison_same.
Qed.

Lemma question_stale l e e' :
  same_question e e' → reader_stale l (with_fresh false e') = reader_stale l e.
Proof. intros (_ & Hm & _). unfold reader_stale. cbn. by rewrite Hm. Qed.

(** A pull that need not restore: a writer's, and that of a reader that has just
    restored the manifest's epoch. *)
Definition caught_up (cfg : Config) (e : Engine A) : Prop :=
  cf_reader cfg = false ∨
  (en_readerManifestFresh e = true ∧ reader_stale (en_local e) e = false).

Lemma caught_up_check host cfg ec e e' : caught_up cfg e → same_question e e' →
  ∃ e'', reader_check host cfg ec e' = (Ok false, e'').
Proof.
  intros Hc Hq. unfold reader_check. destruct Hc as [->|[Hf Hs]]; [by eexists|].
  destruct (cf_reader cfg); [|by eexists]. rewrite gets_bind. cbn [id].
  pose proof Hq as (Hl & _ & Hfr & _). rewrite Hfr, Hf.
  assert (reader_stale (en_local (with_fresh false e')) (with_fresh false e') = false) as E.
  { rewrite question_stale with (e := e) by done. change (en_local (with_fresh false e')) with (en_local e').
    by rewrite Hl. }
  exists (with_fresh false e'). munfold. by rewrite E.
Qed.

(** A pull whose restoration, if it comes to one, is [k]. *)
Definition pull_with (k : M (Engine A) ()) host cfg ec : M (Engine A) () :=
  requireAdapter "pull()";;
  e ← gets id;
  when (en_connected e) (setConnectionStatus Syncing);;
  catch (stale ← reader_check host cfg ec;
         if stale : bool then modify (with_fresh true);; k else pull_changes_now host cfg ec)
    pull_failed;;
  idle_if_connected.

Lemma pullNow_with n host cfg ec : pullNow n host cfg ec =
  pull_with match n with
            | S n => rehydrate_then host cfg ec [] (pullNow n host cfg ec)
            | O => throw (JsError "pull: out of fuel")
            end host cfg ec.
Proof. by destruct n. Qed.

Lemma requireAdapter_pure op e :
  (∃ err, requireAdapter op e = (Throw err, e)) ∨ requireAdapter op e = (Ok (), e).
Proof.
  unfold requireAdapter. rewrite gets_bind. cbn [id].
  destruct (ss_poison _); [left; by eexists|]. destruct (en_adapter e); [by right|left; by eexists].
Qed.
Lemma bind_ext_at {S B C} (m1 m2 : M S B) (f : B → M S C) s :
  m1 s = m2 s → (m1 ≫= f) s = (m2 ≫= f) s.
Proof. intros E. unfold mbind, M_bind. by rewrite E. Qed.

(** The engine that asks. *)
Definition syncing (e : Engine A) : Engine A :=
  if en_connected e then (setConnectionStatus Syncing e).2 else e.
Lemma syncing_runs e :
  when (en_connected e) (setConnectionStatus Syncing) e = (Ok (), syncing e) ∧
  same_question e (syncing e).
Proof.
  unfold syncing. destruct (en_connected e); [|by split].
  destruct (status_question Syncing e) as (e' & E & Hq). cbn [when]. by rewrite E.
Qed.

(** Up to the question whether to restore. *)
Lemma pull_with_ext k1 k2 host cfg ec e :
  (∀ e1, reader_check host cfg ec (syncing e) = (Ok true, e1) →
     k1 (with_fresh true e1) = k2 (with_fresh true e1)) →
  pull_with k1 host cfg ec e = pull_with k2 host cfg ec e.
Proof.
  intros Hk. unfold pull_with.
  destruct (requireAdapter_pure "pull()" e) as [[err E]|E].
  { by rewrite !(bind_throw _ _ _ _ _ E). }
  rewrite !(bind_ok _ _ _ _ _ E), !gets_bind. cbn [id].
  destruct (syncing_runs e) as [Est Hq].
  rewrite !(bind_ok _ _ _ _ _ Est). apply bind_ext_at. unfold catch.
  assert (∀ k, (stale ← reader_check host cfg ec;
                if stale : bool then modify (with_fresh true);; k
                else pull_changes_now host cfg ec) (syncing e) =
    match reader_check host cfg ec (syncing e) with
    | (Ok true, e1) => k (with_fresh true e1)
    | (Ok false, e1) => pull_changes_now host cfg ec e1
    | (Throw err, e1) => (Throw err, e1)
    end) as Ek.
  { intros k. unfold mbind at 1, M_bind at 1. by destruct (reader_check _ _ _ (syncing e)) as [[[]|] ?]. }
  rewrite !Ek. destruct (reader_check host cfg ec (syncing e)) as [[[]|err] e1] eqn:Ec; [|done..].
  by rewrite (Hk e1).
Qed.

Lemma caught_up_needs_no_fuel host cfg ec n e :
  caught_up cfg e → pullNow n host cfg ec e = pullNow 0 host cfg ec e.
Proof.
  intros Hc. rewrite !pullNow_with. apply pull_with_ext. intros e1 E.
  destruct (caught_up_check host cfg ec e (syncing e) Hc (proj2 (syncing_runs e))) as (e2 & E2).
  congruence.
Qed.

Lemma requires_nothing_more op e e1 (u : ()) : requireAdapter op e = (Ok u, e1) → e1 = e.
Proof. destruct (requireAdapter_pure op e) as [[err E]|E]; congruence. Qed.

(** Restoring a snapshot leaves the mark that its manifest is the latest. *)
Lemma restore_fresh host cfg preserved e hlc e' :
  restore_step host cfg preserved e = (Ok hlc, e') →
  en_readerManifestFresh e' = en_readerManifestFresh e.
Proof.
  unfold restore_step. intros (u & e1 & ->%requires_nothing_more & E)%bind_ok_inv. revert E.
  rewrite gets_bind. unfold sess. cbn [id]. destruct (rehydrate _ _ _ _ _) as [r s].
  unfold after_poison. by case_match; intros [= _ <-].
Qed.

(** What the pull relies on: the snapshot that is restored has the epoch of the
    manifest that names it, as [compact] writes them. *)
Definition snapshots_current (host : Host) (cfg : Config) (ec : EngineConfig) (e : Engine A) : Prop :=
  ∀ e1 hlc e2, reader_check host cfg ec (syncing e) = (Ok true, e1) →
    restore_step host cfg [] (with_fresh true e1) = (Ok hlc, e2) →
    reader_stale (en_local e2) e2 = false.

Lemma pull_restores_once host cfg ec e k1 k2 :
  snapshots_current host cfg ec e →
  pull_with (rehydrate_then host cfg ec [] (pull_with k1 host cfg ec)) host cfg ec e =
  pull_with (rehydrate_then host cfg ec [] (pull_with k2 host cfg ec)) host cfg ec e.
Proof.
  intros Hs. apply pull_with_ext. intros e1 Hc. unfold rehydrate_then.
  destruct (restore_step host cfg [] (with_fresh true e1)) as [[hlc|err] e2] eqn:Er.
  2:{ by rewrite !(bind_throw _ _ _ _ _ Er). }
  rewrite !(bind_ok _ _ _ _ _ Er). apply bind_ext_at.
  assert (caught_up cfg e2) as Hcu.
  { right. split; [by rewrite (restore_fresh _ _ _ _ _ _ Er)|by eapply Hs]. }
  apply pull_with_ext. intros e3 E3.
  destruct (caught_up_check host cfg ec e2 _ Hcu (proj2 (syncing_runs e2))) as (? & E). congruence.
Qed.
End catch_up.

(** ** Properties *)

(** C16: A pull comes to an end.  A pull that finds a newer snapshot restores it and pulls
    again; when the restored snapshot has the epoch of the manifest that names it, the inner
    pull does not restore a third time, so what would happen there ([k]) is of no
    consequence and the recursion of [pullNow] is two deep.  A writer's pull never
    restores at all. *)
Theorem pull_comes_to_an_end `{Platform} {A : Type} `{!StorageAdapter A}
    (host : Host) (cfg : Config) (ec : EngineConfig) (e : Engine A) :
  snapshots_current host cfg ec e →
  (∀ k, pull_with (rehydrate_then host cfg ec [] (pull_with k host cfg ec)) host cfg ec e =
        pullNow 1 host cfg ec e) ∧
  (∀ n, pullNow (S n) host cfg ec e = pullNow 1 host cfg ec e) ∧
  (cf_reader cfg = false → ∀ n, pullNow n host cfg ec e = pullNow 0 host cfg ec e).
Proof.
  intros Hs. assert (∀ n k,
    pull_with (rehydrate_then host cfg ec [] (pull_with k host cfg ec)) host cfg ec e =
    pullNow (S n) host cfg ec e) as Hn.
  { intros n k. rewrite (pullNow_with (S n)), (pullNow_with n). by apply pull_restores_once. }
  split; [apply (Hn 0)|]. split.
  - intros n. by rewrite <- (Hn n (mret ())), <- (Hn 0 (mret ())).
  - intros Hw n. apply caught_up_needs_no_fuel. by left.
Qed.

(** *** The clock of a snapshot *)

(** The second device compacts with a clock one second behind the change it pulls
    on the way; a third device restores its snapshot and writes half a second later. *)
Definition behind_context : @CompactContext test_platform :=
  mkCompact (cc_manifest test_context) (cc_codec test_context) (hlcInit 1711785599000 "dev2")
    (cc_retention test_context).
Definition behind_compact : result Manifest * Session (@MemoryAdapter test_platform) :=
  @compact test_platform _ _ test_env (test_config "dev2") behind_context test_pull
    pull_session.
Definition behind_manifest : Manifest := next_manifest test_env (test_config "dev2") behind_context.
Definition behind_restore : result HLC * Session (@MemoryAdapter test_platform) :=
  @rehydrate test_platform _ _ (test_config "dev3")
    (mkRehydrate (@mkCodec test_platform None false (Some behind_manifest)) (Some behind_manifest)
       (hlcInit 1711785599000 "dev3") [])
    (mret None) (mret ())
    (connected_session (ss_adapter behind_compact.2) emptyStore "dev3").
Definition restored_clock : HLC :=
  match behind_restore.1 with Ok hlc => hlc | Throw _ => hlcInit 0 "" end.
Definition restored_row : Row :=
  default (blankRow "" "" 0 false None) (store_getRow (ss_local behind_restore.2) "todo" "r1").
Definition restored_write : Row :=
  put_row "dev3" (hlcSerialize (hlcNow 1711785599500 restored_clock)) [("title", VStr "bread")]
    (put_base "todo" "r1" 1 (Some restored_row)).
Definition published_tables : Tables := setRow ∅ "todo" "r1" restored_row.

(** A restored clock can be behind the rows it came with.  A compaction stamps
    the snapshot with the clock captured before its own pull, so the snapshot can
    hold columns that are later than its stamp.  A device that restores
    it takes that stamp as its clock; its next write to such a column is stamped
    before the value it replaces, and the operation it publishes is ignored by
    every replica that has the row: the author alone sees the new value. *)
Theorem restored_clock_is_behind_its_rows :
  readColumn restored_row "title" = VStr "milk" ∧
  readColumn restored_write "title" = VStr "bread" ∧
  match rowToSyncOp restored_write with
  | Some op => (applyOp op 1 None published_tables).1 = Ok None ∧
               from_option (λ row, readColumn row "title") VNull
                 (getRow (applyOp op 1 None published_tables).2 "todo" "r1") = VStr "milk"
  | None => False
  end.
Proof. by vm_compute. Qed.

(** ** Witnesses *)
(** A reader that finds the compacted mailbox. *)
Definition reader_config : @Config test_platform :=
  let c := test_config "dev3" in
  mkConfig (cf_remotePath c) (cf_serverId c) (cf_serverManaged c) (cf_deviceId c) (cf_encrypted c)
    (cf_key c) (cf_schema c) (cf_retention c) true.
Definition reader_engine : Engine (@MemoryAdapter test_platform) :=
  test_engine (ss_adapter first_compact.2) emptyStore.
Definition reader_asks := @reader_check test_platform _ _ test_host
  reader_config test_engine_config (syncing reader_engine).
Definition reader_restores := @restore_step test_platform _ _ test_host
  reader_config [] (with_fresh true reader_asks.2).
#[local] Strategy expand [reader_asks reader_restores].

(** The reader does restore, and what it restores is current. *)
Lemma reader_is_stale : reader_asks.1 = Ok true.
Proof. by vm_compute. Qed.
Lemma reader_restored : is_ok reader_restores.1 = true.
Proof. by vm_compute. Qed.
Lemma reader_current : reader_stale (en_local reader_restores.2) reader_restores.2 = false.
Proof. by vm_compute. Qed.

Lemma reader_snapshots_current :
  @snapshots_current test_platform _ _ test_host reader_config test_engine_config
    reader_engine.
Proof.
  intros e1 hlc e2 Ea Er. assert (e1 = reader_asks.2) as -> by exact (f_equal snd (eq_sym Ea)).
  assert (e2 = reader_restores.2) as -> by exact (f_equal snd (eq_sym Er)). exact reader_current.
Qed.

Lemma pull_comes_to_an_end_witness :
  @pullNow test_platform _ _ 7 test_host reader_config
    test_engine_config reader_engine =
  @pullNow test_platform _ _ 1 test_host reader_config
    test_engine_config reader_engine.
Proof.
  exact (proj1 (proj2 (@pull_comes_to_an_end test_platform _ memory_storage test_host
    reader_config test_engine_config reader_engine reader_snapshots_current)) 6).
Defined.
