(* ===== verification/Mesh.v ===== *)
(** * The identity of a mesh and its lives
    ([rememberedMeshIdentity], [readEvictionAttestation], [applyMeshEvictionPolicy],
     [applyJoinExistingMeshPolicy], [rebuildOutboxFromLocalState], [refillEvictedMesh]
     and [loadLocalState] of [packages/core/src/core/sync-engine.ts])

    A device remembers the mesh it belongs to and which life of it it last saw.
    When it connects it may find another mesh at the same place (a join), or a
    later life of its own mesh, which the host had evicted.  The first resets
    or keeps its local data; the second publishes it again. *)

From S2P Require Import Prelude JsString Hlc Values JsMap LocalStore Wire Crdt Convergence.
From S2P Require Import Observation Adapter Codec Session MergeStore Manifest Flush Pull Frame Compaction.
From S2P Require Import Rehydrate ChangeEffects LocalWrites Promises Engine Queue.
From Stdlib Require String.

Open Scope stdpp_scope.

Inductive JoinExistingMeshPolicy := ResetToRemote | MergeWithRemote.
#[global] Instance JoinExistingMeshPolicy_eq_dec : EqDecision JoinExistingMeshPolicy.
Proof. solve_decision. Defined.
Inductive EvictedMeshPolicy := Refill | Manual.
Record MeshConfig := mkMeshConfig {
  mc_joinExistingMesh : JoinExistingMeshPolicy; mc_evictedMesh : EvictedMeshPolicy }.

Section mesh.
Context `{Platform} {A : Type} `{HA : !StorageAdapter A}.

Definition live_meshId (e : Engine A) : option string :=
  opt_truthy ((λ m, m_meshId (m_payload m)) <$> ss_manifest (en_session e)).
Definition live_lineage (e : Engine A) : Z :=
  resolveManifestLineage
    (from_option (λ m, lineage_value (m_lineage (m_payload m))) VUndefined
       (ss_manifest (en_session e))).

(** ** What the device remembers *)
Definition remembered_lineage (v : jsval) : option Z :=
  match v with VNum (Num z) => if (0 <? z)%Z then Some z else None | _ => None end.
Definition rememberedMeshIdentity (l : MemoryLocalStore) : string * option Z :=
  (default "" (str_meta (store_getMeta "meshId" l)),
   remembered_lineage (store_getMeta MESH_LINEAGE_META l)).

(** Does the host publish an eviction record?  A record that cannot be read is none. *)
Definition attests (d : Doc) : bool :=
  match d with
  | DOther v => match field "evicted" v with VBool b => b | _ => false end
  | _ => false
  end.
Definition readEvictionAttestation (cfg : Config) : M (Engine A) bool :=
  e ← gets id;
  if truthy (cf_remotePath cfg) && en_adapter e
  then d ← sess (remote (readJsonIfExists (cf_remotePath cfg +:+ "/evicted.json")));
       mret (from_option attests false d)
  else mret false.

(** Queued changes, a pending batch counting as one. *)
Definition queued_count (e : Engine A) : nat :=
  outboxSize (en_local e) + (if w_pendingBatch (en_write e) then 1 else 0).

(** ** A later life of the same mesh *)
Definition eviction_detected (bootstrapped : bool) (remembered : string * option Z)
    (meshId : string) (lineage : Z) : option string :=
  if negb (String.eqb remembered.1 meshId) then None
  else if bootstrapped then Some "missing-manifest"
  else match remembered.2 with
       | Some l => if (l =? lineage)%Z then None else Some "lineage-change"
       | None => None
       end.

(** Tells whether the device should publish its local state again. *)
Definition applyMeshEvictionPolicy (cfg : Config) (mc : MeshConfig) (bootstrapped : bool)
    (remembered : string * option Z) : M (Engine A) bool :=
  e ← gets id;
  match live_meshId e with
  | None => mret false
  | Some meshId =>
      let lineage := live_lineage e in
      store (modify (store_setMeta MESH_LINEAGE_META (VNum (Num lineage))));;
      match eviction_detected bootstrapped remembered meshId lineage with
      | None => mret false
      | Some detectedBy =>
          e ← gets id;
          attested ← readEvictionAttestation cfg;
          announce (MeshEvicted meshId detectedBy attested
            (default (Z.max 1 (lineage - 1)) remembered.2) lineage
            (length (getAllRows (en_local e))) (queued_count e)
            (match mc_evictedMesh mc with Manual => true | Refill => false end));;
          if cf_reader cfg then mret false
          else match mc_evictedMesh mc with
               | Manual => modify (with_awaitingRefill true);; mret false
               | Refill => mret true
               end
      end
  end.

(** Every local row as a change of its own; [ids] gives the fresh identifiers in order. *)
Fixpoint rebuild_entries (wall : Z) (device : string) (ids : nat → string) (n : nat)
    (rows : list Row) : list ChangeEntry :=
  match rows with
  | [] => []
  | row :: rows =>
      match rowToSyncOp row, opt_truthy (Some (getRowHlc row)) with
      | Some op, Some hlc =>
          mkChange (ids n) wall device None hlc [op] :: rebuild_entries wall device ids (S n) rows
      | _, _ => rebuild_entries wall device ids n rows
      end
  end.
Definition rebuildOutboxFromLocalState (host : Host) (cfg : Config) (ids : nat → string)
    : M (Engine A) () :=
  rows ← store (gets getAllRows);
  match rebuild_entries (env_wall (h_env host)) (cf_deviceId cfg) ids 0 rows with
  | [] => mret ()
  | entries =>
      store (modify (pushOutboxEntries entries));;
      n ← store (gets outboxSize);
      set_write (with_pendingCount n)
  end.

(** [refillEvictedMesh] up to the flush that it ends with. *)
Definition refillEvictedMesh (host : Host) (cfg : Config) (ids : nat → string) : M (Engine A) () :=
  if cf_reader cfg then throw (JsError "InterocitorReader cannot refill an evicted mesh")
  else modify (with_awaitingRefill false);; rebuildOutboxFromLocalState host cfg ids.

(** ** Another mesh *)
Definition restored_clock_of (cfg : Config) (v : jsval) (clock : HLC) : HLC :=
  match opt_truthy (str_meta v) with
  | Some saved => let h := hlcParse saved in mkHLC (ts h) (counter h) (cf_deviceId cfg)
  | None => clock
  end.
Definition loadLocalState (cfg : Config) : M (Engine A) () :=
  set_observers (λ o, with_captured None (with_effects [] o));;
  l ← store (gets id);
  set_write (with_pendingBatch (bool_decide (is_Some (peekPendingBatch l))));;
  sess (modify (λ s, set_knownTables (list_to_set (getTableNames l)) (set_tables ∅
    (set_clock (restored_clock_of cfg (store_getMeta "hlc" l) (ss_hlc s)) s)))).

(** Forget everything and belong to the new mesh. *)
Definition reset_to_mesh (cfg : Config) (nextMeshId : string) : M (Engine A) () :=
  clearBatchTimer;;
  set_write (with_pendingBatch false);;
  set_observers (λ o, with_captured None (with_effects [] o));;
  store (clearAll store_clearAll);;
  match cf_schema cfg ≫= sd_version with
  | Some v => store (modify (store_setMeta "schema:version" (VNum (Num v))))
  | None => mret ()
  end;;
  store (modify (store_setMeta "meshId" (VStr nextMeshId)));;
  loadLocalState cfg;;
  set_write (with_pendingCount 0).

Definition applyJoinExistingMeshPolicy (cfg : Config) (mc : MeshConfig) (bootstrapped : bool)
    : M (Engine A) () :=
  e ← gets id;
  match live_meshId e with
  | None => mret ()
  | Some nextMeshId =>
      let bind := store (modify (store_setMeta "meshId" (VStr nextMeshId))) in
      if bootstrapped then bind
      else
        let previous := default "" (str_meta (store_getMeta "meshId" (en_local e))) in
        if String.eqb previous nextMeshId then mret ()
        else
          let rows := length (getAllRows (en_local e)) in
          if (rows =? 0) && (queued_count e =? 0) && negb (truthy previous) then bind
          else
            let merge := match mc_joinExistingMesh mc with MergeWithRemote => true | _ => false end in
            announce (JoinExistingMesh (opt_truthy (Some previous)) nextMeshId merge rows
                        (queued_count e));;
            if merge then bind else reset_to_mesh cfg nextMeshId
  end.
End mesh.

(** ** Theory: joining *)
Section join_theory.
Context `{Platform} {A : Type} `{HA : !StorageAdapter A}.
Implicit Types e : Engine A.

Definition reset_local (cfg : Config) (nextMeshId : string) (l : MemoryLocalStore)
    : MemoryLocalStore :=
  let l1 := (clearAll store_clearAll l).2 in
  store_setMeta "meshId" (VStr nextMeshId)
    (match cf_schema cfg ≫= sd_version with
     | Some v => store_setMeta "schema:version" (VNum (Num v)) l1
     | None => l1
     end).

(** A store without rows, queue or receipts. *)
Definition holds_nothing (l : MemoryLocalStore) : Prop :=
  getAllRows l = [] ∧ ls_outbox l = [] ∧ ls_pendingBatch l = None ∧ durable_seen l = ∅.

Lemma store_modify_run (g : MemoryLocalStore → MemoryLocalStore) e :
  store (modify g) e = (Ok (), at_store (g (en_local e)) e).
Proof. unfold store, sess, loc, modify. by rewrite poison_same. Qed.

Lemma live_meshId_truthy e m : live_meshId e = Some m → truthy m = true.
Proof.
  unfold live_meshId, opt_truthy. destruct (_ <$> _) as [s|]; [|done].
  destruct (truthy s) eqn:E; [by intros [= <-]|done].
Qed.

Definition with_event ev e : Engine A := with_session (add_event ev (en_session e)) e.
Lemma announce_run ev e : announce ev e = (Ok (), with_event ev e).
Proof. unfold announce, sess, emit, modify. by rewrite poison_same. Qed.

Lemma setMeta_observation k v l : k ≠ OBSERVATION_META_KEY →
  load (store_setMeta k v l) = load l.
Proof. intros Hk. apply load_agree. by apply getMeta_set_ne. Qed.

Lemma reset_local_spec cfg next l :
  holds_nothing (reset_local cfg next l) ∧
  store_getMeta "meshId" (reset_local cfg next l) = VStr next ∧
  observationGeneration (reset_local cfg next l) = (observationGeneration l + 1)%Z.
Proof.
  destruct (clearAll_spec store_clearAll l) as [Hg Hs]. unfold holds_nothing, reset_local.
  set (l1 := (clearAll store_clearAll l).2) in *. cbv zeta.
  assert (∀ l2, load l2 = load l1 → observationGeneration l2 = (observationGeneration l + 1)%Z ∧
    durable_seen l2 = ∅) as Hload.
  { intros l2 E. rewrite <- load_generation, E, load_generation, Hg. split; [done|].
    unfold durable_seen. rewrite E. exact Hs. }
  destruct (cf_schema cfg ≫= sd_version) as [v|];
    (split; [split_and!; [done..|]|split; [apply getMeta_set|]]); apply Hload;
    by rewrite !setMeta_observation.
Qed.

Lemma load_local_runs cfg e :
  ∃ e', loadLocalState cfg e = (Ok (), e') ∧ en_local e' = en_local e ∧
    ss_adapter (en_session e') = ss_adapter (en_session e) ∧
    w_pendingBatch (en_write e') = bool_decide (is_Some (ls_pendingBatch (en_local e))) ∧
    ss_tables (en_session e') = ∅.
Proof.
  unfold loadLocalState, set_observers. unfold mbind at 1, M_bind at 1, modify at 1.
  rewrite store_gets_bind. eexists. split; [done|]. cbn. rewrite !poison_same by done. done.
Qed.

Lemma reset_to_mesh_runs cfg next e :
  ∃ e', reset_to_mesh cfg next e = (Ok (), e') ∧
    en_local e' = reset_local cfg next (en_local e) ∧
    ss_adapter (en_session e') = ss_adapter (en_session e) ∧
    w_pendingBatch (en_write e') = false ∧ w_pendingCount (en_write e') = 0 ∧
    ss_tables (en_session e') = ∅.
Proof.
  unfold reset_to_mesh, clearBatchTimer, set_write, set_observers, clearAll.
  unfold mbind at 1 2 3, M_bind at 1 2 3, modify at 1 2 3. rewrite store_modify_bind.
  match goal with |- context [at_store ?l ?e0] => set (e1 := at_store l e0) end.
  assert (∃ e2, (match cf_schema cfg ≫= sd_version with
       | Some v => store (modify (store_setMeta "schema:version" (VNum (Num v))))
       | None => mret ()
       end : M (Engine A) ()) e1 = (Ok (), e2) ∧
     store_setMeta "meshId" (VStr next) (en_local e2) = reset_local cfg next (en_local e) ∧
     ss_adapter (en_session e2) = ss_adapter (en_session e)) as (e2 & E2 & El & Ea).
  { unfold reset_local. destruct (cf_schema cfg ≫= sd_version); [|by exists e1].
    eexists. by split; [apply store_modify_run|]. }
  rewrite (bind_ok _ _ _ _ _ E2), store_modify_bind, El.
  destruct (load_local_runs cfg (at_store (reset_local cfg next (en_local e)) e2))
    as (e3 & E3 & El3 & Ea3 & Eb3 & Et3).
  rewrite (bind_ok _ _ _ _ _ E3). eexists. split; [done|]. cbn.
  change (en_local (with_write _ e3)) with (en_local e3). rewrite El3, Ea3, Eb3, Et3.
  destruct (reset_local_spec cfg next (en_local e)) as [(_ & _ & Hp & _) _].
  cbn [en_local at_store with_session en_session set_local ss_local].
  split_and!; try done. by rewrite Hp.
Qed.

Definition previous_meshId (l : MemoryLocalStore) : string :=
  default "" (str_meta (store_getMeta "meshId" l)).
(** Nothing local that a join could mix with the remote. *)
Definition nothing_local e : bool :=
  (length (getAllRows (en_local e)) =? 0) && (queued_count e =? 0) &&
  negb (truthy (previous_meshId (en_local e))).
End join_theory.

(** ** Properties *)

(** C28: Joining never mixes two meshes by accident.  When the mesh at the remote path is not the one
    this device remembers, then under the reset policy the device ends up with no
    row, queued change or receipt of the old mesh, a new receipt generation (so that
    an older writer is fenced), and the identity of the new one; local data
    survives only when asked for (merge policy), when the device has just created
    the mesh, or when there is none.  The remote is not touched. *)
Theorem join_separates_meshes `{Platform} {A : Type} `{!StorageAdapter A}
    (cfg : Config) (mc : MeshConfig) (bootstrapped : bool) (e : Engine A) (next : string) :
  live_meshId e = Some next →
  ∃ e', applyJoinExistingMeshPolicy cfg mc bootstrapped e = (Ok (), e') ∧
    store_getMeta "meshId" (en_local e') = VStr next ∧
    ss_adapter (en_session e') = ss_adapter (en_session e) ∧
    (let l := en_local e in
     if bootstrapped || String.eqb (previous_meshId l) next || nothing_local e ||
        bool_decide (mc_joinExistingMesh mc = MergeWithRemote)
     then getAllRows (en_local e') = getAllRows l ∧ ls_outbox (en_local e') = ls_outbox l ∧
          ls_pendingBatch (en_local e') = ls_pendingBatch l ∧ durable_seen (en_local e') = durable_seen l
     else holds_nothing (en_local e') ∧ w_pendingBatch (en_write e') = false ∧
          observationGeneration (en_local e') = (observationGeneration l + 1)%Z).
Proof.
  intros Hm. unfold applyJoinExistingMeshPolicy. rewrite gets_bind. cbn [id]. rewrite Hm. cbv zeta.
  assert (∀ e0, en_local e0 = en_local e → ss_adapter (en_session e0) = ss_adapter (en_session e) →
    ∃ e', store (modify (store_setMeta "meshId" (VStr next))) e0 = (Ok (), e') ∧
    store_getMeta "meshId" (en_local e') = VStr next ∧
    ss_adapter (en_session e') = ss_adapter (en_session e) ∧
    getAllRows (en_local e') = getAllRows (en_local e) ∧ ls_outbox (en_local e') = ls_outbox (en_local e) ∧
    ls_pendingBatch (en_local e') = ls_pendingBatch (en_local e) ∧
    durable_seen (en_local e') = durable_seen (en_local e)) as Hbind.
  { intros e0 El Ea. eexists. split; [apply store_modify_run|]. rewrite en_local_at, adapter_at, El, Ea.
    split_and!; [apply getMeta_set|done..|]. unfold durable_seen. by rewrite setMeta_observation. }
  destruct bootstrapped; [by apply Hbind|]. cbn [orb]. fold (previous_meshId (en_local e)).
  destruct (String.eqb_spec (previous_meshId (en_local e)) next) as [Ep|Ep].
  { exists e. cbn [orb]. split_and!; try done. revert Ep. unfold previous_meshId.
    destruct (store_getMeta "meshId" (en_local e)) eqn:E; cbn; try congruence;
      intros <-; by apply live_meshId_truthy in Hm. }
  cbn [orb]. unfold nothing_local. destruct (_ && _ && negb (truthy _)); [by apply Hbind|]. cbn [orb].
  rewrite (bind_ok _ _ _ _ _ (announce_run _ e)).
  destruct (mc_joinExistingMesh mc).
  - rewrite bool_decide_false by done.
    destruct (reset_to_mesh_runs cfg next (with_event (JoinExistingMesh (opt_truthy
      (Some (previous_meshId (en_local e)))) next false (length (getAllRows (en_local e)))
      (queued_count e)) e)) as (e' & E & El & Ea & Hb & _).
    exists e'. split; [exact E|]. rewrite El, Ea.
    destruct (reset_local_spec cfg next (en_local e)) as (Hn & Hmesh & Hg). by split_and!.
  - rewrite bool_decide_true by done. by apply Hbind.
Qed.

(** ** Theory: evictions *)
Section eviction_theory.
Context `{Platform} {A : Type} `{HA : !StorageAdapter A}.
Implicit Types e : Engine A.

(** What a device that has just looked at the lineage remembers of it. *)
Definition up_to_date e : Prop :=
  store_getMeta MESH_LINEAGE_META (en_local e) = VNum (Num (live_lineage e)).

Lemma live_lineage_positive e : (0 < live_lineage e)%Z.
Proof. unfold live_lineage, resolveManifestLineage. repeat case_match; lia. Qed.

Lemma up_to_date_detects_nothing e m :
  up_to_date e →
  eviction_detected false (rememberedMeshIdentity (en_local e)) m (live_lineage e) = None.
Proof.
  intros Hu. unfold eviction_detected, rememberedMeshIdentity, remembered_lineage. cbn [fst snd].
  rewrite Hu. pose proof (live_lineage_positive e). case_match; [done|].
  rewrite (proj2 (Z.ltb_lt _ _)) by done. by rewrite Z.eqb_refl.
Qed.

Lemma readJsonIfExists_returns path (a : A) : ∃ d a', readJsonIfExists path a = (Ok d, a').
Proof.
  unfold readJsonIfExists, catch, mbind, M_bind. destruct (readJson path a) as [[d|err] a']; eauto.
Qed.

(** Steps that leave the store, the manifest and the mailbox as they are. *)
Definition unmoved e e' : Prop :=
  en_local e' = en_local e ∧ ss_manifest (en_session e') = ss_manifest (en_session e) ∧
  filesOf (ss_adapter (en_session e')) = filesOf (ss_adapter (en_session e)).
Lemma attestation_unmoved cfg e :
  ∃ b e', readEvictionAttestation cfg e = (Ok b, e') ∧ unmoved e e'.
Proof.
  unfold readEvictionAttestation. rewrite gets_bind. cbn [id]. destruct (_ && _); [|by exists false, e].
  set (path := cf_remotePath cfg +:+ "/evicted.json").
  destruct (readJsonIfExists_returns path (ss_adapter (en_session e))) as (d & a & E).
  eexists _, _. split.
  - unfold mbind, M_bind, sess, remote. rewrite E. reflexivity.
  - rewrite poison_same by done. split_and!; [done..|]. cbn. by eapply readJsonIfExists_files.
Qed.

Lemma lineage_unmoved e e' : ss_manifest (en_session e') = ss_manifest (en_session e) →
  live_lineage e' = live_lineage e ∧ live_meshId e' = live_meshId e.
Proof. intros E. unfold live_lineage, live_meshId. by rewrite E. Qed.

Definition wants_refill (cfg : Config) (mc : MeshConfig) : bool :=
  negb (cf_reader cfg) && match mc_evictedMesh mc with Refill => true | Manual => false end.

Lemma eviction_policy_runs cfg mc bootstrapped remembered e m :
  live_meshId e = Some m →
  let detected := eviction_detected bootstrapped remembered m (live_lineage e) in
  let e1 := at_store (store_setMeta MESH_LINEAGE_META (VNum (Num (live_lineage e))) (en_local e)) e in
  ∃ e', applyMeshEvictionPolicy cfg mc bootstrapped remembered e =
      (Ok (bool_decide (is_Some detected) && wants_refill cfg mc), e') ∧
    unmoved e1 e' ∧ (detected = None → e' = e1).
Proof.
  intros Hm detected e1. unfold applyMeshEvictionPolicy. rewrite gets_bind. cbn [id]. rewrite Hm.
  cbv zeta. rewrite store_modify_bind. fold e1. fold detected.
  destruct detected as [by_|]; [|by exists e1]. rewrite gets_bind. cbn [id].
  destruct (attestation_unmoved cfg e1) as (b & e2 & E2 & Hu). rewrite (bind_ok _ _ _ _ _ E2).
  rewrite (bind_ok _ _ _ _ _ (announce_run _ e2)). rewrite bool_decide_true by by eexists.
  unfold wants_refill. destruct (cf_reader cfg); [|destruct (mc_evictedMesh mc)];
    (eexists; split; [done|split; [exact Hu|done]]).
Qed.
End eviction_theory.

(** An eviction is reported once, and its refill is asked for once.  A device that finds
    its own mesh recreated (a missing manifest, or another lineage) is told to publish
    its rows again exactly under the refill policy, unless it is a reader; it
    remembers the lineage at that moment, before anything has been
    published.  Whatever becomes of the refill, a later connection to the same life
    finds nothing to report and does not ask again. *)
Theorem refill_is_asked_once `{Platform} {A : Type} `{!StorageAdapter A}
    (cfg : Config) (mc : MeshConfig) (bootstrapped : bool) (remembered : string * option Z)
    (e : Engine A) (m : string) :
  live_meshId e = Some m →
  let detected := eviction_detected bootstrapped remembered m (live_lineage e) in
  ∃ e', applyMeshEvictionPolicy cfg mc bootstrapped remembered e =
      (Ok (bool_decide (is_Some detected) && wants_refill cfg mc), e') ∧
    getAllRows (en_local e') = getAllRows (en_local e) ∧ ls_outbox (en_local e') = ls_outbox (en_local e) ∧
    filesOf (ss_adapter (en_session e')) = filesOf (ss_adapter (en_session e)) ∧
    ∀ e2 : Engine A,
      store_getMeta MESH_LINEAGE_META (en_local e2) = store_getMeta MESH_LINEAGE_META (en_local e') →
      live_meshId e2 = Some m → live_lineage e2 = live_lineage e →
      ∃ e3, applyMeshEvictionPolicy cfg mc false (rememberedMeshIdentity (en_local e2)) e2 =
          (Ok false, e3) ∧ ss_events (en_session e3) = ss_events (en_session e2).
Proof.
  intros Hm detected.
  destruct (eviction_policy_runs cfg mc bootstrapped remembered e m Hm) as (e' & E & (Hl & Hman & Hf) & _).
  exists e'. split; [exact E|]. rewrite Hl, Hf. split_and!; [done..|].
  intros e2 Hmeta Hm2 Hlin.
  destruct (eviction_policy_runs cfg mc false (rememberedMeshIdentity (en_local e2)) e2 m Hm2)
    as (e3 & E3 & _ & Hnone).
  rewrite up_to_date_detects_nothing in E3, Hnone.
  2,3: unfold up_to_date; rewrite Hmeta, Hlin; apply getMeta_set.
  exists e3. split; [exact E3|]. by rewrite Hnone.
Qed.

(** ** Theory: refilling *)
Section refill_theory.
Context (U : string → string → string → ColumnEntry → Prop) `{HU : !Universe U}.
Context (schema : option DatabaseSchemaDefinition) (sv : Z).
Context (Hlww : ∀ t k, resolveStrategy schema t k = Ok Lww).

(** A row with something to say: a tombstone or a column. *)
Definition speaks (row : Row) : Prop := rm_deleted (_meta row) = true ∨ payload row ≠ ∅.

Lemma stamped_truthy entries latest :
  truthy latest = true ∨ Exists (λ e, truthy (hlc e) = true) entries →
  truthy (foldl later_stamp latest entries) = true.
Proof.
  rewrite latest_truthy, orb_true_iff. intros [H|H]; [by left|right].
  apply Exists_exists in H as (e & Hin & He). apply existsb_exists. by exists e.
Qed.

Lemma row_op_speaks t r row : row_ok U t r row → speaks row →
  ∃ op, rowToSyncOp row = Some op ∧ truthy (getRowHlc row) = true ∧
    op_table op = t ∧ op_rowId op = r ∧ op_ok U op ∧ same_state (step_row sv op None) row.
Proof.
  intros (Ht & Hr & Hp & Hd) Hs. unfold rowToSyncOp, getRowHlc.
  destruct (rm_deleted (_meta row)) eqn:Edel.
  - destruct Hd as (Epay & d & Ed & Hc). rewrite Epay, Ed. cbn.
    rewrite canonical_truthy, Ht, Hr by done. eexists. split; [done|]. split_and!; try done.
    apply stamped_truthy. left. by apply canonical_truthy.
  - destruct Hs as [Hs|Hne]; [congruence|]. rewrite Hd, Ht, Hr.
    assert (Forall (λ kv, truthy (hlc kv.2) = true) (map_to_list (payload row))) as Hall.
    { apply list.Forall_forall. intros [k e] Hin%elem_of_map_to_list.
      by eapply canonical_truthy, U_canonical, Hp. }
    rewrite filter_all by done.
    destruct (map_to_list (payload row)) as [|kv cols] eqn:Ecols; [by apply map_to_list_empty_iff in Ecols|].
    rewrite <- Ecols in *. eexists. split; [done|]. split_and!; try done.
    + apply stamped_truthy. right. rewrite Ecols. rewrite Ecols in Hall. apply Exists_cons. left.
      by apply Forall_cons_1 in Hall as [? _].
    + apply list.Forall_forall. intros [k e] Hin%elem_of_map_to_list. by apply Hp.
    + unfold same_state. cbn. split_and!; try congruence.
      apply join_map; [by intros k [? ?%lookup_empty_Some]|]. intros k e _. by rewrite lookup_empty.
Qed.

(** The operations of the refill, one per row that speaks. *)
Definition row_ops (rows : list Row) : list Op :=
  omap (λ row, if truthy (getRowHlc row) then rowToSyncOp row else None) rows.
Lemma rebuild_ops wall device ids n rows :
  ops_of (rebuild_entries wall device ids n rows) = row_ops rows.
Proof.
  revert n. unfold row_ops, ops_of. induction rows as [|row rows IH]; intros n; simpl; [done|].
  unfold opt_truthy. destruct (rowToSyncOp row) as [op|], (truthy (getRowHlc row)); simpl; by rewrite IH.
Qed.

Definition rows_ok (rows : list Row) : Prop :=
  Forall (λ row, row_ok U (row_id row).1 (row_id row).2 row) rows.

Lemma silent_row t r row : row_ok U t r row → ¬ speaks row → rowToSyncOp row = None.
Proof.
  intros _ Hs. unfold rowToSyncOp, speaks in *. destruct (rm_deleted (_meta row)); [tauto|].
  destruct (decide (payload row = ∅)) as [->|]; [done|tauto].
Qed.
#[local] Instance speaks_dec row : Decision (speaks row).
Proof. unfold speaks. apply _. Defined.

Lemma row_ops_cons row rows : rows_ok (row :: rows) →
  (∃ op, row_ops (row :: rows) = op :: row_ops rows ∧ (op_table op, op_rowId op) = row_id row ∧
     op_ok U op ∧ same_state (step_row sv op None) row) ∨
  (row_ops (row :: rows) = row_ops rows ∧ ¬ speaks row).
Proof.
  intros [Hrow _]%Forall_cons_1. unfold row_ops. simpl. destruct (decide (speaks row)) as [Hs|Hs].
  - left. destruct (row_op_speaks _ _ _ Hrow Hs) as (op & -> & -> & Ht & Hr & Hok & Hst).
    exists op. split_and!; [done| |done..]. by rewrite Ht, Hr, <- surjective_pairing.
  - right. rewrite (silent_row _ _ _ Hrow Hs).
    split; [by destruct (truthy _)|done].
Qed.

Lemma row_ops_spec rows T : rows_ok rows → NoDup (row_id <$> rows) →
  (∀ row, row ∈ rows → getRow T (row_id row).1 (row_id row).2 = None) →
  Forall (op_ok U) (row_ops rows) ∧
  let T' := foldl (step_tables sv) T (row_ops rows) in
  (∀ row, row ∈ rows → speaks row →
     ∃ row', getRow T' (row_id row).1 (row_id row).2 = Some row' ∧ same_state row' row) ∧
  (∀ t r, (t, r) ∉ row_id <$> rows → getRow T' t r = getRow T t r).
Proof.
  revert T. induction rows as [|row rows IH]; intros T Hok Hnd HT.
  { split; [constructor|]. split; [by intros row ?%not_elem_of_nil|done]. }
  rewrite fmap_cons in Hnd. apply list.NoDup_cons in Hnd as [Hrow Hnd].
  pose proof Hok as [_ Hok']%Forall_cons_1.
  destruct (row_ops_cons row rows Hok) as [(op & -> & Hid & Hop & Hst)|[-> Hs]].
  - destruct (IH (step_tables sv T op) Hok' Hnd) as (Hops & Hget & Hframe).
    { intros row' Hin. unfold step_tables. rewrite getRow_setRow_ne; [apply HT; by right|].
      rewrite Hid. intros E. apply Hrow, list_elem_of_fmap. exists row'. split; [|done].
      by rewrite E, <- surjective_pairing. }
    split; [by constructor|]. cbv zeta. cbn [foldl]. split.
    + intros row' [->|Hin]%elem_of_cons Hsp; [|by apply Hget].
      rewrite (Hframe (row_id row).1 (row_id row).2) by by rewrite <- surjective_pairing.
      unfold step_tables. rewrite <- Hid. cbn [fst snd]. rewrite getRow_setRow_eq.
      eexists. split; [done|]. assert (getRow T (op_table op) (op_rowId op) = None) as ->; [|done].
      specialize (HT row (list_elem_of_here _ _)). by rewrite <- Hid in HT.
    + intros t r Hnot. rewrite fmap_cons in Hnot. apply not_elem_of_cons in Hnot as [Hne Hnot].
      rewrite Hframe by done. unfold step_tables. rewrite getRow_setRow_ne; [done|]. by rewrite Hid.
  - destruct (IH T Hok' Hnd) as (Hops & Hget & Hframe); [intros row' Hin; apply HT; by right|].
    split; [done|]. split.
    + intros row' [->|Hin]%elem_of_cons Hsp; [done|by apply Hget].
    + intros t r Hnot. rewrite fmap_cons in Hnot. apply not_elem_of_cons in Hnot as [_ Hnot]. by apply Hframe.
Qed.
End refill_theory.

(** C29: A refill restores the mesh.  [refillEvictedMesh] on a device that may write queues one
    change per row behind what is queued already; a replica without data
    that merges just these changes ends with every row of the device, tombstones
    included, in the same state (values, stamps, deletion) - all rows that have a column
    or are deleted.  A reader refuses. *)
Theorem refill_restores_every_row `{Platform} {A : Type} `{!StorageAdapter A}
    (U : string → string → string → ColumnEntry → Prop) (schema : option DatabaseSchemaDefinition)
    (sv : Z) (host : Host) (cfg : Config) (ids : nat → string) (e : Engine A) :
  Universe U → (∀ t k, resolveStrategy schema t k = Ok Lww) →
  store_ok (en_local e) → rows_ok U (getAllRows (en_local e)) → cf_reader cfg = false →
  ∃ e' entries affected T,
    refillEvictedMesh host cfg ids e = (Ok (), e') ∧
    ls_outbox (en_local e') = ls_outbox (en_local e) ++ entries ∧
    getAllRows (en_local e') = getAllRows (en_local e) ∧ en_awaitingRefill e' = false ∧
    (entries ≠ [] → w_pendingCount (en_write e') = outboxSize (en_local e')) ∧
    applyOps (ops_of entries) sv schema ∅ = (Ok affected, T) ∧
    ∀ row, row ∈ getAllRows (en_local e) → speaks row →
      ∃ row', getRow T (rm_table (_meta row)) (rm_rowId (_meta row)) = Some row' ∧ same_state row' row.
Proof.
  intros HU Hlww Hok Hrows Hw. destruct (store_rows_distinct _ Hok) as [Hnd _].
  destruct (row_ops_spec U sv (getAllRows (en_local e)) ∅ Hrows Hnd) as (Hops & Hget & _); [done|].
  set (entries := rebuild_entries (env_wall (h_env host)) (cf_deviceId cfg) ids 0 (getAllRows (en_local e))).
  rewrite <- (rebuild_ops (env_wall (h_env host)) (cf_deviceId cfg) ids 0) in Hops, Hget.
  fold entries in Hops, Hget.
  destruct (applyOps_steps U schema sv Hlww (ops_of entries) ∅ Hops (empty_tables_ok U)) as (affected & Happ).
  unfold refillEvictedMesh. rewrite Hw. unfold mbind at 1, M_bind at 1, modify at 1.
  unfold rebuildOutboxFromLocalState. rewrite store_gets_bind.
  change (en_local (with_awaitingRefill false e)) with (en_local e). fold entries.
  clearbody entries. destruct entries as [|entry entries].
  - eexists _, [], _, _. split; [done|]. rewrite app_nil_r. by split_and!.
  - rewrite store_modify_bind, store_gets_bind. eexists _, (entry :: entries), _, _. split; [done|].
    by split_and!.
Qed.

(** ** Witnesses *)
Definition mesh_engine : Engine (@MemoryAdapter test_platform) :=
  let e := test_engine (@emptyAdapter test_platform "now")
             (pushOutbox first_change (store_setMeta "meshId" (VStr "mesh_0") emptyStore)) in
  with_session (set_manifest (Some (test_manifest "mesh_1" 1 None)) false (en_session e)) e.
Definition default_mesh_config : MeshConfig := mkMeshConfig ResetToRemote Refill.

Lemma join_separates_meshes_witness :
  ∃ e', @applyJoinExistingMeshPolicy test_platform _ (test_config "dev1") default_mesh_config
          false mesh_engine = (Ok (), e') ∧
    ls_outbox (en_local e') = [] ∧ store_getMeta "meshId" (en_local e') = VStr "mesh_1".
Proof.
  destruct (@join_separates_meshes test_platform _ memory_storage (test_config "dev1")
    default_mesh_config false mesh_engine "mesh_1" eq_refl) as (e' & E & Hm & _ & H).
  exists e'. split; [exact E|]. split; [|exact Hm]. destruct H as ((_ & Ho & _) & _). exact Ho.
Defined.

Lemma refill_is_asked_once_witness :
  ∃ e', @applyMeshEvictionPolicy test_platform _ _ (test_config "dev1")
          default_mesh_config false ("mesh_1", Some 7%Z) mesh_engine = (Ok true, e') ∧
    ls_outbox (en_local e') = [first_change].
Proof.
  destruct (@refill_is_asked_once test_platform _ memory_storage (test_config "dev1")
    default_mesh_config false ("mesh_1", Some 7%Z) mesh_engine "mesh_1" eq_refl)
    as (e' & E & _ & Ho & _).
  exists e'. split; [exact E|exact Ho].
Defined.

(** A device that holds one row with one column. *)
Definition refill_row : Row :=
  mkRow (mkMeta "tasks" "1" false None 1 None None) {["x" := entryA]}.
Definition refill_engine : Engine (@MemoryAdapter test_platform) :=
  test_engine (@emptyAdapter test_platform "now") (putRow refill_row emptyStore).
Lemma refill_rows : getAllRows (en_local refill_engine) = [with_key "tasks/1" refill_row].
Proof. reflexivity. Qed.
Lemma refill_store_ok : store_ok (en_local refill_engine).
Proof. apply putRow_ok; [done|]. by split; constructor. Qed.
Lemma refill_rows_ok : rows_ok historyU (getAllRows (en_local refill_engine)).
Proof.
  rewrite refill_rows. constructor; [|constructor]. split; [done|]. split; [done|]. split; [|done].
  intros k entry He. simpl in He. apply lookup_singleton_Some in He as [<- <-]. left.
Qed.

Lemma refill_restores_every_row_witness : ∃ entries affected T,
  applyOps (ops_of entries) 1 None ∅ = (Ok affected, T) ∧
  ∃ row, getRow T "tasks" "1" = Some row ∧ same_state row (with_key "tasks/1" refill_row).
Proof.
  destruct (@refill_restores_every_row test_platform _ memory_storage historyU None 1 test_host
    (test_config "dev1") (λ n, "chg") refill_engine historyU_universe no_schema_lww
    refill_store_ok refill_rows_ok eq_refl)
    as (e' & entries & affected & T & _ & _ & _ & _ & _ & Happ & Hrows).
  exists entries, affected, T. split; [exact Happ|].
  apply (Hrows (with_key "tasks/1" refill_row)); [rewrite refill_rows; left|]. right. discriminate.
Defined.
