(* ===== verification/Connect.v ===== *)
(** * Connecting, disconnecting and switching remotes
    ([connect], [tryConnectFastPath], [runConnectStage], [doConnect], [disconnect]
     and [setRemoteStorage] of [packages/core/src/core/sync-engine.ts])

    The stages of a connection in the order of the code, each of which may fail or
    stall.  A stage that stalls degrades the engine to offline; the call it was
    waiting for goes on in the background, so its effects belong to later steps.
    Opening the local store, keys and credentials come before; the mesh id of
    the stored credentials is an argument. *)

From S2P Require Import Prelude JsString Hlc Values JsMap LocalStore Wire Crdt Convergence.
From S2P Require Import Observation Adapter Codec Session MergeStore Manifest Flush Pull Frame Compaction.
From S2P Require Import Rehydrate ChangeEffects LocalWrites Promises Engine Queue AutoCompact CatchUp Mesh.
From Stdlib Require String.

Open Scope stdpp_scope.

(** What a connection finds around it: which stages exceed their deadline, the
    mesh id of the persisted credentials (when there is a key source), what comes of keeping the
    credentials ([None] without a key source or a key; see Credentials.v), whether the
    adapter pushes invalidations and the relay is enabled, the polling interval, and
    the fresh identifiers of a republication. *)
Record ConnectEnv := mkConnectEnv {
  cv_host : Host; cv_stalls : string → bool; cv_storedMeshId : option string;
  cv_kept : option (result bool);
  cv_relay : bool; cv_pollInterval : Z; cv_ids : nat → string }.

Section connect.
Context `{Platform} {A : Type} `{HA : !StorageAdapter A} `{!DateText}.

(** ** Polling and the relay *)
Definition startPolling (intervalMs : Z) : M (Engine A) () := set_poll (start_poll intervalMs).
Definition startRemoteInvalidations (env : ConnectEnv) : M (Engine A) () :=
  set_poll (set_relay false);;
  if cv_relay env then announce RelaySubscribe;; set_poll (set_relay true)
  else startPolling (cv_pollInterval env);; announce RelayUnavailable.

(** ** Credentials *)
Definition assertCredentialMeshParity (env : ConnectEnv) : M (Engine A) () :=
  e ← gets id;
  match live_meshId e, opt_truthy (cv_storedMeshId env) with
  | Some active, Some stored =>
      if String.eqb stored active then mret ()
      else announce (CredentialsMeshMismatch stored active);;
           throw (CredentialErr (CredentialMismatch stored active))
  | _, _ => mret ()
  end.

(** [persistCredentials], as a connection sees it: it says that it has kept them, or what it throws ends
    the connection. *)
Definition keep_credentials (env : ConnectEnv) (cfg : Config) : M (Engine A) () :=
  match cv_kept env with
  | None => mret ()
  | Some (Ok encrypted) => announce (CredentialsPersisted (cf_deviceId cfg) encrypted)
  | Some (Throw err) => throw err
  end.

(** The forced load of a connection, which leaves the remembered mesh alone. *)
Definition load_for_connect (env : ConnectEnv) (cfg : Config) (reason : string)
    (createIfMissing persistCache : bool) : M (Engine A) bool :=
  requireAdapter "manifest";;
  requireRemotePath cfg "manifest";;
  sess (doLoadOrCreateManifest (h_env (cv_host env)) cfg reason true
          (mkLoadOptions false createIfMissing) persistCache).

(** ** The fast path *)

(** Mesh id and encryption of the cached manifest. *)
Definition cached_identity (e : Engine A) : option (option string * option bool) :=
  match ss_manifest (en_session e) with
  | Some m => Some (Some (m_meshId (m_payload m)), m_encrypted (m_payload m))
  | None =>
      match store_getMeta "manifestCache" (en_local e) with
      | VObj fs => let v := VObj fs in
          Some (str_meta (field "meshId" v),
                match field "encrypted" v with VBool b => Some b | _ => None end)
      | _ => None
      end
  end.

Definition clearRemoteAccessPause : M (Engine A) () :=
  e ← gets id;
  match en_access e with
  | None => mret ()
  | Some previous => modify (with_access None);; announce (RemoteAccessRestored previous)
  end.

(** What every successful connection ends with. *)
Definition session_started (env : ConnectEnv) (cfg : Config) (ec : EngineConfig)
    (check_retention : bool) : M (Engine A) () :=
  startPolling (cv_pollInterval env);;
  startRemoteInvalidations env;;
  sess (modify (set_connected true));;
  clearRemoteAccessPause;;
  markSuccessfulRemoteSync (cv_host env);;
  when check_retention (scheduleRetentionCompactionCheck (cv_host env) cfg ec 0);;
  setConnectionStatus Idle.

Definition head_stamp (d : Doc) : option string :=
  match d with DHead h => latestHlc h | _ => None end.

(** The part inside the [try]: compare the head and the listing with the receipts. *)
Definition fast_probe (env : ConnectEnv) (cfg : Config) (ec : EngineConfig) (ledger : Ledger)
    : M (Engine A) bool :=
  let root := cf_remotePath cfg in
  head ← sess (remote (readJson (changesHead root)));
  lift (match head with DOther VNull => Throw (JsError "head is null") | _ => Ok () end);;
  announce (TraceHead "read" "connect-fast-path" (changesHead root) (head_stamp head) None false);;
  match opt_truthy (head_stamp head) with
  | Some latest =>
      if num_leb (hlcCompareStr latest (globalHighWaterHlc ledger)) (Num 0) then
        files ← sess (remote (listFiles (changesFolder root)));
        if hasUnseenChange ledger (fe_name <$> files) then mret false
        else
          announce (TraceHead "skip-no-change" "connect-fast-path" (changesHead root)
                      (Some latest) (Some (globalHighWaterHlc ledger)) false);;
          e ← gets id;
          announce (ConnectState (live_meshId e) None None);;
          announce (SyncComplete 0);;
          session_started env cfg ec true;;
          mret true
      else mret false
  | None => mret false
  end.

Definition offline_expired (host : Host) (policy : RetentionPolicy) (e : Engine A) : bool :=
  bool_decide (is_Some (offlineRetentionState host policy
    (store_getMeta LAST_SUCCESSFUL_SYNC_AT_META (en_local e)))).

Definition fast_path_checks (env : ConnectEnv) (cfg : Config) (ec : EngineConfig)
    : M (Engine A) bool :=
  e ← gets id;
  let ledger := load (en_local e) in
  if negb (truthy (globalHighWaterHlc ledger)) || negb (hasExactObservationHistory ledger)
  then mret false
  else
    policy ← lift (activeRetentionPolicy cfg e);
    if offline_expired (cv_host env) policy e || (0 <? outboxSize (en_local e)) ||
       bool_decide (is_Some (peekPendingBatch (en_local e)))
    then mret false
    else
      requireRemotePath cfg "connect() fast-path";;
      catch (fast_probe env cfg ec ledger) (λ _, mret false).

(** The manifest is the cached mesh's; then, when nothing is queued and the
    receipts are exact, the probe decides. *)
Definition tryConnectFastPath (env : ConnectEnv) (cfg : Config) (ec : EngineConfig)
    : M (Engine A) bool :=
  e ← gets id;
  match cached_identity e with
  | None => mret false
  | Some (cachedMeshId, cachedEncrypted) =>
      if negb (bool_decide (cachedEncrypted = Some (ss_encrypted (en_session e)))) then mret false
      else
        loaded ← catch (load_for_connect env cfg "connect-fast-path-identity" false false;; mret true)
                   (λ _, mret false);
        e ← gets id;
        if negb loaded ||
           negb (bool_decide ((λ m, m_meshId (m_payload m)) <$> ss_manifest (en_session e) = cachedMeshId))
        then mret false
        else
          assertCredentialMeshParity env;;
          fast_path_checks env cfg ec
  end.

(** ** The stages *)
Definition stage_failed {B} (name : string) (err : error) : M (Engine A) B :=
  handleRemoteAccessError err "connect";;
  announce (ConnectError name err);;
  throw err.

(** Run a stage and go on with its result; a stalled stage ends the connection
    attempt without an error. *)
Definition stage {B} (env : ConnectEnv) (name : string) (op : M (Engine A) B)
    (k : B → M (Engine A) ()) : M (Engine A) () :=
  if cv_stalls env name then
    announce (ConnectError name (JsError ("Connect stage " +:+ name +:+ " exceeded its deadline")));;
    setConnectionStatus Offline
  else b ← catch op (stage_failed name); k b.

Definition ensure_folders (env : ConnectEnv) (folders : list string) (k : M (Engine A) ())
    : M (Engine A) () :=
  foldr (λ folder k, stage env "ensureFolder" (sess (remote (ensureFolder folder))) (λ _, k)) k folders.

Definition local_epoch (e : Engine A) : jsnum :=
  match store_getMeta "epoch" (en_local e) with VNum n => n | _ => Num 0 end.
Definition remote_epoch (e : Engine A) : jsnum :=
  Num (from_option (λ m, m_epoch (m_payload m)) 0%Z (ss_manifest (en_session e))).

(** A reader loads the manifest that exists, and pulls. *)
Definition reader_connect (fuel : nat) (env : ConnectEnv) (cfg : Config) (mc : MeshConfig)
    (ec : EngineConfig) : M (Engine A) () :=
  stage env "loadExistingManifest" (load_for_connect env cfg "reader-connect" false true) (λ _,
    remembered ← store (gets rememberedMeshIdentity);
    applyJoinExistingMeshPolicy cfg mc false;;
    _ ← applyMeshEvictionPolicy cfg mc false remembered;
    e ← gets id;
    if (0 <? outboxSize (en_local e)) || bool_decide (is_Some (peekPendingBatch (en_local e)))
    then stage_failed "readerLocalState" (JsError
           "InterocitorReader localStore contains queued writes; use a dedicated reader cache")
    else
      modify (with_fresh true);;
      stage env "pull" (pullNow fuel (cv_host env) cfg ec) (λ _,
        session_started env cfg ec false)).

(** What brings the local store up to date: the reset of a client that was away for
    too long, the snapshot of a newer epoch, or a pull.  [k] learns whether the queue
    was dealt with on the way. *)
Definition catch_up (fuel : nat) (env : ConnectEnv) (cfg : Config) (ec : EngineConfig)
    (expired : bool) (k : bool → M (Engine A) ()) : M (Engine A) () :=
  e ← gets id;
  let host := cv_host env in
  if expired then
    stage env "expired-client-rehydrate" (resetExpiredClientFromRemote fuel host cfg ec) (λ _, k true)
  else if num_ltb (local_epoch e) (remote_epoch e) then
    stage env "flush-and-rehydrate" (flushAndRehydrateNow fuel host cfg ec) (λ _, k true)
  else stage env "pull" (pullNow fuel host cfg ec) (λ _, k false).

(** Publish again what an eviction or a bootstrap asks for, and flush. *)
Definition republish_and_flush (env : ConnectEnv) (cfg : Config) (ec : EngineConfig)
    (bootstrapped refill expired flushed : bool) : M (Engine A) () :=
  e ← gets id;
  let republish := negb (en_awaitingRefill e) && (bootstrapped || (refill && negb expired)) in
  when republish (rebuildOutboxFromLocalState (cv_host env) cfg (cv_ids env));;
  if negb flushed || republish then
    stage env "flush" (flushQueued (cv_host env) cfg ec true) (λ _, session_started env cfg ec true)
  else session_started env cfg ec true.

(** From the manifest on. *)
Definition join_mesh (fuel : nat) (env : ConnectEnv) (cfg : Config) (mc : MeshConfig)
    (ec : EngineConfig) (remembered : string * option Z) (bootstrapped : bool) : M (Engine A) () :=
  let host := cv_host env in
  catch (assertCredentialMeshParity env) (stage_failed "credentialMeshParity");;
  applyJoinExistingMeshPolicy cfg mc bootstrapped;;
  refill ← applyMeshEvictionPolicy cfg mc bootstrapped remembered;
  keep_credentials env cfg;;
  expired ← quarantineExpiredOfflineWrites host cfg ec;
  stage env "upsertDeviceMetadata" (sess (remote (upsertDeviceMetadata (env_now (h_env host))
      (cf_remotePath cfg) (cf_deviceId cfg)
      (mkUpsert (up_displayName (ec_upsert ec)) (up_deviceType (ec_upsert ec))
         None None None bootstrapped (negb bootstrapped))))) (λ _,
    e ← gets id;
    announce (ConnectState (live_meshId e) (Some (local_epoch e)) (Some (remote_epoch e)));;
    catch_up fuel env cfg ec expired (republish_and_flush env cfg ec bootstrapped refill expired)).

Definition authenticated (env : ConnectEnv) (k : M (Engine A) ()) : M (Engine A) () :=
  e ← gets id;
  if isAuthenticated (ss_adapter (en_session e)) then k
  else announce AuthRequired;;
       stage env "authenticate" (sess (remote authenticate)) (λ _, announce AuthComplete;; k).

Definition writer_connect (fuel : nat) (env : ConnectEnv) (cfg : Config) (mc : MeshConfig)
    (ec : EngineConfig) : M (Engine A) () :=
  fast ← tryConnectFastPath env cfg ec;
  if fast : bool then mret ()
  else
    requireRemotePath cfg "connect()";;
    let root := cf_remotePath cfg in
    ensure_folders env [root; devicesFolder root; mainlineFolder root; changesFolder root]
      (remembered ← store (gets rememberedMeshIdentity);
       stage env "loadOrCreateManifest" (load_for_connect env cfg "connect" true true)
         (join_mesh fuel env cfg mc ec remembered)).

Definition doConnect (fuel : nat) (env : ConnectEnv) (cfg : Config) (mc : MeshConfig)
    (ec : EngineConfig) : M (Engine A) () :=
  requireAdapter "connect()";;
  authenticated env
    (if cf_reader cfg then reader_connect fuel env cfg mc ec else writer_connect fuel env cfg mc ec).

(** [connect], without the key resolution before it.  A second caller that arrives while
    [doConnect] runs is given the same promise. *)
Definition connect (fuel : nat) (env : ConnectEnv) (cfg : Config) (mc : MeshConfig)
    (ec : EngineConfig) : M (Engine A) () :=
  set_poll (λ p, mkPoll (p_base p) (p_current p) (p_running p) false (p_relay p));;
  if negb (truthy (cf_remotePath cfg))
  then throw (JsError "connect() requires remotePath; configure mesh before connecting")
  else
    setConnectionStatus Connecting;;
    e ← gets id;
    if en_connected e && negb (poisoned e) then announce ConnectNoop
    else doConnect fuel env cfg mc ec.

(** ** Tear-down *)
Definition clearCompactTimers : M (Engine A) () :=
  set_compact (λ c, mkCompactState (c_version c + 1) None None None (c_runtime c)).
Definition clear_poison (s : Session A) : Session A :=
  mkSession (ss_adapter s) (ss_local s) (ss_tables s) (ss_knownTables s) (ss_hlc s)
    (ss_manifest s) (ss_encrypted s) None (ss_connected s) (ss_events s).

Definition disconnect (env : ConnectEnv) (cfg : Config) (ec : EngineConfig) : M (Engine A) () :=
  set_poll halt_poll;; set_poll (set_relay false);;
  clearScheduledFlush;;
  clearCompactTimers;;
  clearBatchTimer;;
  e ← gets id;
  when (negb (cf_reader cfg) && negb (poisoned e))
    (catch (flushQueued (cv_host env) cfg ec true;; mret ()) (λ _, mret ()));;
  announce (TransportTeardown "disconnect");;
  store (modify store_close);;
  sess (modify (set_connected false));;
  setConnectionStatus Offline;;
  sess (modify clear_poison);;
  modify (with_access None).

(** [adapter] is the new remote, none to detach; [same] when it is the current one.
    An initialised engine recounts its queue; then it connects again if it was
    connected. *)
Definition setRemoteStorage (fuel : nat) (env : ConnectEnv) (cfg : Config) (mc : MeshConfig)
    (ec : EngineConfig) (adapter : option A) (same initialized : bool) : M (Engine A) () :=
  if same then mret ()
  else
    e ← gets id;
    let wasConnected := en_connected e in
    when (wasConnected && en_adapter e && negb (poisoned e))
      (catch (pullNow fuel (cv_host env) cfg ec) (λ _, mret ()));;
    set_poll halt_poll;; set_poll (set_relay false);;
    clearScheduledFlush;;
    sess (modify (set_connected false));;
    when (en_adapter e)
      (sess (remote (modify resetFolderCache));;
       announce (TransportTeardown (match adapter with Some _ => "switch-adapter" | None => "detach" end)));;
    sess (modify (λ s, set_manifest None (ss_encrypted s) s));;
    sess (modify clear_poison);;
    when initialized (n ← store (gets outboxSize); set_write (with_pendingCount n));;
    modify (λ e, mkEngine
      (match adapter with Some a => set_adapter a (en_session e) | None => en_session e end)
      (match adapter with Some _ => true | None => false end) (en_replicas e) (en_status e) None
      (en_readerManifestFresh e) (en_write e) (en_observers e) (en_compact e) (en_poll e)
      (en_awaitingRefill e));;
    when (wasConnected && match adapter with Some _ => true | None => false end)
      (connect fuel env cfg mc ec).
End connect.

(** ** Theory: the fast path *)
Section fast_path.
Context `{Platform} {A : Type} `{HA : !StorageAdapter A} `{!DateText}.
Implicit Types e : Engine A.

(** Steps that touch neither the receipts, the queue nor the remote, but for the
    manifest of a bootstrap. *)
Definition at_rest (cfg : Config) e e' : Prop :=
  quiet (en_session e) (en_session e') ∧
  touches (manifest_path (cf_remotePath cfg)) (en_session e) (en_session e').
#[global] Instance at_rest_preorder cfg : PreOrder (at_rest cfg).
Proof.
  split; [intros e; by split|]. intros e1 e2 e3 [Q1 T1] [Q2 T2].
  split; [by transitivity (en_session e2)|by transitivity (en_session e2)].
Qed.

Lemma session_after_poison s s' e : en_session (after_poison s s' e) = en_session e.
Proof. unfold after_poison. by case_match. Qed.
Lemma rest_sess {B} cfg (m : M (Session A) B) : keeps quiet m →
  keeps (touches (manifest_path (cf_remotePath cfg))) m → keeps (at_rest cfg) (sess m).
Proof.
  intros Hq Ht e r e'. unfold sess. destruct (m (en_session e)) as [r0 s] eqn:E. intros [= _ <-].
  unfold at_rest. rewrite session_after_poison. split; [by eapply Hq|by eapply Ht].
Qed.
Lemma rest_calm {B} cfg (m : M (Engine A) B) : calm m → keeps (at_rest cfg) m.
Proof.
  intros Hm e r e' E. destruct (Hm e) as (b & e1 & E1 & El & Ea & _). rewrite E in E1.
  injection E1 as _ <-. split; [by apply quiet_same|apply touches_same; by rewrite Ea].
Qed.
Lemma rest_store cfg (f : MemoryLocalStore → MemoryLocalStore) :
  keeps store_quiet (modify f) → keeps (at_rest cfg) (store (modify f)).
Proof. intros Hf. apply rest_sess; [by apply quiet_loc|apply touches_loc]. Qed.

Lemma rest_mark cfg host : keeps (at_rest cfg) (markSuccessfulRemoteSync host : M (Engine A) ()).
Proof. unfold markSuccessfulRemoteSync. keeps_walk ltac:(by apply rest_store, quiet_setMeta). Qed.
Lemma calm_clear_pause : calm (clearRemoteAccessPause : M (Engine A) ()).
Proof. unfold clearRemoteAccessPause. calm_walk. Qed.
Lemma calm_set_poll f : calm (set_poll f : M (Engine A) ()).
Proof. unfold set_poll. calm_walk. Qed.
Lemma calm_invalidations env : calm (startRemoteInvalidations env : M (Engine A) ()).
Proof.
  unfold startRemoteInvalidations, startPolling, set_poll. calm_walk.
Qed.

Lemma rest_started env cfg ec b : keeps (at_rest cfg) (session_started env cfg ec b : M (Engine A) ()).
Proof.
  unfold session_started, startPolling.
  keeps_walk ltac:(idtac; lazymatch goal with
    | |- keeps _ (markSuccessfulRemoteSync _) => apply rest_mark
    | |- keeps _ (set_poll _) => apply rest_calm, calm_set_poll
    | |- keeps _ (startRemoteInvalidations _) => apply rest_calm, calm_invalidations
    | |- keeps _ clearRemoteAccessPause => apply rest_calm, calm_clear_pause
    | |- keeps _ (scheduleRetentionCompactionCheck _ _ _ _) => apply rest_calm, calm_retention
    | |- keeps _ (setConnectionStatus _) => apply rest_calm, calm_status
    | |- keeps _ (sess _) => apply rest_calm; by apply calm_sess
    end).
Qed.

Definition same_connected e e' : Prop := en_connected e' = en_connected e.
#[global] Instance same_connected_preorder : PreOrder same_connected.
Proof. split; [done|]. intros e1 e2 e3 ??. unfold same_connected in *. congruence. Qed.
Lemma connected_sess {B} (m : M (Session A) B) :
  keeps (λ s s', ss_connected s' = ss_connected s) m → keeps same_connected (sess m).
Proof.
  intros Hm e r e'. unfold sess. destruct (m (en_session e)) as [r0 s] eqn:E. intros [= _ <-].
  unfold same_connected, en_connected. rewrite session_after_poison. by eapply Hm.
Qed.
Lemma connected_modify f : (∀ e, en_session (f e) = en_session e) →
  keeps same_connected (modify f : M (Engine A) ()).
Proof. intros Hf e r e' [= _ <-]. unfold same_connected, en_connected. by rewrite Hf. Qed.
Lemma connected_status st : keeps same_connected (setConnectionStatus st : M (Engine A) ()).
Proof.
  intros e r e'. unfold setConnectionStatus. intros [= _ <-].
  unfold same_connected, en_connected. by rewrite session_after_poison.
Qed.
Ltac connected_leaf := lazymatch goal with
  | |- keeps _ (modify _) => by apply connected_modify
  | |- keeps _ (sess _) => apply connected_sess; intros ? ? ? [= _ <-]; done
  | |- keeps _ (setConnectionStatus _) => apply connected_status
  end.

Lemma connected_after_start host cfg ec b : keeps same_connected
  (clearRemoteAccessPause;; markSuccessfulRemoteSync host;;
   when b (scheduleRetentionCompactionCheck host cfg ec 0);; setConnectionStatus Idle : M (Engine A) ()).
Proof.
  unfold clearRemoteAccessPause, markSuccessfulRemoteSync, scheduleRetentionCompactionCheck, store,
    announce, set_compact, emit.
  keeps_walk ltac:(idtac; connected_leaf).
Qed.

Lemma started_ends env cfg ec b e e' :
  session_started env cfg ec b e = (Ok (), e') → en_status e' = Idle ∧ en_connected e' = true.
Proof.
  unfold session_started. intros (u1 & e1 & _ & E)%bind_ok_inv.
  apply bind_ok_inv in E as (u2 & e2 & _ & E). apply bind_ok_inv in E as (u3 & e3 & E3 & E).
  assert (en_connected e3 = true) as Hc.
  { revert E3. intros [= _ <-]. unfold en_connected. by rewrite session_after_poison. }
  split; [|rewrite (connected_after_start _ _ _ _ _ _ _ E); exact Hc].
  apply bind_ok_inv in E as (u4 & e4 & _ & E). apply bind_ok_inv in E as (u5 & e5 & _ & E).
  apply bind_ok_inv in E as (u6 & e6 & _ & E). revert E. intros [= <-].
  unfold after_poison. by case_match.
Qed.

Lemma remote_step {B} (m : M A B) e b e1 : sess (remote m) e = (Ok b, e1) →
  ∃ a, m (ss_adapter (en_session e)) = (Ok b, a) ∧ ss_adapter (en_session e1) = a.
Proof.
  unfold sess, remote. destruct (m (ss_adapter (en_session e))) as [r a]. intros [= -> <-].
  exists a. by rewrite session_after_poison.
Qed.
Lemma rest_remote {B} cfg (m : M A B) : (∀ a r a', m a = (r, a') → filesOf a' = filesOf a) →
  keeps (at_rest cfg) (sess (remote m)).
Proof. intros Hm. apply rest_sess; [apply quiet_remote|by apply touches_remote]. Qed.
Lemma rest_probe env cfg ec ledger : keeps (at_rest cfg) (fast_probe env cfg ec ledger).
Proof.
  unfold fast_probe. keeps_walk ltac:(idtac; lazymatch goal with
    | |- keeps _ (announce _) => apply rest_calm, calm_announce
    | |- keeps _ (session_started _ _ _ _) => apply rest_started
    | |- keeps _ (sess (remote (readJson _))) => apply rest_remote, readJson_files
    | |- keeps _ (sess (remote _)) => apply rest_remote; intros ? ? ?; by intros [? _]%list_files
    end).
Qed.

(** A probe that succeeds has listed the changes folder and found nothing new. *)
Lemma probe_finds_nothing env cfg ec ledger e e' :
  fast_probe env cfg ec ledger e = (Ok true, e') →
  (∃ files a a', listFiles (changesFolder (cf_remotePath cfg)) a = (Ok files, a') ∧
     filesOf a = filesOf (ss_adapter (en_session e)) ∧ hasUnseenChange ledger (fe_name <$> files) = false) ∧
  at_rest cfg e e' ∧ en_status e' = Idle ∧ en_connected e' = true.
Proof.
  intros E. pose proof (rest_probe _ _ _ _ _ _ _ E) as Hrest.
  unfold fast_probe in E. apply bind_ok_inv in E as (head & e1 & E1 & E).
  apply remote_step in E1 as (a1 & E1 & Ha1). apply readJson_files in E1.
  rewrite lift_bind in E. destruct (match head with DOther VNull => _ | _ => _ end); [|done].
  rewrite (bind_ok _ _ _ _ _ (announce_run _ e1)) in E.
  destruct (opt_truthy (head_stamp head)); [|done]. destruct (num_leb _ _); [|done].
  apply bind_ok_inv in E as (files & e2 & E2 & E). apply remote_step in E2 as (a2 & E2 & _).
  destruct (hasUnseenChange ledger (fe_name <$> files)) eqn:Eu; [done|].
  split; [|split; [done|]].
  - eexists files, _, a2. split; [exact E2|]. split; [|done]. cbn. by rewrite Ha1.
  - rewrite (bind_ok _ _ _ _ _ (announce_run _ e2)), gets_bind in E. cbn [id] in E.
    rewrite (bind_ok _ _ _ _ _ (announce_run _ _)), (bind_ok _ _ _ _ _ (announce_run _ _)) in E.
    apply bind_ok_inv in E as ([] & e3 & E3 & [= <-]). by apply started_ends in E3.
Qed.

Lemma requireRemotePath_pure cfg op e u e1 :
  requireRemotePath cfg op e = (Ok u, e1) → e1 = e.
Proof. unfold requireRemotePath. by case_match; intros [= <-]. Qed.
Lemma checks_pass env cfg ec e e' : fast_path_checks env cfg ec e = (Ok true, e') →
  queue_of (en_local e) = [] ∧ fast_probe env cfg ec (load (en_local e)) e = (Ok true, e').
Proof.
  unfold fast_path_checks. rewrite gets_bind. cbn [id]. cbv zeta. destruct (_ || _); [done|].
  rewrite lift_bind. destruct (activeRetentionPolicy cfg e) as [policy|]; [|done].
  destruct (offline_expired _ _ _ || _ || _) eqn:Eq; [done|].
  apply orb_false_iff in Eq as [[_ Ho]%orb_false_iff Hp].
  intros (u & e1 & ->%requireRemotePath_pure & E)%bind_ok_inv. split.
  - unfold queue_of, outboxSize, peekPendingBatch in *. apply Nat.ltb_ge in Ho.
    apply bool_decide_eq_false, eq_None_not_Some in Hp. rewrite Hp.
    destruct (ls_outbox (en_local e)); [done|simpl in Ho; lia].
  - revert E. unfold catch. by destruct (fast_probe _ _ _ _ _) as [[b|] ?].
Qed.
Lemma rest_load env cfg reason create persist :
  keeps (at_rest cfg) (load_for_connect env cfg reason create persist : M (Engine A) bool).
Proof.
  unfold load_for_connect, requireAdapter, requireRemotePath.
  keeps_walk ltac:(apply rest_sess; [apply quiet_doLoad|apply touches_doLoad]).
Qed.
Lemma loaded_manifest env cfg reason create e b e1 :
  load_for_connect env cfg reason create false e = (Ok b, e1) → is_Some (ss_manifest (en_session e1)).
Proof.
  unfold load_for_connect. intros (u & e2 & ->%requires_nothing_more & E)%bind_ok_inv.
  apply bind_ok_inv in E as (u' & e2 & ->%requireRemotePath_pure & E). revert E. unfold sess.
  destruct (doLoadOrCreateManifest _ _ _ _ _ _ _) as [r s] eqn:E. intros [= -> <-].
  rewrite session_after_poison. revert E. unfold doLoadOrCreateManifest. rewrite gets_bind.
  intros (hit & s1 & Ehit & E)%bind_ok_inv. assert (hit = false) as ->.
  { revert Ehit. clear. cbn [negb id]. unfold mret, M_ret. repeat case_match; congruence. }
  apply bind_ok_inv in E as ([m boot] & s2 & _ & E). revert E. intros [= _ <-]. by eexists.
Qed.
Lemma parity_runs env e u e1 : assertCredentialMeshParity env e = (Ok u, e1) → e1 = e.
Proof.
  unfold assertCredentialMeshParity. rewrite gets_bind. cbn [id].
  destruct (live_meshId e), (opt_truthy (cv_storedMeshId env)); [|by intros [= <-]..].
  destruct (String.eqb _ _); [by intros [= <-]|]. by rewrite (bind_ok _ _ _ _ _ (announce_run _ e)).
Qed.

(** The state of the store that decides survives a step that is at rest. *)
Lemma rest_queue cfg e e' : at_rest cfg e e' →
  queue_of (en_local e') = queue_of (en_local e) ∧ load (en_local e') = load (en_local e) ∧
  ∀ n, filesOf (ss_adapter (en_session e')) !! changeFile (cf_remotePath cfg) n =
       filesOf (ss_adapter (en_session e)) !! changeFile (cf_remotePath cfg) n.
Proof.
  intros [Hq Ht]. pose proof (load_quiet _ _ Hq) as El. destruct Hq as (_ & Ho & Hp).
  unfold queue_of, en_local. rewrite Ho, Hp. split_and!; [done..|]. intros n.
  apply Ht, change_not_manifest.
Qed.
End fast_path.

(** ** Properties *)

(** C27: The fast path of a connection skips nothing.  When [connect] takes it, nothing
    is queued or pending, the manifest at the remote names the mesh of the cached one,
    every change file of a fresh listing of the changes folder has a receipt, and
    the receipts, the queue and the change files are as before; the
    engine ends connected and idle. *)
Theorem fast_path_skips_nothing `{Platform} {A : Type} `{!StorageAdapter A} `{!DateText}
    (env : ConnectEnv) (cfg : Config) (ec : EngineConfig) (e e' : Engine A) :
  tryConnectFastPath env cfg ec e = (Ok true, e') →
  queue_of (en_local e) = [] ∧ at_rest cfg e e' ∧ en_status e' = Idle ∧ en_connected e' = true ∧
  (∃ meshId encrypted e1, cached_identity e = Some (Some meshId, encrypted) ∧
     (λ m, m_meshId (m_payload m)) <$> ss_manifest (en_session e1) = Some meshId ∧
     (load_for_connect env cfg "connect-fast-path-identity" false false e).2 = e1) ∧
  ∃ files a a', listFiles (changesFolder (cf_remotePath cfg)) a = (Ok files, a') ∧
    (∀ n, filesOf a !! changeFile (cf_remotePath cfg) n =
          filesOf (ss_adapter (en_session e)) !! changeFile (cf_remotePath cfg) n) ∧
    ∀ n, n ∈ fe_name <$> files → is_Some (changeFileHlc n) → n ∈ durable_seen (en_local e).
Proof.
  unfold tryConnectFastPath. rewrite gets_bind. cbn [id].
  destruct (cached_identity e) as [[mesh enc]|] eqn:Ec; [|done].
  destruct (negb (bool_decide (enc = _))); [done|]. unfold mbind at 1, M_bind at 1, catch.
  unfold mbind at 1, M_bind at 1. pose proof (rest_load env cfg "connect-fast-path-identity" false false e) as Hl.
  destruct (load_for_connect _ _ _ _ _ e) as [[b|err] e1] eqn:El1; [|done].
  apply loaded_manifest in El1 as Hman. specialize (Hl _ _ eq_refl).
  cbn [mret M_ret]. rewrite gets_bind. cbn [id negb orb].
  destruct (bool_decide (_ = mesh)) eqn:Em; [|done]. apply bool_decide_eq_true in Em. cbn [negb].
  intros (u & e2 & ->%parity_runs & E)%bind_ok_inv. apply checks_pass in E as [Hq E].
  apply probe_finds_nothing in E as ((files & a & a' & El & Ha & Hu) & Hr & Hs & Hc).
  pose proof (rest_queue cfg e e1 Hl) as (Eq & Eload & Ef). rewrite <- Eq.
  split_and!; [done|by transitivity e1|done|done| |].
  - destruct mesh as [m|]; [|by destruct Hman as [m Hman]; rewrite Hman in Em]. by exists m, enc, e1.
  - exists files, a, a'. split; [done|]. split; [intros n; by rewrite Ha, Ef|].
    intros n Hn [h Hh]. unfold durable_seen. rewrite <- Eload.
    unfold hasUnseenChange in Hu. destruct (decide (n ∈ seenChangeFiles (load (en_local e1)))); [done|].
    assert (existsb (isUnseenChange (load (en_local e1))) (fe_name <$> files) = true); [|congruence].
    apply existsb_exists. exists n. split; [by apply list_elem_of_In|].
    unfold isUnseenChange, hasSeen. by rewrite Hh, bool_decide_false.
Qed.

(** ** Witnesses *)
#[local] Instance test_dates : DateText := {| dateParse _ := Num 1711785600000 |}.
(** A device with a queued change connects to an empty remote, and later again. *)
Definition test_connect_env : ConnectEnv :=
  mkConnectEnv test_host (λ _, false) None (Some (Ok true)) false 30000 (λ n, "chg_r").
Definition offline_engine : Engine (@MemoryAdapter test_platform) :=
  let e := test_engine (@emptyAdapter test_platform "now") (pushOutbox first_change emptyStore) in
  with_session (set_connected false (set_manifest None false (en_session e))) e.
Definition first_connect :=
  @connect test_platform _ memory_storage test_dates 1 test_connect_env (test_config "dev1")
    default_mesh_config test_engine_config offline_engine.
Definition second_connect :=
  @tryConnectFastPath test_platform _ memory_storage test_dates test_connect_env
    (test_config "dev1") test_engine_config (with_session (set_connected false (en_session first_connect.2)) first_connect.2).
#[local] Strategy expand [first_connect second_connect].

Lemma second_connect_is_fast : second_connect = (Ok true, second_connect.2).
Proof.
  assert (second_connect.1 = Ok true) as H by by vm_compute.
  exact (eq_trans (surjective_pairing second_connect) (f_equal (λ r, (r, second_connect.2)) H)).
Qed.
Lemma fast_path_skips_nothing_witness :
  first_connect.1 = Ok () ∧ en_status second_connect.2 = Idle ∧ en_connected second_connect.2 = true.
Proof.
  split; [by vm_compute|].
  destruct (@fast_path_skips_nothing test_platform _ memory_storage test_dates test_connect_env
    (test_config "dev1") test_engine_config _ second_connect.2 second_connect_is_fast)
    as (_ & _ & Hs & Hc & _).
  split; [exact Hs|exact Hc].
Defined.

(** *** Two connections that go wrong *)

(** A second [connect()] leaves a connected engine reporting that it is connecting. *)
Lemma connect_noop_reports_connecting `{Platform} {A : Type} `{!StorageAdapter A} `{!DateText}
    (fuel : nat) (env : ConnectEnv) (cfg : Config) (mc : MeshConfig) (ec : EngineConfig) (e : Engine A) :
  en_connected e = true → poisoned e = false → truthy (cf_remotePath cfg) = true →
  ∃ e', connect fuel env cfg mc ec e = (Ok (), e') ∧ en_connected e' = true ∧ en_status e' = Connecting.
Proof.
  intros Hc Hp Hr. unfold connect, set_poll. unfold mbind at 1, M_bind at 1, modify at 1.
  rewrite Hr. cbn [negb]. match goal with |- context [_ ?e1 = _] => set (e0 := e1) end.
  assert (setConnectionStatus Connecting e0 =
    (Ok (), with_event (ConnectionStatusEvent Connecting) (with_status Connecting e0))) as Est.
  { unfold setConnectionStatus. rewrite (bind_ok _ _ _ () (with_status Connecting e0)) by done.
    apply announce_run. }
  rewrite (bind_ok _ _ _ _ _ Est), gets_bind. cbn [id].
  match goal with |- context [poisoned ?e1] =>
    assert (en_connected e1 = true ∧ poisoned e1 = false) as [-> ->] by by split end.
  cbn [negb andb]. rewrite announce_run. by eexists.
Qed.

(** A device of an evicted mesh remembers epoch 9 of its first life; the mesh is now in a
    later life at epoch 1, whose changes are in a snapshot. *)
Definition survivor : Engine (@MemoryAdapter test_platform) :=
  let l := store_setMeta "epoch" (VNum (Num 9)) (store_setMeta MESH_LINEAGE_META (VNum (Num 7))
             (store_setMeta "meshId" (VStr "mesh_1") emptyStore)) in
  let e := test_engine (ss_adapter first_compact.2) l in
  with_session (set_connected false (set_manifest None false (en_session e))) e.
Definition survivor_connects (l : MemoryLocalStore → MemoryLocalStore) :=
  @connect test_platform _ memory_storage test_dates 1 test_connect_env (test_config "dev3")
    default_mesh_config test_engine_config
    (with_session (set_local (l (en_local survivor)) (en_session survivor)) survivor).

(** A device that survives an eviction can miss the rows of the new life.  It keeps the
    epoch it remembers from the old life, and as long as that is not below the
    epoch of the new one it pulls instead of restoring the snapshot: it connects, reports no
    error, and lacks the rows whose change files the snapshot has replaced.  The
    same device with its epoch forgotten restores them. *)
Theorem survivor_misses_the_snapshot :
  let survived := survivor_connects id in
  let forgotten := survivor_connects (store_setMeta "epoch" (VNum (Num 0))) in
  survived.1 = Ok () ∧ en_status survived.2 = Idle ∧ en_connected survived.2 = true ∧
  store_getRow (en_local survived.2) "todo" "r1" = None ∧
  forgotten.1 = Ok () ∧
  (λ row, readColumn row "title") <$> store_getRow (en_local forgotten.2) "todo" "r1" = Some (VStr "milk").
Proof. cbv zeta. split_and!; by vm_compute. Qed.
