(* ===== verification/Credentials.v ===== *)
(** * Keys, credentials and initialisation of the engine
    ([constructor], [configureMesh], [doInit], [resolveEncryption], [restoreCredentials],
     [persistCredentials] and their helpers of [packages/core/src/core/sync-engine.ts])

    The engine with its key source, its key and its device identity.  The section that
    resolves the key, restores credentials and persists them runs under a lock of the local
    store, so it is one step for all the engines that share that store. *)

From S2P Require Import Prelude JsString Hlc Values JsMap LocalStore Octets Encryption KeySource.
From S2P Require Import Wire Crdt Convergence Observation Adapter Codec Session MergeStore Manifest Flush Pull Frame.
From S2P Require Import Compaction Rehydrate ChangeEffects LocalWrites Promises Engine Queue AutoCompact CatchUp Mesh.
From Stdlib Require String.

Open Scope stdpp_scope.

(** [SyncInitialState]; a [passphrase] may be absent, [null] or a text. *)
Record SyncInitialState := mkInitial {
  si_remotePath : option string; si_passphrase : option (option string);
  si_encrypted : option bool; si_deviceId : option string }.

(** What a step of the application finds around it: the fresh key bytes, the answer of
    [resolveInitialState] and the [onInit] callback, which works on the local cache. *)
Record InitEnv (A : Type) := mkInitEnv {
  iv_raw : list Z; iv_initial : result (option SyncInitialState); iv_onInit : M (Engine A) () }.
Arguments iv_raw {_}.
Arguments iv_initial {_}.
Arguments iv_onInit {_}.

Section credentials.
Context `{Platform} {A : Type} `{HA : !StorageAdapter A} `{!DateText} `{!WebCrypto}.
Context {W : Type} `{HW : !MeshKeySource W}.

(** The engine and what it knows of its keys; [encrypted], the manifest and the clock are those
    of its session. *)
Record Keyed := mkKeyed {
  kd_engine : Engine A; kd_keySource : option W; kd_dbName : string; kd_remotePath : string;
  kd_deviceId : string; kd_deviceIdConfigured : bool; kd_encryptionKey : option MeshKey;
  kd_passphrase : option string; kd_initialized : bool }.

Definition with_engine e (k : Keyed) : Keyed :=
  mkKeyed e (kd_keySource k) (kd_dbName k) (kd_remotePath k) (kd_deviceId k) (kd_deviceIdConfigured k)
    (kd_encryptionKey k) (kd_passphrase k) (kd_initialized k).
Definition with_keySource w (k : Keyed) : Keyed :=
  mkKeyed (kd_engine k) w (kd_dbName k) (kd_remotePath k) (kd_deviceId k) (kd_deviceIdConfigured k)
    (kd_encryptionKey k) (kd_passphrase k) (kd_initialized k).
Definition with_device d configured (k : Keyed) : Keyed :=
  mkKeyed (kd_engine k) (kd_keySource k) (kd_dbName k) (kd_remotePath k) d configured
    (kd_encryptionKey k) (kd_passphrase k) (kd_initialized k).
Definition with_remotePath r (k : Keyed) : Keyed :=
  mkKeyed (kd_engine k) (kd_keySource k) (kd_dbName k) r (kd_deviceId k) (kd_deviceIdConfigured k)
    (kd_encryptionKey k) (kd_passphrase k) (kd_initialized k).
Definition with_key key passphrase (k : Keyed) : Keyed :=
  mkKeyed (kd_engine k) (kd_keySource k) (kd_dbName k) (kd_remotePath k) (kd_deviceId k)
    (kd_deviceIdConfigured k) key passphrase (kd_initialized k).
Definition with_initialized b (k : Keyed) : Keyed :=
  mkKeyed (kd_engine k) (kd_keySource k) (kd_dbName k) (kd_remotePath k) (kd_deviceId k)
    (kd_deviceIdConfigured k) (kd_encryptionKey k) (kd_passphrase k) b.

(** A step of the engine, and of its key source. *)
Definition on_engine {B} (m : M (Engine A) B) : M Keyed B := λ k,
  let '(r, e) := m (kd_engine k) in (r, with_engine e k).
Definition on_keySource {B} (w : W) (m : M W B) : M Keyed B := λ k,
  let '(r, w') := m w in (r, with_keySource (Some w') k).
Definition kd_encrypted (k : Keyed) : bool := ss_encrypted (en_session (kd_engine k)).
Definition set_encrypted (b : bool) : M Keyed () :=
  on_engine (sess (modify (λ s, set_manifest (ss_manifest s) b s))).
Definition manifest_meshId (k : Keyed) : option string :=
  (λ m, m_meshId (m_payload m)) <$> ss_manifest (en_session (kd_engine k)).
Definition keyContext (meshId : option string) (k : Keyed) : MeshKeyContext :=
  mkContext (kd_dbName k) (kd_remotePath k) meshId (kd_deviceId k).

(** The constructor's part, on an engine whose clock has the time: a reader has a fixed identity. *)
Definition new_engine (e : Engine A) (source : option W) (dbName remotePath : string)
    (configured : option string) (fresh : string) (reader : bool) : Keyed :=
  let deviceId := if reader then "reader" else default fresh configured in
  let fresh_session s := set_clock (mkHLC (ts (ss_hlc s)) (Num 0) deviceId)
                           (set_manifest None (bool_decide (is_Some source)) s) in
  mkKeyed (with_session (fresh_session (en_session e)) e)
    source dbName remotePath deviceId (reader || bool_decide (is_Some (opt_truthy configured)))
    None None false.

(** ** Identity *)
Definition setDeviceId (deviceId : string) : M Keyed () :=
  k ← gets id;
  modify (with_device deviceId (kd_deviceIdConfigured k));;
  on_engine (sess (modify (λ s, set_clock (mkHLC (ts (ss_hlc s)) (counter (ss_hlc s)) deviceId) s))).
Definition restoreDeviceIdFromLocalStore : M Keyed () :=
  k ← gets id;
  if kd_deviceIdConfigured k then mret ()
  else match opt_truthy (str_meta (store_getMeta "deviceId" (en_local (kd_engine k)))) with
       | Some stored => setDeviceId stored
       | None => mret ()
       end.
Definition persistDeviceIdToLocalStore : M Keyed () :=
  k ← gets id; on_engine (store (modify (store_setMeta "deviceId" (VStr (kd_deviceId k))))).

(** ** Credentials at rest *)
Definition inspect_failed (err : error) : error :=
  match err with CredentialErr (AccessFailed _) => err | _ => CredentialErr (PersistenceFailed "inspect") end.
Definition loadPersistedCredentials : M Keyed (option StoredCredentials) :=
  k ← gets id;
  match kd_keySource k with
  | None => mret None
  | Some w =>
      match ks_durable w with
      | Some false => mret None
      | None => throw (CredentialErr ContractInvalid)
      | Some true =>
          match ks_loadPersistedCredentials with
          | None => throw (CredentialErr ContractInvalid)
          | Some inspect => catch (on_keySource w inspect) (λ err, throw (inspect_failed err))
          end
      end
  end.
Definition persist_failed (err : error) : error :=
  match err with
  | CredentialErr (PersistenceFailed _) | CredentialErr ContractInvalid | CredentialErr (AccessFailed _) => err
  | _ => CredentialErr (PersistenceFailed "persist")
  end.
Definition persistCredentials : M Keyed () :=
  k ← gets id;
  match kd_keySource k, opt_truthy (kd_passphrase k) with
  | Some _, Some passphrase =>
      catch
        (meshId ← match opt_truthy (manifest_meshId k) with
                  | Some m => mret (Some m)
                  | None => existing ← loadPersistedCredentials;
                            mret (match opt_truthy (existing ≫= cr_meshId) with
                                  | Some m => Some m
                                  | None => manifest_meshId k
                                  end)
                  end;
         k ← gets id;
         match kd_keySource k with
         | Some w =>
             on_keySource w (ks_persist (keyContext meshId k)
               (mkCreds passphrase (kd_deviceId k) (opt_truthy meshId)))
         | None => mret ()
         end;;
         on_engine (announce (CredentialsPersisted (kd_deviceId k) (kd_encrypted k))))
        (λ err, throw (persist_failed err))
  | _, _ => mret ()
  end.
Definition clearPersistedCredentials : M Keyed () :=
  k ← gets id;
  match kd_keySource k with Some w => on_keySource w ks_clear | None => mret () end.
Definition clearCredentials : M Keyed () :=
  clearPersistedCredentials;;
  modify (with_key None None);;
  set_encrypted false.

(** ** The key *)
Definition resolveEncryption (reader : bool) (raw : list Z) : M Keyed () :=
  k ← gets id;
  if negb (kd_encrypted k) then mret ()
  else match kd_keySource k with
       | None => throw (JsError "Encrypted meshes require a keySource")
       | Some w =>
           resolved ← on_keySource w (ks_load (keyContext (manifest_meshId k) k));
           let inaccessible := bool_decide (mm_credentialStatus resolved = Some "unavailable") ||
                               bool_decide (mm_credentialStatus resolved = Some "unreadable") in
           when (bool_decide (mm_key resolved = None) &&
                 bool_decide (opt_truthy (mm_portableKey resolved) = None) && inaccessible)
             (access_failed (if bool_decide (mm_credentialStatus resolved = Some "unavailable")
                             then Unavailable else Unreadable));;
           set_encrypted (mm_encrypted resolved);;
           modify (with_key (mm_key resolved) (mm_portableKey resolved));;
           match mm_key resolved, opt_truthy (mm_portableKey resolved) with
           | None, Some p =>
               key ← lift (passphraseToKey p false);
               modify (with_key (Some key) (mm_portableKey resolved))
           | _, _ => mret ()
           end;;
           k ← gets id;
           if bool_decide (kd_encryptionKey k = None) && kd_encrypted k then
             if reader then throw (JsError "InterocitorReader requires the existing mesh key; it never generates one")
             else
               '(key, portableKey) ← lift (generateMeshKeyMaterial raw);
               modify (with_key (Some key) (Some portableKey))
           else mret ()
       end.

Definition applyInitialState (state : option SyncInitialState) : M Keyed () :=
  match state with
  | None => mret ()
  | Some state =>
      match opt_truthy (si_deviceId state) with
      | Some d => setDeviceId d;; k ← gets id; modify (with_device (kd_deviceId k) true)
      | None => mret ()
      end;;
      match si_remotePath state with Some r => modify (with_remotePath r) | None => mret () end;;
      match si_encrypted state with
      | Some b => set_encrypted b;; when (negb b) (modify (with_key None None))
      | None => mret ()
      end;;
      match si_passphrase state with
      | Some p => modify (with_key None p);; when (bool_decide (is_Some p)) (set_encrypted true)
      | None => mret ()
      end
  end.

Definition configureMesh (state : SyncInitialState) : M Keyed () :=
  k ← gets id;
  if en_connected (kd_engine k) then throw (JsError "Cannot configure mesh while connected")
  else if kd_initialized k
  then throw (JsError "Cannot configure mesh after init(); create a new engine or configure before connect")
  else
    applyInitialState (Some state);;
    k ← gets id;
    on_engine (announce (MeshConfigured (kd_remotePath k) (kd_deviceId k) (kd_encrypted k)
                           (bool_decide (is_Some (kd_passphrase k))))).

(** [CredentialsMeshMismatch] and [CredentialsConflict] are announced before the refusal. *)
Definition check_stored_mesh (stored : StoredCredentials) : M Keyed () :=
  k ← gets id;
  match opt_truthy (cr_meshId stored),
        opt_truthy (str_meta (store_getMeta "meshId" (en_local (kd_engine k)))) with
  | Some storedMeshId, Some localMeshId =>
      if String.eqb localMeshId storedMeshId then mret ()
      else on_engine (announce (CredentialsMeshMismatch storedMeshId localMeshId));;
           throw (CredentialErr (CredentialMismatch storedMeshId localMeshId))
  | _, _ => mret ()
  end.
Definition restore_device (stored : StoredCredentials) : M Keyed bool :=
  k ← gets id;
  if truthy (cr_deviceId stored) && negb (String.eqb (cr_deviceId stored) (kd_deviceId k)) then
    on_engine (announce (CredentialsConflict (cr_deviceId stored) (kd_deviceId k)));;
    setDeviceId (cr_deviceId stored);;
    mret true
  else mret false.
Definition restore_key (stored : StoredCredentials) : M Keyed bool :=
  k ← gets id;
  if kd_encrypted k && truthy (cr_portableKey stored) then
    match opt_truthy (kd_passphrase k) with
    | None => modify (with_key (kd_encryptionKey k) (Some (cr_portableKey stored)));; mret true
    | Some p =>
        if String.eqb p (cr_portableKey stored) then mret false
        else on_engine (announce (CredentialsConflict (cr_deviceId stored) (kd_deviceId k)));;
             throw (CredentialErr ReplacementRequired)
    end
  else mret false.
Definition restoreCredentials : M Keyed () :=
  stored ← loadPersistedCredentials;
  match stored with
  | None => mret ()
  | Some stored =>
      check_stored_mesh stored;;
      deviceIdChanged ← restore_device stored;
      restoredPortableKey ← restore_key stored;
      on_engine (announce (CredentialsRestored deviceIdChanged restoredPortableKey))
  end.

(** ** Initialisation *)

(** The section under [CREDENTIAL_STATE_LOCK]. *)
Definition credential_section (raw : list Z) : M Keyed () :=
  restoreDeviceIdFromLocalStore;;
  resolveEncryption false raw;;
  restoreCredentials;;
  persistCredentials;;
  persistDeviceIdToLocalStore.
Definition own_config (cfg : Config) (k : Keyed) : Config :=
  mkConfig (kd_remotePath k) (cf_serverId cfg) (cf_serverManaged cfg) (kd_deviceId k) (cf_encrypted cfg)
    (cf_key cfg) (cf_schema cfg) (cf_retention cfg) (cf_reader cfg).
Definition finish_init (cfg : Config) (env : InitEnv A) : M Keyed () :=
  k ← gets id;
  when (kd_encrypted k && bool_decide (is_Some (kd_encryptionKey k)) &&
        bool_decide (is_Some (kd_keySource k)) && negb (cf_reader cfg))
    (on_engine (announce (EncryptionResolved true)));;
  on_engine (loadLocalState (own_config cfg k));;
  modify (with_initialized true);;
  on_engine (setConnectionStatus Offline);;
  on_engine (iv_onInit env).
Definition doInit (cfg : Config) (env : InitEnv A) : M Keyed () :=
  match cf_schema cfg ≫= sd_version with
  | Some v => on_engine (store (modify (store_setMeta "schema:version" (VNum (Num v)))))
  | None => mret ()
  end;;
  initialState ← lift (iv_initial env);
  applyInitialState initialState;;
  (if cf_reader cfg then resolveEncryption true (iv_raw env) else credential_section (iv_raw env));;
  finish_init cfg env.
End credentials.
Arguments Keyed A W : clear implicits.

(** ** Theory *)

(** What a step of the keyed engine does to the credentials that are held: a portable key that is
    held, and its device, stay. *)
Section portable_theory.
Context `{Platform} {A : Type} `{HA : !StorageAdapter A} `{!DateText} `{!WebCrypto}.
Context {K : Type} `{HS : HonestStore K}.
Abbreviation T := (Keyed A (PortablePassphraseKeySource * K)).
Implicit Types k : T.

Definition heldk k : option StoredCredentials := kd_keySource k ≫= λ w, held w.2.
(** The engine has a source with a store. *)
Definition durable k : Prop := from_option (λ w, ps_credentialStore w.1 = true) False (kd_keySource k).

(** Identity, key and credentials are as they were; [unmoved] leaves the device open. *)
Definition unmoved k k' : Prop :=
  (durable k → durable k') ∧ heldk k' = heldk k ∧ kd_encrypted k' = kd_encrypted k ∧
  kd_encryptionKey k' = kd_encryptionKey k ∧ kd_passphrase k' = kd_passphrase k.
Definition still k k' : Prop := unmoved k k' ∧ kd_deviceId k' = kd_deviceId k.
#[local] Instance unmoved_preorder : PreOrder unmoved.
Proof.
  split; [by intros k|]. intros k1 k2 k3 (? & ? & ? & ? & ?) (? & ? & ? & ? & ?).
  split; [tauto|]. split_and!; congruence.
Qed.
#[local] Instance still_preorder : PreOrder still.
Proof.
  split; [by intros k|]. intros k1 k2 k3 [? ?] [? ?].
  split; [by etransitivity|congruence].
Qed.

Lemma still_unmoved {B} (m : M T B) : keeps still m → keeps unmoved m.
Proof. intros Hm k r k' E. by destruct (Hm _ _ _ E). Qed.
Lemma engine_still {B} (m : M (Engine A) B) :
  keeps (λ e e', ss_encrypted (en_session e') = ss_encrypted (en_session e)) m → keeps still (on_engine m).
Proof.
  intros Hm k r k'. unfold on_engine. destruct (m (kd_engine k)) as [r0 e'] eqn:E. intros [= <- <-].
  specialize (Hm _ _ _ E). by repeat split.
Qed.
Lemma announce_still ev : keeps still (on_engine (announce ev) : M T ()).
Proof.
  apply engine_still. intros e r e'. unfold announce, sess, emit, modify, after_poison.
  intros [= _ <-]. by destruct (bool_decide _ && _).
Qed.
Lemma store_still (g : MemoryLocalStore → MemoryLocalStore) : keeps still (on_engine (store (modify g)) : M T ()).
Proof.
  apply engine_still. intros e r e'. unfold store, sess, loc, modify, after_poison.
  intros [= _ <-]. by destruct (bool_decide _ && _).
Qed.

Lemma setDeviceId_run d k : ∃ k', setDeviceId d k = (Ok (), k') ∧ unmoved k k' ∧ kd_deviceId k' = d.
Proof.
  unfold setDeviceId. rewrite gets_bind. unfold mbind, M_bind, modify, on_engine, sess.
  eexists. split; [done|]. split; [|done]. unfold after_poison.
  split; [by destruct (bool_decide _ && _)|]. by destruct (bool_decide _ && _).
Qed.
Lemma setDeviceId_unmoved d : keeps unmoved (setDeviceId d : M T ()).
Proof. intros k r k' E. destruct (setDeviceId_run d k) as (k1 & E1 & Hu & _). rewrite E1 in E. by injection E as _ <-. Qed.
Lemma restore_id_unmoved : keeps unmoved (restoreDeviceIdFromLocalStore : M T ()).
Proof. unfold restoreDeviceIdFromLocalStore. keeps_walk ltac:(apply setDeviceId_unmoved). Qed.

(** A step on the source's side that only reads. *)
Lemma source_read {B} (m : M (PortablePassphraseKeySource * K) B) w k :
  kd_keySource k = Some w →
  (∀ r w', m w = (r, w') → held w'.2 = held w.2 ∧ ps_credentialStore w'.1 = ps_credentialStore w.1) →
  ∀ r k', on_keySource w m k = (r, k') → still k k'.
Proof.
  intros Hw Hm r k'. unfold on_keySource. destruct (m w) as [r0 w'] eqn:E. intros [= <- <-].
  destruct (Hm _ _ eq_refl) as [Hh Hs]. split; [|done]. unfold unmoved, durable, heldk. cbn. rewrite Hw. cbn.
  split; [congruence|]. by split_and!.
Qed.

Lemma loadPersisted_spec k r k' : durable k → loadPersistedCredentials k = (r, k') →
  still k k' ∧
  (∀ c, r = Ok (Some c) → heldk k = Some c ∧ truthy (cr_portableKey c) = true) ∧
  (r = Ok None → has_portableKey (heldk k) = false).
Proof.
  unfold loadPersistedCredentials, durable. rewrite gets_bind. cbn [id].
  destruct (kd_keySource k) as [w|] eqn:Ew; [|done]. cbn. intros Hd. rewrite Hd.
  unfold catch. rewrite ?gets_bind. unfold on_keySource, gets, mbind, M_bind. cbn. rewrite Hd.
  destruct (on_store (readCredentialState true) w) as [r0 w'] eqn:E.
  assert (on_keySource w (on_store (readCredentialState true)) k = (r0, with_keySource (Some w') k)) as Es
    by (unfold on_keySource; by rewrite E).
  apply on_store_run in E as (kk & E & ->). apply read_honest in E as (Hh & Hsome & Hnone).
  assert (still k (with_keySource (Some (w.1, kk)) k)) as Hst.
  { eapply (source_read _ w k Ew); [|exact Es]. intros r1 w1 E1. apply on_store_run in E1 as (kk1 & E1 & ->).
    apply read_honest in E1 as (Hh1 & _). done. }
  assert (heldk k = held w.2) as -> by (unfold heldk; by rewrite Ew).
  destruct r0 as [c|err]; intros [= <- <-]; split; try done. split.
  - intros c' [= ->]. by apply Hsome.
  - intros [= ->]. by apply Hnone.
Qed.

Lemma truthy_of_opt o s : opt_truthy o = Some s → o = Some s ∧ truthy s = true.
Proof. unfold opt_truthy. destruct o as [x|]; [|done]. by destruct (truthy x) eqn:E; intros [= <-]. Qed.
Lemma portable_load_spec ctx (w : PortablePassphraseKeySource * K) r w' : portable_load ctx w = (r, w') →
  held w'.2 = held w.2 ∧ ps_credentialStore w'.1 = ps_credentialStore w.1 ∧
  (∀ m, r = Ok m →
     (∃ p, truthy p = true ∧ m = mkMaterial true None (Some p) (Some "present")) ∨
     (∃ b, m = mkMaterial b None None (Some "absent"))).
Proof.
  unfold portable_load. rewrite gets_bind. destruct (opt_truthy (ps_portableKey w.1)) as [p|] eqn:Ep.
  - intros [= <- <-]. split_and!; [done..|]. intros m [= <-]. left. exists p.
    by apply truthy_of_opt in Ep as [_ ?].
  - unfold mbind at 1, M_bind at 1.
    destruct (on_store (readCredentialState (ps_credentialStore w.1)) w) as [[stored|e] w1] eqn:E;
      apply on_store_run in E as (kk & E & ->); apply read_honest in E as (Hh & _ & _).
    2:{ intros [= <- <-]. by split_and!. }
    destruct (opt_truthy (cr_portableKey <$> stored)) as [p|] eqn:Es.
    + unfold on_source, modify, mbind, M_bind. intros [= <- <-]. split_and!; [done..|].
      intros m [= <-]. left. exists p. by apply truthy_of_opt in Es as [_ ?].
    + destruct (negb _); intros [= <- <-]; (split_and!; [done..|]); intros m [= <-]; right; by eexists.
Qed.

Definition bare k : Prop := kd_encrypted k = false ∧ kd_passphrase k = None ∧ kd_encryptionKey k = None.
Definition settled p key k : Prop :=
  kd_encrypted k = true ∧ kd_passphrase k = Some p ∧ truthy p = true ∧ kd_encryptionKey k = Some key ∧
  passphraseToKey p false = Ok key.

(** After a load: the fields of the engine are set from the material. *)
Lemma set_encrypted_run b k : ∃ k', set_encrypted b k = (Ok (), k') ∧ kd_encrypted k' = b ∧
  kd_keySource k' = kd_keySource k ∧ kd_deviceId k' = kd_deviceId k ∧
  kd_passphrase k' = kd_passphrase k ∧ kd_encryptionKey k' = kd_encryptionKey k.
Proof.
  unfold set_encrypted, on_engine, sess, modify. eexists. split; [done|].
  split_and!; try done. unfold kd_encrypted, after_poison. cbn. by destruct (bool_decide _ && _).
Qed.
#[local] Opaque set_encrypted passphraseToKey generateMeshKeyMaterial.
Lemma resolve_spec raw k r k' :
  durable k → (kd_encrypted k = false → bare k) → octets raw → length raw = KEY_BYTES →
  resolveEncryption false raw k = (r, k') →
  durable k' ∧ heldk k' = heldk k ∧ kd_deviceId k' = kd_deviceId k ∧
  (r = Ok () → bare k' ∨ ∃ p key, settled p key k').
Proof.
  intros Hd Hb Ho Hl. unfold resolveEncryption. rewrite gets_bind. cbn [id].
  destruct (kd_encrypted k) eqn:Ee; cbn [negb]; [|intros [= <- <-]; split_and!; try done; by left; apply Hb].
  unfold durable in Hd. destruct (kd_keySource k) as [w|] eqn:Ew; [|done]. cbn in Hd.
  unfold mbind at 1, M_bind at 1. unfold on_keySource at 1.
  destruct (ks_load (keyContext (manifest_meshId k) k) w) as [[m|e] w1] eqn:E;
    apply (portable_load_spec (keyContext (manifest_meshId k) k)) in E as (Hh & Hs & Hm).
  2:{ intros [= <- <-]. split_and!; try done; unfold durable, heldk; cbn; rewrite ?Ew; cbn; congruence. }
  set (k1 := with_keySource (Some w1) k).
  assert (durable k1 ∧ heldk k1 = heldk k) as [Hd1 Hh1]
    by (unfold durable, heldk; cbn; rewrite Ew; cbn; split; congruence).
  destruct (set_encrypted_run (mm_encrypted m) k1) as (k2 & E2 & Ee2 & Ek2 & Ed2 & _).
  assert (∀ key p, durable (with_key key p k2) ∧ heldk (with_key key p k2) = heldk k ∧
    kd_deviceId (with_key key p k2) = kd_deviceId k) as Hgen.
  { intros key p. unfold durable, heldk. cbn. rewrite Ek2, Ed2. by split_and!. }
  destruct (Hm m eq_refl) as [(p & Hp & ->)|([] & ->)]; cbn [mm_key mm_portableKey mm_encrypted mm_credentialStatus] in *.
  - rewrite (opt_truthy_Some p) by done. cbn. unfold mbind, M_bind, modify, lift, gets. cbn. rewrite E2. cbn.
    destruct (passphraseToKey p false) as [key|e] eqn:Ep; cbn.
    + unfold kd_encrypted. cbn. fold (kd_encrypted k2). intros [= <- <-].
      destruct (Hgen (Some key) (Some p)) as (? & ? & ?). split_and!; [done..|]. intros _. right. by exists p, key.
    + intros [= <- <-]. destruct (Hgen None (Some p)) as (? & ? & ?). by split_and!.
  - rewrite !(bool_decide_false (Some "absent" = _)) by done. cbn.
    unfold mbind, M_bind, modify, lift, gets. cbn. rewrite E2. cbn.
    destruct (minted_key raw Ho Hl) as [Hg Hp]. unfold kd_encrypted. cbn. fold (kd_encrypted k2). rewrite Ee2, Hg. cbn.
    intros [= <- <-]. destruct (Hgen (Some (mkMeshKey raw false true)) (Some (base58Encode raw))) as (? & ? & ?).
    split_and!; [done..|]. intros _. right. eexists _, _. split_and!; try done. by apply base58_nonempty.
  - rewrite !(bool_decide_false (Some "absent" = _)) by done. cbn.
    unfold mbind, M_bind, modify, lift, gets. cbn. rewrite E2. cbn.
    unfold kd_encrypted. cbn. fold (kd_encrypted k2). rewrite Ee2. cbn. intros [= <- <-].
    destruct (Hgen None None) as (? & ? & ?). split_and!; [done..|]. intros _. by left.
Qed.

Lemma unmoved_bare k k' : unmoved k k' → bare k → bare k'.
Proof. intros (_ & _ & He & Hk & Hp) (? & ? & ?). unfold bare. split_and!; congruence. Qed.
Lemma unmoved_settled p key k k' : unmoved k k' → settled p key k → settled p key k'.
Proof. intros (_ & _ & He & Hk & Hp) (? & ? & ? & ? & ?). unfold settled. split_and!; congruence. Qed.

Lemma check_mesh_still c : keeps still (check_stored_mesh c : M T ()).
Proof. unfold check_stored_mesh. keeps_walk ltac:(apply announce_still). Qed.
Lemma restore_device_spec c k r k' : restore_device c k = (r, k') →
  unmoved k k' ∧ kd_deviceId k' = if truthy (cr_deviceId c) then cr_deviceId c else kd_deviceId k.
Proof.
  unfold restore_device. rewrite gets_bind. cbn [id].
  destruct (truthy (cr_deviceId c)); cbn [andb]; [|intros [= <- <-]; done].
  destruct (String.eqb_spec (cr_deviceId c) (kd_deviceId k)) as [E|]; cbn [negb]; [intros [= <- <-]; done|].
  unfold mbind, M_bind. destruct (on_engine _ k) as [[[]|e] k1] eqn:E1.
  - apply announce_still in E1 as [Hu _]. destruct (setDeviceId_run (cr_deviceId c) k1) as (k2 & -> & Hu2 & Hd).
    intros [= <- <-]. split; [by etransitivity|done].
  - unfold on_engine, announce, sess, emit, modify in E1. by injection E1.
Qed.
Lemma restore_key_spec c k r k' : restore_key c k = (r, k') → truthy (cr_portableKey c) = true →
  (r = Throw (CredentialErr ReplacementRequired) ∧ still k k') ∨
  (kd_encrypted k = false ∧ k' = k) ∨
  (kd_encrypted k = true ∧ opt_truthy (kd_passphrase k) = None) ∨
  (∃ p, kd_passphrase k = Some p ∧ p = cr_portableKey c ∧ k' = k).
Proof.
  intros E Ht. revert E. unfold restore_key. rewrite gets_bind. cbn [id]. rewrite Ht, andb_true_r.
  destruct (kd_encrypted k); [|intros [= <- <-]; by right; left].
  destruct (opt_truthy (kd_passphrase k)) as [p|] eqn:Ep; [|by right; right; left].
  apply truthy_of_opt in Ep as [Ep _].
  destruct (String.eqb_spec p (cr_portableKey c)); [intros [= <- <-]; right; right; right; by exists p|].
  unfold mbind, M_bind. destruct (on_engine _ k) as [[[]|e] k1] eqn:E1.
  - apply announce_still in E1. intros [= <- <-]. by left.
  - unfold on_engine, announce, sess, emit, modify in E1. by injection E1.
Qed.

(** What is restored agrees with the key in use, or the restoration is refused. *)
Definition agrees k k' p : Prop := ∀ c, heldk k = Some c → truthy (cr_portableKey c) = true →
  cr_portableKey c = p ∧ (truthy (cr_deviceId c) = true → kd_deviceId k' = cr_deviceId c).
Lemma restore_spec k r k' :
  durable k → bare k ∨ (∃ p key, settled p key k) → restoreCredentials k = (r, k') →
  durable k' ∧ heldk k' = heldk k ∧
  (r = Ok () → (truthy (kd_deviceId k) = true → truthy (kd_deviceId k') = true) ∧
     (bare k' ∨ ∃ p key, settled p key k' ∧ agrees k k' p)).
Proof.
  intros Hd Hst. unfold restoreCredentials. unfold mbind at 1, M_bind at 1.
  destruct (loadPersistedCredentials k) as [[[c|]|e] k1] eqn:E1;
    apply loadPersisted_spec in E1 as ([Hu1 Hd1] & Hsome & Hnone); try done.
  2:{ intros [= <- <-]. destruct Hu1 as (Hu1 & Hh1 & Hrest). split_and!; [by apply Hu1|done|]. intros _.
      rewrite Hd1. split; [done|]. destruct Hst as [Hb|(p & key & Hs)].
      - left. by apply (unmoved_bare k).
      - right. exists p, key. split; [by apply (unmoved_settled _ _ k)|]. intros c Hc Ht.
        specialize (Hnone eq_refl). rewrite Hc in Hnone. cbn in Hnone. congruence. }
  2:{ intros [= <- <-]. destruct Hu1 as (Hu1 & Hh1 & _). by split_and!; [apply Hu1|..]. }
  destruct (Hsome c eq_refl) as [Hc Ht]. unfold mbind at 1, M_bind at 1.
  destruct (check_stored_mesh c k1) as [[[]|e] k2] eqn:E2; apply check_mesh_still in E2 as [Hu2 Hd2];
    [|intros [= <- <-]; destruct Hu1 as (? & ? & _), Hu2 as (? & ? & _); split_and!; [tauto|congruence|done]].
  unfold mbind at 1, M_bind at 1.
  destruct (restore_device c k2) as [[b|e] k3] eqn:E3; apply restore_device_spec in E3 as [Hu3 Hd3];
    assert (unmoved k k3) as Hu by (by do 2 (etransitivity; [done|]));
    [|intros [= <- <-]; destruct Hu as (? & ? & _); split_and!; [tauto|congruence|done]].
  rewrite Hd2, Hd1 in Hd3. unfold mbind at 1, M_bind at 1.
  destruct (restore_key c k3) as [rk k4] eqn:E4.
  destruct (restore_key_spec _ _ _ _ E4 Ht) as [(-> & [Hu4 _])|[(Hne & ->)|[(He & Hp)|(p & Hp & -> & ->)]]].
  - intros [= <- <-]. destruct Hu as (? & ? & _), Hu4 as (? & ? & _). split_and!; [tauto|congruence|done].
  - assert (bare k3) as Hb3.
    { destruct Hst as [Hb|(p & key & Hs)]; [by apply (unmoved_bare k)|].
      apply (unmoved_settled _ _ _ _ Hu) in Hs. destruct Hs as (Hs & _). congruence. }
    destruct rk as [b'|e]; [|intros [= <- <-]; destruct Hu as (? & ? & _); split_and!; [tauto|congruence|done]].
    intros E5. apply announce_still in E5 as [Hu5 Hd5].
    assert (unmoved k k') as (Hud & Huh & _) by by etransitivity. split_and!; [tauto|done|]. intros _.
    split; [intros Htd; rewrite Hd5, Hd3; by destruct (truthy (cr_deviceId c)) eqn:?|]. left. by apply (unmoved_bare k3).
  - exfalso. destruct Hst as [Hb|(p & key & Hs)].
    + apply (unmoved_bare _ _ Hu) in Hb as (Hb & _). congruence.
    + apply (unmoved_settled _ _ _ _ Hu) in Hs as (_ & Hs & Htp & _). rewrite Hs in Hp. by rewrite opt_truthy_Some in Hp.
  - destruct rk as [b'|e]; [|intros [= <- <-]; destruct Hu as (? & ? & _); split_and!; [tauto|congruence|done]].
    intros E5. apply announce_still in E5 as [Hu5 Hd5].
    assert (unmoved k k') as Huk by by etransitivity.
    assert (∃ key, settled (cr_portableKey c) key k') as [key Hs].
    { destruct Hst as [Hb|(p & key & Hs)].
      - apply (unmoved_bare _ _ Hu) in Hb as (_ & Hb & _). congruence.
      - exists key. pose proof (unmoved_settled _ _ _ _ Hu Hs) as (_ & Hs3 & _). rewrite Hp in Hs3.
        injection Hs3 as ->. by apply (unmoved_settled _ _ k). }
    destruct Huk as (Hud & Huh & _). split_and!; [tauto|done|]. intros _.
    split; [intros Htd; rewrite Hd5, Hd3; by destruct (truthy (cr_deviceId c)) eqn:?|].
    right. exists (cr_portableKey c), key. split; [done|]. intros c' Hc' _. rewrite Hc in Hc'. injection Hc' as <-.
    split; [done|]. intros Htc. rewrite Hd5, Hd3. by rewrite Htc.
Qed.

(** Persisting writes the record of the key in use, or fails. *)
Definition recorded p k (o : option StoredCredentials) : Prop := ∃ m, o = Some (mkCreds p (kd_deviceId k) m).
Definition sameKey k k' : Prop :=
  kd_encrypted k' = kd_encrypted k ∧ kd_encryptionKey k' = kd_encryptionKey k ∧
  kd_passphrase k' = kd_passphrase k ∧ kd_deviceId k' = kd_deviceId k.
Lemma still_sameKey k k' : still k k' → sameKey k k'.
Proof. intros [(_ & _ & ? & ? & ?) ?]. by split_and!. Qed.
Lemma sameKey_settled p key k k' : sameKey k k' → settled p key k → settled p key k'.
Proof. intros (He & Hk & Hp & _) (? & ? & ? & ? & ?). unfold settled. split_and!; congruence. Qed.
Lemma persist_device_still : keeps still (persistDeviceIdToLocalStore : M T ()).
Proof. unfold persistDeviceIdToLocalStore. keeps_walk ltac:(apply store_still). Qed.
Lemma persist_source ctx c w k r k' : kd_keySource k = Some w → ps_credentialStore w.1 = true →
  on_keySource w (ks_persist ctx c) k = (r, k') →
  durable k' ∧ sameKey k k' ∧ (heldk k' = Some c ∨ (heldk k' = heldk k ∧ r ≠ Ok ())).
Proof.
  intros Hw Hs. unfold on_keySource. cbn [ks_persist portable_source].
  unfold portable_persist, on_source, modify, gets, when, mbind, M_bind. cbn. rewrite Hs.
  destruct (on_store (cs_save c) _) as [r0 w'] eqn:E. apply on_store_run in E as (kk & E & ->).
  cbn in E. apply save_held in E. intros [= <- <-]. unfold durable, heldk, sameKey. cbn.
  split; [done|]. split; [done|]. by rewrite Hw.
Qed.
Lemma persisted_key_spec p key k r k' : durable k → settled p key k → persistCredentials k = (r, k') →
  durable k' ∧ settled p key k' ∧ kd_deviceId k' = kd_deviceId k ∧
  (recorded p k (heldk k') ∨ (heldk k' = heldk k ∧ r ≠ Ok ())).
Proof.
  intros Hd Hs. pose proof Hs as (_ & Hp & Ht & _). unfold persistCredentials. rewrite gets_bind. cbn [id].
  unfold durable in Hd. destruct (kd_keySource k) as [w|] eqn:Ew; [|done]. rewrite Hp, opt_truthy_Some by done.
  set (found := match opt_truthy (manifest_meshId k) with Some m => mret (Some m) | None => _ end : M T (option string)).
  assert (∀ r1 k1, found k = (r1, k1) → still k k1) as Hfound.
  { intros r1 k1. unfold found. destruct (opt_truthy _); [by intros [= _ <-]|].
    unfold mbind, M_bind. destruct (loadPersistedCredentials k) as [[c|e] k2] eqn:E;
      apply loadPersisted_spec in E as [Hst _]; try (unfold durable; by rewrite Ew); by intros [= _ <-]. }
  unfold catch. unfold mbind at 1, M_bind at 1. destruct (found k) as [[meshId|e] k1]; pose proof (Hfound _ _ eq_refl) as E1.
  2:{ intros [= <- <-]. destruct E1 as [Hu Hdev]. split; [by apply Hu; unfold durable; rewrite Ew|].
      split; [by apply (unmoved_settled _ _ k)|]. split; [done|]. right. split; [apply Hu|done]. }
  pose proof (still_sameKey _ _ E1) as (_ & _ & _ & Hdev1). destruct E1 as [Hu1 _].
  assert (durable k1) as Hd1 by (apply Hu1; unfold durable; by rewrite Ew).
  rewrite gets_bind. cbn [id]. unfold durable in Hd1. destruct (kd_keySource k1) as [w1|] eqn:Ew1; [|done].
  cbn in Hd1. unfold mbind at 1, M_bind at 1.
  destruct (on_keySource w1 _ k1) as [[[]|e] k2] eqn:E2; apply persist_source in E2 as (Hd2 & Hk2 & Hh2); try done.
  - intros E3. destruct (on_engine _ k2) as [r3 k3] eqn:E4. pose proof E4 as Hok. apply announce_still in E4.
    unfold on_engine, announce, sess, emit, modify in Hok. injection Hok as <- _. injection E3 as <- <-.
    pose proof (still_sameKey _ _ E4) as Hk3. destruct E4 as [(Hu3 & Hh3 & _) _].
    destruct Hh2 as [Hh2|[_ []]]; [|done]. split; [by apply Hu3|].
    split; [by eapply sameKey_settled; [exact Hk3|]; eapply sameKey_settled; [exact Hk2|]; eapply unmoved_settled|].
    destruct Hk2 as (_ & _ & _ & Hdev2), Hk3 as (_ & _ & _ & Hdev3). split; [congruence|].
    left. exists (opt_truthy meshId). rewrite Hh3, Hh2. by rewrite Hdev1.
  - intros [= <- <-]. split; [done|]. split; [by eapply sameKey_settled; [exact Hk2|]; eapply unmoved_settled|].
    destruct Hk2 as (_ & _ & _ & Hdev2). split; [congruence|]. destruct Hh2 as [Hh2|[Hh2 _]].
    + left. exists (opt_truthy meshId). rewrite Hh2. by rewrite Hdev1.
    + right. split; [|done]. rewrite Hh2. apply Hu1.
Qed.
Lemma persist_bare k r k' : bare k → persistCredentials k = (r, k') → k' = k.
Proof.
  intros (_ & Hp & _). unfold persistCredentials. rewrite gets_bind. cbn [id]. rewrite Hp.
  by destruct (kd_keySource k); intros [= _ <-].
Qed.

(** *** The section under the lock *)

(** A portable key that is held stays, with its device. *)
Definition kept (o o' : option StoredCredentials) : Prop :=
  ∀ c, o = Some c → truthy (cr_portableKey c) = true →
    ∃ c', o' = Some c' ∧ cr_portableKey c' = cr_portableKey c ∧
      (truthy (cr_deviceId c) = true → cr_deviceId c' = cr_deviceId c).
(** The engine uses the key that is held, or none. *)
Definition consistent k : Prop :=
  kd_passphrase k = None ∧ kd_encryptionKey k = None ∨
  ∃ c key, heldk k = Some c ∧ truthy (cr_portableKey c) = true ∧ kd_passphrase k = Some (cr_portableKey c) ∧
    kd_encryptionKey k = Some key ∧ passphraseToKey (cr_portableKey c) false = Ok key ∧
    kd_deviceId k = cr_deviceId c ∧ truthy (cr_deviceId c) = true.
Lemma kept_refl o : kept o o.
Proof. intros c Hc Ht. by exists c. Qed.
Lemma kept_trans o1 o2 o3 : kept o1 o2 → kept o2 o3 → kept o1 o3.
Proof.
  intros H12 H23 c Hc Ht. destruct (H12 c Hc Ht) as (c2 & Hc2 & Hk2 & Hd2).
  destruct (H23 c2 Hc2) as (c3 & Hc3 & Hk3 & Hd3); [by rewrite Hk2|].
  exists c3. split; [done|]. split; [congruence|]. intros Hd. rewrite Hd3; [by apply Hd2|by rewrite Hd2].
Qed.
Lemma recorded_kept p k o : recorded p k o → agrees k k p → kept (heldk k) o.
Proof.
  intros [m ->] Ha c Hc Ht. destruct (Ha c Hc Ht) as [Hp Hd]. eexists. split; [done|]. split; [done|].
  intros Hdt. cbn. by rewrite Hd.
Qed.

(** Before the section: an unencrypted engine has no key, and the device has a name. *)
Definition fit k : Prop :=
  durable k ∧ (kd_encrypted k = false → bare k) ∧ truthy (kd_deviceId k) = true.
Lemma restore_id_truthy k r k' : restoreDeviceIdFromLocalStore k = (r, k') →
  truthy (kd_deviceId k) = true → truthy (kd_deviceId k') = true.
Proof.
  unfold restoreDeviceIdFromLocalStore. rewrite gets_bind. cbn [id].
  destruct (kd_deviceIdConfigured k); [by intros [= _ <-]|].
  destruct (opt_truthy _) as [d|] eqn:E; [|by intros [= _ <-]]. apply truthy_of_opt in E as [_ Hd].
  destruct (setDeviceId_run d k) as (k1 & -> & _ & Hdev). intros [= _ <-] _. by rewrite Hdev.
Qed.
Lemma section_spec raw k r k' :
  fit k → octets raw → length raw = KEY_BYTES → credential_section raw k = (r, k') →
  durable k' ∧ kept (heldk k) (heldk k') ∧ (r = Ok () → consistent k').
Proof.
  intros (Hd & Hb & Ht) Ho Hl. unfold credential_section. unfold mbind at 1, M_bind at 1.
  destruct (restoreDeviceIdFromLocalStore k) as [[[]|e] k1] eqn:E1;
    pose proof (restore_id_truthy _ _ _ E1 Ht) as Ht1; apply restore_id_unmoved in E1 as (Hd1 & Hh1 & He1 & Hk1 & Hp1);
    [|intros [= <- <-]; split_and!; [by apply Hd1|rewrite Hh1; apply kept_refl|done]].
  assert (kd_encrypted k1 = false → bare k1) as Hb1.
  { intros Hf. rewrite He1 in Hf. destruct (Hb Hf) as (? & ? & ?). split_and!; congruence. }
  specialize (Hd1 Hd). unfold mbind at 1, M_bind at 1.
  destruct (resolveEncryption false raw k1) as [[[]|e] k2] eqn:E2; apply resolve_spec in E2 as (Hd2 & Hh2 & Hdev2 & Hok2); try done;
    [|intros [= <- <-]; split_and!; [done|rewrite Hh2, Hh1; apply kept_refl|done]].
  specialize (Hok2 eq_refl). unfold mbind at 1, M_bind at 1.
  destruct (restoreCredentials k2) as [[[]|e] k3] eqn:E3; apply restore_spec in E3 as (Hd3 & Hh3 & Hok3); try done;
    [|intros [= <- <-]; split_and!; [done|rewrite Hh3, Hh2, Hh1; apply kept_refl|done]].
  destruct (Hok3 eq_refl) as [Ht3 Hst3]. rewrite Hdev2 in Ht3. specialize (Ht3 Ht1).
  assert (heldk k3 = heldk k) as Hh by congruence. clear Hok3 Hok2.
  unfold mbind at 1, M_bind at 1. destruct (persistCredentials k3) as [r4 k4] eqn:E4.
  destruct Hst3 as [Hb3|(p & key & Hs3 & Ha)].
  - pose proof (persist_bare _ _ _ Hb3 E4) as ->. rewrite <- Hh. destruct r4 as [[]|e].
    + intros E5. apply persist_device_still in E5 as [(Hd5 & Hh5 & He5 & Hk5 & Hp5) _].
      destruct Hb3 as (_ & Hb3 & Hb3').
      split; [by apply Hd5|]. split; [rewrite Hh5; apply kept_refl|]. intros _. left. split; congruence.
    + intros [= <- <-]. split; [done|]. split; [apply kept_refl|done].
  - apply (persisted_key_spec p key) in E4 as (Hd4 & Hs4 & Hdev4 & Hh4); try done. rewrite <- Hh.
    assert (agrees k3 k3 p) as Ha3 by (intros c Hc; apply Ha; congruence).
    assert (kept (heldk k3) (heldk k4)) as Hkept.
    { destruct Hh4 as [Hr|[-> _]]; [by apply (recorded_kept p)|apply kept_refl]. }
    destruct r4 as [[]|e]; [|by intros [= <- <-]; split_and!].
    destruct Hh4 as [[m Hm]|[_ []]]; [|done].
    intros E5. apply persist_device_still in E5 as [(Hd5 & Hh5 & He5 & Hk5 & Hp5) Hdev5].
    split; [by apply Hd5|]. split; [by rewrite Hh5|]. intros _. right. exists (mkCreds p (kd_deviceId k3) m), key.
    destruct Hs4 as (_ & Hpass & Htp & Hkey & Hto). cbn [cr_portableKey cr_deviceId]. split_and!; try done; congruence.
Qed.

(** *** Initialisation *)
Lemma engine_step {B} (m : M (Engine A) B) k r k' : on_engine m k = (r, k') →
  kd_keySource k' = kd_keySource k ∧ kd_encryptionKey k' = kd_encryptionKey k ∧
  kd_passphrase k' = kd_passphrase k ∧ kd_deviceId k' = kd_deviceId k.
Proof. unfold on_engine. destruct (m (kd_engine k)). by intros [= _ <-]. Qed.

(** Configuration before [init] leaves the held credentials alone and the engine fit. *)
Definition configured k k' : Prop := (fit k → fit k') ∧ heldk k' = heldk k.
#[global] Instance configured_preorder : PreOrder configured.
Proof.
  split; [by intros k|]. intros k1 k2 k3 [? ?] [? ?]. split; [tauto|congruence].
Qed.
Lemma still_configured {B} (m : M T B) : keeps still m → keeps configured m.
Proof.
  intros Hm k r k' E. apply Hm in E as [Hu Hd]. pose proof Hu as (Hdur & Hh & He & _). split; [|done].
  intros (H1' & H2' & H3'). split; [tauto|]. split; [|congruence].
  intros Hf. rewrite He in Hf. apply (unmoved_bare k); tauto.
Qed.
Lemma device_configured d : truthy d = true → keeps configured (setDeviceId d : M T ()).
Proof.
  intros Ht k r k' E. destruct (setDeviceId_run d k) as (k1 & E1 & Hu & Hd). rewrite E1 in E. injection E as _ <-.
  pose proof Hu as (Hdur & Hh & He & _). split; [|done]. intros (H1' & H2' & H3').
  split; [tauto|]. split; [|congruence]. intros Hf. rewrite He in Hf. apply (unmoved_bare k); tauto.
Qed.
Lemma encrypted_configured (b : bool) :
  keeps configured (set_encrypted b;; when (negb b) (modify (with_key None None)) : M T ()).
Proof.
  intros k r k'. unfold mbind, M_bind. destruct (set_encrypted_run b k) as (k1 & -> & He & Hk & Hd & Hp & Hkey).
  destruct b; cbn; intros [= _ <-].
  - split; [|unfold heldk; by rewrite Hk]. intros (H1' & _ & H3'). unfold fit, durable. rewrite Hk, Hd, He. by split_and!.
  - split; [|unfold heldk; cbn; by rewrite Hk]. intros (H1' & _ & H3'). unfold fit, durable. cbn. rewrite Hk, Hd.
    split_and!; try done.
Qed.
Lemma passphrase_configured p :
  keeps configured (modify (with_key None p);; when (bool_decide (is_Some p)) (set_encrypted true) : M T ()).
Proof.
  intros k r k'. unfold mbind, M_bind, modify. destruct p as [p|]; cbn.
  - destruct (set_encrypted_run true (with_key None (Some p) k)) as (k1 & -> & He & Hk & Hd & _ & _).
    intros [= _ <-]. split; [|unfold heldk; by rewrite Hk]. intros (H1' & _ & H3'). unfold fit, durable.
    rewrite Hk, Hd, He. by split_and!.
  - intros [= _ <-]. split; [|done]. intros (H1' & H2' & H3'). split_and!; try done.
Qed.
Lemma initial_configured s : keeps configured (applyInitialState s : M T ()).
Proof.
  destruct s as [s|]; [|by intros k r k' [= _ <-]]. unfold applyInitialState.
  apply (keeps_bind _); [|intros _; apply (keeps_bind _); [|intros _; apply (keeps_bind _); [|intros _]]].
  - destruct (opt_truthy (si_deviceId s)) as [d|] eqn:Ed; [|apply (keeps_ret _)]. apply truthy_of_opt in Ed as [_ Hd].
    apply (keeps_bind _); [by apply device_configured|]. intros _ k r k' E. rewrite gets_bind in E.
    injection E as _ <-. by split.
  - destruct (si_remotePath s); [|apply (keeps_ret _)]. intros k r k' [= _ <-]. by split.
  - destruct (si_encrypted s); [apply encrypted_configured|apply (keeps_ret _)].
  - destruct (si_passphrase s); [apply passphrase_configured|apply (keeps_ret _)].
Qed.
Lemma configure_configured s : keeps configured (configureMesh s : M T ()).
Proof.
  unfold configureMesh. keeps_walk ltac:(idtac; lazymatch goal with
    | |- keeps _ (applyInitialState _) => apply initial_configured
    | |- keeps _ (on_engine _) => apply still_configured, announce_still end).
Qed.

Lemma finish_keeps cfg env k r k' : finish_init cfg env k = (r, k') →
  kd_keySource k' = kd_keySource k ∧ kd_encryptionKey k' = kd_encryptionKey k ∧
  kd_passphrase k' = kd_passphrase k ∧ kd_deviceId k' = kd_deviceId k.
Proof.
  revert k r k'. change (keeps (λ k k', kd_keySource k' = kd_keySource k ∧ kd_encryptionKey k' = kd_encryptionKey k ∧
    kd_passphrase k' = kd_passphrase k ∧ kd_deviceId k' = kd_deviceId k) (finish_init cfg env : M T ())).
  assert (PreOrder (λ k k', kd_keySource k' = kd_keySource k ∧ kd_encryptionKey k' = kd_encryptionKey k ∧
    kd_passphrase k' = kd_passphrase k ∧ kd_deviceId k' = kd_deviceId k)).
  { split; [by intros k|]. intros k1 k2 k3 (? & ? & ? & ?) (? & ? & ? & ?). split_and!; congruence. }
  unfold finish_init. keeps_walk ltac:(idtac; lazymatch goal with
    | |- keeps _ (on_engine _) => intros ? ? ? ?; by eapply engine_step
    | |- keeps _ (modify _) => intros ? ? ? [= _ <-]; done end).
Qed.
Lemma doInit_spec cfg env k r k' :
  fit k → cf_reader cfg = false → octets (iv_raw env) → length (iv_raw env) = KEY_BYTES →
  doInit cfg env k = (r, k') →
  durable k' ∧ kept (heldk k) (heldk k') ∧ (r = Ok () → consistent k').
Proof.
  intros Hf Hr Ho Hl. unfold doInit. rewrite Hr. unfold mbind at 1, M_bind at 1.
  destruct ((match cf_schema cfg ≫= sd_version with Some v => _ | None => _ end : M T ()) k) as [r1 k1] eqn:E1.
  assert (configured k k1) as [Hf1 Hh1].
  { destruct (cf_schema cfg ≫= sd_version); [|by injection E1 as _ <-].
    eapply still_configured; [apply store_still|exact E1]. }
  specialize (Hf1 Hf). rewrite <- Hh1. destruct r1 as [[]|e]; [|intros [= <- <-]; split_and!; [apply Hf1|apply kept_refl|done]].
  rewrite lift_bind. destruct (iv_initial env) as [initial|e]; [|intros [= <- <-]; split_and!; [apply Hf1|apply kept_refl|done]].
  unfold mbind at 1, M_bind at 1. destruct (applyInitialState initial k1) as [r2 k2] eqn:E2.
  apply initial_configured in E2 as [Hf2 Hh2]. specialize (Hf2 Hf1). rewrite <- Hh2.
  destruct r2 as [[]|e]; [|intros [= <- <-]; split_and!; [apply Hf2|apply kept_refl|done]].
  unfold mbind at 1, M_bind at 1. destruct (credential_section (iv_raw env) k2) as [r3 k3] eqn:E3.
  apply section_spec in E3 as (Hd3 & Hk3 & Hc3); try done.
  destruct r3 as [[]|e]; [|by intros [= <- <-]; split_and!]. specialize (Hc3 eq_refl).
  intros E4. apply finish_keeps in E4 as (Hs4 & Hkey4 & Hp4 & Hdev4).
  assert (heldk k' = heldk k3) as Hh4 by (unfold heldk; by rewrite Hs4).
  split; [unfold durable; by rewrite Hs4|]. split; [by rewrite Hh4|]. intros _. unfold consistent.
  by rewrite Hh4, Hkey4, Hp4, Hdev4.
Qed.
End portable_theory.

(** ** Engines over one credential store *)
Section tabs.
Context `{Platform} {A : Type} `{HA : !StorageAdapter A} `{!DateText} `{!WebCrypto}.
Context {K : Type} `{HS : HonestStore K}.

(** An engine that is opened: a tab, another device profile over the same store, or a restart. *)
Record Tab := mkTab {
  tb_engine : Engine A; tb_source : PortablePassphraseKeySource; tb_dbName : string; tb_remotePath : string;
  tb_deviceId : option string; tb_fresh : string; tb_states : list SyncInitialState;
  tb_cfg : Config; tb_env : InitEnv A }.
Definition open_tab (t : Tab) (store : K) : result () * Keyed A (PortablePassphraseKeySource * K) :=
  doInit (tb_cfg t) (tb_env t)
    (for_each configureMesh (tb_states t)
       (new_engine (tb_engine t) (Some (tb_source t, store)) (tb_dbName t) (tb_remotePath t) (tb_deviceId t)
          (tb_fresh t) (cf_reader (tb_cfg t)))).2.
Definition store_after (store : K) (k : Keyed A (PortablePassphraseKeySource * K)) : K :=
  from_option snd store (kd_keySource k).
Fixpoint open_tabs (tabs : list Tab) (store : K) : list (result () * Keyed A (PortablePassphraseKeySource * K)) * K :=
  match tabs with
  | [] => ([], store)
  | t :: tabs =>
      let opened := open_tab t store in
      let '(rest, last) := open_tabs tabs (store_after store opened.2) in
      (opened :: rest, last)
  end.
(** A writer whose source has the store, with fresh bytes for a key and a device name. *)
Definition good_tab (t : Tab) : Prop :=
  ps_credentialStore (tb_source t) = true ∧ cf_reader (tb_cfg t) = false ∧
  truthy (default (tb_fresh t) (tb_deviceId t)) = true ∧
  octets (iv_raw (tb_env t)) ∧ length (iv_raw (tb_env t)) = KEY_BYTES.

(** What an opened engine has, given the record at the end. *)
Definition uses_record (o : option StoredCredentials) (k : Keyed A (PortablePassphraseKeySource * K)) : Prop :=
  kd_passphrase k = None ∧ kd_encryptionKey k = None ∨
  ∃ c key, o = Some c ∧ kd_passphrase k = Some (cr_portableKey c) ∧ kd_encryptionKey k = Some key ∧
    passphraseToKey (cr_portableKey c) false = Ok key ∧ kd_deviceId k = cr_deviceId c.
Lemma consistent_uses o k : consistent k → kept (heldk k) o → uses_record o k.
Proof.
  intros [?|(c & key & Hc & Ht & Hp & Hk & Hto & Hd & Htd)] Ho; [by left|].
  destruct (Ho c Hc Ht) as (c' & -> & Hk' & Hd'). right. exists c', key. rewrite Hk'. split_and!; try done.
  by rewrite Hd'.
Qed.
Lemma open_tab_spec t store : good_tab t →
  kept (held store) (held (store_after store (open_tab t store).2)) ∧
  ((open_tab t store).1 = Ok () → consistent (open_tab t store).2 ∧
     heldk (open_tab t store).2 = held (store_after store (open_tab t store).2)).
Proof.
  intros (Hs & Hr & Ht & Ho & Hl). unfold open_tab. rewrite Hr.
  set (k0 := new_engine _ _ _ _ _ _ _).
  assert (fit k0 ∧ heldk k0 = held store) as [Hf0 Hh0].
  { split; [|done]. split; [done|]. split; [|done]. unfold kd_encrypted, k0. cbn. done. }
  destruct (for_each configureMesh (tb_states t) k0) as [r1 k1] eqn:E1. cbn [snd].
  assert (configured k0 k1) as [Hf1 Hh1].
  { eapply (keeps_for_each configured); [|exact E1]. intros s _. apply configure_configured. }
  destruct (doInit (tb_cfg t) (tb_env t) k1) as [r k] eqn:E. cbn [fst snd].
  apply doInit_spec in E as (Hd & Hk & Hc); try done; [|by apply Hf1].
  assert (heldk k = held (store_after store k)) as Hsame.
  { unfold durable, heldk, store_after in *. by destruct (kd_keySource k). }
  rewrite <- Hsame, <- Hh0, <- Hh1. split; [done|]. intros Hok. split; [by apply Hc|done].
Qed.
End tabs.

(** ** Properties *)

(** C17: One store, one key.  However many engines are opened over one credential store, in
    whatever order (tabs that race for the lock, restarts, engines configured with another key, reads
    that fail, interrupted saves), a portable key that is held is never replaced nor its device renamed,
    and every engine that opened successfully either has no key (its mesh is not encrypted) or has
    exactly the key, the passphrase and the device of the record held at the end: no two of them ever
    hold different keys. *)
Theorem one_store_one_key `{Platform} {A : Type} `{!StorageAdapter A} `{!DateText} `{!WebCrypto}
    {K : Type} `{HonestStore K} (tabs : list (Tab (A := A))) (store last : K)
    (opened : list (result () * Keyed A (PortablePassphraseKeySource * K))) :
  Forall good_tab tabs → open_tabs tabs store = (opened, last) →
  kept (held store) (held last) ∧
  (∀ k, (Ok (), k) ∈ opened → uses_record (held last) k).
Proof.
  intros Hgood. revert store opened. induction Hgood as [|t tabs Ht Hgood IH]; intros store opened; simpl.
  { intros [= <- <-]. split; [apply kept_refl|]. by intros k ?%not_elem_of_nil. }
  destruct (open_tab_spec t store Ht) as [Hk Hc].
  destruct (open_tabs tabs _) as [rest last'] eqn:E. intros [= <- <-].
  destruct (IH _ _ E) as [Hkeep Hall]. split; [by eapply kept_trans|].
  intros k [Hk'|Hin]%elem_of_cons; [|by apply Hall].
  rewrite <- Hk' in Hc. destruct (Hc eq_refl) as [Hcons Hh]. apply consistent_uses; [done|].
  cbn [snd] in Hh. rewrite Hh. by rewrite <- Hk' in Hkeep.
Qed.

(** A source that refuses to load leaves the engine as it was. *)
Definition refuses `{Platform} {A W} (err : error) (w' : W) (k : Keyed A W) (out : result () * Keyed A W) : Prop :=
  out.1 = Throw err ∧ kd_encryptionKey out.2 = kd_encryptionKey k ∧ kd_passphrase out.2 = kd_passphrase k ∧
  kd_keySource out.2 = Some w' ∧ kd_initialized out.2 = kd_initialized k.
Section refusal.
Context `{Platform} {A : Type} `{HA : !StorageAdapter A} `{!DateText} `{!WebCrypto}.
Context {W : Type} `{HW : !MeshKeySource W}.

(** Steps before the load: only the engine and the device move. *)
Definition prepared (k k' : Keyed A W) : Prop :=
  kd_keySource k' = kd_keySource k ∧ kd_encrypted k' = kd_encrypted k ∧
  kd_encryptionKey k' = kd_encryptionKey k ∧ kd_passphrase k' = kd_passphrase k ∧
  kd_initialized k' = kd_initialized k.
Lemma session_prepared (f : Session A → Session A) k :
  (∀ s, ss_encrypted (f s) = ss_encrypted s) →
  ∃ k', (on_engine (sess (modify f)) : M (Keyed A W) ()) k = (Ok (), k') ∧ prepared k k'.
Proof.
  intros Hf. unfold on_engine, sess, modify. eexists. split; [done|]. split_and!; try done.
  unfold kd_encrypted, after_poison. cbn. destruct (bool_decide _ && _); cbn; apply Hf.
Qed.
Lemma schema_prepared (o : option Z) (k : Keyed A W) : ∃ k',
  (match o with
   | Some v => on_engine (store (modify (store_setMeta "schema:version" (VNum (Num v)))))
   | None => mret ()
   end : M (Keyed A W) ()) k = (Ok (), k') ∧ prepared k k'.
Proof.
  destruct o as [v|]; [|by exists k]. unfold store, loc.
  exact (session_prepared (λ s, set_local (store_setMeta "schema:version" (VNum (Num v)) (ss_local s)) s) k (λ s, eq_refl)).
Qed.
Lemma restore_id_prepared (k : Keyed A W) : ∃ k', restoreDeviceIdFromLocalStore k = (Ok (), k') ∧ prepared k k'.
Proof.
  unfold restoreDeviceIdFromLocalStore. rewrite gets_bind. cbn [id].
  destruct (kd_deviceIdConfigured k); [by exists k|]. destruct (opt_truthy _) as [d|]; [|by exists k].
  exact (session_prepared (λ s, set_clock (mkHLC (ts (ss_hlc s)) (counter (ss_hlc s)) d) s)
    (with_device d (kd_deviceIdConfigured k) k) (λ s, eq_refl)).
Qed.
Lemma refused_load (cfg : Config) (env : InitEnv A) (k : Keyed A W) (w w' : W) (err : error) :
  kd_keySource k = Some w → kd_encrypted k = true → iv_initial env = Ok None →
  (∀ ctx, ks_load ctx w = (Throw err, w')) → refuses err w' k (doInit cfg env k).
Proof.
  intros Hw He Hi Hl. unfold doInit.
  assert (∀ b raw k1, prepared k k1 → refuses err w' k (resolveEncryption b raw k1)) as Hres.
  { intros b raw k1 (Hs1 & He1 & Hk1 & Hp1 & Hi1). unfold resolveEncryption. rewrite gets_bind. cbn [id].
    rewrite He1, He, Hs1, Hw. cbn [negb]. unfold mbind at 1, M_bind at 1, on_keySource. rewrite Hl.
    by split_and!. }
  destruct (schema_prepared (cf_schema cfg ≫= sd_version) k) as (k1 & E1 & Hp1).
  rewrite (bind_ok _ _ _ _ _ E1), Hi, lift_bind. cbn [applyInitialState]. unfold mbind at 1, M_bind at 1, mret, M_ret.
  assert (∀ (m : M (Keyed A W) ()) f s, refuses err w' k (m s) → refuses err w' k ((m ≫= f) s)) as Hbind.
  { intros m f s. unfold refuses, mbind, M_bind. destruct (m s) as [[u|e] k2]; cbn; [by intros [? _]|done]. }
  apply Hbind. destruct (cf_reader cfg); [by apply Hres|]. unfold credential_section.
  destruct (restore_id_prepared k1) as (k2 & E2 & Hp2). rewrite (bind_ok _ _ _ _ _ E2).
  assert (prepared k k2) as Hp.
  { destruct Hp1 as (? & ? & ? & ? & ?), Hp2 as (? & ? & ? & ? & ?). split_and!; congruence. }
  by apply Hbind, Hres.
Qed.
End refusal.

(** C22: Credentials that cannot be read never become a new key.  When the store of either key source
    reports that it cannot be consulted or that its record is unreadable, throws, or answers with anything
    but an authoritative absence or a usable record, initialisation (of a writer or a reader) fails with the access error: no
    key and no passphrase is set, nothing is saved, and the engine is not initialised. *)
Theorem inaccessible_credentials_mint_nothing `{Platform} {A : Type} `{!StorageAdapter A} `{!DateText}
    `{!WebCrypto} {K : Type} `{CredentialStore K} (cfg : Config) (env : InitEnv A)
    (read : M K (option MeshCredentialLoadResult)) (answer : result (option MeshCredentialLoadResult)) (store store' : K) :
  loadCredentialState = Some read → read store = (answer, store') → inaccessible answer →
  iv_initial env = Ok None →
  ∃ st,
    (∀ (k : Keyed A (PortablePassphraseKeySource * K)) p g,
       kd_keySource k = Some (mkPortable p true g, store) → opt_truthy p = None → kd_encrypted k = true →
       refuses (CredentialErr (AccessFailed st)) (mkPortable p true g, store') k (doInit cfg env k)) ∧
    (∀ derive (k : Keyed A (BoundSharedKeySource * K)) p,
       kd_keySource k = Some (mkBound p true, store) → opt_truthy p = None → kd_encrypted k = true →
       refuses (CredentialErr (AccessFailed st)) (mkBound p true, store') k
         (doInit (HW := bound_source derive) cfg env k)).
Proof.
  intros Hq Hr Hi Henv. destruct (inaccessible_refused read store answer store' Hq Hr Hi) as [st Hst].
  exists st. split.
  - intros k p g Hw Hp He. eapply refused_load; try done. intros ctx. cbn [ks_load portable_source].
    unfold portable_load. rewrite gets_bind. cbn [fst ps_portableKey ps_credentialStore]. rewrite Hp.
    unfold on_store, mbind, M_bind. cbn [fst snd]. by rewrite Hst.
  - intros derive k p Hw Hp He. eapply (refused_load (HW := bound_source derive)); try done. intros ctx.
    cbn [ks_load bound_source]. unfold bound_load. rewrite gets_bind.
    cbn [fst bs_portableKey bs_credentialStore]. rewrite Hp.
    unfold on_store, mbind, M_bind. cbn [fst snd]. by rewrite Hst.
Qed.

(** ** Witnesses *)
#[local] Existing Instance test_platform.
#[local] Existing Instance test_dates.
#[local] Existing Instance toy_crypto.
Definition w_init (b : Z) : InitEnv MemoryAdapter :=
  mkInitEnv MemoryAdapter (replicate 32 b) (Ok None) (mret ()).
Definition w_base : Engine MemoryAdapter := test_engine (emptyAdapter "now") emptyStore.
(** Three tabs: two without a key, and one configured with a key of its own. *)
Definition w_tab (b : Z) (key : option string) : Tab :=
  mkTab w_base (mkPortable key true true) "db" "/mesh" None "dev1" [] (test_config "dev1") (w_init b).
Definition w_tabs : list Tab :=
  [w_tab 1 None; w_tab 2 None; w_tab 3 (Some (base58Encode (replicate 32 3%Z)))].
Definition w_opened := open_tabs w_tabs (None : Vault).
Lemma w_good : Forall good_tab w_tabs.
Proof.
  repeat constructor; try done; intros; apply list.Forall_forall;
    intros x Hx%elem_of_replicate; destruct Hx as [-> _]; done.
Qed.
#[local] Strategy expand [w_opened].
Lemma one_store_one_key_witness :
  (λ o, is_ok o.1) <$> w_opened.1 = [true; true; false] ∧ kept None w_opened.2 ∧
  (∀ k, (Ok (), k) ∈ w_opened.1 → uses_record w_opened.2 k).
Proof.
  split; [by vm_compute|].
  exact (one_store_one_key w_tabs None w_opened.2 w_opened.1 w_good (surjective_pairing w_opened)).
Defined.

(** A store whose unlock ceremony was cancelled. *)
Definition Locked : Type := ().
#[local] Instance locked_store : CredentialStore Locked := {
  cs_save c := throw (JsError "locked"); cs_load := throw (JsError "locked"); cs_clear := throw (JsError "locked");
  loadCredentialState := Some (mret (Some (mkLoadResult "unavailable" None))) }.
Definition w_read : M Locked (option MeshCredentialLoadResult) := mret (Some (mkLoadResult "unavailable" None)).
Lemma w_read_ok : loadCredentialState = Some w_read.
Proof. done. Qed.
Definition w_locked : Keyed MemoryAdapter (PortablePassphraseKeySource * Locked) :=
  new_engine w_base (Some (mkPortable None true true, ())) "db" "/mesh" None "dev1" false.
Lemma inaccessible_credentials_mint_nothing_witness :
  ∃ st, refuses (CredentialErr (AccessFailed st)) (mkPortable None true true, ()) w_locked
          (doInit (test_config "dev1") (w_init 1) w_locked).
Proof.
  assert (inaccessible (Ok (Some (mkLoadResult "unavailable" None)))) as Hi by done.
  assert (iv_initial (w_init 1) = Ok None) as He by done.
  assert (w_read () = (Ok (Some (mkLoadResult "unavailable" None)), ())) as Hr by done.
  destruct (inaccessible_credentials_mint_nothing (test_config "dev1") (w_init 1) w_read _ () () w_read_ok Hr Hi He)
    as (st & Hp & _).
  exists st. apply (Hp w_locked None true); done.
Defined.

(** ** A finding *)

(** The key of a bound source in its first and its second session, with no portable key given: [bound]
    is what the application derives. *)
Definition bound_session (bound : string → MeshKey) (raw : list Z) (store : Vault)
    : result () * Keyed MemoryAdapter (BoundSharedKeySource * Vault) :=
  doInit (HW := bound_source (λ _ p, Ok (mkMaterial true (Some (bound p)) (Some p) None)))
    (test_config "dev1") (mkInitEnv MemoryAdapter raw (Ok None) (mret ()))
    (new_engine w_base (Some (mkBound None true, store)) "db" "/mesh" None "dev1" false).

(** A bound key source loses the key of its first session.  Opened over an empty store, the
    engine mints the portable component and uses it as the mesh key, without calling the
    application's derivation; the next session over the same store uses the derived key, so
    what the first session encrypted cannot be read (unless the derivation returns the component
    itself). *)
Theorem bound_source_changes_key (bound : string → MeshKey) :
  let raw := replicate 32 7%Z in
  let first := bound_session bound raw None in
  let second := bound_session bound (replicate 32 8%Z) (from_option snd None (kd_keySource first.2)) in
  first.1 = Ok () ∧ kd_encryptionKey first.2 = Some (mkMeshKey raw false true) ∧
  second.1 = Ok () ∧ kd_encryptionKey second.2 = Some (bound (base58Encode raw)).
Proof. vm_compute. by split_and!. Qed.
