(* ===== verification/Relay.v ===== *)
(** * The polling loop and the relay
    ([startPolling], [stopPolling], [haltPolling], [adaptPollInterval], [startRemoteInvalidations]
     and [stopRemoteInvalidations] of [packages/core/src/core/sync-engine.ts])

    The timers of the engine and the pulls they start, as a step relation: a step is a call
    of one of the operations or a callback of the event loop, at a time of its own.  A pull is
    in flight between the step that starts it and the step that ends it; what it does to the
    stores is the business of other files. *)

From S2P Require Import Prelude JsString Hlc Values JsMap LocalStore Wire Crdt Convergence Observation Adapter Codec.
From S2P Require Import Session MergeStore Manifest Flush Pull Compaction ChangeEffects LocalWrites Promises Engine.
From S2P Require Import Queue AutoCompact.
From Stdlib Require Import Sorted.
From Stdlib Require String.

Open Scope stdpp_scope.
Open Scope Z_scope.

Definition MAX_POLL_INTERVAL_MS : Z := 60000.
Definition INVALIDATION_PULL_COOLDOWN_MS : Z := 1000.

(** ** Polling

    [po_generation] is the token of the current loop, [po_fresh] the next token; an armed
    timer has its deadline and the token of its loop, and [po_inflight] has the tokens of the pulls
    that run. *)
Record Poller := mkPoller {
  po_base : Z; po_current : Z; po_halted : bool; po_timer : option (Z * nat);
  po_generation : nat; po_fresh : nat; po_inflight : list nat }.

Definition stopPolling (p : Poller) : Poller :=
  mkPoller 0 (po_current p) (po_halted p) None (po_fresh p) (S (po_fresh p)) (po_inflight p).
Definition haltPolling (p : Poller) : Poller :=
  let p := stopPolling p in
  mkPoller (po_base p) (po_current p) true (po_timer p) (po_generation p) (po_fresh p) (po_inflight p).
(** [connect] alone lifts the gate. *)
Definition liftHalt (p : Poller) : Poller :=
  mkPoller (po_base p) (po_current p) false (po_timer p) (po_generation p) (po_fresh p) (po_inflight p).
Definition schedule (now : Z) (generation : nat) (p : Poller) : Poller :=
  mkPoller (po_base p) (po_current p) (po_halted p) (Some (now + po_current p, generation))
    (po_generation p) (po_fresh p) (po_inflight p).
Definition startPolling (intervalMs now : Z) (p : Poller) : Poller :=
  if po_halted p then p
  else
    let p := stopPolling p in
    let generation := po_fresh p in
    schedule now generation
      (mkPoller intervalMs intervalMs (po_halted p) (po_timer p) generation (S generation) (po_inflight p)).
(** The callback of the timer, and the end of the pull it started. *)
Definition poll_fires (generation : nat) (p : Poller) : Poller :=
  mkPoller (po_base p) (po_current p) (po_halted p) None (po_generation p) (po_fresh p)
    (generation :: po_inflight p).
Fixpoint remove_one (n : nat) (l : list nat) : list nat :=
  match l with [] => [] | x :: l => if (x =? n)%nat then l else x :: remove_one n l end.
Definition poll_ends (now : Z) (generation : nat) (p : Poller) : Poller :=
  let p := mkPoller (po_base p) (po_current p) (po_halted p) (po_timer p) (po_generation p) (po_fresh p)
             (remove_one generation (po_inflight p)) in
  if (po_generation p =? generation)%nat then schedule now generation p else p.

Definition with_interval (base current : Z) (p : Poller) : Poller :=
  mkPoller base current (po_halted p) (po_timer p) (po_generation p) (po_fresh p) (po_inflight p).
Definition adapted (entriesMerged : nat) (base current : Z) : Z :=
  if base =? 0 then current
  else if (0 <? entriesMerged)%nat then base
  else if current <? MAX_POLL_INTERVAL_MS then Z.min (current * 2) MAX_POLL_INTERVAL_MS
  else current.
Definition adaptPollInterval (entriesMerged : nat) (p : Poller) : Poller :=
  with_interval (po_base p) (adapted entriesMerged (po_base p) (po_current p)) p.
(** The polling part of [handleRemoteAccessError], as in [access_backoff]. *)
Definition poll_backoff (err : error) (p : Poller) : Poller :=
  with_interval (po_base p) (p_current (access_backoff err (mkPoll (po_base p) (po_current p) false false false))) p.

(** The interval of a start is positive. *)
Inductive poll_event :=
  | PStart (intervalMs : Z) | PStop | PHalt | PLift
  | PFires | PEnds (generation : nat) | PAdapt (entriesMerged : nat) | PBackoff (err : error).
Inductive poll_step (now : Z) : poll_event → Poller → Poller → Prop :=
  | step_start i p : 0 < i → poll_step now (PStart i) p (startPolling i now p)
  | step_stop p : poll_step now PStop p (stopPolling p)
  | step_halt p : poll_step now PHalt p (haltPolling p)
  | step_lift p : poll_step now PLift p (liftHalt p)
  | step_fires p d g : po_timer p = Some (d, g) → d ≤ now → poll_step now PFires p (poll_fires g p)
  | step_ends p g : g ∈ po_inflight p → poll_step now (PEnds g) p (poll_ends now g p)
  | step_adapt p n : poll_step now (PAdapt n) p (adaptPollInterval n p)
  | step_backoff p e : poll_step now (PBackoff e) p (poll_backoff e p).
(** A run of steps, the last first in the list. *)
Inductive poll_run : Poller → list poll_event → Poller → Prop :=
  | run_nil p : poll_run p [] p
  | run_cons p l q now ev r : poll_run p l q → poll_step now ev q r → poll_run p (ev :: l) r.
Definition new_poller : Poller := mkPoller 0 0 false None 0 1 [].

(** ** The relay

    The subscription and the pulls it starts.  [rl_pull] is [remoteInvalidationPullPromise],
    [rl_inflight] counts the runs that have not ended, those of an earlier subscription included;
    [rl_missed] and [rl_started] are for the statements: an invalidation came in since
    the last pull started, and the times at which pulls started, the last first. *)
Record Relay := mkRelay {
  rl_connected : bool; rl_timer : option Z; rl_cooldownQueued : bool;
  rl_pull : bool; rl_pullQueued : bool; rl_inflight : nat;
  rl_missed : bool; rl_started : list Z }.

Definition stopRemoteInvalidations (r : Relay) : Relay :=
  mkRelay (rl_connected r) None false false false (rl_inflight r) false (rl_started r).
Definition scheduleInvalidationPull (now : Z) (r : Relay) : Relay :=
  if negb (rl_connected r) then r
  else match rl_timer r with
       | Some _ => mkRelay (rl_connected r) (rl_timer r) true (rl_pull r) (rl_pullQueued r) (rl_inflight r)
                     (rl_missed r) (rl_started r)
       | None => mkRelay (rl_connected r) (Some (now + INVALIDATION_PULL_COOLDOWN_MS)) false (rl_pull r)
                   (rl_pullQueued r) (rl_inflight r) (rl_missed r) (rl_started r)
       end.
Definition runInvalidationPull (now : Z) (r : Relay) : Relay :=
  if negb (rl_connected r) then r
  else if rl_pull r
  then mkRelay (rl_connected r) (rl_timer r) (rl_cooldownQueued r) (rl_pull r) true (rl_inflight r)
         (rl_missed r) (rl_started r)
  else mkRelay (rl_connected r) (rl_timer r) (rl_cooldownQueued r) true (rl_pullQueued r) (S (rl_inflight r))
         false (now :: rl_started r).
(** The callback of the subscription. *)
Definition invalidation (now : Z) (r : Relay) : Relay :=
  let r := scheduleInvalidationPull now r in
  mkRelay (rl_connected r) (rl_timer r) (rl_cooldownQueued r) (rl_pull r) (rl_pullQueued r) (rl_inflight r)
    (rl_connected r) (rl_started r).
(** The callback of the cooldown timer. *)
Definition cooldown_over (now : Z) (r : Relay) : Relay :=
  let rerun := rl_cooldownQueued r in
  let r := runInvalidationPull now
             (mkRelay (rl_connected r) None false (rl_pull r) (rl_pullQueued r) (rl_inflight r)
                (rl_missed r) (rl_started r)) in
  if rerun && rl_connected r then scheduleInvalidationPull now r else r.
(** The end of a pull, whether it failed or not. *)
Definition pull_over (now : Z) (r : Relay) : Relay :=
  let r := mkRelay (rl_connected r) (rl_timer r) (rl_cooldownQueued r) false (rl_pullQueued r)
             (pred (rl_inflight r)) (rl_missed r) (rl_started r) in
  if rl_pullQueued r && rl_connected r
  then scheduleInvalidationPull now
         (mkRelay (rl_connected r) (rl_timer r) (rl_cooldownQueued r) (rl_pull r) false (rl_inflight r)
            (rl_missed r) (rl_started r))
  else r.
Definition setConnected (b : bool) (r : Relay) : Relay :=
  mkRelay b (rl_timer r) (rl_cooldownQueued r) (rl_pull r) (rl_pullQueued r) (rl_inflight r)
    (b && rl_missed r) (rl_started r).

Inductive relay_event := RSubscribe | RStop | RConnected (b : bool) | RInvalidation | RCooldown | RPullOver.
Inductive relay_step (now : Z) : relay_event → Relay → Relay → Prop :=
  | relay_subscribe r : relay_step now RSubscribe r (stopRemoteInvalidations r)
  | relay_stop r : relay_step now RStop r (stopRemoteInvalidations r)
  | relay_connected b r : relay_step now (RConnected b) r (setConnected b r)
  | relay_invalidation r : relay_step now RInvalidation r (invalidation now r)
  | relay_cooldown r d : rl_timer r = Some d → d ≤ now → relay_step now RCooldown r (cooldown_over now r)
  | relay_pull_over r : (0 < rl_inflight r)%nat → relay_step now RPullOver r (pull_over now r).
(** Time does not go back. *)
Inductive relay_run : Z → Relay → Z → Relay → Prop :=
  | relay_nil t r : relay_run t r t r
  | relay_cons t r t' r' now ev r'' :
      relay_run t r t' r' → t' ≤ now → relay_step now ev r' r'' → relay_run t r now r''.
Definition new_relay : Relay := mkRelay false None false false false 0 false [].
(** What the subscription's callback does besides: a change on the remote makes a retention check due. *)
Definition check_after_invalidation `{Platform} {A} `{!StorageAdapter A} `{!DateText} (host : Host) (cfg : Config)
    (ec : EngineConfig) (pathType : option string) (path : string) : M (Engine A) () :=
  when (bool_decide (pathType = Some "change") || negb (indexOf path "/changes/" 0 =? -1))
    (scheduleRetentionCompactionCheck host cfg ec 0).
(** What the other callbacks of the subscription do to the polling loop. *)
Definition onReady (relayHealthyPollInterval now : Z) : Poller → Poller := startPolling relayHealthyPollInterval now.
Definition onError (pollInterval now : Z) : Poller → Poller := startPolling pollInterval now.
Definition onClose (pollInterval now : Z) : Poller → Poller := startPolling pollInterval now.

(** ** Theory: polling *)

(** How many timers and pulls belong to the current loop. *)
Definition live (p : Poller) : nat :=
  (if po_timer p then 1 else 0) + count_occ Nat.eq_dec (po_inflight p) (po_generation p).
Definition interval_ok (base current : Z) : Prop :=
  0 ≤ base ∧ (base = 0 ∨ Z.min base MAX_ACCESS_BACKOFF_MS ≤ current ≤ Z.max base MAX_ACCESS_BACKOFF_MS).
Record poller_ok (p : Poller) : Prop := {
  ok_timer d g : po_timer p = Some (d, g) → g = po_generation p;
  ok_live : (live p ≤ 1)%nat;
  ok_old g : g ∈ po_inflight p → (g < po_fresh p)%nat;
  ok_generation : (po_generation p < po_fresh p)%nat;
  ok_halted : po_halted p = true → live p = 0%nat;
  ok_interval : interval_ok (po_base p) (po_current p) }.

Lemma count_none (n : nat) l : (∀ g, g ∈ l → (g < n)%nat) → count_occ Nat.eq_dec l n = 0%nat.
Proof.
  intros Hl. apply count_occ_not_In. intros Hin%list_elem_of_In. specialize (Hl n Hin). lia.
Qed.
Lemma count_removed n m l : n ∈ l →
  count_occ Nat.eq_dec (remove_one n l) m =
    (count_occ Nat.eq_dec l m - if (m =? n)%nat then 1 else 0)%nat.
Proof.
  induction l as [|x l IH]; intros Hin; [by apply not_elem_of_nil in Hin|]. cbn [remove_one].
  destruct (Nat.eqb_spec x n) as [->|Hne].
  - cbn [count_occ]. destruct (Nat.eq_dec n m), (Nat.eqb_spec m n); lia.
  - apply elem_of_cons in Hin as [?|Hin]; [congruence|]. cbn [count_occ]. rewrite (IH Hin).
    assert (1 ≤ count_occ Nat.eq_dec l n)%nat by (by apply count_occ_In, list_elem_of_In).
    destruct (Nat.eq_dec x m), (Nat.eqb_spec m n); lia.
Qed.
Lemma elem_removed n m l : m ∈ remove_one n l → m ∈ l.
Proof.
  induction l as [|x l IH]; [done|]. cbn [remove_one]. destruct (Nat.eqb_spec x n); [by right|].
  intros [->|Hin]%elem_of_cons; [by left|right; by apply IH].
Qed.
Lemma adapted_ok n base current : interval_ok base current → interval_ok base (adapted n base current).
Proof.
  unfold interval_ok, adapted, MAX_POLL_INTERVAL_MS, MAX_ACCESS_BACKOFF_MS. intros [Hb Hc].
  split; [done|]. destruct Hc as [->|Hc]; [by left|]. destruct (Z.eqb_spec base 0); [by left|]. right.
  destruct (0 <? n)%nat; [lia|]. destruct (Z.ltb_spec current 60000); lia.
Qed.
Lemma backoff_current err base current : interval_ok base current →
  interval_ok base (p_current (access_backoff err (mkPoll base current false false false))).
Proof.
  unfold interval_ok, access_backoff. intros [Hb Hc]. split; [done|]. cbn [p_base p_current].
  destruct (Z.eqb_spec base 0) as [|Hne]; [by left|]. right. cbn [p_current]. unfold MAX_ACCESS_BACKOFF_MS. lia.
Qed.
Lemma stop_ok p : poller_ok p → poller_ok (stopPolling p) ∧ live (stopPolling p) = 0%nat.
Proof.
  intros [Ht Hl Ho Hg Hh Hi]. assert (live (stopPolling p) = 0%nat) as E.
  { unfold live. cbn. by apply count_none. }
  split; [|done]. split; try done.
  - rewrite E. lia.
  - cbn. intros g Hin. specialize (Ho g Hin). lia.
  - cbn. lia.
  - split; [done|by left].
Qed.
Lemma start_ok i now p : 0 < i → poller_ok p → poller_ok (startPolling i now p).
Proof.
  intros Hpos Hp. unfold startPolling. destruct (po_halted p) eqn:Eh; [done|].
  pose proof (stop_ok p Hp) as [[Ht Hl Ho Hg Hh Hi] _]. unfold schedule. cbn in *. split; cbn.
  - by intros d g [= _ <-].
  - unfold live. cbn. rewrite count_none; [lia|]. intros g Hin. specialize (ok_old p Hp g Hin). lia.
  - intros g Hin. specialize (ok_old p Hp g Hin). lia.
  - lia.
  - by rewrite Eh.
  - split; [lia|]. right. lia.
Qed.
Lemma fires_ok p d g : po_timer p = Some (d, g) → poller_ok p →
  poller_ok (poll_fires g p) ∧ live (poll_fires g p) = live p.
Proof.
  intros Et Hp. pose proof (ok_timer p Hp _ _ Et) as ->. pose proof (ok_live p Hp) as Hl.
  assert (live (poll_fires (po_generation p) p) = live p) as E.
  { unfold live. cbn. rewrite Et. by destruct (Nat.eq_dec _ _). }
  split; [|done]. split.
  - done.
  - by rewrite E.
  - cbn. intros g [->|Hin]%elem_of_cons; [apply (ok_generation p Hp)|by apply (ok_old p Hp)].
  - apply (ok_generation p Hp).
  - intros Hh. rewrite E. by apply (ok_halted p Hp).
  - apply (ok_interval p Hp).
Qed.
Lemma ends_ok now g p : g ∈ po_inflight p → poller_ok p →
  poller_ok (poll_ends now g p) ∧ live (poll_ends now g p) = live p.
Proof.
  intros Hin Hp. pose proof (ok_live p Hp) as Hl.
  assert (1 ≤ count_occ Nat.eq_dec (po_inflight p) g)%nat as Hc by (by apply count_occ_In, list_elem_of_In).
  assert (live (poll_ends now g p) = live p) as E.
  { unfold poll_ends, live in *. cbn. destruct (Nat.eqb_spec (po_generation p) g) as [<-|Hne]; cbn.
    - rewrite count_removed, Nat.eqb_refl by done. destruct (po_timer p); lia.
    - rewrite count_removed by done. destruct (Nat.eqb_spec (po_generation p) g); [done|]. lia. }
  split; [|done].
  assert (∀ x, x ∈ remove_one g (po_inflight p) → (x < po_fresh p)%nat) as Hold.
  { intros x Hx. by apply (ok_old p Hp), (elem_removed g). }
  split; [|by rewrite E| | | |].
  - unfold poll_ends. cbn. destruct (Nat.eqb_spec (po_generation p) g) as [<-|]; cbn; [by intros d x [= _ <-]|apply (ok_timer p Hp)].
  - unfold poll_ends. cbn. by destruct (po_generation p =? g)%nat.
  - unfold poll_ends. cbn. destruct (po_generation p =? g)%nat; cbn; apply (ok_generation p Hp).
  - intros Hh. rewrite E. apply (ok_halted p Hp). revert Hh. unfold poll_ends. cbn. by destruct (po_generation p =? g)%nat.
  - unfold poll_ends. cbn. destruct (po_generation p =? g)%nat; cbn; apply (ok_interval p Hp).
Qed.
Lemma interval_step p current : interval_ok (po_base p) current → poller_ok p →
  poller_ok (with_interval (po_base p) current p) ∧ live (with_interval (po_base p) current p) = live p.
Proof. intros Hi Hp. split; [|done]. destruct Hp. by split. Qed.

(** Every step keeps the invariant, and only stops and halts end a loop. *)
Lemma poll_step_ok now ev p q : poll_step now ev p q → poller_ok p →
  poller_ok q ∧
  match ev with
  | PFires | PEnds _ | PAdapt _ | PBackoff _ | PLift => live q = live p
  | PStop | PHalt => live q = 0%nat
  | PStart _ => live q = if po_halted p then live p else 1%nat
  end.
Proof.
  intros Hs Hp. destruct Hs as [i p Hi|p|p|p|p d g Et _|p g Hin|p n|p e].
  - split; [by apply start_ok|]. unfold startPolling. destruct (po_halted p); [done|]. unfold live, schedule. cbn.
    rewrite count_none; [done|]. intros g Hin. specialize (ok_old p Hp g Hin). lia.
  - by apply stop_ok.
  - pose proof (stop_ok p Hp) as [[Ht Hl Ho Hg Hh Hi] E]. split; [|exact E]. split; cbn in *; try done.
  - split; [|done]. destruct Hp. by split.
  - by apply (fires_ok p d).
  - by apply ends_ok.
  - apply interval_step; [by apply adapted_ok, Hp|done].
  - apply interval_step; [by apply backoff_current, Hp|done].
Qed.
Lemma new_poller_ok : poller_ok new_poller.
Proof. split; cbn; try done; try lia. - by intros g ?%not_elem_of_nil. - split; [lia|by left]. Qed.
Lemma poll_run_ok p l q : poll_run p l q → poller_ok p → poller_ok q.
Proof. induction 1 as [|p l q now ev r _ IH Hs]; [done|]. intros Hp. by apply (poll_step_ok _ _ _ _ Hs), IH. Qed.

(** What the engine's model keeps of the loop. *)
Definition poll_state (relay : bool) (p : Poller) : PollState :=
  mkPoll (po_base p) (po_current p) (0 <? live p)%nat (po_halted p) relay.
Definition poll_op (ev : poll_event) (s : PollState) : PollState :=
  match ev with
  | PStart i => start_poll i s
  | PStop => stop_poll s
  | PHalt => halt_poll s
  | PLift => mkPoll (p_base s) (p_current s) (p_running s) false (p_relay s)
  | PFires | PEnds _ => s
  | PAdapt n => mkPoll (p_base s) (adapted n (p_base s) (p_current s)) (p_running s) (p_halted s) (p_relay s)
  | PBackoff err => access_backoff err s
  end.

(** ** Theory: the relay *)
Record relay_ok (t : Z) (r : Relay) : Prop := {
  rok_pull : rl_pull r = true → (0 < rl_inflight r)%nat;
  rok_missed : rl_missed r = true →
    rl_connected r = true ∧ (is_Some (rl_timer r) ∨ rl_pull r = true ∧ rl_pullQueued r = true);
  rok_past s : s ∈ rl_started r → s ≤ t;
  rok_timer d s : rl_timer r = Some d → s ∈ rl_started r → s + INVALIDATION_PULL_COOLDOWN_MS ≤ d;
  rok_gaps : StronglySorted (λ later earlier, earlier + INVALIDATION_PULL_COOLDOWN_MS ≤ later) (rl_started r) }.

Lemma relay_ok_later t t' r : t ≤ t' → relay_ok t r → relay_ok t' r.
Proof. intros Ht [Hp Hm Hs Hd Hg]. split; try done. intros s Hin. specialize (Hs s Hin). lia. Qed.
Lemma stop_relay_ok t r : relay_ok t r → relay_ok t (stopRemoteInvalidations r).
Proof. intros [Hp Hm Hs Hd Hg]. by split. Qed.
Lemma schedule_ok now r : (rl_missed r = true → rl_connected r = true) →
  (rl_pull r = true → (0 < rl_inflight r)%nat) → (∀ s, s ∈ rl_started r → s ≤ now) →
  (∀ d s, rl_timer r = Some d → s ∈ rl_started r → s + INVALIDATION_PULL_COOLDOWN_MS ≤ d) →
  StronglySorted (λ later earlier, earlier + INVALIDATION_PULL_COOLDOWN_MS ≤ later) (rl_started r) →
  relay_ok now (scheduleInvalidationPull now r).
Proof.
  intros Hm Hp Hs Hd Hg. unfold scheduleInvalidationPull. destruct (rl_connected r) eqn:Ec; cbn [negb].
  - destruct (rl_timer r) as [d|] eqn:Et; split; cbn; try done.
    + intros _. split; [done|]. left. by eexists.
    + intros _. split; [done|]. left. by eexists.
    + intros d s [= <-] Hin. specialize (Hs s Hin). lia.
  - split; try done. intros Hmr. specialize (Hm Hmr). congruence.
Qed.
Lemma run_pull_ok now r :
  (rl_pull r = true → (0 < rl_inflight r)%nat) → rl_timer r = None →
  (∀ s, s ∈ rl_started r → s + INVALIDATION_PULL_COOLDOWN_MS ≤ now) →
  StronglySorted (λ later earlier, earlier + INVALIDATION_PULL_COOLDOWN_MS ≤ later) (rl_started r) →
  (rl_missed r = true → rl_connected r = true) → relay_ok now (runInvalidationPull now r).
Proof.
  intros Hp Ht Hs Hg Hm. unfold runInvalidationPull. destruct (rl_connected r) eqn:Ec; cbn [negb].
  - destruct (rl_pull r) eqn:Ep; split; cbn; try done; try lia.
    + intros s Hin. specialize (Hs s Hin). unfold INVALIDATION_PULL_COOLDOWN_MS in Hs. lia.
    + by rewrite Ht.
    + intros s [->|Hin]%elem_of_cons; [lia|]. specialize (Hs s Hin). unfold INVALIDATION_PULL_COOLDOWN_MS in Hs. lia.
    + by rewrite Ht.
    + constructor; [done|]. apply list.Forall_forall. apply Hs.
  - split; try done.
    + intros Hmr. specialize (Hm Hmr). congruence.
    + intros s Hin. specialize (Hs s Hin). unfold INVALIDATION_PULL_COOLDOWN_MS in Hs. lia.
    + by rewrite Ht.
Qed.
Lemma relay_step_ok t now ev r r' : t ≤ now → relay_ok t r → relay_step now ev r r' → relay_ok now r'.
Proof.
  intros Ht Hr Hs. apply (relay_ok_later _ now) in Hr; [|done]. clear t Ht. pose proof Hr as [Hp Hm Hpast Hd Hg].
  destruct Hs as [r|r|b r|r|r d Et Hdl|r Hi].
  - by apply stop_relay_ok.
  - by apply stop_relay_ok.
  - split; cbn; try done. destruct b; [|done]. intros Hmr. split; [done|]. by apply Hm.
  - pose proof (schedule_ok now r (λ H, proj1 (Hm H)) Hp Hpast Hd Hg) as [Hp' Hm' Hpast' Hd' Hg'].
    unfold invalidation. split; cbn; try done. intros Hc. split; [done|]. left.
    unfold scheduleInvalidationPull in *. destruct (rl_connected r) eqn:Ec; [|cbn [negb] in Hc; congruence].
    cbn [negb] in *. destruct (rl_timer r) as [d|] eqn:Et; cbn; by eexists.
  - unfold cooldown_over. set (r0 := mkRelay _ None false _ _ _ _ _).
    assert (relay_ok now (runInvalidationPull now r0)) as Hrun.
    { apply run_pull_ok; cbn; try done.
      - intros s Hin. specialize (Hd d s Et Hin). lia.
      - intros Hmr. by apply Hm. }
    destruct (rl_cooldownQueued r && _) eqn:Eq; [|done]. destruct Hrun as [Hp' Hm' Hpast' Hd' Hg'].
    apply schedule_ok; try done. intros Hmr. by apply Hm'.
  - unfold pull_over. cbn [rl_pullQueued rl_connected].
    destruct (rl_pullQueued r) eqn:Eq, (rl_connected r) eqn:Ec; cbn [andb].
    + apply schedule_ok; cbn; try done.
    + split; cbn; try done. intros Hmr. destruct (Hm Hmr). congruence.
    + split; cbn; try done. intros Hmr. destruct (Hm Hmr) as [_ [?|[_ ?]]]; [by split; [|left]|congruence].
    + split; cbn; try done. intros Hmr. destruct (Hm Hmr). congruence.
Qed.
Lemma new_relay_ok t : relay_ok t new_relay.
Proof. split; cbn; try done; [by intros s ?%not_elem_of_nil|constructor]. Qed.
Lemma relay_run_ok t r t' r' : relay_run t r t' r' → relay_ok t r → relay_ok t' r' ∧ t ≤ t'.
Proof.
  induction 1 as [|t r t' r' now ev r'' _ IH Hle Hs]; [done|]. intros Hr. destruct (IH Hr) as [Hr' Hle'].
  split; [by apply (relay_step_ok t' now ev r')|lia].
Qed.

(** ** Properties *)

(** There is one polling loop, and it ends only by being stopped.  Whatever the
    order of starts, stops, timers, ends of pulls (of older loops too), refusals and connections, at
    most one timer or pull of the current loop exists, none while polling is halted; and the callback
    of the timer, the end of a pull (failed or not) and the changes of the interval leave the loop
    alive. *)
Theorem one_polling_loop (l : list poll_event) (p : Poller) :
  poll_run new_poller l p →
  (live p ≤ 1)%nat ∧ (po_halted p = true → live p = 0%nat) ∧
  (∀ now ev q, poll_step now ev p q →
     match ev with PStart _ | PStop | PHalt => True | _ => live q = live p end).
Proof.
  intros Hr. apply poll_run_ok in Hr; [|apply new_poller_ok]. split; [apply Hr|]. split; [apply (ok_halted p Hr)|].
  intros now ev q Hs. apply poll_step_ok in Hs as [_ Hs]; [|done]. by destruct ev.
Qed.

(** A closed mesh is not polled.  Once polling is halted, no later start (from a callback of
    the relay or a connection that lost), timer or end of a pull arms the timer again, until
    [connect] lifts the halt. *)
Theorem halted_polling_stays_silent (l l' : list poll_event) (p q : Poller) :
  poll_run new_poller l p → po_halted p = true → poll_run p l' q → PLift ∉ l' →
  po_halted q = true ∧ po_timer q = None.
Proof.
  intros Hp Hh Hq Hl. apply poll_run_ok in Hp; [|apply new_poller_ok].
  assert (po_halted q = true) as Hhq.
  { induction Hq as [p|p l' q now ev r Hq IH Hs]; [done|].
    assert (po_halted q = true) as Hq' by (apply IH; try done; set_solver).
    destruct Hs as [i p0 _|p0|p0|p0|p0 d g _ _|p0 g _|p0 n|p0 e]; try done.
    - unfold startPolling. by rewrite Hq'.
    - set_solver.
    - unfold poll_ends. cbn. by destruct (_ =? g)%nat. }
  split; [done|]. apply poll_run_ok in Hq; [|done]. pose proof (ok_halted q Hq Hhq) as Hlive.
  unfold live in Hlive. by destruct (po_timer q).
Qed.

(** The polling interval is bounded.  While polling, it stays between the configured interval
    and five minutes (whichever is larger or smaller): an idle mesh backs off, a refusal backs off
    further, and activity returns to the configured interval. *)
Theorem polling_interval_bounded (l : list poll_event) (p : Poller) :
  poll_run new_poller l p → po_base p ≠ 0 →
  Z.min (po_base p) MAX_ACCESS_BACKOFF_MS ≤ po_current p ≤ Z.max (po_base p) MAX_ACCESS_BACKOFF_MS ∧
  po_current (adaptPollInterval 1 p) = po_base p.
Proof.
  intros Hr Hb. apply poll_run_ok in Hr; [|apply new_poller_ok]. destruct (ok_interval p Hr) as [_ [?|Hi]]; [done|].
  split; [done|]. unfold adaptPollInterval, adapted. cbn. by destruct (Z.eqb_spec (po_base p) 0).
Qed.

(** The engine's view of polling is what the loop does: every step of the loop
    is the operation of the engine's model, and timers and ends of pulls change nothing of it. *)
Theorem polling_refines_engine (l : list poll_event) (p q : Poller) (now : Z) (ev : poll_event) (relay : bool) :
  poll_run new_poller l p → poll_step now ev p q → poll_state relay q = poll_op ev (poll_state relay p).
Proof.
  intros Hr Hs. apply poll_run_ok in Hr; [|apply new_poller_ok].
  pose proof (poll_step_ok _ _ _ _ Hs Hr) as [_ Hl]. unfold poll_state.
  destruct Hs as [i p Hi|p|p|p|p d g Et _|p g Hin|p n|p e]; rewrite Hl; try done.
  - unfold start_poll, startPolling. cbn. destruct (po_halted p) eqn:E; cbn; by rewrite ?E.
  - unfold poll_ends. cbn. by destruct (po_generation p =? g)%nat.
  - unfold poll_op, poll_backoff, with_interval, access_backoff. cbn. by destruct (po_base p =? 0).
Qed.

(** C25: No invalidation is lost.  When an invalidation came in on a connected session and no pull
    has started since, a pull is on its way.  Either none is marked in flight, the cooldown timer is armed
    and at its deadline a pull starts; or one is in flight, and when it ends, failed or not, a timer
    is armed (the one that was, or one for a new cooldown) at whose deadline the next pull starts. *)
Theorem invalidation_is_followed_by_a_pull (t t' : Z) (r : Relay) :
  relay_run t new_relay t' r → rl_missed r = true →
  (∃ d, rl_timer r = Some d ∧ rl_pull r = false ∧
     ∀ now, d ≤ now → rl_started (cooldown_over now r) = now :: rl_started r ∧
                      rl_missed (cooldown_over now r) = false) ∨
  (rl_pull r = true ∧ (0 < rl_inflight r)%nat ∧
     ∀ now, ∃ d, rl_timer (pull_over now r) = Some d ∧
       (rl_timer r = Some d ∨ d = now + INVALIDATION_PULL_COOLDOWN_MS) ∧
       ∀ now', d ≤ now' → rl_started (cooldown_over now' (pull_over now r)) = now' :: rl_started r ∧
                          rl_missed (cooldown_over now' (pull_over now r)) = false).
Proof.
  intros Hr Hm. apply relay_run_ok in Hr as [[Hp Hmiss _ _ _] _]; [|apply new_relay_ok].
  destruct (Hmiss Hm) as [Hc Hpend]. clear Hmiss.
  assert (∀ r0 now, rl_connected r0 = true → rl_pull r0 = false → rl_started r0 = rl_started r →
    rl_started (cooldown_over now r0) = now :: rl_started r ∧ rl_missed (cooldown_over now r0) = false) as Hstart.
  { intros r0 now Hc0 Hp0 Hs0. unfold cooldown_over, runInvalidationPull. cbn. rewrite Hc0, Hp0. cbn.
    destruct (rl_cooldownQueued r0); cbn; rewrite Hs0; done. }
  destruct (rl_pull r) eqn:Ep.
  - right. split; [done|]. split; [by apply Hp|]. intros now. unfold pull_over. cbn. rewrite Hc, andb_true_r.
    assert (∃ d, rl_timer (pull_over now r) = Some d ∧ rl_pull (pull_over now r) = false ∧
      rl_connected (pull_over now r) = true ∧ rl_started (pull_over now r) = rl_started r ∧
      (rl_timer r = Some d ∨ d = now + INVALIDATION_PULL_COOLDOWN_MS)) as (d & Hd & Hpf & Hcf & Hsf & Hle).
    { unfold pull_over, scheduleInvalidationPull. cbn. rewrite Hc, andb_true_r.
      destruct (rl_pullQueued r), (rl_timer r) as [d|] eqn:Et; cbn; try rewrite Et; cbn;
        try (exists d; by auto 6).
      - eexists. split_and!; try done. by right.
      - destruct Hpend as [[? ?]|[_ ?]]; done. }
    unfold pull_over in *. cbn in Hd, Hpf, Hcf, Hsf. rewrite Hc, andb_true_r in Hd, Hpf, Hcf, Hsf.
    exists d. split; [done|]. split; [done|]. intros now' _. by apply Hstart.
  - left. destruct Hpend as [[d Hd]|[? _]]; [|done]. exists d. split; [done|]. split; [done|].
    intros now _. by apply Hstart.
Qed.

(** Invalidations do not flood the remote.  However many invalidations come in, and however
    subscriptions are replaced, the pulls they cause start at least one cooldown apart. *)
Theorem invalidation_pulls_are_spaced (t t' : Z) (r : Relay) :
  relay_run t new_relay t' r →
  StronglySorted (λ later earlier, earlier + INVALIDATION_PULL_COOLDOWN_MS ≤ later) (rl_started r).
Proof. intros Hr. apply relay_run_ok in Hr as [Hr _]; [apply Hr|apply new_relay_ok]. Qed.

(** ** Witnesses and findings *)
Lemma w_poll_run : poll_run new_poller [PEnds 2; PFires; PStart 30000] (poll_ends 31000 2 (poll_fires 2 (startPolling 30000 0 new_poller))).
Proof.
  eapply run_cons with (now := 31000); [eapply run_cons with (now := 30000); [eapply run_cons with (now := 0);
    [constructor|by constructor]|by eapply step_fires]|by apply step_ends; left].
Qed.
Lemma one_polling_loop_witness :
  (live (poll_ends 31000 2 (poll_fires 2 (startPolling 30000 0 new_poller))) ≤ 1)%nat.
Proof. exact (proj1 (one_polling_loop _ _ w_poll_run)). Defined.
Lemma polling_interval_bounded_witness :
  po_current (adaptPollInterval 1 (startPolling 30000 0 new_poller)) = 30000.
Proof.
  refine (proj2 (polling_interval_bounded [PStart 30000] (startPolling 30000 0 new_poller) _ ltac:(discriminate))).
  apply (run_cons _ [] new_poller 0); [constructor|by constructor].
Defined.
Lemma halted_polling_stays_silent_witness : po_timer (startPolling 30000 5 (haltPolling new_poller)) = None.
Proof.
  refine (proj2 (halted_polling_stays_silent [PHalt] [PStart 30000] (haltPolling new_poller) _ _ eq_refl _ _)).
  - apply (run_cons _ [] new_poller 0); [constructor|constructor].
  - apply (run_cons _ [] (haltPolling new_poller) 5); [constructor|by constructor].
  - by intros ?%list_elem_of_singleton.
Defined.
Lemma polling_refines_engine_witness :
  poll_state true (startPolling 30000 0 new_poller) = start_poll 30000 (poll_state true new_poller).
Proof. exact (polling_refines_engine [] new_poller _ 0 (PStart 30000) true (run_nil _) (step_start 0 30000 new_poller eq_refl)). Defined.

(** Two invalidations while a pull runs. *)
Definition w_relay : Relay := invalidation 1500 (cooldown_over 1000 (invalidation 0 (setConnected true new_relay))).
Lemma w_relay_run : relay_run 0 new_relay 1500 w_relay.
Proof.
  unfold w_relay. eapply (relay_cons _ _ 1000); [|lia|constructor].
  eapply (relay_cons _ _ 0); [|lia|by eapply (relay_cooldown _ _ 1000)].
  eapply (relay_cons _ _ 0); [|lia|constructor]. eapply (relay_cons _ _ 0); [constructor|lia|constructor].
Qed.
Lemma invalidation_is_followed_by_a_pull_witness :
  rl_started (cooldown_over 2500 (pull_over 1600 w_relay)) = [2500; 1000].
Proof.
  destruct (invalidation_is_followed_by_a_pull 0 1500 w_relay w_relay_run eq_refl) as [(d & _ & Hp & _)|(_ & _ & Hn)];
    [discriminate Hp|].
  destruct (Hn 1600) as (d & Hd & _ & Hs). injection Hd as <-. exact (proj1 (Hs 2500 ltac:(done))).
Defined.
Lemma invalidation_pulls_are_spaced_witness :
  StronglySorted (λ later earlier, earlier + INVALIDATION_PULL_COOLDOWN_MS ≤ later) (rl_started w_relay).
Proof. exact (invalidation_pulls_are_spaced 0 1500 w_relay w_relay_run). Defined.

(** A refusal shortens the interval of a mesh that is polled less often than every five minutes, and a longer
    [Retry-After] is not honoured. *)
Lemma backoff_can_speed_up :
  po_current (poll_backoff (RemoteAccessErr RateLimited 429 (Some 900000)) (startPolling 600000 0 new_poller)) = 300000.
Proof. done. Qed.
