(* ===== verification/Routes.v ===== *)
(** * Paths and addresses of the mesh server
    ([packages/workers/src/paths.ts], the path helpers of [packages/workers/src/ops.ts])

    A text is its UTF-8 form, one character per byte: the separators and the patterns of the code
    are ASCII, the database orders and the cache encodes bytes. *)

From S2P Require Import Prelude JsString Values Octets Wire Observation StoredFile Ids.
From Stdlib Require Import Ascii.
From Stdlib Require String.

Open Scope stdpp_scope.

(** ** Path types *)
Inductive PathType :=
  | EVICTION_RECORD | MANIFEST_POINTER | MANIFEST_SNAPSHOT | HEAD | CHANGE_FILE
  | MAINLINE_SNAPSHOT | DEVICE_HEARTBEAT | OTHER.
#[global] Instance PathType_eq_dec : EqDecision PathType.
Proof. solve_decision. Defined.

(** [s.endsWith(p)]. *)
Definition endsWith (s p : string) : bool :=
  (String.length p <=? String.length s)%nat &&
  String.eqb (str_drop (String.length s - String.length p) s) p.
Definition includes (s p : string) : bool := negb (indexOf s p 0 =? -1)%Z.

(** [/^manifest-\d+\.json$/]: the digits are between the two ends. *)
Definition is_digit (c : ascii) : bool := ((48 <=? char_code c) && (char_code c <=? 57))%Z.
Definition manifest_snapshot_name (name : string) : bool :=
  let digits := slice name 9 (Z.of_nat (String.length name) - 5) in
  startsWith name "manifest-" && endsWith name ".json" && (14 <? String.length name)%nat &&
  str_forall is_digit digits.
(** [/^.+-chg_.+\.json$/]: a dot is any character but the four that end a line, and the first marker that
    leaves one before it leaves most after it. *)
Definition line_terminators : list string :=
  [String "010" ""; String "013" ""; String "226" (String "128" (String "168" "")); String "226" (String "128" (String "169" ""))].
Definition change_file_name (name : string) : bool :=
  let middle := slice name 0 (Z.of_nat (String.length name) - 5) in
  let marker := indexOf middle "-chg_" 1 in
  forallb (λ t, negb (includes name t)) line_terminators && endsWith name ".json" &&
  negb (marker =? -1)%Z && (marker + 5 <? Z.of_nat (String.length middle))%Z.

(** [path.startsWith("/") ? path : "/" + path], and what is before and after the last slash. *)
Definition absolute (path : string) : string := if startsWith path "/" then path else "/" +:+ path.
Definition last_name (path : string) : string := slice_from path (lastIndexOf path "/" + 1).
Definition parent_dir (path : string) : string :=
  let parent := slice path 0 (lastIndexOf path "/") in if truthy parent then parent else "/".

Definition classifyPath (path : string) : PathType :=
  let normalized := absolute path in
  let name := last_name normalized in
  let parentName := last_name (parent_dir normalized) in
  if String.eqb name "evicted.json" then EVICTION_RECORD
  else if String.eqb name "manifest.json" then MANIFEST_POINTER
  else if manifest_snapshot_name name then MANIFEST_SNAPSHOT
  else if String.eqb name "head.json" && String.eqb parentName "changes" then HEAD
  else if change_file_name name && String.eqb parentName "changes" then CHANGE_FILE
  else if String.eqb parentName "mainline" then MAINLINE_SNAPSHOT
  else if String.eqb parentName "devices" then DEVICE_HEARTBEAT
  else OTHER.

Definition parentPath (value : string) : option string :=
  if String.eqb value "/" then None
  else
    let idx := lastIndexOf value "/" in
    Some (if (idx <=? 0)%Z then "/" else slice value 0 idx).

Definition MESH_CHILD_TYPES : list PathType := [HEAD; CHANGE_FILE; MAINLINE_SNAPSHOT; DEVICE_HEARTBEAT].
Definition segments (path : string) : list string := List.filter truthy (split_char "/" path).
Definition meshRootForPath (path : string) (pathType : PathType) : option string :=
  let normalized := absolute path in
  if String.eqb normalized "/" then None
  else if bool_decide (pathType ∈ [EVICTION_RECORD; MANIFEST_POINTER; MANIFEST_SNAPSHOT])
  then parentPath normalized
  else if bool_decide (pathType ∈ MESH_CHILD_TYPES)
  then match opt_truthy (parentPath normalized) with
       | Some parent => parentPath parent
       | None => None
       end
  else
    let seg := default "" (head (segments normalized)) in
    if truthy seg then Some ("/" +:+ seg) else None.

(** ** Cache keys *)

(** [encodeURIComponent]: the unreserved characters stay, every other byte becomes [%XX]. *)
Definition unreserved (c : ascii) : bool :=
  let n := char_code c in
  ((48 <=? n) && (n <=? 57) || (65 <=? n) && (n <=? 90) || (97 <=? n) && (n <=? 122))%Z ||
  bool_decide (c ∈ ["-"%char; "_"%char; "."%char; "!"%char; "~"%char; "*"%char; "'"%char; "("%char; ")"%char]).
Definition hex_upper (d : Z) : ascii := ascii_of_nat (Z.to_nat (if (d <? 10)%Z then 48 + d else 55 + d)%Z).
Fixpoint encodeURIComponent (s : string) : string :=
  match s with
  | EmptyString => ""
  | String c s =>
      let rest := encodeURIComponent s in
      if unreserved c then String c rest
      else String "%" (String (hex_upper (char_code c / 16)) (String (hex_upper (char_code c mod 16)) rest))
  end.
Definition cacheKeyFor (prefix path : string) : string :=
  "https://interocitor-cache/files/p-" +:+ encodeURIComponent prefix +:+ "/" +:+ encodeURIComponent (absolute path).
Definition listingCacheKeyFor (prefix path : string) : string :=
  "https://interocitor-cache/listings/p-" +:+ encodeURIComponent prefix +:+ "/" +:+ encodeURIComponent (absolute path).

(** ** Normal paths ([ops.ts]) *)

(** [replaceAll(/\/+/g, "/")]. *)
Fixpoint collapse (s : string) : string :=
  match s with
  | String c (String d _ as s') =>
      if Ascii.eqb c "/" && Ascii.eqb d "/" then collapse s' else String c (collapse s')
  | _ => s
  end.
Definition normalizePath (raw : string) : string :=
  let c := collapse (absolute raw) in
  if String.eqb c "/" then "/"
  else if endsWith c "/" then slice c 0 (-1) else c.
(** [split("/").filter(Boolean).pop() ?? ""]. *)
Definition fileNameFromPath (path : string) : string := default "" (list.last (segments path)).
Definition parentDirOf (path : string) : string :=
  let idx := lastIndexOf path "/" in if (idx <=? 0)%Z then "/" else slice path 0 idx.

Example classify_examples :
  classifyPath "/mesh/manifest.json" = MANIFEST_POINTER ∧ classifyPath "mesh/manifest-12.json" = MANIFEST_SNAPSHOT ∧
  classifyPath "/mesh/manifest-.json" = OTHER ∧ classifyPath "/mesh/changes/head.json" = HEAD ∧
  classifyPath "/mesh/changes/1-a-chg_x.json" = CHANGE_FILE ∧ classifyPath "/mesh/changes/-chg_x.json" = OTHER ∧
  classifyPath "/mesh/mainline/s.json" = MAINLINE_SNAPSHOT ∧ classifyPath "/mesh/devices/d" = DEVICE_HEARTBEAT ∧
  classifyPath "evicted.json" = EVICTION_RECORD ∧
  meshRootForPath "/a/b/changes/head.json" HEAD = Some "/a/b" ∧ meshRootForPath "/a/b/c" OTHER = Some "/a" ∧
  meshRootForPath "/manifest.json" MANIFEST_POINTER = Some "/" ∧
  normalizePath "a//b///" = "/a/b" ∧ normalizePath "" = "/" ∧ fileNameFromPath "/a/b.c" = "b.c" ∧
  cacheKeyFor "t m" "a/b" = "https://interocitor-cache/files/p-t%20m/%2Fa%2Fb".
Proof. by split_and!; vm_compute. Qed.

(** ** Theory *)

(** Cutting a path at its last slash. *)
Lemma name_and_parent dir name : free_of "/" name = true → truthy dir = true →
  last_name (dir +:+ "/" +:+ name) = name ∧ parent_dir (dir +:+ "/" +:+ name) = dir ∧
  parentPath (dir +:+ "/" +:+ name) = Some dir.
Proof.
  intros Hn Hd. destruct (cut_at_separator "/" dir name Hn) as (E1 & E2 & E3).
  change ("/" +:+ name) with (String "/" name). unfold last_name, parent_dir, parentPath.
  rewrite E1, E2, E3, Hd. split_and!; try done.
  destruct (String.eqb_spec (dir +:+ String "/" name) "/") as [E|_].
  - apply (f_equal String.length) in E. rewrite str_length_app in E. destruct dir; [done|]. simpl in E. lia.
  - destruct (Z.leb_spec (Z.of_nat (String.length dir)) 0); [|done]. destruct dir; [done|]. simpl in *. lia.
Qed.
Lemma absolute_id p : startsWith p "/" = true → absolute p = p.
Proof. unfold absolute. by intros ->. Qed.
Lemma starts_app p q : startsWith p "/" = true → startsWith (p +:+ q) "/" = true.
Proof.
  destruct p as [|c p]; [done|]. unfold startsWith. rewrite str_app_cons. cbn [String.prefix].
  destruct (ascii_dec "/" c); [|done]. by destruct p, q.
Qed.
Lemma root_truthy root : startsWith root "/" = true → truthy root = true.
Proof. by destruct root. Qed.
Lemma not_root_path root q : startsWith root "/" = true → q ≠ "" → String.eqb (root +:+ q) "/" = false.
Proof.
  intros Hr Hq. apply String.eqb_neq. intros E. apply (f_equal String.length) in E. rewrite str_length_app in E.
  destruct root; [done|]. destruct q; [done|]. simpl in E. lia.
Qed.

(** A file of the mesh root, and one in a folder of it. *)
Lemma root_file root name : startsWith root "/" = true → free_of "/" name = true →
  last_name (absolute (root +:+ "/" +:+ name)) = name ∧
  ∀ t, t ∈ [EVICTION_RECORD; MANIFEST_POINTER; MANIFEST_SNAPSHOT] →
    meshRootForPath (root +:+ "/" +:+ name) t = Some root.
Proof.
  intros Hr Hn. unfold meshRootForPath. rewrite absolute_id by by apply starts_app.
  destruct (name_and_parent root name Hn (root_truthy _ Hr)) as (E1 & _ & E3). split; [done|].
  intros t Ht. rewrite not_root_path, bool_decide_true by done. done.
Qed.
Lemma folder_file root folder name : startsWith root "/" = true → free_of "/" folder = true →
  free_of "/" name = true →
  let path := root +:+ "/" +:+ folder +:+ "/" +:+ name in
  last_name (absolute path) = name ∧ last_name (parent_dir (absolute path)) = folder ∧
  ∀ t, t ∈ MESH_CHILD_TYPES → meshRootForPath path t = Some root.
Proof.
  intros Hr Hf Hn path. assert (startsWith path "/" = true) as Hp by by apply starts_app.
  unfold meshRootForPath. rewrite (absolute_id path) by done.
  destruct (name_and_parent root folder Hf (root_truthy _ Hr)) as (F1 & F2 & F3).
  assert (path = (root +:+ "/" +:+ folder) +:+ "/" +:+ name) as Ep by by rewrite !str_app_assoc.
  destruct (name_and_parent (root +:+ "/" +:+ folder) name Hn) as (E1 & E2 & E3);
    [by apply root_truthy, starts_app|].
  rewrite <- Ep in E1, E2, E3. rewrite E1, E2, F1. split_and!; [done..|].
  intros t Ht. rewrite E3. unfold path. rewrite not_root_path by done.
  rewrite bool_decide_false by (intros Hin; set_solver).
  rewrite bool_decide_true by done. rewrite opt_truthy_Some by by apply root_truthy, starts_app. done.
Qed.

(** A name in no other class. *)
Lemma ordinary_name c s : c ≠ "m"%char → String c s ≠ "evicted.json" →
  String.eqb (String c s) "evicted.json" = false ∧ String.eqb (String c s) "manifest.json" = false ∧
  manifest_snapshot_name (String c s) = false.
Proof.
  intros Hm He. split_and!; [by apply String.eqb_neq|by apply String.eqb_neq; intros [=]|].
  unfold manifest_snapshot_name, startsWith. cbn [String.prefix]. by destruct (ascii_dec "m" c) as [<-|].
Qed.
Lemma index_of_le p a b : ∃ i, index_of p (a +:+ p +:+ b) = Some i ∧ i ≤ String.length a.
Proof.
  induction a as [|c a (i & E & Hi)].
  - rewrite str_app_nil_l. exists 0. split; [|lia].
    destruct (p +:+ b) as [|x s] eqn:Es; cbn [index_of]; rewrite <- Es, prefix_app; done.
  - rewrite str_app_cons. cbn [index_of String.length]. destruct (String.prefix p _); [exists 0; split; [done|lia]|].
    rewrite E. exists (S i). split; [done|lia].
Qed.
Lemma not_included (P : ascii → bool) c t s : P c = false → str_forall P s = true → includes s (String c t) = false.
Proof.
  intros Hc Hs. unfold includes, indexOf. replace (str_drop (Z.to_nat (Z.max 0 0)) s) with s by by destruct s.
  assert (index_of (String c t) s = None) as ->; [|done].
  induction s as [|x s IH]; [done|]. cbn [str_forall] in Hs. apply andb_true_iff in Hs as [Hx Hs].
  cbn [index_of String.prefix]. destruct (ascii_dec c x) as [<-|]; [by rewrite Hc in Hx|]. by rewrite IH.
Qed.

(** Printable ASCII. *)
Definition printable (c : ascii) : bool := ((32 <=? char_code c) && (char_code c <? 127))%Z.
Lemma endsWith_app a p : endsWith (a +:+ p) p = true.
Proof.
  unfold endsWith. rewrite str_length_app. destruct (Nat.leb_spec (String.length p) (String.length a + String.length p)); [|lia].
  rewrite Nat.add_sub, str_drop_app. apply String.eqb_refl.
Qed.
Lemma change_name_matches hlc x : hlc ≠ "" → x ≠ "" → str_forall printable hlc = true → str_forall printable x = true →
  change_file_name (changeFileName hlc ("chg_" +:+ x)) = true.
Proof.
  intros Hh Hx Ph Px. unfold change_file_name, changeFileName.
  set (name := hlc +:+ "-" +:+ ("chg_" +:+ x) +:+ ".json").
  assert (name = (hlc +:+ "-chg_" +:+ x) +:+ ".json") as En.
  { unfold name. rewrite !str_app_assoc. done. }
  assert (str_forall printable name = true) as Pn by (rewrite En, !str_forall_app, Ph, Px; done).
  assert (slice name 0 (Z.of_nat (String.length name) - 5) = hlc +:+ "-chg_" +:+ x) as ->.
  { rewrite En, str_length_app. replace (Z.of_nat _ - 5)%Z with (Z.of_nat (String.length (hlc +:+ "-chg_" +:+ x))) by (simpl; lia).
    apply slice_app_l. }
  rewrite !andb_true_iff. split_and!.
  - unfold line_terminators. cbn [forallb]. by rewrite !(not_included printable) by done.
  - rewrite En. apply endsWith_app.
  - destruct hlc as [|c hlc]; [done|]. rewrite str_app_cons. unfold indexOf. change (Z.to_nat (Z.max 0 1)) with 1. cbn [str_drop].
    replace (str_drop 0 (hlc +:+ "-chg_" +:+ x)) with (hlc +:+ "-chg_" +:+ x) by by destruct hlc.
    destruct (index_of_le "-chg_" hlc x) as (i & -> & Hi). cbn. by destruct (Z.eqb_spec (Z.pos (Pos.of_succ_nat i)) (-1)).
  - destruct hlc as [|c hlc]; [done|]. rewrite str_app_cons. unfold indexOf. change (Z.to_nat (Z.max 0 1)) with 1. cbn [str_drop].
    replace (str_drop 0 (hlc +:+ "-chg_" +:+ x)) with (hlc +:+ "-chg_" +:+ x) by by destruct hlc.
    destruct (index_of_le "-chg_" hlc x) as (i & -> & Hi). unfold or_minus_one. cbn [fmap option_fmap option_map].
    apply Z.ltb_lt. cbn [String.length]. rewrite !str_length_app. destruct x; [done|]. simpl (String.length "-chg_"). cbn [String.length]. lia.
Qed.
Lemma manifest_number n : (0 ≤ n)%Z →
  manifest_snapshot_name ("manifest-" +:+ num_toString 10 (Num n) +:+ ".json") = true ∧
  free_of "/" ("manifest-" +:+ num_toString 10 (Num n) +:+ ".json") = true.
Proof.
  intros Hn. set (ds := num_toString 10 (Num n)).
  assert (str_forall is_digit ds = true ∧ ds ≠ "") as [Hd Hne].
  { unfold ds, num_toString. destruct (Z.ltb_spec n 0) as [|_]; [lia|]. destruct (nat_numeral n Hn) as (l & -> & Hl & _ & Hle).
    split; [|by destruct l]. clear Hle. induction Hl as [|d l Hd _ IH]; [done|]. cbn [dstr str_forall]. rewrite IH, andb_true_r.
    revert d Hd. assert (forallb (λ k, is_digit (digit_char (Z.of_nat k))) (seq 0 10) = true) as H by by vm_compute.
    rewrite forallb_forall in H. intros d Hd. specialize (H (Z.to_nat d)). rewrite Z2Nat.id in H by lia. apply H, in_seq. lia. }
  split.
  - unfold manifest_snapshot_name. rewrite !str_length_app. simpl (String.length "manifest-"). simpl (String.length ".json").
    replace (Z.of_nat _ - 5)%Z with (9 + Z.of_nat (String.length ds))%Z by lia.
    pose proof (slice_app_mid "manifest-" ds ".json") as Es. change (Z.of_nat (String.length "manifest-")) with 9%Z in Es. rewrite Es, Hd.
    rewrite andb_true_r. rewrite !andb_true_iff. split_and!; [apply prefix_app|rewrite <- str_app_assoc; apply endsWith_app|].
    apply Nat.ltb_lt. destruct ds; [done|]. simpl. lia.
  - rewrite !free_of_app. rewrite andb_true_iff. split; [done|]. rewrite andb_true_iff. split; [|done].
    clear Hne. unfold free_of. induction ds as [|c s IH]; [done|]. cbn [str_forall] in Hd |- *.
    apply andb_true_iff in Hd as [Hc Hs]. rewrite IH by done. rewrite andb_true_r. unfold is_digit in Hc.
    destruct (Ascii.eqb_spec c "/"%char) as [->|]; [done|done].
Qed.

(** Encoding is injective and leaves no slash. *)
Lemma encode_char c : unreserved c = false →
  ascii_of_nat (Z.to_nat (char_code c)) = c ∧ Ascii.eqb "%" "/" = false ∧
  free_of "/" (String (hex_upper (char_code c / 16)) (String (hex_upper (char_code c mod 16)) "")) = true.
Proof.
  intros _. split; [|split; [done|]].
  - unfold char_code. rewrite Nat2Z.id. apply ascii_nat_embedding.
  - by destruct c as [[] [] [] [] [] [] [] []].
Qed.
Lemma hex_upper_inj c c' : hex_upper (char_code c / 16) = hex_upper (char_code c' / 16) →
  hex_upper (char_code c mod 16) = hex_upper (char_code c' mod 16) → c = c'.
Proof.
  assert (∀ d d', (0 ≤ d < 16)%Z → (0 ≤ d' < 16)%Z → hex_upper d = hex_upper d' → d = d') as Hinj.
  { intros d d' Hd Hd' E. unfold hex_upper in E. apply (f_equal nat_of_ascii) in E.
    rewrite !nat_ascii_embedding in E by (destruct (Z.ltb_spec d 10), (Z.ltb_spec d' 10); lia).
    destruct (Z.ltb_spec d 10), (Z.ltb_spec d' 10); lia. }
  assert (∀ c, (0 ≤ char_code c < 256)%Z) as Hc.
  { intros x. unfold char_code. pose proof (nat_ascii_bounded x). lia. }
  pose proof (Hc c). pose proof (Hc c'). intros E1 E2.
  apply Hinj in E1; [|split; [apply Z.div_pos; lia|apply Z.div_lt_upper_bound; lia]..].
  apply Hinj in E2; [|apply Z.mod_pos_bound; lia..].
  assert (char_code c = char_code c') as E.
  { rewrite (Z.div_mod (char_code c) 16), (Z.div_mod (char_code c') 16) by lia. by rewrite E1, E2. }
  unfold char_code in E. apply Nat2Z.inj in E. by rewrite <- (ascii_nat_embedding c), E, ascii_nat_embedding.
Qed.
#[global] Instance encodeURIComponent_inj : Inj (=) (=) encodeURIComponent.
Proof.
  intros a. induction a as [|c a IH]; intros [|c' b]; cbn [encodeURIComponent]; [done|..].
  - by destruct (unreserved c').
  - by destruct (unreserved c).
  - destruct (unreserved c) eqn:Ec, (unreserved c') eqn:Ec'.
    + intros [= -> E]. by rewrite (IH b).
    + intros [= -> _]. by rewrite <- Ec.
    + intros [= <- _]. by rewrite <- Ec'.
    + intros [= E1 E2 E]. rewrite (IH b) by done. by rewrite (hex_upper_inj c c').
Qed.
Lemma encode_free s : free_of "/" (encodeURIComponent s) = true.
Proof.
  induction s as [|c s IH]; [done|]. cbn [encodeURIComponent]. destruct (unreserved c) eqn:E.
  - rewrite free_of_cons, IH, andb_true_r. destruct (Ascii.eqb_spec c "/"%char) as [->|]; [done|done].
  - destruct (encode_char c E) as (_ & _ & H). unfold free_of in *. cbn [str_forall] in *.
    apply andb_true_iff in H as [H1 H]. apply andb_true_iff in H as [H2 _]. rewrite H1, H2. exact IH.
Qed.
Lemma app_inj_l a x y : a +:+ x = a +:+ y → x = y.
Proof. induction a as [|c a IH]; [done|]. rewrite !str_app_cons. intros [= E]. by apply IH. Qed.

(** *** Normal paths *)
Fixpoint no_double (s : string) : bool :=
  match s with
  | String c (String d _ as s') => negb (Ascii.eqb c "/" && Ascii.eqb d "/") && no_double s'
  | _ => true
  end.
Lemma collapse_cons c d s : collapse (String c (String d s)) =
  if Ascii.eqb c "/" && Ascii.eqb d "/" then collapse (String d s) else String c (collapse (String d s)).
Proof. done. Qed.
Lemma no_double_cons c d s : no_double (String c (String d s)) =
  negb (Ascii.eqb c "/" && Ascii.eqb d "/") && no_double (String d s).
Proof. done. Qed.
Lemma collapse_head c s : ∃ s', collapse (String c s) = String c s'.
Proof.
  revert c. induction s as [|d s IH]; intros c; [by exists ""|]. rewrite collapse_cons.
  destruct (Ascii.eqb_spec c "/"%char) as [->|], (Ascii.eqb_spec d "/"%char) as [->|]; cbn [andb]; [apply IH|by eexists..].
Qed.
Lemma collapse_no_double s : no_double (collapse s) = true.
Proof.
  induction s as [|c s IH]; [done|]. destruct s as [|d s]; [done|]. rewrite collapse_cons.
  destruct (Ascii.eqb c "/" && Ascii.eqb d "/") eqn:E; [done|].
  destruct (collapse_head d s) as (s' & Es). rewrite Es in *. by rewrite no_double_cons, IH, E.
Qed.
Lemma collapse_fixed s : no_double s = true → collapse s = s.
Proof.
  induction s as [|c s IH]; [done|]. destruct s as [|d s]; [done|]. rewrite no_double_cons, collapse_cons.
  intros [E%negb_true_iff Hs]%andb_true_iff. by rewrite E, IH.
Qed.
Lemma no_double_app a b : no_double (a +:+ b) = true → no_double a = true.
Proof.
  induction a as [|c a IH]; [done|]. destruct a as [|d a]; [done|]. rewrite !str_app_cons, !no_double_cons.
  intros [E Hs]%andb_true_iff. rewrite E. apply IH. by rewrite str_app_cons.
Qed.
Lemma endsWith_split s p : endsWith s p = true → s = str_take (String.length s - String.length p) s +:+ p.
Proof.
  unfold endsWith. intros [_ E%String.eqb_eq]%andb_true_iff. rewrite <- E at 2. apply str_take_drop.
Qed.

Lemma double_slash u : no_double (u +:+ "//") = false.
Proof.
  induction u as [|c u IH]; [done|]. destruct u as [|d u]; [rewrite str_app_cons, str_app_nil_l, no_double_cons; apply andb_false_r|].
  rewrite !str_app_cons in *. rewrite no_double_cons, IH. apply andb_false_r.
Qed.
Lemma slice_drop_last a c : slice (a +:+ String c "") 0 (-1) = a.
Proof.
  rewrite <- (slice_app_l a (String c "")) at 2. unfold slice, slice_bound. rewrite str_length_app.
  cbn [Z.ltb Z.compare String.length]. destruct (Z.ltb_spec (Z.of_nat (String.length a)) 0); [lia|]. f_equal. lia.
Qed.

(** A normal path: absolute, no empty segment, no slash at the end. *)
Definition normal_path (p : string) : Prop :=
  startsWith p "/" = true ∧ no_double p = true ∧ (endsWith p "/" = true → p = "/").
Lemma normal_path_fixed p : normal_path p → normalizePath p = p.
Proof.
  intros (Ha & Hd & He). unfold normalizePath. rewrite absolute_id, collapse_fixed by done.
  destruct (String.eqb_spec p "/") as [->|Hne]; [done|]. destruct (endsWith p "/") eqn:E; [|done]. by rewrite He in Hne.
Qed.
Lemma absolute_slash p : ∃ s, absolute p = String "/" s.
Proof.
  unfold absolute. destruct (startsWith p "/") eqn:E; [|by eexists]. destruct p as [|c p]; [done|].
  unfold startsWith in E. cbn [String.prefix] in E. destruct (ascii_dec "/" c) as [<-|]; [|done]. by eexists.
Qed.
Lemma normalizePath_normal raw : normal_path (normalizePath raw).
Proof.
  unfold normalizePath. destruct (absolute_slash raw) as (s & ->). destruct (collapse_head "/" s) as (s' & E).
  pose proof (collapse_no_double (String "/" s)) as Hd. rewrite E in *.
  destruct (String.eqb_spec (String "/" s') "/") as [_|Hne]; [by split_and!|].
  destruct (endsWith (String "/" s') "/") eqn:Ee.
  - pose proof (endsWith_split _ _ Ee) as Es. cbn [String.length] in Es. rewrite Nat.sub_succ, Nat.sub_0_r in Es.
    set (t := str_take (String.length s') (String "/" s')) in *. rewrite Es in Hd, Hne |- *.
    rewrite slice_drop_last. split_and!.
    + unfold t. destruct s'; [done|]. cbn. by destruct s'.
    + by apply no_double_app in Hd.
    + intros Ht. pose proof (endsWith_split _ _ Ht) as Et. rewrite Et, str_app_assoc in Hd.
      change ("/" +:+ "/") with "//" in Hd. by rewrite double_slash in Hd.
  - split_and!; [by destruct s'|done|congruence].
Qed.
Lemma hex_group_first n s : hex_group (S n) s = true → ∃ c s', s = String c s' ∧ is_hex c = true.
Proof.
  unfold hex_group. intros [Hl%Nat.eqb_eq Hs]%andb_true_iff. destruct s as [|c s]; [done|].
  cbn [str_forall] in Hs. apply andb_true_iff in Hs as [Hc _]. by exists c, s.
Qed.

(** A UUID: no slash, and 36 characters of which the first is a digit. *)
Lemma uuid_shape d : UUID_RE d = true →
  free_of "/" d = true ∧ String.length d = 36%nat ∧ ∃ c s, d = String c s ∧ is_hex c = true.
Proof.
  intros Hd. pose proof (join_split "-" d) as Ej. unfold UUID_RE in Hd.
  destruct (split_char "-" d) as [|a [|b [|c [|e [|f [|]]]]]] eqn:E; try done.
  apply andb_true_iff in Hd as [Hd _]. apply andb_true_iff in Hd as [Hd _].
  apply andb_true_iff in Hd as [Hd H5]. apply andb_true_iff in Hd as [Hd H4].
  apply andb_true_iff in Hd as [Hd H3]. apply andb_true_iff in Hd as [H1 H2].
  assert (∀ n s, hex_group n s = true → free_of "/" s = true) as Hf.
  { intros n s [_ Hs]%andb_true_iff. revert Hs. clear. unfold free_of. induction s as [|x s IH]; [done|].
    cbn [str_forall]. intros [Hx Hs]%andb_true_iff. rewrite IH by done. destruct (Ascii.eqb_spec x "/"); [by subst|done]. }
  rewrite <- Ej, !join_cons2. change (join "-" [f]) with f. split_and!.
  - rewrite !free_of_app. by rewrite (Hf _ _ H1), (Hf _ _ H2), (Hf _ _ H3), (Hf _ _ H4), (Hf _ _ H5).
  - rewrite !str_length_app. by rewrite (hex_group_length _ _ H1), (hex_group_length _ _ H2), (hex_group_length _ _ H3), (hex_group_length _ _ H4), (hex_group_length _ _ H5).
  - destruct (hex_group_first 7 a) as (x & s & -> & Hx); [done|]. rewrite str_app_cons. by eexists _, _.
Qed.

(** ** Properties *)

(** The server and its clients agree on where things are.  For every object a client
    names under its remote root (pointer, manifest of a generation, head, change, snapshot, device record), the server
    derives the type it stores it by and the same root. *)
Theorem client_paths_route (root hlc change snapshot device : string) (generation : Z) :
  startsWith root "/" = true → (0 ≤ generation)%Z →
  (∃ c s, hlc = String c s ∧ is_digit c = true) → change ≠ "" →
  str_forall printable (hlc +:+ change) = true → free_of "/" (hlc +:+ change) = true →
  free_of "/" snapshot = true → UUID_RE device = true →
  Forall (λ pt, classifyPath pt.1 = pt.2 ∧ meshRootForPath pt.1 pt.2 = Some root)
    [(manifestPointer root, MANIFEST_POINTER); (manifestFile root generation, MANIFEST_SNAPSHOT);
     (changesHead root, HEAD); (changeFile root (changeFileName hlc ("chg_" +:+ change)), CHANGE_FILE);
     (mainlineFolder root +:+ "/snapshot-" +:+ snapshot, MAINLINE_SNAPSHOT);
     (deviceFile root device, DEVICE_HEARTBEAT)].
Proof.
  intros Hr Hg (c & h & Eh & Hc) Hx Hp Hf Hs Hd.
  rewrite str_forall_app in Hp. apply andb_true_iff in Hp as [Hph Hpx].
  rewrite free_of_app in Hf. apply andb_true_iff in Hf as [Hfh Hfx].
  constructor; [|constructor; [|constructor; [|constructor; [|constructor; [|constructor; [|constructor]]]]]]; cbn [fst snd].
  - destruct (root_file root "manifest.json" Hr eq_refl) as [E Ht]. split; [|apply Ht; set_solver].
    unfold classifyPath. change (manifestPointer root) with (root +:+ "/" +:+ "manifest.json"). by rewrite E.
  - destruct (manifest_number generation Hg) as [Hm Hfm]. destruct (root_file root _ Hr Hfm) as [E Ht].
    unfold manifestFile. change ("/manifest-" +:+ ?s) with ("/" +:+ "manifest-" +:+ s).
    split; [|apply Ht; set_solver]. unfold classifyPath. rewrite E, Hm. done.
  - destruct (folder_file root "changes" "head.json" Hr eq_refl eq_refl) as (E1 & E2 & Ht).
    unfold changesHead, changesFolder. rewrite !str_app_assoc.
    change ("/changes" +:+ "/head.json") with ("/" +:+ "changes" +:+ "/" +:+ "head.json").
    split; [|apply Ht; set_solver]. unfold classifyPath. by rewrite E1, E2.
  - assert (free_of "/" (changeFileName hlc ("chg_" +:+ change)) = true) as Hn.
    { unfold changeFileName. by rewrite !free_of_app, Hfh, Hfx. }
    destruct (folder_file root "changes" _ Hr eq_refl Hn) as (E1 & E2 & Ht). unfold changeFile, changesFolder. rewrite str_app_assoc.
    change ("/changes" +:+ ?s) with ("/" +:+ "changes" +:+ s).
    split; [|apply Ht; set_solver]. unfold classifyPath. rewrite E1, E2.
    rewrite change_name_matches by (done || by subst). subst hlc. unfold changeFileName. rewrite str_app_cons.
    destruct (ordinary_name c (h +:+ "-" +:+ ("chg_" +:+ change) +:+ ".json")) as (-> & -> & ->).
    { by intros ->. } { intros [= -> _]. done. }
    destruct (String.eqb_spec (String c (h +:+ "-" +:+ ("chg_" +:+ change) +:+ ".json")) "head.json") as [[= Ec _]|_]; [by subst c|by rewrite !andb_false_r || done].
  - destruct (folder_file root "mainline" ("snapshot-" +:+ snapshot) Hr eq_refl) as (E1 & E2 & Ht).
    { by rewrite free_of_app, Hs. } unfold mainlineFolder. rewrite str_app_assoc.
    change ("/mainline" +:+ "/snapshot-" +:+ snapshot) with ("/" +:+ "mainline" +:+ "/" +:+ "snapshot-" +:+ snapshot).
    split; [|apply Ht; set_solver]. unfold classifyPath. rewrite E1, E2. change (String.eqb "mainline" "changes") with false. by rewrite !andb_false_r.
  - destruct (uuid_shape device Hd) as (Hfd & Hl & x & s & E & Hx'). 
    destruct (folder_file root "devices" (device +:+ ".json") Hr eq_refl) as (E1 & E2 & Ht).
    { by rewrite free_of_app, Hfd. } unfold deviceFile. change ("/devices/" +:+ ?s) with ("/" +:+ "devices" +:+ "/" +:+ s).
    split; [|apply Ht; set_solver]. unfold classifyPath. rewrite E1, E2. subst device. rewrite str_app_cons.
    destruct (ordinary_name x (s +:+ ".json")) as (-> & -> & ->).
    { by intros ->. } { intros [= _ Es]. apply (f_equal String.length) in Es. rewrite str_length_app in Es. simpl in *. lia. }
    by rewrite !andb_false_r.
Qed.

Lemma cache_keys prefix path prefix' path' :
  (cacheKeyFor prefix path = cacheKeyFor prefix' path' → prefix = prefix' ∧ absolute path = absolute path') ∧
  (listingCacheKeyFor prefix path = listingCacheKeyFor prefix' path' → prefix = prefix' ∧ absolute path = absolute path').
Proof.
  assert (∀ base, base +:+ encodeURIComponent prefix +:+ "/" +:+ encodeURIComponent (absolute path) =
    base +:+ encodeURIComponent prefix' +:+ "/" +:+ encodeURIComponent (absolute path') →
    prefix = prefix' ∧ absolute path = absolute path') as H.
  { intros base E%app_inj_l. apply separator_inj in E as [E1%(inj _) E2%(inj _)]; [done|apply encode_free..]. }
  unfold cacheKeyFor, listingCacheKeyFor. split; apply H.
Qed.

(** Two objects never share a cache entry.  The key of an object determines the mesh address and the
    path, and no object's key is a listing's key. *)
Theorem cache_keys_are_exact (prefix path prefix' path' : string) :
  (cacheKeyFor prefix path = cacheKeyFor prefix' path' ↔ prefix = prefix' ∧ absolute path = absolute path') ∧
  (listingCacheKeyFor prefix path = listingCacheKeyFor prefix' path' ↔ prefix = prefix' ∧ absolute path = absolute path') ∧
  cacheKeyFor prefix path ≠ listingCacheKeyFor prefix' path'.
Proof.
  destruct (cache_keys prefix path prefix' path') as [Hf Hl].
  split_and!; [split; [done|]; intros [-> E]; unfold cacheKeyFor; by rewrite E
              |split; [done|]; intros [-> E]; unfold listingCacheKeyFor; by rewrite E|done].
Qed.

(** Normal paths.  [normalizePath] gives an absolute path without empty segments or a slash
    at the end, and leaves such a path alone. *)
Theorem normalizePath_spec (raw : string) :
  normal_path (normalizePath raw) ∧ (normal_path raw → normalizePath raw = raw) ∧
  normalizePath (normalizePath raw) = normalizePath raw.
Proof.
  split_and!; [apply normalizePath_normal|apply normal_path_fixed|apply normal_path_fixed, normalizePath_normal].
Qed.

Lemma client_paths_route_witness :
  let device := uuidv7 1700000000000 (repeat 255%Z 10) in
  classifyPath (deviceFile "/mesh" device) = DEVICE_HEARTBEAT ∧
  classifyPath (changeFile "/mesh" (changeFileName "1700000000000-0-d" ("chg_" +:+ "x"))) = CHANGE_FILE.
Proof.
  assert (∃ c s, "1700000000000-0-d" = String c s ∧ is_digit c = true) as Hd by by eexists _, _.
  pose proof (client_paths_route "/mesh" "1700000000000-0-d" "x" "3-a.json"
    (uuidv7 1700000000000 (repeat 255%Z 10)) 4 eq_refl ltac:(lia) Hd ltac:(done) ltac:(by vm_compute) ltac:(by vm_compute)
    eq_refl ltac:(by vm_compute)) as H.
  rewrite list.Forall_forall in H. split.
  - exact (proj1 (H (deviceFile "/mesh" (uuidv7 1700000000000 (repeat 255%Z 10)), DEVICE_HEARTBEAT) ltac:(do 5 right; left))).
  - exact (proj1 (H (changeFile "/mesh" (changeFileName "1700000000000-0-d" ("chg_" +:+ "x")), CHANGE_FILE) ltac:(do 3 right; left))).
Defined.
