(* ===== verification/RowStore.v ===== *)
(** * The row store of the mesh server
    ([packages/workers/src/ops.ts], [maintenance.ts], [mesh-info.ts], [upload-policy.ts])

    The tables of [schema.ts] are finite maps on their primary keys.  A statement is a function of
    the database that also gives the number of rows it changed; [db.batch] runs its statements as one
    transaction.  The order of the rows a [SELECT] without [ORDER BY] returns is that of the map.
    Each operation is one step; what an interleaving of two of them can do is
    stated where it matters. *)

From S2P Require Import Prelude JsString Values Octets Encryption StoredFile Routes.
From Stdlib Require Import Ascii.
From Stdlib Require String.

Open Scope stdpp_scope.

(** ** The language *)

(** [new Date(t).toISOString()] and [Date.parse]: the texts of the instants a four-digit year can
    name are ordered as the instants. *)
Definition instant (t : Z) : Prop := (0 ≤ t < 253402300800000)%Z.
Class IsoClock := {
  toISOString : Z → string;
  Date_parse : string → jsnum;
  iso_order a b : instant a → instant b → str_ltb (toISOString a) (toISOString b) = (a <? b)%Z;
  iso_parse a : instant a → Date_parse (toISOString a) = Num a;
  iso_truthy a : truthy (toISOString a) = true }.

(** [String(v)] and [Number(v)] on what [JSON.parse] makes (it makes no dates); [number_of_text] is the
    numeric value of a text, a parameter.  An object with a field [toString] has no primitive
    value, as the field is no function. *)
Fixpoint String_ (v : jsval) : result string :=
  match v with
  | VUndefined => Ok "undefined"
  | VNull => Ok "null"
  | VBool b => Ok (if b then "true" else "false")
  | VNum n => Ok (num_toString 10 n)
  | VStr s => Ok s
  | VArr l =>
      parts ← (fix texts (l : list jsval) : result (list string) :=
                 match l with
                 | [] => Ok []
                 | x :: l =>
                     s ← match x with VUndefined | VNull => Ok "" | _ => String_ x end;
                     rest ← texts l; Ok (s :: rest)
                 end) l;
      Ok (join "," parts)
  | VObj fs => if bool_decide (is_Some (assoc "toString" fs))
               then Throw (JsError "Cannot convert object to primitive value") else Ok "[object Object]"
  | VDate _ => Throw (JsError "no date in JSON")
  end.
Definition Number_ (number_of_text : string → jsnum) (v : jsval) : result jsnum :=
  match v with
  | VUndefined => Ok NaN
  | VNull => Ok (Num 0)
  | VBool b => Ok (Num (if b then 1 else 0))
  | VNum n => Ok n
  | VStr s => Ok (number_of_text s)
  | _ => s ← String_ v; Ok (number_of_text s)
  end.
Definition nullish_or (v d : jsval) : jsval := match v with VUndefined | VNull => d | _ => v end.

(** ** SQL *)

(** [text LIKE pattern]: [%] is any text, [_] is one character (of one to four bytes), letters are
    compared without their ASCII case. *)
Definition lower (c : ascii) : ascii :=
  let n := char_code c in if ((65 <=? n) && (n <=? 90))%Z then ascii_of_nat (nat_of_ascii c + 32) else c.
Definition continuation (c : ascii) : bool := let n := char_code c in ((128 <=? n) && (n <? 192))%Z.
Fixpoint skip_continuation (s : string) : string :=
  match s with String c s' => if continuation c then skip_continuation s' else s | "" => "" end.
Fixpoint like (pattern : string) : string → bool :=
  match pattern with
  | "" => λ text, String.eqb text ""
  | String p pattern' =>
      if Ascii.eqb p "%" then
        fix any (text : string) : bool :=
          like pattern' text || match text with String _ text => any text | "" => false end
      else λ text,
        match text with
        | "" => false
        | String c text =>
            if Ascii.eqb p "_"
            then like pattern' (if (192 <=? char_code c)%Z then skip_continuation text else text)
            else Ascii.eqb (lower p) (lower c) && like pattern' text
        end
  end.
(** [LENGTH(path) - LENGTH(REPLACE(path, '/', ''))]. *)
Definition slashes (s : string) : nat :=
  String.length s - String.length (str_filter (λ c, negb (Ascii.eqb c "/")) s).

Record FileRow := mkFileRow { fr_content : list Z; fr_size : Z; fr_modified : string; fr_etag : string }.
Record MeshPath := mkMeshPath {
  mp_created_at : string; mp_updated_at : string;
  mp_last_operation_at : option string; mp_last_read_at : option string; mp_last_write_at : option string;
  mp_last_ttl_delete_at : option string; mp_deleted_at : option string;
  mp_ops_day : string; mp_ops_count_day : Z; mp_writes_count_day : Z;
  mp_file_count : Z; mp_total_bytes : Z; mp_change_bytes : Z; mp_mainline_bytes : Z }.
Record StoredFileRow := mkStoredRow {
  st_body_key : string; st_size : Z; st_seal_guard : option string; st_uploaded_by : string;
  st_uploaded_at : string; st_modified_time : string; st_last_accessed_at : option string;
  st_use_count : Z; st_etag : option string }.
Record Db := mkDb {
  db_files : gmap (string * string) FileRow;
  db_folders : gmap (string * string) string;
  db_mesh : gmap (string * string) MeshPath;
  db_stored : gmap (string * string) StoredFileRow }.
Definition emptyDb : Db := mkDb ∅ ∅ ∅ ∅.
Definition set_db_files (f : gmap (string * string) FileRow → gmap (string * string) FileRow) (db : Db) : Db :=
  mkDb (f (db_files db)) (db_folders db) (db_mesh db) (db_stored db).
Definition set_db_folders (f : gmap (string * string) string → gmap (string * string) string) (db : Db) : Db :=
  mkDb (db_files db) (f (db_folders db)) (db_mesh db) (db_stored db).
Definition set_db_mesh (f : gmap (string * string) MeshPath → gmap (string * string) MeshPath) (db : Db) : Db :=
  mkDb (db_files db) (db_folders db) (f (db_mesh db)) (db_stored db).
Definition set_db_stored (f : gmap (string * string) StoredFileRow → gmap (string * string) StoredFileRow) (db : Db) : Db :=
  mkDb (db_files db) (db_folders db) (db_mesh db) (f (db_stored db)).

Definition Statement : Type := Db → Z * Db.
Fixpoint batch (stmts : list Statement) (db : Db) : list Z * Db :=
  match stmts with
  | [] => ([], db)
  | s :: stmts => let '(n, db) := s db in let '(ns, db) := batch stmts db in (n :: ns, db)
  end.
(** [INSERT OR IGNORE], [INSERT … ON CONFLICT DO UPDATE], [DELETE … WHERE]. *)
Definition insert_or_ignore {R} (k : string * string) (r : R) (m : gmap (string * string) R)
    : Z * gmap (string * string) R :=
  match m !! k with Some _ => (0%Z, m) | None => (1%Z, <[k:=r]> m) end.
Definition delete_where {R} (P : string * string → bool) (m : gmap (string * string) R)
    : gmap (string * string) R := filter (λ kv, P kv.1 = false) m.
Definition rows_where {R} (P : string * string → bool) (m : gmap (string * string) R)
    : list ((string * string) * R) := map_to_list (filter (λ kv, P kv.1 = true) m).

Definition upsert_file (prefix path : string) (r : FileRow) : Statement :=
  λ db, (1%Z, set_db_files <[(prefix, path):=r]> db).
Definition insert_file (prefix path : string) (r : FileRow) : Statement :=
  λ db, let '(n, files) := insert_or_ignore (prefix, path) r (db_files db) in (n, set_db_files (λ _, files) db).
Definition delete_files (P : string * string → bool) : Statement :=
  λ db, (Z.of_nat (length (rows_where P (db_files db))), set_db_files (delete_where P) db).
Definition delete_folders (P : string * string → bool) : Statement :=
  λ db, (Z.of_nat (length (rows_where P (db_folders db))), set_db_folders (delete_where P) db).
Definition update_mesh (P : string * string → bool) (f : MeshPath → MeshPath) : Statement :=
  λ db, (Z.of_nat (length (rows_where P (db_mesh db))),
         set_db_mesh (map_imap (λ k r, Some (if P k then f r else r))) db).

Example like_examples :
  like "/mesh/%" "/mesh/a/b" = true ∧ like "/mesh/%" "/mesh" = false ∧ like "/a_b/%" "/axb/f" = true ∧
  like "/Notes/%" "/notes/f" = true ∧ like "%/devices/%" "/m/devices/d" = true ∧ slashes "/a/b" = 2.
Proof. by split_and!; vm_compute. Qed.

(** ** The server's state: the database, and the cache of the location that serves the request,
    where there is one.  An entry carries the time at which it expires. *)
Record FileEntry := mkEntry { le_name : string; le_path : string; le_size : Z; le_modified : string; le_etag : string }.
Record ListChildrenResult := mkListing { ls_files : list FileEntry; ls_folders : list string }.
Record CacheEntry := mkCached { ca_bytes : list Z; ca_etag : string; ca_modified : string }.
Record Cache := mkCache { ca_files : gmap string (CacheEntry * Z); ca_listings : gmap string (ListChildrenResult * Z) }.
Record Server := mkServer { sv_db : Db; sv_cache : option Cache }.
Definition set_db (f : Db → Db) (s : Server) : Server := mkServer (f (sv_db s)) (sv_cache s).
Definition set_cache (f : Cache → Cache) (s : Server) : Server := mkServer (sv_db s) (f <$> sv_cache s).
Definition run_batch (stmts : list Statement) : M Server (list Z) := λ s,
  let '(ns, db) := batch stmts (sv_db s) in (Ok ns, mkServer db (sv_cache s)).

(** What a request brings: the time and a fresh tag. *)
Record Tick := mkTick { tk_ms : Z; tk_etag : string }.

Definition FILE_CACHE_SECONDS : Z := 31536000.
Definition LISTING_CACHE_TTL_SECONDS : Z := 60.
Definition isCacheableImmutablePathType (pathType : PathType) : bool :=
  bool_decide (pathType = MANIFEST_SNAPSHOT).
Definition unexpired {A} (t : Tick) (e : option (A * Z)) : option A :=
  match e with Some (a, expiry) => if (tk_ms t <? expiry)%Z then Some a else None | None => None end.
Definition cacheGet (t : Tick) (prefix path : string) : M Server (option CacheEntry) := gets (λ s,
  c ← sv_cache s; unexpired t (ca_files c !! cacheKeyFor prefix path)).
Definition cachePut (t : Tick) (prefix path : string) (bytes : list Z) (etag modifiedTime : string) : M Server () :=
  modify (set_cache (λ c, mkCache
    (<[cacheKeyFor prefix path := (mkCached bytes etag modifiedTime, (tk_ms t + FILE_CACHE_SECONDS * 1000)%Z)]> (ca_files c))
    (ca_listings c))).
Definition cacheDelete (prefix path : string) : M Server () :=
  modify (set_cache (λ c, mkCache (delete (cacheKeyFor prefix path) (ca_files c)) (ca_listings c))).
(** [/\/(?:changes|mainline)$/]. *)
Definition isAuthoritativeCompactionListing (path : string) : bool :=
  endsWith path "/changes" || endsWith path "/mainline".
Definition listingCacheGet (t : Tick) (prefix path : string) : M Server (option ListChildrenResult) := gets (λ s,
  c ← sv_cache s; unexpired t (ca_listings c !! listingCacheKeyFor prefix path)).
Definition listingCachePut (t : Tick) (prefix path : string) (listing : ListChildrenResult) : M Server () :=
  modify (set_cache (λ c, mkCache (ca_files c)
    (<[listingCacheKeyFor prefix path := (listing, (tk_ms t + LISTING_CACHE_TTL_SECONDS * 1000)%Z)]> (ca_listings c)))).
Definition listingCacheDelete (prefix path : string) : M Server () :=
  modify (set_cache (λ c, mkCache (ca_files c) (delete (listingCacheKeyFor prefix path) (ca_listings c)))).

Section operations.
Context `{WebCrypto} `{IsoClock} (number_of_text : string → jsnum).

Definition nowIso (t : Tick) : string := toISOString (tk_ms t).

(** ** Statements *)
Fixpoint folder_inserts (now prefix cur : string) (segs : list string) : list Statement :=
  match segs with
  | [] => []
  | seg :: segs =>
      let cur := cur +:+ "/" +:+ seg in
      (λ db, let '(k, folders) := insert_or_ignore (prefix, cur) now (db_folders db) in
             (k, set_db_folders (λ _, folders) db)) :: folder_inserts now prefix cur segs
  end.
Definition folderTreeStatements (t : Tick) (prefix target : string) : list Statement :=
  let n := normalizePath target in
  if negb (truthy n) || String.eqb n "/" then [] else folder_inserts (nowIso t) prefix "" (segments n).

Record MetricsDelta := mkDelta {
  fileCountDelta : Z; totalBytesDelta : Z; changeBytesDelta : Z; mainlineBytesDelta : Z }.
Definition no_delta : MetricsDelta := mkDelta 0 0 0 0.
(** [clampNonNeg] of a size; sizes are integers. *)
Definition clampNonNeg (v : Z) : Z := Z.max 0 v.
Definition metricsDelta (pathType : PathType) (prevSize nextSize : option Z) : MetricsDelta :=
  let prev := default 0%Z (clampNonNeg <$> prevSize) in
  let next := default 0%Z (clampNonNeg <$> nextSize) in
  let fileDelta := ((if nextSize then 1 else 0) - (if prevSize then 1 else 0))%Z in
  let bytesDelta := (next - prev)%Z in
  mkDelta fileDelta bytesDelta
    (if bool_decide (pathType = CHANGE_FILE) then bytesDelta else 0)
    (if bool_decide (pathType = MAINLINE_SNAPSHOT) then bytesDelta else 0).

Definition touch_mesh (now : string) (delta : MetricsDelta) (touchRead touchWrite : bool) (r : MeshPath) : MeshPath :=
  let today := slice now 0 10 in
  let same_day := String.eqb (mp_ops_day r) today in
  let writes := if touchWrite then 1%Z else 0%Z in
  mkMeshPath (mp_created_at r) now (Some now)
    (if touchRead then Some now else mp_last_read_at r)
    (if touchWrite then Some now else mp_last_write_at r)
    (mp_last_ttl_delete_at r)
    (if touchWrite then None else mp_deleted_at r)
    today
    (if same_day then mp_ops_count_day r + 1 else 1)%Z
    (if same_day then mp_writes_count_day r + writes else writes)%Z
    (Z.max 0 (mp_file_count r + fileCountDelta delta))
    (Z.max 0 (mp_total_bytes r + totalBytesDelta delta))
    (Z.max 0 (mp_change_bytes r + changeBytesDelta delta))
    (Z.max 0 (mp_mainline_bytes r + mainlineBytesDelta delta)).
Definition meshDeltaStatements (t : Tick) (prefix : string) (remoteRoot : option string) (delta : MetricsDelta)
    (touchRead touchWrite : bool) : list Statement :=
  match opt_truthy remoteRoot with
  | None => []
  | Some root =>
      let now := nowIso t in
      [(λ db, let '(k, mesh) := insert_or_ignore (prefix, root)
                  (mkMeshPath now now None None None None None (slice now 0 10) 0 0 0 0 0 0) (db_mesh db) in
              (k, set_db_mesh (λ _, mesh) db));
       update_mesh (λ k, bool_decide (k = (prefix, root))) (touch_mesh now delta touchRead touchWrite)]
  end.

(** [if (remoteRoot) await db.batch(meshDeltaStatements(…))]. *)
Definition apply_delta (t : Tick) (prefix : string) (remoteRoot : option string) (delta : MetricsDelta)
    (touchRead touchWrite : bool) : M Server () :=
  if opt_truthy remoteRoot
  then run_batch (meshDeltaStatements t prefix remoteRoot delta touchRead touchWrite);; mret () else mret ().

(** ** Reading *)
Record GetFileResult := mkGot { gf_bytes : list Z; gf_size : Z; gf_etag : string; gf_modified : string; gf_cached : bool }.
Definition opGetFile (t : Tick) (prefix path : string) (pathType : PathType) : M Server (option GetFileResult) :=
  let normalized := normalizePath path in
  let remoteRoot := meshRootForPath normalized pathType in
  cached ← if isCacheableImmutablePathType pathType then cacheGet t prefix normalized else mret None;
  match cached with
  | Some c => mret (Some (mkGot (ca_bytes c) (Z.of_nat (length (ca_bytes c))) (ca_etag c) (ca_modified c) true))
  | None =>
      row ← gets (λ s, db_files (sv_db s) !! (prefix, normalized));
      match row with
      | None => mret None
      | Some row =>
          (if isCacheableImmutablePathType pathType
           then cachePut t prefix normalized (fr_content row) (fr_etag row) (fr_modified row) else mret ());;
          apply_delta t prefix remoteRoot no_delta true false;;
          mret (Some (mkGot (fr_content row) (fr_size row) (fr_etag row) (fr_modified row) false))
      end
  end.

(** ** Writing *)
Record PutResult := mkPut { pr_wrote : bool; pr_status : Z }.
(** [slice(0, lastIndexOf("/")) || "/"]. *)
Definition written_row (t : Tick) (bytes : list Z) : FileRow :=
  mkFileRow bytes (Z.of_nat (length bytes)) (nowIso t) (tk_etag t).

Definition opPutImmutable (t : Tick) (prefix path : string) (bytes : list Z) (pathType : PathType)
    (remoteRoot : option string) : M Server PutResult :=
  let normalized := normalizePath path in
  let parentDir := parent_dir normalized in
  let delta := metricsDelta pathType None (Some (Z.of_nat (length bytes))) in
  results ← run_batch (folderTreeStatements t prefix parentDir ++
    [insert_file prefix normalized (written_row t bytes)] ++
    meshDeltaStatements t prefix remoteRoot delta false true);
  let insertIdx := length (folderTreeStatements t prefix parentDir) in
  let wrote := (0 <? default 0 (results !! insertIdx))%Z in
  (if wrote then
     (if isCacheableImmutablePathType pathType
      then cachePut t prefix normalized bytes (tk_etag t) (nowIso t) else mret ());;
     listingCacheDelete prefix parentDir
   else mret ());;
  mret (mkPut wrote (if wrote then 201 else 200)).

(** Whether the incoming pointer or head is behind the stored one; a text that is no JSON is not. *)
Definition goes_back (pathType : PathType) (existing incoming : list Z) : result bool :=
  old ← json_parse (utf8_decode existing);
  new ← json_parse (utf8_decode incoming);
  if bool_decide (pathType = MANIFEST_POINTER) then
    oldGen ← Number_ number_of_text (nullish_or (field "currentGeneration" old) (VNum (Num (-1))));
    newGen ← Number_ number_of_text (nullish_or (field "currentGeneration" new) (VNum (Num (-1))));
    Ok (num_ltb newGen oldGen)
  else if bool_decide (pathType = HEAD) then
    oldHlc ← String_ (nullish_or (field "latestHlc" old) (VStr ""));
    newHlc ← String_ (nullish_or (field "latestHlc" new) (VStr ""));
    Ok (str_ltb newHlc oldHlc)
  else Ok false.

(** The operation in its two steps: what it reads, and what it writes when the answer is to write. *)
Definition semantic_read (prefix normalized : string) : M Server (option FileRow) :=
  gets (λ s, db_files (sv_db s) !! (prefix, normalized)).
Definition semantic_write (t : Tick) (prefix normalized : string) (bytes : list Z) (pathType : PathType)
    (remoteRoot : option string) (existing : option FileRow) : M Server PutResult :=
  let parentDir := parent_dir normalized in
  let refused := match existing with
                 | Some row => match goes_back pathType (fr_content row) bytes with Ok b => b | Throw _ => false end
                 | None => false
                 end in
  if refused then mret (mkPut false 409)
  else
    let delta := metricsDelta pathType (fr_size <$> existing) (Some (Z.of_nat (length bytes))) in
    run_batch (folderTreeStatements t prefix parentDir ++
      [upsert_file prefix normalized (written_row t bytes)] ++
      meshDeltaStatements t prefix remoteRoot delta false false);;
    listingCacheDelete prefix parentDir;;
    mret (mkPut true 204).
Definition opPutSemantic (t : Tick) (prefix path : string) (bytes : list Z) (pathType : PathType)
    (remoteRoot : option string) : M Server PutResult :=
  let normalized := normalizePath path in
  existing ← semantic_read prefix normalized;
  semantic_write t prefix normalized bytes pathType remoteRoot existing.

Definition opPutOverwrite (t : Tick) (prefix path : string) (bytes : list Z) : M Server PutResult :=
  let normalized := normalizePath path in
  let parentDir := parent_dir normalized in
  run_batch (folderTreeStatements t prefix parentDir ++
    [upsert_file prefix normalized (written_row t bytes)]);;
  listingCacheDelete prefix parentDir;;
  mret (mkPut true 204).

(** ** Listing *)
Definition child_of (prefix normalized : string) (k : string * string) : bool :=
  let pattern := if String.eqb normalized "/" then "/%" else normalized +:+ "/%" in
  let depthTarget := if String.eqb normalized "/" then 1 else S (length (segments normalized)) in
  String.eqb k.1 prefix && like pattern k.2 && (slashes k.2 =? depthTarget)%nat.
Definition list_entry (kr : (string * string) * FileRow) : FileEntry :=
  mkEntry (fileNameFromPath kr.1.2) kr.1.2 (fr_size kr.2) (fr_modified kr.2) (fr_etag kr.2).
Definition list_children (prefix normalized : string) (db : Db) : ListChildrenResult :=
  mkListing (list_entry <$> rows_where (child_of prefix normalized) (db_files db))
    (List.filter truthy ((λ kr, fileNameFromPath kr.1.2) <$> rows_where (child_of prefix normalized) (db_folders db))).
Definition opListChildren (t : Tick) (prefix path : string) : M Server ListChildrenResult :=
  let normalized := normalizePath path in
  let cacheable := negb (isAuthoritativeCompactionListing normalized) in
  cached ← if cacheable then listingCacheGet t prefix normalized else mret None;
  match cached with
  | Some listing => mret listing
  | None =>
      result ← gets (λ s, list_children prefix normalized (sv_db s));
      (if cacheable then listingCachePut t prefix normalized result else mret ());;
      mret result
  end.

(** ** Deleting *)

(** U+FFFF. *)
Definition LAST_CHAR : string := String "239" (String "191" (String "191" "")).
(** [path = n OR (path >= n/ AND path < n/U+FFFF)]. *)
Definition in_subtree (prefix normalized : string) (k : string * string) : bool :=
  String.eqb k.1 prefix &&
  (String.eqb k.2 normalized ||
   (negb (str_ltb k.2 (normalized +:+ "/")) && str_ltb k.2 (normalized +:+ "/" +:+ LAST_CHAR))).
Definition in_prefix (prefix : string) (k : string * string) : bool := String.eqb k.1 prefix.
Definition wiped (now : string) (r : MeshPath) : MeshPath :=
  mkMeshPath (mp_created_at r) now (mp_last_operation_at r) (mp_last_read_at r) (mp_last_write_at r)
    (mp_last_ttl_delete_at r) (Some now) (mp_ops_day r) (mp_ops_count_day r) (mp_writes_count_day r) 0 0 0 0.
Definition bytes_of (P : string → bool) (files : list ((string * string) * FileRow)) : Z :=
  foldr (λ kr n, if P kr.1.2 then fr_size kr.2 + n else n)%Z 0%Z files.
Definition opDeletePath (t : Tick) (prefix path : string) (remoteRoot : option string) : M Server bool :=
  let normalized := normalizePath path in
  if String.eqb normalized "/" then
    deletedFiles ← gets (λ s, rows_where (in_prefix prefix) (db_files (sv_db s)));
    run_batch [delete_files (in_prefix prefix); delete_folders (in_prefix prefix)];;
    for_each (λ kr, cacheDelete prefix kr.1.2) deletedFiles;;
    run_batch [update_mesh (in_prefix prefix) (wiped (nowIso t))];;
    listingCacheDelete prefix "/";;
    mret true
  else
    deletedFiles ← gets (λ s, rows_where (in_subtree prefix normalized) (db_files (sv_db s)));
    results ← run_batch [delete_files (in_subtree prefix normalized); delete_folders (in_subtree prefix normalized)];
    let deletedCount := default 0%Z (head results) in
    if (deletedCount =? 0)%Z then mret false
    else
      apply_delta t prefix remoteRoot
        (mkDelta (- deletedCount) (- bytes_of (λ _, true) deletedFiles)
           (- bytes_of (λ p, bool_decide (classifyPath p = CHANGE_FILE)) deletedFiles)
           (- bytes_of (λ p, bool_decide (classifyPath p = MAINLINE_SNAPSHOT)) deletedFiles)) false false;;
      for_each (λ kr, cacheDelete prefix kr.1.2) deletedFiles;;
      listingCacheDelete prefix (parentDirOf normalized);;
      mret true.

(** ** Reconciling *)
Definition under_like (prefix root pattern : string) (k : string * string) : bool :=
  String.eqb k.1 prefix && (String.eqb k.2 root || like pattern k.2).
Definition reconciled (now : string) (count bytes : Z) (r : MeshPath) : MeshPath :=
  mkMeshPath (mp_created_at r) now (mp_last_operation_at r) (mp_last_read_at r) (mp_last_write_at r)
    (mp_last_ttl_delete_at r) (mp_deleted_at r) (mp_ops_day r) (mp_ops_count_day r) (mp_writes_count_day r)
    count bytes (mp_change_bytes r) (mp_mainline_bytes r).
Definition opReconcileMetrics (t : Tick) (prefix remoteRoot : string) : M Server (Z * Z) :=
  let normalized := normalizePath remoteRoot in
  let pattern := if String.eqb normalized "/" then "/%" else normalized +:+ "/%" in
  files ← gets (λ s, rows_where (under_like prefix normalized pattern) (db_files (sv_db s)));
  let count := Z.of_nat (length files) in
  let bytes := bytes_of (λ _, true) files in
  run_batch [update_mesh (λ k, bool_decide (k = (prefix, normalized))) (reconciled (nowIso t) count bytes)];;
  mret (count, bytes).

(** ** Maintenance ([maintenance.ts]) *)
Definition idleSince (r : MeshPath) : option string :=
  Some (default (mp_created_at r) (mp_last_write_at r)).
Definition sweep_candidate (threshold : string) (r : MeshPath) : bool :=
  if opt_truthy (mp_deleted_at r) then false
  else match opt_truthy (idleSince r) with
       | Some since => negb (str_ltb threshold since)
       | None => false
       end.
Definition evicted_row (now : string) (r : MeshPath) : MeshPath :=
  mkMeshPath (mp_created_at r) now (mp_last_operation_at r) (mp_last_read_at r) (mp_last_write_at r)
    (Some now) (Some now) (mp_ops_day r) (mp_ops_count_day r) (mp_writes_count_day r) 0 0 0 0.
Definition evict_root (now prefix remoteRoot : string) : list Statement :=
  [delete_files (under_like prefix remoteRoot (remoteRoot +:+ "/%"));
   delete_folders (under_like prefix remoteRoot (remoteRoot +:+ "/%"));
   update_mesh (λ k, bool_decide (k = (prefix, remoteRoot))) (evicted_row now)].
Definition sweep_threshold (t : Tick) (pathTtlHours : Z) : string := toISOString (tk_ms t - pathTtlHours * 3600000).
Definition sweep_candidates (t : Tick) (pathTtlHours : Z) (prefix : option string) (db : Db)
    : list ((string * string) * MeshPath) :=
  List.filter (λ kr, sweep_candidate (sweep_threshold t pathTtlHours) kr.2)
    match opt_truthy prefix with Some p => rows_where (in_prefix p) (db_mesh db) | None => map_to_list (db_mesh db) end.
Definition evict (t : Tick) (prefix : option string) (kr : (string * string) * MeshPath) : M Server () :=
  run_batch (evict_root (nowIso t) (default kr.1.1 prefix) kr.1.2);; mret ().
(** [pathTtlHours] is finite; the count of candidates and of evictions are the same. *)
Definition runMaintenance (t : Tick) (pathTtlHours : Z) (prefix : option string) : M Server (Z * Z) :=
  if negb (0 <? pathTtlHours)%Z then mret (0, 0)%Z
  else
    candidates ← gets (λ s, sweep_candidates t pathTtlHours prefix (sv_db s));
    for_each (evict t prefix) candidates;;
    mret (Z.of_nat (length candidates), Z.of_nat (length candidates)).

(** The record a client finds at [evicted.json]. *)
Record EvictionRecord := mkEviction {
  ev_meshAddress : string; ev_remotePath : string; ev_evictedAt : string; ev_idle : bool; ev_idleSince : option string }.
Definition readEvictionRecord (prefix remoteRoot : string) : M Server (option EvictionRecord) := gets (λ s,
  row ← db_mesh (sv_db s) !! (prefix, remoteRoot);
  at_ ← opt_truthy (mp_deleted_at row);
  Some (mkEviction prefix remoteRoot at_ (bool_decide (mp_last_ttl_delete_at row = mp_deleted_at row)) (idleSince row))).

(** ** What upload policy may know ([mesh-info.ts]), and the standard policy ([upload-policy.ts]) *)
Record MeshInfo := mkMeshInfo {
  mi_createdAt : option Z; mi_ageMs : option Z; mi_deviceCount : Z; mi_storedFileCount : Z; mi_storedBytes : Z }.
Definition device_file (prefix : string) (k : string * string) : bool :=
  String.eqb k.1 prefix && like "%/devices/%" k.2 && negb (like "%/devices/%/%" k.2).
(** [MIN(created_at)], the least text. *)
Definition min_text (l : list string) : option string :=
  foldr (λ x acc, Some match acc with Some y => if str_ltb y x then y else x | None => x end) None l.
Definition loadMeshInfo (t : Tick) (prefix : string) (storedBytes storedFileCount : Z) (db : Db) : MeshInfo :=
  let raw := min_text ((λ kr, mp_created_at kr.2) <$> rows_where (in_prefix prefix) (db_mesh db)) in
  let createdAt := match opt_truthy raw with
                   | Some text => match Date_parse text with Num n => Some n | NaN => None end
                   | None => None
                   end in
  mkMeshInfo createdAt ((λ c, Z.max 0 (tk_ms t - c)) <$> createdAt)
    (Z.of_nat (length (rows_where (device_file prefix) (db_files db)))) storedFileCount storedBytes.

Record UploadPolicy := mkPolicy {
  up_minMeshAgeMs : option jsnum; up_minDeviceCount : option jsnum; up_allowUnknownAge : bool;
  up_maxMeshStoredBytes : option Z; up_maxStoredFileBytes : option Z }.
Definition DEFAULT_MIN_MESH_AGE_MS : Z := 60000.
Definition DEFAULT_MIN_DEVICE_COUNT : Z := 2.
Definition positive (value : option jsnum) (fallback : Z) : Z :=
  match value with
  | None => fallback
  | Some (Num n) => if (0 <? n)%Z then n else 0%Z
  | Some NaN => 0%Z
  end.
Inductive PolicyAnswer := Allowed | Rejected (status : Z) (reason : string).
Definition standardUploadPolicy (o : UploadPolicy) (size replacedBytes : Z) (mesh : MeshInfo) : PolicyAnswer :=
  let minMeshAgeMs := positive (up_minMeshAgeMs o) DEFAULT_MIN_MESH_AGE_MS in
  let minDeviceCount := positive (up_minDeviceCount o) DEFAULT_MIN_DEVICE_COUNT in
  if from_option (λ m, m <? size)%Z false (up_maxStoredFileBytes o) then Rejected 413 "File too large"
  else if negb ((0 <? minMeshAgeMs)%Z || (1 <? minDeviceCount)%Z || bool_decide (is_Some (up_maxMeshStoredBytes o)))
  then Allowed
  else if from_option (λ m, m <? mi_storedBytes mesh - replacedBytes + size)%Z false (up_maxMeshStoredBytes o)
  then Rejected 413 "Mesh storage limit reached"
  else if (0 <? minMeshAgeMs)%Z && match mi_ageMs mesh with
                                  | None => negb (up_allowUnknownAge o)
                                  | Some age => (age <? minMeshAgeMs)%Z
                                  end
  then Rejected 429 "Mesh is too new for uploads"
  else if (1 <? minDeviceCount)%Z && (mi_deviceCount mesh <? minDeviceCount)%Z
  then Rejected 403 "Mesh has no other device to share with"
  else Allowed.
End operations.

(** ** Theory: statements *)
Notation files s := (db_files (sv_db s)).
Notation folders s := (db_folders (sv_db s)).
Notation meshes s := (db_mesh (sv_db s)).
Notation stored s := (db_stored (sv_db s)).

Lemma batch_app a b db :
  batch (a ++ b) db = let '(n, d) := batch a db in let '(m, d) := batch b d in (n ++ m, d).
Proof.
  revert db. induction a as [|s a IH]; intros db; cbn; [by destruct (batch b db)|].
  destruct (s db) as [k d]. rewrite IH. destruct (batch a d) as [n d']. by destruct (batch b d').
Qed.
Lemma batch_length a db : length (batch a db).1 = length a.
Proof.
  revert db. induction a as [|s a IH]; intros db; [done|]. cbn. destruct (s db) as [k d].
  specialize (IH d). destruct (batch a d). cbn in *. by rewrite IH.
Qed.
(** Statements on one table only. *)
Definition only_folders (st : Statement) : Prop := ∀ db, ∃ f, (st db).2 = set_db_folders f db.
Lemma batch_folders l db : Forall only_folders l → ∃ f, (batch l db).2 = set_db_folders f db.
Proof.
  intros Hl. revert db. induction Hl as [|st l Hs _ IH]; intros db; cbn; [exists id; by destruct db|].
  destruct (Hs db) as (f & E). destruct (st db) as [k d]. cbn in E. subst d.
  destruct (IH (set_db_folders f db)) as (g & E). destruct (batch l _) as [ns d]. cbn in *. exists (g ∘ f). by subst.
Qed.
Lemma folder_statements `{IsoClock} t prefix target : Forall only_folders (folderTreeStatements t prefix target).
Proof.
  unfold folderTreeStatements. destruct (_ || _); [constructor|].
  assert (∀ cur segs, Forall only_folders (folder_inserts (nowIso t) prefix cur segs)) as Hf; [|apply Hf].
  intros cur segs. revert cur. induction segs as [|seg segs IH]; intros cur; [constructor|]. constructor; [|apply IH].
  intros db. cbn. destruct (insert_or_ignore _ _ _) as [k f]. by exists (λ _, f).
Qed.

(** What a request does to the row of its mesh root. *)
Definition mesh_delta `{IsoClock} (t : Tick) (prefix : string) (remoteRoot : option string) (delta : MetricsDelta)
    (touchRead touchWrite : bool) (m : gmap (string * string) MeshPath) : gmap (string * string) MeshPath :=
  match opt_truthy remoteRoot with
  | None => m
  | Some root =>
      let now := nowIso t in
      let fresh := mkMeshPath now now None None None None None (slice now 0 10) 0 0 0 0 0 0 in
      <[(prefix, root) := touch_mesh now delta touchRead touchWrite (default fresh (m !! (prefix, root)))]> m
  end.
Lemma update_one (k : string * string) (f : MeshPath → MeshPath) (m : gmap (string * string) MeshPath) :
  map_imap (λ k' r, Some (if bool_decide (k' = k) then f r else r)) m = alter f k m.
Proof.
  apply map_eq. intros i. rewrite map_lookup_imap. destruct (decide (i = k)) as [->|Hne].
  - rewrite lookup_alter_eq. rewrite bool_decide_true by done. by destruct (m !! k).
  - rewrite lookup_alter_ne by done. destruct (m !! i); cbn; [|done]. by rewrite bool_decide_false.
Qed.
Lemma batch_mesh `{IsoClock} t prefix root delta r w db :
  (batch (meshDeltaStatements t prefix root delta r w) db).2 = set_db_mesh (mesh_delta t prefix root delta r w) db.
Proof.
  unfold meshDeltaStatements, mesh_delta. destruct (opt_truthy root) as [x|]; [|by destruct db].
  unfold batch, insert_or_ignore, update_mesh, set_db_mesh. destruct db as [f d m st]. cbn.
  destruct (m !! (prefix, x)) as [p|] eqn:E; cbn; f_equal; rewrite update_one; apply map_eq; intros i;
    (destruct (decide (i = (prefix, x))) as [->|Hne];
     [rewrite lookup_alter_eq, ?lookup_insert_eq, ?E; done|rewrite lookup_alter_ne, !lookup_insert_ne by done; done]).
Qed.

(** The database after a write: folders apart, the file and the row of the mesh root. *)
Lemma write_batch `{IsoClock} t prefix parent (st : Statement) root delta r w db :
  ∃ f, (batch (folderTreeStatements t prefix parent ++ [st] ++ meshDeltaStatements t prefix root delta r w) db).2 =
         set_db_mesh (mesh_delta t prefix root delta r w) (st (set_db_folders f db)).2 ∧
       (batch (folderTreeStatements t prefix parent ++ [st] ++ meshDeltaStatements t prefix root delta r w) db).1
         !! length (folderTreeStatements t prefix parent) = Some (st (set_db_folders f db)).1.
Proof.
  destruct (batch_folders _ db (folder_statements t prefix parent)) as (f & E). exists f.
  pose proof (batch_length (folderTreeStatements t prefix parent) db) as Hl.
  rewrite batch_app. destruct (batch (folderTreeStatements t prefix parent) db) as [ns d]. cbn in E, Hl. subst d.
  rewrite batch_app. cbn [batch]. destruct (st (set_db_folders f db)) as [k d]. cbn [fst snd].
  pose proof (batch_mesh t prefix root delta r w d) as E. destruct (batch (meshDeltaStatements _ _ _ _ _ _) d) as [ms d'].
  cbn in E |- *. split; [done|]. rewrite lookup_app_r by lia. by rewrite Hl, Nat.sub_diag.
Qed.

(** ** Theory: operations *)
Section facts.
Context `{WebCrypto} `{IsoClock} (number_of_text : string → jsnum).
Implicit Types (s : Server) (prefix path : string).

Lemma run_batch_eq l s : run_batch l s = (Ok (batch l (sv_db s)).1, mkServer (batch l (sv_db s)).2 (sv_cache s)).
Proof. unfold run_batch. by destruct (batch l (sv_db s)). Qed.

Lemma put_immutable_spec t prefix path bytes ty root s :
  let n := normalizePath path in
  let wrote := bool_decide (files s !! (prefix, n) = None) in
  ∃ s', opPutImmutable t prefix path bytes ty root s = (Ok (mkPut wrote (if wrote then 201 else 200)%Z), s') ∧
    files s' = (if wrote then <[(prefix, n) := written_row t bytes]> (files s) else files s) ∧
    meshes s' = mesh_delta t prefix root (metricsDelta ty None (Some (Z.of_nat (length bytes)))) false true (meshes s) ∧
    stored s' = stored s ∧
    sv_cache s' = (if wrote then
      (λ c, mkCache (if isCacheableImmutablePathType ty
                     then <[cacheKeyFor prefix n := (mkCached bytes (tk_etag t) (nowIso t), (tk_ms t + FILE_CACHE_SECONDS * 1000)%Z)]> (ca_files c)
                     else ca_files c)
              (delete (listingCacheKeyFor prefix (parent_dir n)) (ca_listings c))) <$> sv_cache s
      else sv_cache s).
Proof.
  intros n wrote. unfold opPutImmutable. fold n.
  destruct (write_batch t prefix (parent_dir n) (insert_file prefix n (written_row t bytes)) root
    (metricsDelta ty None (Some (Z.of_nat (length bytes)))) false true (sv_db s)) as (f & E & Ei).
  unfold mbind, M_bind. rewrite run_batch_eq, Ei, E. cbn [default from_option]. clear E Ei.
  unfold insert_file, insert_or_ignore. cbn [set_db_folders db_files]. subst wrote.
  destruct (files s !! (prefix, n)) as [row|] eqn:Er; cbn.
  - eexists. split; [done|]. by destruct s as [[]].
  - destruct (isCacheableImmutablePathType ty); cbn; (eexists; split; [done|]; split_and!; try done; by destruct (sv_cache s)).
Qed.

(** When a pointer or head is refused. *)
Definition semantic_refused (ty : PathType) (existing : option FileRow) (bytes : list Z) : bool :=
  match existing with
  | Some row => match goes_back number_of_text ty (fr_content row) bytes with Ok b => b | Throw _ => false end
  | None => false
  end.
Lemma semantic_write_spec t prefix n bytes ty root existing s :
  if semantic_refused ty existing bytes
  then semantic_write number_of_text t prefix n bytes ty root existing s = (Ok (mkPut false 409), s)
  else ∃ s', semantic_write number_of_text t prefix n bytes ty root existing s = (Ok (mkPut true 204), s') ∧
    files s' = <[(prefix, n) := written_row t bytes]> (files s) ∧
    meshes s' = mesh_delta t prefix root (metricsDelta ty (fr_size <$> existing) (Some (Z.of_nat (length bytes)))) false false (meshes s) ∧
    stored s' = stored s ∧
    sv_cache s' = (λ c, mkCache (ca_files c) (delete (listingCacheKeyFor prefix (parent_dir n)) (ca_listings c))) <$> sv_cache s.
Proof.
  unfold semantic_write. fold (semantic_refused ty existing bytes). destruct (semantic_refused ty existing bytes); [done|].
  destruct (write_batch t prefix (parent_dir n) (upsert_file prefix n (written_row t bytes)) root
    (metricsDelta ty (fr_size <$> existing) (Some (Z.of_nat (length bytes)))) false false (sv_db s)) as (f & E & _).
  unfold mbind, M_bind. rewrite run_batch_eq, E. cbn. eexists. split; [done|]. done.
Qed.
Lemma put_semantic_eq t prefix path bytes ty root s :
  opPutSemantic number_of_text t prefix path bytes ty root s =
  semantic_write number_of_text t prefix (normalizePath path) bytes ty root (files s !! (prefix, normalizePath path)) s.
Proof. done. Qed.
Lemma put_overwrite_spec t prefix path bytes s :
  let n := normalizePath path in
  ∃ s', opPutOverwrite t prefix path bytes s = (Ok (mkPut true 204), s') ∧
    files s' = <[(prefix, n) := written_row t bytes]> (files s) ∧ meshes s' = meshes s ∧ stored s' = stored s ∧
    sv_cache s' = (λ c, mkCache (ca_files c) (delete (listingCacheKeyFor prefix (parent_dir n)) (ca_listings c))) <$> sv_cache s.
Proof.
  intros n. unfold opPutOverwrite. fold n.
  destruct (batch_folders _ (sv_db s) (folder_statements t prefix (parent_dir n))) as (f & E).
  unfold mbind, M_bind. rewrite run_batch_eq, batch_app.
  destruct (batch (folderTreeStatements t prefix (parent_dir n)) (sv_db s)) as [ns d]. cbn in E |- *. subst d. by eexists.
Qed.

Lemma apply_delta_spec t prefix root delta r w s :
  ∃ s', apply_delta t prefix root delta r w s = (Ok (), s') ∧
    files s' = files s ∧ stored s' = stored s ∧ folders s' = folders s ∧ sv_cache s' = sv_cache s ∧
    meshes s' = mesh_delta t prefix root delta r w (meshes s).
Proof.
  unfold apply_delta. destruct (opt_truthy root) as [x|] eqn:E; [|unfold mesh_delta; rewrite E; by exists s].
  unfold mbind, M_bind. rewrite run_batch_eq, batch_mesh. by eexists.
Qed.

(** The entry a read is served from. *)
Definition cached_file (t : Tick) (prefix n : string) (ty : PathType) (s : Server) : option CacheEntry :=
  if isCacheableImmutablePathType ty then c ← sv_cache s; unexpired t (ca_files c !! cacheKeyFor prefix n) else None.
Definition got_cached (c : CacheEntry) : GetFileResult :=
  mkGot (ca_bytes c) (Z.of_nat (length (ca_bytes c))) (ca_etag c) (ca_modified c) true.
Definition got_row (row : FileRow) : GetFileResult :=
  mkGot (fr_content row) (fr_size row) (fr_etag row) (fr_modified row) false.
Lemma get_file_spec t prefix path ty s :
  let n := normalizePath path in
  let row := files s !! (prefix, n) in
  ∃ s', opGetFile t prefix path ty s =
      (Ok (match cached_file t prefix n ty s with Some c => Some (got_cached c) | None => got_row <$> row end), s') ∧
    files s' = files s ∧ stored s' = stored s ∧ folders s' = folders s ∧
    meshes s' = (match cached_file t prefix n ty s, row with
                 | None, Some _ => mesh_delta t prefix (meshRootForPath n ty) no_delta true false (meshes s)
                 | _, _ => meshes s
                 end) ∧
    sv_cache s' = (match cached_file t prefix n ty s, row with
                   | None, Some row =>
                       if isCacheableImmutablePathType ty
                       then (λ c, mkCache (<[cacheKeyFor prefix n :=
                              (mkCached (fr_content row) (fr_etag row) (fr_modified row), (tk_ms t + FILE_CACHE_SECONDS * 1000)%Z)]> (ca_files c))
                              (ca_listings c)) <$> sv_cache s
                       else sv_cache s
                   | _, _ => sv_cache s
                   end).
Proof.
  intros n row. unfold opGetFile. fold n. unfold mbind, M_bind, cached_file.
  destruct (isCacheableImmutablePathType ty) eqn:Ec.
  - unfold cacheGet, gets. cbn [mbind M_bind]. destruct (sv_cache s ≫= _) as [c|] eqn:Eu; [by exists s|].
    fold row. destruct row as [r|]; [|by exists s]. unfold cachePut, modify. cbn [mret M_ret].
    destruct (apply_delta_spec t prefix (meshRootForPath n ty) no_delta true false (set_cache (λ c, mkCache (<[cacheKeyFor prefix n := (mkCached (fr_content r) (fr_etag r) (fr_modified r), (tk_ms t + FILE_CACHE_SECONDS * 1000)%Z)]> (ca_files c)) (ca_listings c)) s)) as (s' & E & ? & ? & ? & Hca & ?).
    rewrite E. exists s'. split_and!; done.
  - unfold mret, M_ret, gets. fold row. destruct row as [r|]; [|by exists s].
    destruct (apply_delta_spec t prefix (meshRootForPath n ty) no_delta true false s) as (s' & E & ? & ? & ? & ? & ?).
    rewrite E. exists s'. split_and!; done.
Qed.

Definition cached_listing (t : Tick) (prefix n : string) (s : Server) : option ListChildrenResult :=
  if isAuthoritativeCompactionListing n then None
  else c ← sv_cache s; unexpired t (ca_listings c !! listingCacheKeyFor prefix n).
Lemma list_spec t prefix path s :
  let n := normalizePath path in
  ∃ s', opListChildren t prefix path s =
      (Ok (default (list_children prefix n (sv_db s)) (cached_listing t prefix n s)), s') ∧
    sv_db s' = sv_db s ∧ (ca_files <$> sv_cache s') = (ca_files <$> sv_cache s).
Proof.
  intros n. unfold opListChildren. fold n. unfold mbind, M_bind. unfold cached_listing.
  destruct (isAuthoritativeCompactionListing n); cbn [negb]; [by exists s|].
  unfold listingCacheGet, gets.
  destruct (sv_cache s ≫= _) as [l|] eqn:E; [by exists s|].
  unfold listingCachePut, modify. clear E. destruct s as [db [c|]]; by eexists.
Qed.

(** Removing cache entries leaves the database alone. *)
Lemma cache_deletes prefix (l : list ((string * string) * FileRow)) s :
  ∃ s', for_each (λ kr, cacheDelete prefix kr.1.2) l s = (Ok (), s') ∧ sv_db s' = sv_db s ∧
    (ca_files <$> sv_cache s') = (λ c, foldl (λ m kr, delete (cacheKeyFor prefix kr.1.2) m) (ca_files c) l) <$> sv_cache s.
Proof.
  revert s. induction l as [|kr l IH]; intros s; [exists s; by destruct s as [db [c|]]|].
  cbn [for_each]. unfold mbind, M_bind. cbn.
  destruct (IH (set_cache (λ c, mkCache (delete (cacheKeyFor prefix kr.1.2) (ca_files c)) (ca_listings c)) s)) as (s' & E & Hd & Hc).
  exists s'. split; [exact E|]. split; [done|]. rewrite Hc. by destruct s as [db [c|]].
Qed.
Lemma delete_where_lookup {R} (P : string * string → bool) (m : gmap (string * string) R) (k : string * string) :
  delete_where P m !! k = if P k then None else m !! k.
Proof.
  unfold delete_where. destruct (P k) eqn:E.
  - apply map_lookup_filter_None. right. intros x _. cbn. by rewrite E.
  - destruct (m !! k) as [x|] eqn:Em; [by apply map_lookup_filter_Some|]. apply map_lookup_filter_None. by left.
Qed.
Lemma rows_where_spec {R} (P : string * string → bool) (m : gmap (string * string) R) (k : string * string) r :
  (k, r) ∈ rows_where P m ↔ m !! k = Some r ∧ P k = true.
Proof. unfold rows_where. rewrite elem_of_map_to_list, map_lookup_filter_Some. done. Qed.

(** A deletion removes exactly the rows of its range, and reports whether there were any files. *)
Lemma delete_path_spec t prefix path root s :
  let n := normalizePath path in
  let P := if String.eqb n "/" then in_prefix prefix else in_subtree prefix n in
  ∃ deleted s', opDeletePath t prefix path root s = (Ok deleted, s') ∧
    files s' = delete_where P (files s) ∧ folders s' = delete_where P (folders s) ∧ stored s' = stored s ∧
    (deleted = false → rows_where P (files s) = []) ∧
    (ca_files <$> sv_cache s') =
      (λ c, foldl (λ m kr, delete (cacheKeyFor prefix kr.1.2) m) (ca_files c) (rows_where P (files s))) <$> sv_cache s.
Proof.
  intros n P. unfold opDeletePath. fold n. subst P. destruct (String.eqb n "/").
  - unfold mbind, M_bind, gets. rewrite !run_batch_eq. cbn [batch delete_files delete_folders].
    set (s1 := mkServer _ _). destruct (cache_deletes prefix (rows_where (in_prefix prefix) (files s)) s1) as (s2 & -> & Hd & Hc).
    rewrite run_batch_eq. cbn. eexists true, _. split; [done|]. rewrite Hd. cbn. split_and!; try done.
    rewrite <- option_fmap_compose. cbn in Hc. rewrite <- Hc. by destruct (sv_cache s2).
  - unfold mbind, M_bind, gets. rewrite !run_batch_eq. cbn [batch delete_files delete_folders fst snd head default from_option id].
    destruct (Z.eqb_spec (Z.of_nat (length (rows_where (in_subtree prefix n) (files s)))) 0) as [Hz|Hz].
    { assert (rows_where (in_subtree prefix n) (files s) = []) as Hnil by (apply nil_length_inv; lia).
      eexists false, _. split; [done|]. split_and!; try done. rewrite Hnil. by destruct (sv_cache s). }
    set (s1 := mkServer _ _).
    match goal with |- context [apply_delta t prefix root ?d false false s1] =>
      destruct (apply_delta_spec t prefix root d false false s1) as (s2 & -> & Hf & Hs & Ho & Hca & _) end.
    destruct (cache_deletes prefix (rows_where (in_subtree prefix n) (files s)) s2) as (s3 & -> & Hd & Hc).
    cbn. eexists true, _. split; [done|]. cbn. rewrite Hd, Hf, Ho, Hs. split_and!; try done.
    rewrite Hca in Hc. cbn in Hc. rewrite <- Hc. by destruct (sv_cache s3).
Qed.

(** *** The sweep *)
Definition under_root (root : string * string) (k : string * string) : bool := under_like root.1 root.2 (root.2 +:+ "/%") k.
Lemma candidates_spec t ttl (prefix : option string) db k r :
  (k, r) ∈ sweep_candidates t ttl prefix db ↔
  db_mesh db !! k = Some r ∧ sweep_candidate (sweep_threshold t ttl) r = true ∧
  (∀ p, opt_truthy prefix = Some p → k.1 = p).
Proof.
  unfold sweep_candidates. rewrite list_elem_of_In, filter_In, <- list_elem_of_In. cbn [snd].
  destruct (opt_truthy prefix) as [p|] eqn:E.
  - rewrite rows_where_spec. unfold in_prefix. rewrite String.eqb_eq. split.
    + intros [[? <-] ?]. by split_and!; [..|intros ? [= <-]].
    + intros (? & ? & Hp). by rewrite (Hp p).
  - rewrite elem_of_map_to_list. split; [intros [? ?]; by split_and!|by intros (? & ? & _)].
Qed.
Lemma evict_loop t (prefix : option string) l s : (∀ kr, kr ∈ l → default kr.1.1 prefix = kr.1.1) →
  ∃ s', for_each (evict t prefix) l s = (Ok (), s') ∧
    (∀ k, files s' !! k = if existsb (λ kr, under_root kr.1 k) l then None else files s !! k) ∧
    (∀ k, meshes s' !! k = if bool_decide (k ∈ l.*1) then evicted_row (nowIso t) <$> meshes s !! k else meshes s !! k) ∧
    stored s' = stored s ∧ sv_cache s' = sv_cache s.
Proof.
  revert s. induction l as [|kr l IH]; intros s Hp; [by exists s|].
  cbn [for_each]. set (s1 := mkServer (batch (evict_root (nowIso t) kr.1.1 kr.1.2) (sv_db s)).2 (sv_cache s)).
  assert (evict t prefix kr s = (Ok (), s1)) as E.
  { unfold evict, mbind, M_bind. rewrite run_batch_eq, (Hp kr) by by left. done. }
  unfold mbind, M_bind. rewrite E. clear E.
  destruct (IH s1) as (s' & -> & Hf & Hm & Hs & Hc); [by intros; apply Hp; right|].
  exists s'. split; [done|]. split_and!; [..|by rewrite Hs|by rewrite Hc].
  - intros k. rewrite Hf. cbn [existsb]. subst s1. unfold evict_root. cbn. rewrite !delete_where_lookup.
    unfold under_root at 2. destruct (under_like kr.1.1 kr.1.2 _ k), (existsb _ l); done.
  - intros k. rewrite Hm. subst s1. unfold evict_root. cbn. rewrite update_one. replace (kr.1.1, kr.1.2) with kr.1 by by destruct kr as [[]].
    destruct (decide (k = kr.1)) as [->|Hne].
    + rewrite lookup_alter_eq, (bool_decide_true (kr.1 ∈ kr.1 :: _)) by by left.
      case_bool_decide; [|done]. by destruct (meshes s !! kr.1).
    + rewrite lookup_alter_ne by done.
      assert (k ∈ kr.1 :: l.*1 ↔ k ∈ l.*1) as E by (rewrite elem_of_cons; tauto).
      by rewrite (bool_decide_ext _ _ E).
Qed.
Lemma sweep_spec t ttl (prefix : option string) s : (0 < ttl)%Z → prefix ≠ Some "" →
  ∃ n s', runMaintenance t ttl prefix s = (Ok n, s') ∧
    (∀ k, files s' !! k = if existsb (λ kr, under_root kr.1 k) (sweep_candidates t ttl prefix (sv_db s)) then None else files s !! k) ∧
    (∀ k, meshes s' !! k = if bool_decide (k ∈ (sweep_candidates t ttl prefix (sv_db s)).*1)
                           then evicted_row (nowIso t) <$> meshes s !! k else meshes s !! k) ∧
    stored s' = stored s ∧ sv_cache s' = sv_cache s.
Proof.
  intros Ht Hp. unfold runMaintenance. destruct (Z.ltb_spec 0 ttl); [|lia]. cbn [negb]. unfold mbind at 1, M_bind, gets at 1.
  destruct (evict_loop t prefix (sweep_candidates t ttl prefix (sv_db s)) s) as (s' & E & Hrest).
  { intros [k r] Hk. apply candidates_spec in Hk as (_ & _ & Hk). destruct prefix as [p|]; [|done]. cbn.
    rewrite (Hk p); [done|]. cbn. by destruct p. }
  unfold mbind, M_bind. rewrite E. by eexists _, s'.
Qed.
End facts.

(** A clock for examples: the milliseconds in sixteen digits. *)
Definition digit_iso (t : Z) : string := padStart (num_toString 10 (Num t)) 16 "0".
Lemma digit_iso_numeral z : instant z → ∃ ds, digit_iso z = dstr ds ∧ digits_ok 10 ds ∧ dval 10 ds = z ∧ length ds = 16%nat.
Proof.
  intros Hz. unfold instant in Hz. destruct (padded_numeral 10 16 z ltac:(lia) ltac:(lia) ltac:(lia)) as (d & Ed & Hd & Hv & Hl).
  exists d. unfold digit_iso, num_toString. destruct (Z.ltb_spec z 0); [lia|]. rewrite Ed. split_and!; try done.
  destruct (Z.ltb_spec z (10 ^ Z.of_nat 16)); [done|simpl in *; lia].
Qed.
Lemma digit_iso_order a b : instant a → instant b → str_ltb (digit_iso a) (digit_iso b) = (a <? b)%Z.
Proof.
  intros Ha Hb. destruct (digit_iso_numeral a Ha) as (da & -> & Hda & Hva & Hla), (digit_iso_numeral b Hb) as (db & -> & Hdb & Hvb & Hlb).
  unfold str_ltb. rewrite <- (str_app_nil_r (dstr da)), <- (str_app_nil_r (dstr db)), (dstr_compare 10) by (done || lia).
  rewrite Hva, Hvb. unfold Z.ltb. by destruct (a ?= b)%Z.
Qed.
Lemma digit_iso_parse a : instant a → parseInt (digit_iso a) 10 = Num a.
Proof.
  intros Ha. destruct (digit_iso_numeral a Ha) as (da & -> & Hda & <- & Hla). apply parseInt_dstr; [lia|done|by intros ->].
Qed.
Lemma digit_iso_truthy a : truthy (digit_iso a) = true.
Proof.
  unfold digit_iso. pose proof (padStart_length (num_toString 10 (Num a)) 16 "0"). destruct (padStart _ _ _); [cbn in *; lia|done].
Qed.
Definition digit_clock : IsoClock :=
  {| toISOString := digit_iso; Date_parse s := parseInt s 10; iso_order := digit_iso_order;
     iso_parse := digit_iso_parse; iso_truthy := digit_iso_truthy |}.

(** ** Theory: ranges and patterns *)

(** A text from [a] on and before [a ++ l] starts with [a]. *)
Lemma range_is_prefix a l q :
  negb (str_ltb q a) && str_ltb q (a +:+ l) = true ↔ ∃ rest, q = a +:+ rest ∧ str_ltb rest l = true.
Proof.
  split.
  - revert q. induction a as [|c a IH]; intros q; [rewrite str_app_nil_l; intros [_ H]%andb_true_iff; by exists q|].
    destruct q as [|d q]; [done|]. rewrite str_app_cons. unfold str_ltb. cbn [String.compare].
    destruct (Ascii.compare d c) eqn:Ec; [|done..]. apply Ascii.compare_eq_iff in Ec as ->.
    intros H. destruct (IH q H) as (rest & -> & Hr). by exists rest.
  - intros (rest & -> & Hr). unfold str_ltb in *. rewrite str_compare_app_l, Hr, andb_true_r.
    rewrite <- (str_app_nil_r a) at 2. rewrite str_compare_app_l. by destruct rest.
Qed.
Lemma in_subtree_spec prefix n k :
  in_subtree prefix n k = true ↔
  k.1 = prefix ∧ (k.2 = n ∨ ∃ rest, k.2 = n +:+ "/" +:+ rest ∧ str_ltb rest LAST_CHAR = true).
Proof.
  unfold in_subtree. rewrite andb_true_iff, orb_true_iff, !String.eqb_eq.
  rewrite <- (str_app_assoc n "/" LAST_CHAR), range_is_prefix.
  assert ((∃ rest, k.2 = (n +:+ "/") +:+ rest ∧ str_ltb rest LAST_CHAR = true) ↔
    ∃ rest, k.2 = n +:+ "/" +:+ rest ∧ str_ltb rest LAST_CHAR = true) as ->; [|done].
  split; intros (rest & E & ?); exists rest; by rewrite ?str_app_assoc in *.
Qed.

(** A pattern matches what it spells. *)
Lemma like_percent s p : like (String "%" p) s = true ↔ ∃ a b, s = a +:+ b ∧ like p b = true.
Proof.
  induction s as [|c s IH].
  - cbn. rewrite orb_false_r. split; [intros H; by exists "", ""|]. intros (a & b & E & H).
    destruct a; [|done]. rewrite str_app_nil_l in E. by subst.
  - change (like (String "%" p) (String c s)) with (like p (String c s) || like (String "%" p) s). rewrite orb_true_iff, IH. split.
    + intros [H|(a & b & -> & H)]; [by exists "", (String c s)|by exists (String c a), b].
    + intros ([|x a] & b & E & H); [left; rewrite str_app_nil_l in E; by subst|].
      rewrite str_app_cons in E. injection E as <- ->. right. by exists a, b.
Qed.
Lemma like_everything s : like "%" s = true.
Proof. apply like_percent. exists s, "". by rewrite str_app_nil_r. Qed.
Lemma like_spelled n p s : like p s = true → like (n +:+ p) (n +:+ s) = true.
Proof.
  intros Hp. induction n as [|c n IH]; [done|]. rewrite !str_app_cons. destruct (Ascii.eqb_spec c "%") as [->|Hc].
  - apply like_percent. exists "%", (n +:+ s). by rewrite str_app_cons.
  - cbn [like]. destruct (Ascii.eqb_spec c "%"); [done|]. destruct (Ascii.eqb_spec c "_") as [->|]; [done|].
    by rewrite Ascii.eqb_refl.
Qed.
(** Without wildcards, a pattern matches a text that differs in the case of letters at most. *)
Fixpoint same_letters (a b : string) : bool :=
  match a, b with
  | "", "" => true
  | String x a, String y b => Ascii.eqb (lower x) (lower y) && same_letters a b
  | _, _ => false
  end.
Lemma like_literal n p s : free_of "%" n = true → free_of "_" n = true →
  like (n +:+ p) s = true ↔ ∃ a b, s = a +:+ b ∧ same_letters n a = true ∧ like p b = true.
Proof.
  revert s. induction n as [|c n IH]; intros s.
  - intros _ _. rewrite str_app_nil_l. split; [intros H; by exists "", s|].
    intros (a & b & -> & Ha & H). by destruct a.
  - rewrite !free_of_cons, !andb_true_iff, !negb_true_iff. intros [Hc Hn] [Hc' Hn']. rewrite str_app_cons. cbn [like].
    rewrite Hc. destruct s as [|d s].
    { split; [done|]. by intros ([|] & ? & ? & ? & _). }
    rewrite Hc', andb_true_iff, IH by done. split.
    + intros [H (a & b & -> & Ha & Hb)]. exists (String d a), b. cbn [same_letters]. by rewrite H, Ha.
    + intros ([|x a] & b & E & Ha & Hb); [done|]. rewrite str_app_cons in E. injection E as <- ->.
      cbn [same_letters] in Ha. apply andb_true_iff in Ha as [H Ha]. split; [done|]. by exists a, b.
Qed.

(** *** Depth of a path *)
Lemma filter_length P s : String.length (str_filter P s) ≤ String.length s.
Proof. induction s as [|c s IH]; cbn; [done|]. destruct (P c); cbn; lia. Qed.
Lemma slashes_cons c s : slashes (String c s) = (if Ascii.eqb c "/" then S (slashes s) else slashes s).
Proof.
  unfold slashes. cbn [str_filter String.length]. pose proof (filter_length (λ c, negb (Ascii.eqb c "/")) s).
  destruct (Ascii.eqb c "/"); cbn [negb String.length]; lia.
Qed.
Lemma slashes_app a b : slashes (a +:+ b) = slashes a + slashes b.
Proof. induction a as [|c a IH]; [done|]. rewrite str_app_cons, !slashes_cons, IH. by destruct (Ascii.eqb c "/"). Qed.
Lemma slashes_free s : free_of "/" s = true → slashes s = 0.
Proof.
  induction s as [|c s IH]; [done|]. rewrite free_of_cons, slashes_cons. intros [Hc%negb_true_iff Hs]%andb_true_iff.
  by rewrite Hc, IH.
Qed.
Lemma slashes_split s : S (slashes s) = length (split_char "/" s).
Proof.
  induction s as [|c s IH]; [done|]. rewrite slashes_cons. cbn [split_char]. destruct (Ascii.eqb c "/"); [cbn; by rewrite IH|].
  destruct (split_cons "/" s) as (p & parts & E). rewrite E in *. cbn in *. lia.
Qed.
Lemma endsWith_cons c s : s ≠ "" → endsWith (String c s) "/" = endsWith s "/".
Proof.
  intros Hs. unfold endsWith. cbn [String.length]. destruct s as [|d s]; [done|]. cbn [String.length].
  rewrite !Nat.sub_succ, !Nat.sub_0_r. cbn [str_drop Nat.leb]. done.
Qed.
Lemma inner_segments s : no_double s = true → endsWith s "/" = false → Forall (λ p, truthy p = true) (tail (split_char "/" s)).
Proof.
  induction s as [|c s IH]; [constructor|]. intros Hd He. destruct s as [|d s].
  { cbn. by destruct (Ascii.eqb c "/") eqn:E; [apply Ascii.eqb_eq in E as ->|constructor]. }
  rewrite no_double_cons in Hd. apply andb_true_iff in Hd as [Hcd Hd]. rewrite endsWith_cons in He by done.
  specialize (IH Hd He). cbn [split_char]. fold (split_char "/" (String d s)).
  destruct (Ascii.eqb c "/") eqn:Ec.
  - cbn [tail]. destruct (Ascii.eqb d "/") eqn:Ed; [done|]. cbn [split_char] in *. rewrite Ed in *.
    destruct (split_cons "/" s) as (p & parts & E). rewrite E in *. by constructor.
  - change (if Ascii.eqb d "/" then "" :: split_char "/" s
            else match split_char "/" s with [] => [String d ""] | p :: parts => String d p :: parts end)
      with (split_char "/" (String d s)).
    destruct (split_cons "/" (String d s)) as (p & parts & E). rewrite E in *. done.
Qed.
Lemma filter_truthy_all l : Forall (λ p, truthy p = true) l → List.filter truthy l = l.
Proof. induction 1 as [|p l Hp _ IH]; [done|]. cbn. by rewrite Hp, IH. Qed.
Lemma normal_depth n : normal_path n → n ≠ "/" → slashes n = length (segments n).
Proof.
  intros (Ha & Hd & He) Hn. assert (endsWith n "/" = false) as He' by (destruct (endsWith n "/"); [by rewrite He in Hn|done]).
  pose proof (inner_segments n Hd He') as Hs. destruct (absolute_slash n) as (s & E). rewrite absolute_id in E by done. subst n.
  unfold segments. pose proof (slashes_split (String "/" s)) as Hl.
  change (split_char "/" (String "/" s)) with ("" :: split_char "/" s) in *. cbn [tail] in Hs.
  change (List.filter truthy ("" :: split_char "/" s)) with (List.filter truthy (split_char "/" s)).
  rewrite filter_truthy_all by done. cbn [length] in Hl. lia.
Qed.

(** ** Properties *)
Section properties.
Context `{WebCrypto} `{IsoClock}.

(** A deletion takes the path and everything below it.  After [opDeletePath] of a
    path other than the root, the files of the mesh that are gone are the one at the path and those below it whose next
    name starts before U+FFFF; every other file is as it was. *)
Theorem deletion_is_the_subtree (t : Tick) (prefix path : string) (root : option string) (s : Server) :
  let n := normalizePath path in
  n ≠ "/" → ∃ deleted s', opDeletePath t prefix path root s = (Ok deleted, s') ∧
    ∀ k, (k.1 = prefix ∧ (k.2 = n ∨ ∃ rest, k.2 = n +:+ "/" +:+ rest ∧ str_ltb rest LAST_CHAR = true) → files s' !! k = None) ∧
         (files s' !! k = files s !! k ∨
          k.1 = prefix ∧ (k.2 = n ∨ ∃ rest, k.2 = n +:+ "/" +:+ rest ∧ str_ltb rest LAST_CHAR = true)).
Proof.
  intros n Hn. destruct (delete_path_spec t prefix path root s) as (d & s' & E & Hf & _). exists d, s'. split; [done|].
  intros k. rewrite Hf. fold n. destruct (String.eqb_spec n "/"); [done|]. rewrite delete_where_lookup, <- in_subtree_spec.
  destruct (in_subtree prefix n k); [by split; [|right]|by split; [|left]].
Qed.

(** A listing has every file of its folder.  Read from the database, the listing of a normal path other than the root names every
    file of the mesh directly below it, and names nothing but files of the mesh at that depth; when the path
    has no wildcard of the pattern language, what it names is below a path with the same letters. *)
Theorem listing_is_complete (prefix n : string) (db : Db) :
  normal_path n → n ≠ "/" →
  (∀ name row, free_of "/" name = true → db_files db !! (prefix, n +:+ "/" +:+ name) = Some row →
     mkEntry (fileNameFromPath (n +:+ "/" +:+ name)) (n +:+ "/" +:+ name) (fr_size row) (fr_modified row) (fr_etag row)
       ∈ ls_files (list_children prefix n db)) ∧
  (∀ e, e ∈ ls_files (list_children prefix n db) →
     is_Some (db_files db !! (prefix, le_path e)) ∧ slashes (le_path e) = S (slashes n) ∧
     (free_of "%" n = true → free_of "_" n = true →
      ∃ folder name, le_path e = folder +:+ "/" +:+ name ∧ same_letters n folder = true)).
Proof.
  intros Hnorm Hn. assert (∀ k, child_of prefix n k = String.eqb k.1 prefix && like (n +:+ "/%") k.2 && (slashes k.2 =? S (slashes n))%nat) as Hc.
  { intros k. unfold child_of. destruct (String.eqb_spec n "/"); [done|]. by rewrite (normal_depth n). }
  unfold list_children. cbn [ls_files]. split.
  - intros name row Hf Hrow. apply list_elem_of_fmap. exists ((prefix, n +:+ "/" +:+ name), row). split; [done|].
    apply rows_where_spec. split; [done|]. rewrite Hc. cbn [fst snd]. rewrite String.eqb_refl.
    rewrite like_spelled by (by apply (like_spelled "/" "%"), like_everything).
    rewrite !slashes_app, (slashes_free name) by done. apply Nat.eqb_eq. cbn. lia.
  - intros e [[[p q] row] [-> Hin]]%list_elem_of_fmap. apply rows_where_spec in Hin as [Hrow Hk]. rewrite Hc in Hk. cbn [fst snd] in Hk.
    apply andb_true_iff in Hk as [[->%String.eqb_eq Hl]%andb_true_iff Hd%Nat.eqb_eq]. cbn [list_entry le_path fst snd].
    split_and!; [by eexists|done|]. intros Hp Hu. apply (like_literal n "/%") in Hl as (a & b & -> & Ha & Hb); [|done..].
    apply (like_literal "/" "%") in Hb as (x & name & -> & Hx & _); [|done..]. exists a, name. split; [|done].
    destruct x as [|c [|]]; cbn [same_letters] in Hx; [done| |by rewrite andb_false_r in Hx]. rewrite andb_true_r in Hx.
    assert (c = "/"%char) as ->; [|done]. clear -Hx. by destruct c as [[] [] [] [] [] [] [] []].
Qed.

(** *** Idleness, in instants *)
Definition hours (n : Z) : Z := n * 3600000.
Definition live (r : MeshPath) : Prop := mp_deleted_at r = None ∨ mp_deleted_at r = Some "".
(** The root was last written at the instant [u]; a root never written counts from its creation. *)
Definition touched (r : MeshPath) (u : Z) : Prop :=
  instant u ∧ (mp_last_write_at r = Some (toISOString u) ∨ mp_last_write_at r = None ∧ mp_created_at r = toISOString u).
Definition idle_for (t : Tick) (ttl : Z) (r : MeshPath) : Prop := live r ∧ ∃ u, touched r u ∧ (hours ttl ≤ tk_ms t - u)%Z.
Lemma idle_candidate t ttl r u : instant (tk_ms t - hours ttl) → touched r u →
  sweep_candidate (sweep_threshold t ttl) r = true ↔ idle_for t ttl r.
Proof.
  intros Ht Hu. assert (∀ v, touched r v → idleSince r = Some (toISOString v)) as Hsince.
  { unfold idleSince. intros v (_ & [->|[-> ->]]); done. }
  unfold sweep_candidate. rewrite (Hsince u Hu), opt_truthy_Some by apply iso_truthy.
  change (sweep_threshold t ttl) with (toISOString (tk_ms t - hours ttl)). rewrite iso_order by (done || apply Hu).
  assert (opt_truthy (mp_deleted_at r) = None ↔ live r) as Hlive.
  { unfold live, opt_truthy. destruct (mp_deleted_at r) as [[|c d]|]; cbn; naive_solver. }
  split.
  - destruct (opt_truthy (mp_deleted_at r)) eqn:Ed; [done|]. intros Hn%negb_true_iff%Z.ltb_ge.
    split; [by apply Hlive|]. exists u. split; [done|lia].
  - intros [Hl (v & Hv & Hge)]. apply Hlive in Hl as ->. apply negb_true_iff, Z.ltb_ge.
    assert (toISOString v = toISOString u) as E by (apply Hsince in Hv, Hu; congruence).
    destruct (proj1 Hv) as [Hv1 Hv2], Hu as [Hu _]. pose proof (iso_parse u Hu) as Ep. rewrite <- E, iso_parse in Ep by apply Hv.
    injection Ep as ->. lia.
Qed.

(** C21: What the sweep takes, and what it leaves.  With a positive TTL, and rows that bear the server's own times, [runMaintenance]
    over all meshes marks as evicted every root that is not evicted yet and has not been written (or, never written, not been created)
    for that many hours, and leaves the rows of the others alone; a file is gone exactly when it is
    at such a root or matches the pattern below it; durable files are untouched. *)
Theorem sweep_takes_idle_roots (t : Tick) (ttl : Z) (s : Server) :
  (0 < ttl)%Z → instant (tk_ms t - hours ttl) → (∀ k r, meshes s !! k = Some r → ∃ u, touched r u) →
  ∃ n s', runMaintenance t ttl None s = (Ok n, s') ∧ stored s' = stored s ∧
    (∀ k r, meshes s !! k = Some r →
       (idle_for t ttl r → meshes s' !! k = Some (evicted_row (nowIso t) r)) ∧
       (¬ idle_for t ttl r → meshes s' !! k = Some r)) ∧
    (∀ k row, files s !! k = Some row →
       files s' !! k = None ↔ ∃ root r, meshes s !! (k.1, root) = Some r ∧
         idle_for t ttl r ∧ (k.2 = root ∨ like (root +:+ "/%") k.2 = true)).
Proof.
  intros Ht Hi Hst. destruct (sweep_spec t ttl None s Ht ltac:(done)) as (n & s' & E & Hf & Hm & Hs & _).
  assert (∀ k r, meshes s !! k = Some r → sweep_candidate (sweep_threshold t ttl) r = true ↔ idle_for t ttl r) as Hc.
  { intros k r Hr. destruct (Hst k r Hr) as [u Hu]. by eapply idle_candidate. }
  exists n, s'. split_and!; [done|done|..].
  - intros k r Hr. rewrite Hm, Hr, <- (Hc k r Hr). split; intros Hd.
    + rewrite bool_decide_true; [done|]. apply list_elem_of_fmap. exists (k, r). split; [done|]. by apply candidates_spec.
    + rewrite bool_decide_false; [done|]. intros ([k' r'] & -> & Hin)%list_elem_of_fmap.
      apply candidates_spec in Hin as (Hr' & Hc' & _). cbn in Hr. by simplify_eq.
  - intros k row Hrow. rewrite Hf. destruct (existsb _ _) eqn:Ex.
    + split; [intros _|done]. apply existsb_exists in Ex as ([[p root] r] & Hin%list_elem_of_In & Hu).
      apply candidates_spec in Hin as (Hr & Hd & _). unfold under_root, under_like in Hu. cbn [fst snd] in Hu.
      apply andb_true_iff in Hu as [->%String.eqb_eq Hu]. exists root, r. split; [done|]. split; [by eapply Hc|].
      apply orb_true_iff in Hu as [?%String.eqb_eq|?]; [by left|by right].
    + rewrite Hrow. split; [done|]. intros (root & r & Hr & Hd & Hu).
      assert (existsb (λ kr, under_root kr.1 k) (sweep_candidates t ttl None (sv_db s)) = true) as Ex'; [|by rewrite Ex' in Ex].
      apply existsb_exists. exists ((k.1, root), r).
      split; [apply list_elem_of_In, candidates_spec; split_and!; [done|by eapply Hc|done]|].
      unfold under_root, under_like. cbn [fst snd]. rewrite String.eqb_refl. cbn.
      apply orb_true_iff. destruct Hu as [->|Hu]; [left; apply String.eqb_refl|by right].
Qed.

(** Only the sweep and a wipe are reported, and only until the next immutable write.  The record at a
    root names the instant it was evicted; the next write of an immutable object under that root clears it, and writes of pointers,
    heads and heartbeats do not. *)
Theorem eviction_record_until_rewritten (number_of_text : string → jsnum) (t : Tick) (prefix root path : string)
    (bytes : list Z) (ty : PathType) (s : Server) (r : MeshPath) (at_ : string) :
  truthy root = true → meshes s !! (prefix, root) = Some r → mp_deleted_at r = Some at_ → truthy at_ = true →
  (∃ e, (readEvictionRecord prefix root s).1 = Ok (Some e) ∧ ev_evictedAt e = at_ ∧ ev_remotePath e = root) ∧
  (readEvictionRecord prefix root (opPutImmutable t prefix path bytes ty (Some root) s).2).1 = Ok None ∧
  (∃ e, (readEvictionRecord prefix root (opPutSemantic number_of_text t prefix path bytes ty (Some root) s).2).1 = Ok (Some e)) ∧
  (∃ e, (readEvictionRecord prefix root (opPutOverwrite t prefix path bytes s).2).1 = Ok (Some e)).
Proof.
  intros Ht Hr Hd Ha. unfold readEvictionRecord, gets.
  assert (∀ s' r' , meshes s' !! (prefix, root) = Some r' → mp_deleted_at r' = Some at_ →
    (row ← meshes s' !! (prefix, root); x ← opt_truthy (mp_deleted_at row);
     Some (mkEviction prefix root x (bool_decide (mp_last_ttl_delete_at row = mp_deleted_at row)) (idleSince row))) =
    Some (mkEviction prefix root at_ (bool_decide (mp_last_ttl_delete_at r' = Some at_)) (idleSince r'))) as Hev.
  { intros s' r' -> Hd'. cbn. rewrite Hd'. by rewrite opt_truthy_Some. }
  split_and!.
  - cbn [fst]. rewrite (Hev s r) by done. by eexists.
  - destruct (put_immutable_spec t prefix path bytes ty (Some root) s) as (s' & -> & _ & Hm & _).
    cbn [fst snd]. rewrite Hm. unfold mesh_delta. rewrite opt_truthy_Some, lookup_insert_eq by done. done.
  - cbn [fst]. rewrite put_semantic_eq.
    pose proof (semantic_write_spec number_of_text t prefix (normalizePath path) bytes ty (Some root)
      (files s !! (prefix, normalizePath path)) s) as Hw.
    destruct (semantic_refused _ _ _ _); [rewrite Hw; cbn [snd]; rewrite (Hev s r) by done; by eexists|].
    destruct Hw as (s' & -> & _ & Hm & _). cbn [snd].
    rewrite (Hev s' (touch_mesh (nowIso t) (metricsDelta ty (fr_size <$> files s !! (prefix, normalizePath path))
      (Some (Z.of_nat (length bytes)))) false false r)); [by eexists| |done].
    rewrite Hm. unfold mesh_delta. by rewrite opt_truthy_Some, lookup_insert_eq, Hr.
  - destruct (put_overwrite_spec t prefix path bytes s) as (s' & -> & _ & Hm & _).
    cbn [fst snd]. rewrite (Hev s' r) by (by rewrite ?Hm || done). by eexists.
Qed.

(** A stored pointer document. *)
Definition pointer_of (v : jsval) (g : Z) (bytes : list Z) : Prop :=
  bytes = utf8_encode (json_stringify v) ∧ json_value v = true ∧ field "currentGeneration" v = VNum (Num g).
Lemma goes_back_pointer number_of_text v v' g g' old new : pointer_of v g old → pointer_of v' g' new →
  goes_back number_of_text MANIFEST_POINTER old new = Ok (g' <? g)%Z.
Proof.
  intros (-> & Hv & Hg) (-> & Hv' & Hg'). unfold goes_back. rewrite !utf8_roundtrip, !json_roundtrip by done.
  unfold mbind, result_bind. by rewrite Hg, Hg'.
Qed.

(** A pointer never goes back, one request at a time.  A pointer whose generation is behind the stored one is
    answered 409 and nothing changes; any other is stored.  The check and the write are two steps: of two requests that
    both read the pointer before either writes, the one with the older generation can write last, and the pointer goes
    back from [g3] to [g2]. *)
Theorem pointer_never_goes_back (number_of_text : string → jsnum) (t t' : Tick) (prefix path : string)
    (root : option string) (s : Server) (row : FileRow) (v1 v2 v3 : jsval) (g1 g2 g3 : Z) (new2 new3 : list Z) :
  let n := normalizePath path in
  files s !! (prefix, n) = Some row → pointer_of v1 g1 (fr_content row) →
  pointer_of v2 g2 new2 → pointer_of v3 g3 new3 →
  (if (g2 <? g1)%Z
   then opPutSemantic number_of_text t prefix path new2 MANIFEST_POINTER root s = (Ok (mkPut false 409), s)
   else ∃ s', opPutSemantic number_of_text t prefix path new2 MANIFEST_POINTER root s = (Ok (mkPut true 204), s') ∧
          files s' = <[(prefix, n) := written_row t new2]> (files s)) ∧
  ((g1 ≤ g2 < g3)%Z → ∃ read s1 s2,
     (semantic_read prefix n s) = (Ok read, s) ∧
     semantic_write number_of_text t prefix n new3 MANIFEST_POINTER root read s = (Ok (mkPut true 204), s1) ∧
     semantic_write number_of_text t' prefix n new2 MANIFEST_POINTER root read s1 = (Ok (mkPut true 204), s2) ∧
     fr_content <$> files s1 !! (prefix, n) = Some new3 ∧ fr_content <$> files s2 !! (prefix, n) = Some new2).
Proof.
  intros n Hrow H1 H2 H3. split.
  - rewrite put_semantic_eq. fold n. rewrite Hrow.
    pose proof (semantic_write_spec number_of_text t prefix n new2 MANIFEST_POINTER root (Some row) s) as Hw.
    cbn [semantic_refused] in Hw. rewrite (goes_back_pointer number_of_text v1 v2 g1 g2) in Hw by done.
    destruct (g2 <? g1)%Z; [done|]. destruct Hw as (s' & E & Hf & _). by exists s'.
  - intros Hg. exists (Some row).
    pose proof (semantic_write_spec number_of_text t prefix n new3 MANIFEST_POINTER root (Some row) s) as Hw.
    cbn [semantic_refused] in Hw. rewrite (goes_back_pointer number_of_text v1 v3 g1 g3) in Hw by done.
    destruct (Z.ltb_spec g3 g1) as [|_]; [lia|]. destruct Hw as (s1 & E1 & Hf1 & _).
    pose proof (semantic_write_spec number_of_text t' prefix n new2 MANIFEST_POINTER root (Some row) s1) as Hw.
    cbn [semantic_refused] in Hw. rewrite (goes_back_pointer number_of_text v1 v2 g1 g2) in Hw by done.
    destruct (Z.ltb_spec g2 g1) as [|_]; [lia|]. destruct Hw as (s2 & E2 & Hf2 & _).
    exists s1, s2. split; [unfold semantic_read, gets; by rewrite Hrow|]. split_and!; [done|done|..].
    + by rewrite Hf1, lookup_insert_eq.
    + by rewrite Hf2, lookup_insert_eq.
Qed.

(** The cache outlives the sweep: the manifest of a generation is served from it after the mesh has been evicted. *)
Lemma evicted_manifest_is_still_served t t' ttl prefix path c s : (0 < ttl)%Z →
  cached_file t' prefix (normalizePath path) MANIFEST_SNAPSHOT s = Some c →
  ∃ n s', runMaintenance t ttl None s = (Ok n, s') ∧
    (opGetFile t' prefix path MANIFEST_SNAPSHOT s').1 = Ok (Some (got_cached c)).
Proof.
  intros Ht Hc. destruct (sweep_spec t ttl None s Ht ltac:(done)) as (n & s' & E & _ & _ & _ & Hca).
  exists n, s'. split; [done|]. destruct (get_file_spec t' prefix path MANIFEST_SNAPSHOT s') as (s2 & -> & _).
  cbn [fst]. assert (cached_file t' prefix (normalizePath path) MANIFEST_SNAPSHOT s' = Some c) as ->; [|done].
  unfold cached_file in *. by rewrite Hca.
Qed.
(** A file that is sent again is not stored again, but counted again. *)
Lemma resent_file_is_counted_again t t' prefix path bytes ty root r s :
  truthy root = true → files s !! (prefix, normalizePath path) = None → meshes s !! (prefix, root) = Some r →
  (0 ≤ mp_file_count r)%Z →
  let s1 := (opPutImmutable t prefix path bytes ty (Some root) s).2 in
  let s2 := (opPutImmutable t' prefix path bytes ty (Some root) s1).2 in
  files s2 = files s1 ∧
  mp_file_count <$> meshes s1 !! (prefix, root) = Some (mp_file_count r + 1)%Z ∧
  mp_file_count <$> meshes s2 !! (prefix, root) = Some (mp_file_count r + 2)%Z.
Proof.
  intros Ht Hf Hr Hc s1 s2. subst s1 s2.
  destruct (put_immutable_spec t prefix path bytes ty (Some root) s) as (s1 & -> & Hf1 & Hm1 & _). cbn [snd].
  destruct (put_immutable_spec t' prefix path bytes ty (Some root) s1) as (s2 & -> & Hf2 & Hm2 & _). cbn [snd].
  rewrite bool_decide_true in Hf1 by done. rewrite bool_decide_false in Hf2 by (rewrite Hf1, lookup_insert_eq; done).
  unfold mesh_delta in Hm1, Hm2. rewrite opt_truthy_Some in Hm1, Hm2 by done. rewrite Hr in Hm1. cbn [default from_option id] in Hm1.
  split; [done|]. rewrite Hm2, Hm1, !lookup_insert_eq. cbn. split; f_equal; lia.
Qed.
End properties.

(** ** Witnesses *)
Section witness.
#[local] Existing Instance toy_crypto.
#[local] Existing Instance digit_clock.
Definition row_of (bytes : list Z) : FileRow := mkFileRow bytes (Z.of_nat (length bytes)) (digit_iso 0) "e".
Definition mesh_row (created : Z) (write : option Z) : MeshPath :=
  mkMeshPath (digit_iso created) (digit_iso created) None None (digit_iso <$> write) None None "day" 0 0 0 0 0 0.
Definition hour : Z := 3600000.
(** Two roots in one mesh: the first idle for three hours, the second written an hour ago. *)
Definition two_roots : Server := mkServer
  (mkDb {[("m", "/a_b/changes/c") := row_of [1%Z]; ("m", "/axb/changes/c") := row_of [2%Z]]} ∅
     {[("m", "/a_b") := mesh_row 0 None; ("m", "/axb") := mesh_row 0 (Some (2 * hour)%Z)]} ∅) None.

(** The pattern of an idle root also matches the files of a root in use. *)
Lemma sweep_reaches_another_root :
  let s' := (runMaintenance (mkTick (3 * hour) "") 2 None two_roots).2 in
  sweep_candidate (sweep_threshold (mkTick (3 * hour) "") 2) (mesh_row 0 (Some (2 * hour)%Z)) = false ∧
  meshes s' !! ("m", "/axb") = Some (mesh_row 0 (Some (2 * hour)%Z)) ∧
  files s' !! ("m", "/axb/changes/c") = None.
Proof. by split_and!; vm_compute. Qed.
(** A listing of one folder names the files of another. *)
Lemma listing_names_another_folder :
  (le_path <$> ls_files (list_children "m" "/a_b/changes" (sv_db two_roots))) = ["/a_b/changes/c"; "/axb/changes/c"] ∨
  (le_path <$> ls_files (list_children "m" "/a_b/changes" (sv_db two_roots))) = ["/axb/changes/c"; "/a_b/changes/c"].
Proof. first [left; by vm_compute|right; by vm_compute]. Qed.
(** A name that starts past U+FFFF (here U+1F600) is not below its folder for [opDeletePath]. *)
Lemma astral_name_survives_deletion :
  in_subtree "m" "/mesh" ("m", "/mesh/" +:+ String "240" (String "159" (String "152" (String "128" "")))) = false ∧
  in_subtree "m" "/mesh" ("m", "/mesh/a") = true.
Proof. by split; vm_compute. Qed.

Lemma deletion_is_the_subtree_witness :
  ∃ deleted s', opDeletePath (mkTick 0 "") "m" "/axb" None two_roots = (Ok deleted, s') ∧
    files s' !! ("m", "/axb/changes/c") = None.
Proof.
  destruct (deletion_is_the_subtree (mkTick 0 "") "m" "/axb" None two_roots) as (d & s' & E & Hk); [by vm_compute|].
  exists d, s'. split; [exact E|]. apply (proj1 (Hk ("m", "/axb/changes/c"))). split; [done|]. right.
  exists "changes/c". split; by vm_compute.
Defined.
Lemma listing_is_complete_witness :
  mkEntry "c" "/axb/changes/c" 1 (digit_iso 0) "e" ∈ ls_files (list_children "m" "/axb/changes" (sv_db two_roots)).
Proof.
  refine (proj1 (listing_is_complete "m" "/axb/changes" (sv_db two_roots) _ ltac:(done)) "c" (row_of [2%Z]) eq_refl _);
    [by split_and!; vm_compute|by vm_compute].
Defined.
Lemma two_roots_touched k r : meshes two_roots !! k = Some r → ∃ u, touched r u.
Proof.
  unfold two_roots. cbn. intros [[<- <-]|[_ [<- <-]%lookup_singleton_Some]]%lookup_insert_Some.
  - exists 0%Z. split; [by unfold instant; lia|]. right. split; reflexivity.
  - exists (2 * hour)%Z. split; [by unfold instant, hour; lia|]. left. reflexivity.
Qed.
Lemma sweep_takes_idle_roots_witness :
  ∃ n s', runMaintenance (mkTick (3 * hour) "") 2 None two_roots = (Ok n, s') ∧
    files s' !! ("m", "/a_b/changes/c") = None ∧ meshes s' !! ("m", "/axb") = Some (mesh_row 0 (Some (2 * hour)%Z)).
Proof.
  assert (instant (tk_ms (mkTick (3 * hour) "") - hours 2)) as Hi by (unfold instant, hour, hours; cbn; lia).
  destruct (sweep_takes_idle_roots (mkTick (3 * hour) "") 2 two_roots ltac:(lia) Hi two_roots_touched) as (n & s' & E & _ & Hm & Hf).
  exists n, s'. split; [exact E|]. split.
  - refine (proj2 (Hf ("m", "/a_b/changes/c") (row_of [1%Z]) ltac:(by vm_compute)) _).
    exists "/a_b", (mesh_row 0 None). split; [by vm_compute|]. split; [|right; by vm_compute].
    split; [by left|]. exists 0%Z. split; [|unfold hours, hour; cbn [tk_ms]; lia].
    split; [by unfold instant; lia|]. right. split; reflexivity.
  - apply (Hm ("m", "/axb") (mesh_row 0 (Some (2 * hour)%Z))); [by vm_compute|].
    intros Hidle. apply (idle_candidate _ _ _ (2 * hour)%Z) in Hidle; [|done|split; [by unfold instant, hour; lia|left; reflexivity]].
    vm_compute in Hidle. discriminate Hidle.
Defined.
Lemma eviction_record_until_rewritten_witness :
  let s := mkServer (mkDb ∅ ∅ {[("m", "/a") := evicted_row (digit_iso 7) (mesh_row 0 None)]} ∅) None in
  (readEvictionRecord "m" "/a" (opPutImmutable (mkTick 9 "") "m" "/a/mainline/x" [1%Z] MAINLINE_SNAPSHOT (Some "/a") s).2).1 = Ok None.
Proof.
  intros s. refine (proj1 (proj2 (eviction_record_until_rewritten (λ _, NaN) (mkTick 9 "") "m" "/a" "/a/mainline/x" [1%Z]
    MAINLINE_SNAPSHOT s (evicted_row (digit_iso 7) (mesh_row 0 None)) (digit_iso 7) eq_refl _ eq_refl _))); by vm_compute.
Defined.
Definition pointer_doc (g : Z) : jsval := VObj [("currentGeneration", VNum (Num g))].
Definition pointer_bytes (g : Z) : list Z := utf8_encode (json_stringify (pointer_doc g)).
Lemma pointer_never_goes_back_witness :
  let s := mkServer (mkDb {[("m", "/a/manifest.json") := row_of (pointer_bytes 1)]} ∅ ∅ ∅) None in
  ∃ read s1 s2, semantic_read "m" "/a/manifest.json" s = (Ok read, s) ∧
    semantic_write (λ _, NaN) (mkTick 0 "") "m" "/a/manifest.json" (pointer_bytes 3) MANIFEST_POINTER None read s = (Ok (mkPut true 204), s1) ∧
    semantic_write (λ _, NaN) (mkTick 1 "") "m" "/a/manifest.json" (pointer_bytes 2) MANIFEST_POINTER None read s1 = (Ok (mkPut true 204), s2) ∧
    fr_content <$> files s1 !! ("m", "/a/manifest.json") = Some (pointer_bytes 3) ∧
    fr_content <$> files s2 !! ("m", "/a/manifest.json") = Some (pointer_bytes 2).
Proof.
  intros s.
  assert (∀ g, pointer_of (pointer_doc g) g (pointer_bytes g)) as Hp by by intros g.
  exact (proj2 (pointer_never_goes_back (λ _, NaN) (mkTick 0 "") (mkTick 1 "") "m" "/a/manifest.json" None s (row_of (pointer_bytes 1))
    (pointer_doc 1) (pointer_doc 2) (pointer_doc 3) 1 2 3 (pointer_bytes 2) (pointer_bytes 3)
    ltac:(unfold s; apply lookup_singleton_eq) (Hp 1%Z) (Hp 2%Z) (Hp 3%Z)) ltac:(lia)).
Defined.
End witness.
