(* ===== verification/Worker.v ===== *)
(** * The mesh server
    ([packages/workers/src/worker.ts])

    A request carries what the code takes from the URL, the headers and the body; the time
    and fresh identifiers come with it.  Headers of the response (CORS, content type, length) are left out, and
    the audit callback and the relay are the log of what they are given: the
    code swallows their failures.  The store of file bodies is a class, as its instances call a service. *)

From S2P Require Import Prelude JsString Values Octets Encryption StoredFile Ids Routes RowStore.
From Stdlib Require Import Ascii.
From Stdlib Require String.

Open Scope stdpp_scope.

(** ** Requests and responses *)
Record Request := mkRequest {
  rq_method : string; rq_pathname : string;
  rq_path : option string;        (** [url.searchParams.get("path")] *)
  rq_header : string → option string;
  rq_bytes : option (list Z);     (** [None] when the body cannot be read *)
  rq_json : jsval;                (** the body as JSON, an empty object when it is none *)
  rq_tick : Tick; rq_uuid : string; rq_random : list Z }.

Record StoredFileInfo := mkInfo {
  si_name : string; si_path : string; si_size : Z; si_modifiedTime : string; si_etag : option string;
  si_uploadedByDeviceId : string; si_uploadedAt : string; si_lastAccessedAt : option string; si_useCount : Z }.
Inductive Body :=
  | BEmpty
  | BText (s : string)
  | BError (s : string) (limit : option Z)
  | BBytes (b : list Z)
  | BFile (f : option (string * string * Z * option string * option string))
  | BFiles (l : list FileEntry)
  | BFolders (l : list string)
  | BStored (f : option StoredFileInfo)
  | BValue (v : jsval)
  | BStatus (paths : list ((string * string) * MeshPath))
  | BRelay (address : string).
Record Response := mkResponse { rs_status : Z; rs_body : Body }.
Definition jsonError (message : string) (status : Z) : Response := mkResponse status (BError message None).
Definition notFound : Response := mkResponse 404 (BText "Not found").
Definition emptyResponse (status : Z) : Response := mkResponse status BEmpty.

Inductive Outcome := OutOk | OutRejected | OutNotFound.
Inductive Event :=
  | Audit (op : string) (address : option string) (path : string) (status : Z) (outcome : Outcome)
  | Broadcast (address op path : string).

(** ** The store of file bodies *)
Class FileBodyStore (B : Type) := {
  body_get : string → M B (option (list Z));
  body_put : string → list Z → M B ();
  body_delete : string → M B () }.

Record World (B : Type) := mkWorld { w_server : Server; w_bodies : B; w_log : list Event }.
Arguments mkWorld {_} _ _ _.
Arguments w_server {_} _.
Arguments w_bodies {_} _.
Arguments w_log {_} _.

(** ** Configuration *)
Definition DEFAULT_CONTROL_BYTES : Z := 256 * 1024.
Definition DEFAULT_CHANGE_BYTES : Z := 8 * 1024 * 1024.
Definition DEFAULT_MAINLINE_BYTES : Z := 16 * 1024 * 1024.
Definition DEFAULT_GENERIC_FILE_BYTES : Z := 8 * 1024 * 1024.
Definition DEFAULT_STORED_FILE_BYTES : Z := 32 * 1024 * 1024.
Definition DEFAULT_MESH_STORED_BYTES : Z := 512 * 1024 * 1024.
Definition DEFAULT_MESH_SECRET : string := "interocitor".
Record Limits := mkLimits {
  maxControlBytes : Z; maxChangeBytes : Z; maxMainlineBytes : Z; maxGenericFileBytes : Z;
  maxStoredFileBytes : Z; maxMeshStoredBytes : Z; pathTtlHours : Z; enableScheduledMaintenance : bool;
  meshSecret : string }.
(** [parsePositiveInt] and [parsePositiveNumber] of a value already read as a number. *)
Definition parsePositiveInt (value : option jsnum) (fallback : Z) : Z :=
  match value with
  | Some (Num n) => if (0 <? n)%Z && (n <=? 9007199254740991)%Z then n else fallback
  | _ => fallback
  end.
Definition parsePositiveNumber (value : option jsnum) (fallback : Z) : Z :=
  match value with Some (Num n) => if (0 <? n)%Z then n else fallback | _ => fallback end.
Record RuntimeOptions := mkRuntime {
  ro_control : option jsnum; ro_change : option jsnum; ro_mainline : option jsnum; ro_generic : option jsnum;
  ro_stored : option jsnum; ro_mesh : option jsnum; ro_ttl : option jsnum; ro_scheduled : bool;
  ro_secret : option string }.
Definition resolveRuntimeConfig (o : RuntimeOptions) : Limits :=
  mkLimits (parsePositiveInt (ro_control o) DEFAULT_CONTROL_BYTES)
    (parsePositiveInt (ro_change o) DEFAULT_CHANGE_BYTES)
    (parsePositiveInt (ro_mainline o) DEFAULT_MAINLINE_BYTES)
    (parsePositiveInt (ro_generic o) DEFAULT_GENERIC_FILE_BYTES)
    (parsePositiveInt (ro_stored o) DEFAULT_STORED_FILE_BYTES)
    (parsePositiveInt (ro_mesh o) DEFAULT_MESH_STORED_BYTES)
    (parsePositiveNumber (ro_ttl o) 0) (ro_scheduled o)
    (default DEFAULT_MESH_SECRET (opt_truthy (ro_secret o))).
Definition fileSizeLimitForPathType (pathType : PathType) (l : Limits) : Z :=
  if bool_decide (pathType ∈ [MANIFEST_POINTER; MANIFEST_SNAPSHOT; HEAD; DEVICE_HEARTBEAT]) then maxControlBytes l
  else if bool_decide (pathType = CHANGE_FILE) then maxChangeBytes l
  else if bool_decide (pathType = MAINLINE_SNAPSHOT) then maxMainlineBytes l
  else maxGenericFileBytes l.

(** ** Addresses *)
Definition RECOVERY_STORAGE_PREFIX : string := "__interocitor_recovery__".
Definition isReservedMeshStorageAddress (address : string) : bool := String.eqb address RECOVERY_STORAGE_PREFIX.
Section checksum.
Context `{WebCrypto}.
(** [isValidChecksummedMesh]: the check of [core/ids.ts], under the configured secret. *)
Definition isValidChecksummedMesh (prefix secret : string) : bool :=
  if negb (truthy prefix) then false
  else
    let dot := lastIndexOf prefix "." in
    if (dot =? -1)%Z then false
    else
      let uuid := slice prefix 0 dot in
      let tag := slice_from prefix (dot + 1) in
      if negb (UUID_RE uuid) || negb (truthy tag) then false
      else timingSafeEqual tag (computeTag uuid (utf8_encode secret)).
End checksum.

(** ** Paths of the mount *)
Fixpoint strip_slashes (s : string) : string :=
  match s with String c s' => if Ascii.eqb c "/" then strip_slashes s' else s | "" => "" end.
Fixpoint drop_slashes (s : string) : string :=
  match s with
  | "" => ""
  | String c s => match drop_slashes s with
                  | "" => if Ascii.eqb c "/" then "" else String c ""
                  | s' => String c s'
                  end
  end.
Definition normalizeMountPrefix (prefix : string) : string :=
  let trimmed := trim prefix in
  if negb (truthy trimmed) || String.eqb trimmed "/" then ""
  else "/" +:+ drop_slashes (strip_slashes trimmed).
Definition joinMountPath (prefix path : string) : string :=
  let mountPrefix := normalizeMountPrefix prefix in
  if truthy mountPrefix then mountPrefix +:+ path else path.
Definition stripMountPrefix (pathname mountPrefix : string) : option string :=
  let normalized := normalizeMountPrefix mountPrefix in
  if negb (truthy normalized) then Some pathname
  else if String.eqb pathname normalized then Some "/"
  else if startsWith pathname (normalized +:+ "/")
  then let rest := slice_from pathname (Z.of_nat (String.length normalized)) in
       Some (if truthy rest then rest else "/")
  else None.

(** [decodeURIComponent]: escapes become bytes, which must be UTF-8. *)
Definition hex_value (c : ascii) : option Z := digit_val 16 c.
Fixpoint percent_decode (s : string) : option string :=
  match s with
  | "" => Some ""
  | String c rest =>
      if Ascii.eqb c "%" then
        match rest with
        | String a (String b rest) =>
            x ← hex_value a; y ← hex_value b; out ← percent_decode rest;
            Some (String (ascii_of_nat (Z.to_nat (16 * x + y))) out)
        | _ => None
        end
      else String c <$> percent_decode rest
  end.
Definition in_range (lo hi : Z) (c : ascii) : bool := ((lo <=? char_code c) && (char_code c <=? hi))%Z.
Fixpoint utf8_valid (s : string) : bool :=
  match s with
  | "" => true
  | String a s1 =>
      if in_range 0 127 a then utf8_valid s1
      else match s1 with
           | "" => false
           | String b s2 =>
               if in_range 194 223 a then in_range 128 191 b && utf8_valid s2
               else match s2 with
                    | "" => false
                    | String c s3 =>
                        if in_range 224 239 a then
                          in_range (if (char_code a =? 224)%Z then 160 else 128)
                                   (if (char_code a =? 237)%Z then 159 else 191) b &&
                          in_range 128 191 c && utf8_valid s3
                        else match s3 with
                             | "" => false
                             | String d s4 =>
                                 in_range 240 244 a &&
                                 in_range (if (char_code a =? 240)%Z then 144 else 128)
                                          (if (char_code a =? 244)%Z then 143 else 191) b &&
                                 in_range 128 191 c && in_range 128 191 d && utf8_valid s4
                             end
                    end
           end
  end.
Definition decodeURIComponent (s : string) : result string :=
  match percent_decode s with
  | Some out => if utf8_valid out then Ok out else Throw (JsError "URI malformed")
  | None => Throw (JsError "URI malformed")
  end.
Definition IO_PREFIX : string := "/io".
Definition NOTIFY_PREFIX : string := "/notify".
Definition RECOVERY_PREFIX : string := "/recovery".
Definition SYSTEM_PREFIX : string := "/__interocitor/system".
Definition after_prefix (pathname prefix : string) : string :=
  slice_from pathname (Z.of_nat (String.length prefix) + 1).
Definition parseIo (pathname : string) : result (string * string) :=
  let parts := segments (after_prefix pathname IO_PREFIX) in
  prefix ← decodeURIComponent (default "" (parts !! 0));
  op ← decodeURIComponent (default "" (parts !! 1));
  Ok (prefix, op).

Inductive MeshAccess := ARead | AWrite.
#[global] Instance MeshAccess_eq_dec : EqDecision MeshAccess.
Proof. solve_decision. Defined.
Definition ioRequestAccess (op method : string) : option MeshAccess :=
  let eqs := String.eqb in
  if eqs op "health" && eqs method "GET" then Some ARead
  else if eqs op "file" || eqs op "stored-file" then
    if eqs method "GET" then Some ARead
    else if eqs method "PUT" || eqs method "DELETE" then Some AWrite else None
  else if bool_decide (op ∈ ["metadata"; "stored-file-metadata"; "ensure-folder"; "list-files"; "list-folders"])
  then if eqs method "POST" then Some ARead else None
  else None.

Definition toUpper (c : ascii) : ascii :=
  let n := char_code c in if ((97 <=? n) && (n <=? 122))%Z then ascii_of_nat (nat_of_ascii c - 32) else c.
Fixpoint toUpperCase (s : string) : string :=
  match s with String c s => String (toUpper c) (toUpperCase s) | "" => "" end.
Definition truthy_value (v : jsval) : bool :=
  match v with
  | VUndefined | VNull | VBool false | VNum NaN | VNum (Num 0) => false
  | VStr s => truthy s
  | _ => true
  end.
(** [String(body?.k || d)]. *)
Definition json_text (k d : string) (body : jsval) : result string :=
  let v := field k body in if truthy_value v then String_ v else Ok d.

(** ** Admission *)
Record MeshRouteIdentity := mkRoute { presentedAddress : string; canonicalAddress : string }.
(** The answer of a resolver and of a gate; anything that is not one of the documented values, and
    a throw, is [RInvalid] and [None]. *)
Inductive Resolution := RNull | RInvalid | RAddress (canonical : string).
Inductive Surface := Io | Notify.
Inductive Resolver :=
  | NoResolver
  | NoFunction
  | ResolverFn (f : string → Request → Surface → MeshAccess → Resolution).
Definition Gate : Type := MeshRouteIdentity → Request → bool → option bool.
Record MeshRequestContext := mkContext {
  cx_route : MeshRouteIdentity; cx_request : Request; cx_surface : Surface; cx_access : MeshAccess }.

(** A layer of middleware: it answers, throws, or calls [next()] and goes on with the response.
    [LDone None] is an answer that is no response. *)
Inductive LayerRun :=
  | LDone (r : option Response)
  | LThrow (e : error)
  | LNext (k : result Response → LayerRun).
Definition Layer : Type := MeshRequestContext → LayerRun.

(** The upload policy of the application: [None] for a call that throws. *)
Record UploadRequest := mkUpload {
  ur_route : MeshRouteIdentity; ur_path : string; ur_uploadedByDeviceId : string; ur_size : Z; ur_sealed : bool;
  ur_overwritesSealed : bool; ur_replacedBytes : Z; ur_currentMeshStoredBytes : Z; ur_maxMeshStoredBytes : Z }.
Inductive UploadAuthorizer :=
  | NoAuthorizer
  | NotAFunction
  | AuthorizerFn (f : UploadRequest → MeshInfo → option jsval).

(** What the host configures: an entry of a list that is no function is [None], and so is a list that is no array. *)
Record Host := mkHost {
  ho_limits : Limits; ho_resolver : Resolver; ho_gates : option (list (option Gate));
  ho_middleware : option (list (option Layer)); ho_authorizer : UploadAuthorizer;
  ho_relay : bool; ho_files : bool; ho_number : string → jsnum }.

Section server.
Context `{WebCrypto} `{IsoClock} {B : Type} `{!FileBodyStore B} (host : Host).
Notation W := (M (World B)).

Definition srv {A} (m : M Server A) : W A := λ w,
  let '(r, s) := m (w_server w) in (r, mkWorld s (w_bodies w) (w_log w)).
Definition bodies {A} (m : M B A) : W A := λ w,
  let '(r, b) := m (w_bodies w) in (r, mkWorld (w_server w) b (w_log w)).
Definition log (e : Event) : W () := modify (λ w, mkWorld (w_server w) (w_bodies w) (w_log w ++ [e])).
Definition audit (op : string) (address : option string) (path : string) (status : Z) (o : Outcome) : W () :=
  log (Audit op address path status o).
Definition broadcast (address op path : string) : W () := when (ho_relay host) (log (Broadcast address op path)).

Fixpoint try_gates (gates : list Gate) (route : MeshRouteIdentity) (request : Request) (checksum : bool) : option bool :=
  match gates with
  | [] => Some false
  | gate :: gates =>
      match gate route request checksum with
      | Some true => Some true
      | Some false => try_gates gates route request checksum
      | None => None
      end
  end.
Fixpoint all_functions {A} (l : list (option A)) : option (list A) :=
  match l with [] => Some [] | x :: l => a ← x; rest ← all_functions l; Some (a :: rest) end.
Definition admitMeshRoute (route : MeshRouteIdentity) (request : Request) : MeshRouteIdentity + Response :=
  match l ← ho_gates host; all_functions l with
  | None => inr (jsonError "Mesh integrity unavailable" 503)
  | Some gates =>
      match try_gates gates route request
              (isValidChecksummedMesh (canonicalAddress route) (meshSecret (ho_limits host))) with
      | Some true => inl route
      | Some false => inr (jsonError "Not found" 404)
      | None => inr (jsonError "Mesh integrity unavailable" 503)
      end
  end.
Definition resolvePublicMeshRoute (presented : string) (request : Request) (surface : Surface) (access : MeshAccess)
    : MeshRouteIdentity + Response :=
  let unavailable := jsonError "Mesh route unavailable" 503 in
  let pass canonical reserved :=
    if isReservedMeshStorageAddress canonical then inr reserved
    else admitMeshRoute (mkRoute presented canonical) request in
  match ho_resolver host with
  | NoResolver => pass presented (jsonError "Not found" 404)
  | NoFunction => inr unavailable
  | ResolverFn f =>
      match f presented request surface access with
      | RNull => inr (jsonError "Not found" 404)
      | RInvalid => inr unavailable
      | RAddress canonical =>
          if negb (truthy (trim canonical)) then inr unavailable else pass canonical unavailable
      end
  end.

(** ** Middleware *)
Fixpoint run_layer (l : LayerRun) (next : W Response) (continued : bool) : W Response :=
  match l with
  | LDone (Some r) => mret r
  | LDone None => mret (jsonError "Mesh middleware unavailable" 503)
  | LThrow e => throw e
  | LNext k =>
      if continued then run_layer (k (Ok (jsonError "Middleware called next() more than once" 500))) next true
      else λ w, let '(r, w') := next w in run_layer (k r) next true w'
  end.
Fixpoint invoke (layers : list Layer) (context : MeshRequestContext) (terminal : W Response) : W Response :=
  match layers with
  | [] => terminal
  | layer :: layers => run_layer (layer context) (invoke layers context terminal) false
  end.
Definition runMeshMiddleware (context : MeshRequestContext) (terminal : W Response) : W Response :=
  match l ← ho_middleware host; all_functions l with
  | None => mret (jsonError "Mesh middleware unavailable" 503)
  | Some layers => invoke layers context terminal
  end.
End server.

(** [createMeshAuthorizationMiddleware]: the authorizer's answer, [None] when it throws or gives anything else. *)
Inductive MeshAuthorization := AuthNone | AuthReadonly | AuthFull | AuthDeny.
#[global] Instance MeshAuthorization_eq_dec : EqDecision MeshAuthorization.
Proof. solve_decision. Defined.
Definition pass_on : LayerRun := LNext (λ r, match r with Ok x => LDone (Some x) | Throw e => LThrow e end).
Definition createMeshAuthorizationMiddleware (authorizer : MeshRequestContext → option MeshAuthorization)
    (concealDenied : bool) : Layer := λ context,
  let denied := LDone (Some (if concealDenied then jsonError "Not found" 404 else jsonError "Forbidden" 403)) in
  match authorizer context with
  | None => LDone (Some (jsonError "Authorization unavailable" 503))
  | Some AuthNone | Some AuthFull => pass_on
  | Some AuthReadonly => if bool_decide (cx_access context = AWrite) then denied else pass_on
  | Some AuthDeny => denied
  end.

Section handlers.
Context `{WebCrypto} `{IsoClock} {B : Type} `{!FileBodyStore B} (host : Host).
Notation W := (M (World B)).
Implicit Types (prefix path : string) (rq : Request).

(** ** Objects *)
Definition eviction_value (r : EvictionRecord) : jsval :=
  VObj [("evicted", VBool true); ("meshAddress", VStr (ev_meshAddress r)); ("remotePath", VStr (ev_remotePath r));
    ("evictedAt", VStr (ev_evictedAt r)); ("reason", VStr (if ev_idle r then "idle" else "operator"));
    ("idleSince", from_option VStr VNull (ev_idleSince r)); ("fileBodiesRetained", VBool true)].
Definition evictionRecordBytes prefix path (pathType : PathType) : W (option (list Z)) :=
  if negb (bool_decide (pathType = EVICTION_RECORD)) then mret None
  else match opt_truthy (meshRootForPath path pathType) with
       | None => mret None
       | Some meshRoot =>
           record ← srv (readEvictionRecord prefix meshRoot);
           mret ((λ r, utf8_encode (json_stringify (eviction_value r))) <$> (record : option EvictionRecord))
       end.
Definition handleGetFile prefix path rq : W Response :=
  let pathType := classifyPath path in
  evicted ← evictionRecordBytes prefix path pathType;
  match evicted with
  | Some record =>
      audit "read" (Some prefix) (normalizePath path) 200 OutOk;;
      mret (mkResponse 200 (BBytes record))
  | None =>
      result ← srv (opGetFile (rq_tick rq) prefix path pathType);
      match result with
      | None => audit "read" (Some prefix) (normalizePath path) 404 OutNotFound;; mret notFound
      | Some got =>
          audit "read" (Some prefix) (normalizePath path) 200 OutOk;;
          mret (mkResponse 200 (BBytes (gf_bytes got)))
      end
  end.
Definition handleMetadata prefix path rq : W Response :=
  let pathType := classifyPath path in
  let describe size modified etag :=
    mkResponse 200 (BFile (Some (fileNameFromPath path, normalizePath path, size, modified, etag))) in
  evicted ← evictionRecordBytes prefix path pathType;
  match evicted with
  | Some record =>
      audit "metadata" (Some prefix) (normalizePath path) 200 OutOk;;
      mret (describe (Z.of_nat (length record)) None None)
  | None =>
      result ← srv (opGetFile (rq_tick rq) prefix path pathType);
      match result with
      | None => audit "metadata" (Some prefix) (normalizePath path) 404 OutNotFound;; mret (mkResponse 404 (BFile None))
      | Some got =>
          audit "metadata" (Some prefix) (normalizePath path) 200 OutOk;;
          mret (describe (gf_size got) (Some (gf_modified got)) (Some (gf_etag got)))
      end
  end.

Definition success (status : Z) : bool := (200 <=? status)%Z && (status <? 300)%Z.
Definition notify_write prefix path (pathType : PathType) (status : Z) : W Response :=
  let shouldBroadcast := bool_decide (pathType ∉ [DEVICE_HEARTBEAT; MANIFEST_SNAPSHOT]) in
  audit "write" (Some prefix) (normalizePath path) status (if success status then OutOk else OutRejected);;
  when (shouldBroadcast && success status) (broadcast host prefix "write" (normalizePath path));;
  mret (emptyResponse status).
(** The write itself, by the type of the path. *)
Definition write_object (t : Tick) prefix path (bytes : list Z) (pathType : PathType) : M Server PutResult :=
  let remoteRoot := meshRootForPath path pathType in
  if bool_decide (pathType ∈ [MANIFEST_POINTER; HEAD])
  then opPutSemantic (ho_number host) t prefix path bytes pathType remoteRoot
  else if bool_decide (pathType = DEVICE_HEARTBEAT) then opPutOverwrite t prefix path bytes
  else opPutImmutable t prefix path bytes pathType remoteRoot.
Definition handleWriteFile prefix path rq : W Response :=
  match rq_bytes rq with
  | None => mret (jsonError "Invalid request body" 400)
  | Some bytes =>
      let pathType := classifyPath path in
      let limit := fileSizeLimitForPathType pathType (ho_limits host) in
      if bool_decide (pathType = EVICTION_RECORD) then mret (jsonError "Eviction record is read-only" 405)
      else if (limit <? Z.of_nat (length bytes))%Z
      then mret (mkResponse 413 (BError "Payload too large" (Some limit)))
      else
        result ← srv (write_object (rq_tick rq) prefix path bytes pathType);
        notify_write prefix path pathType (pr_status result)
  end.
Definition handleListFiles prefix rq : W Response :=
  text ← lift (json_text "path" "/" (rq_json rq));
  let path := normalizePath text in
  listing ← srv (opListChildren (rq_tick rq) prefix path);
  audit "list" (Some prefix) path 200 OutOk;;
  mret (mkResponse 200 (BFiles (ls_files listing))).
Definition handleListFolders prefix rq : W Response :=
  text ← lift (json_text "path" "/" (rq_json rq));
  let path := normalizePath text in
  listing ← srv (opListChildren (rq_tick rq) prefix path);
  audit "list" (Some prefix) path 200 OutOk;;
  mret (mkResponse 200 (BFolders (ls_folders listing))).
Definition handleDelete prefix path rq : W Response :=
  let pathType := classifyPath path in
  if bool_decide (pathType = EVICTION_RECORD) then mret (jsonError "Eviction record is read-only" 405)
  else
    deleted ← srv (opDeletePath (rq_tick rq) prefix path (meshRootForPath path pathType));
    let status := (if (deleted : bool) then 204 else 404)%Z in
    audit "delete" (Some prefix) (normalizePath path) status (if deleted then OutOk else OutNotFound);;
    when deleted (broadcast host prefix "delete" (normalizePath path));;
    mret (emptyResponse status).

(** ** Stored files *)
Definition presentedSealGuard rq : option string + Response :=
  let raw := trim (default "" (rq_header rq "X-Interocitor-Seal-Guard")) in
  if negb (truthy raw) then inl None
  else if (String.length raw =? 64)%nat &&
          str_forall (λ c, (is_digit c || in_range 97 102 c)) raw
  then inl (Some raw) else inr (jsonError "Invalid X-Interocitor-Seal-Guard" 400).
Definition sealGuardMatches (stored presented : option string) : bool :=
  match opt_truthy stored with
  | None => true
  | Some stored => match opt_truthy presented with Some p => timingSafeEqual stored p | None => false end
  end.
Definition sealedFileResponse : Response := jsonError "Sealed file requires its key" 403.
Definition storedFileKey prefix path : string :=
  "meshes/" +:+ encodeURIComponent prefix +:+ "/files/" +:+ encodeURIComponent (slice_from (normalizePath path) 1).
Definition storedFileMetadata path (row : StoredFileRow) : StoredFileInfo :=
  let path := normalizePath path in
  mkInfo (fileNameFromPath path) path (st_size row)
    (default (st_uploaded_at row) (opt_truthy (Some (st_modified_time row)))) (opt_truthy (st_etag row))
    (st_uploaded_by row) (st_uploaded_at row) (opt_truthy (st_last_accessed_at row)) (st_use_count row).
Definition currentStoredUsage prefix (db : Db) : Z * Z :=
  let rows := rows_where (in_prefix prefix) (db_stored db) in
  (foldr (λ kr n, st_size kr.2 + n)%Z 0%Z rows, Z.of_nat (length rows)).
Definition stored_row prefix path : W (option StoredFileRow) :=
  srv (gets (λ s, db_stored (sv_db s) !! (prefix, path))).

Definition handleStoredFileMetadata prefix path : W Response :=
  let normalized := normalizePath path in
  row ← stored_row prefix normalized;
  match row with
  | None => audit "stored-file-metadata" (Some prefix) normalized 404 OutNotFound;; mret (mkResponse 404 (BStored None))
  | Some row =>
      audit "stored-file-metadata" (Some prefix) normalized 200 OutOk;;
      mret (mkResponse 200 (BStored (Some (storedFileMetadata normalized row))))
  end.
Definition used_row (now : string) (r : StoredFileRow) : StoredFileRow :=
  mkStoredRow (st_body_key r) (st_size r) (st_seal_guard r) (st_uploaded_by r) (st_uploaded_at r)
    (st_modified_time r) (Some now) (st_use_count r + 1) (st_etag r).
Definition handleGetStoredFile prefix path rq : W Response :=
  if negb (ho_files host) then mret (jsonError "File body store not configured" 501)
  else
    let normalized := normalizePath path in
    let missing := audit "stored-file-read" (Some prefix) normalized 404 OutNotFound;; mret notFound in
    row ← stored_row prefix normalized;
    match (row ← row; opt_truthy (Some (st_body_key row))) with
    | None => missing
    | Some key =>
        object ← bodies (body_get key);
        match object with
        | None => missing
        | Some object =>
            srv (modify (set_db (set_db_stored (alter (used_row (nowIso (rq_tick rq))) (prefix, normalized)))));;
            audit "stored-file-read" (Some prefix) normalized 200 OutOk;;
            mret (mkResponse 200 (BBytes object))
        end
    end.

(** [normalizeAuthorization]: the decision, its reason and its status. *)
Definition normalizeAuthorization (answer : jsval) : result (bool * option string * Z) :=
  match answer with
  | VBool b => Ok (b, None, if b then 200%Z else 403%Z)
  | VObj _ =>
      match field "allowed" answer, field "reason" answer, field "status" answer with
      | VBool allowed, reason, status =>
          reason ← match reason with
                   | VUndefined => Ok (@None string)
                   | VStr s => Ok (Some s)
                   | _ => Throw (JsError "upload authorization returned an invalid reason")
                   end;
          status ← match status with
                   | VUndefined => Ok (if allowed then 200%Z else 403%Z)
                   | VNum (Num n) => if (400 <=? n)%Z && (n <=? 599)%Z then Ok n
                                     else Throw (JsError "upload authorization returned an invalid rejection status")
                   | _ => Throw (JsError "upload authorization returned an invalid rejection status")
                   end;
          Ok (allowed, reason, status)
      | _, _, _ => Throw (JsError "upload authorization returned an invalid allowed decision")
      end
  | _ => Throw (JsError "upload authorization returned an invalid result")
  end.
(** The application's answer to an upload: [None] to go on, or the refusal. *)
Definition authorize_upload (t : Tick) prefix (request : UploadRequest) (usage : Z * Z) (db : Db) : option Response :=
  match ho_authorizer host with
  | NoAuthorizer => None
  | NotAFunction => Some (jsonError "Upload authorization unavailable" 503)
  | AuthorizerFn f =>
      match f request (loadMeshInfo t prefix usage.1 usage.2 db) with
      | None => Some (jsonError "Upload authorization unavailable" 503)
      | Some answer =>
          match normalizeAuthorization answer with
          | Throw _ => Some (jsonError "Upload authorization unavailable" 503)
          | Ok (allowed, reason, status) =>
              if allowed then None
              else Some (jsonError (default "Upload rejected" (opt_truthy reason)) status)
          end
      end
  end.
Definition uploaded_row (now key : string) (size : Z) (guard : option string) (device etag : string) : StoredFileRow :=
  mkStoredRow key size guard device now now None 0 (Some etag).
Definition handlePutStoredFile (route : MeshRouteIdentity) path rq : W Response :=
  let prefix := canonicalAddress route in
  if negb (ho_files host) then mret (jsonError "File body store not configured" 501)
  else match rq_bytes rq with
  | None => mret (jsonError "Invalid request body" 400)
  | Some bytes =>
      let size := Z.of_nat (length bytes) in
      let limits := ho_limits host in
      let normalized := normalizePath path in
      let device := trim (default "" (rq_header rq "X-Interocitor-Device-Id")) in
      if (maxStoredFileBytes limits <? size)%Z
      then mret (mkResponse 413 (BError "Payload too large" (Some (maxStoredFileBytes limits))))
      else if negb (truthy device) then mret (jsonError "Missing X-Interocitor-Device-Id" 401)
      else match presentedSealGuard rq with
      | inr refusal => mret refusal
      | inl guard =>
          existing ← stored_row prefix normalized;
          if negb (sealGuardMatches ((existing : option StoredFileRow) ≫= st_seal_guard) guard) then mret sealedFileResponse
          else
            usage ← srv (gets (λ s, currentStoredUsage prefix (sv_db s)));
            let replaced := from_option st_size 0%Z existing in
            if (maxMeshStoredBytes limits <? usage.1 - replaced + size)%Z
            then mret (mkResponse 413 (BError "Mesh storage quota exceeded" (Some (maxMeshStoredBytes limits))))
            else
              db ← srv (gets sv_db);
              match authorize_upload (rq_tick rq) prefix
                      (mkUpload route normalized device size (bool_decide (is_Some guard))
                         (bool_decide (is_Some (opt_truthy ((existing : option StoredFileRow) ≫= st_seal_guard)))) replaced usage.1
                         (maxMeshStoredBytes limits)) usage db with
              | Some refusal => mret refusal
              | None =>
                  let key := default (storedFileKey prefix normalized) (opt_truthy (st_body_key <$> existing)) in
                  bodies (body_put key bytes);;
                  srv (modify (set_db (set_db_stored
                    <[(prefix, normalized) := uploaded_row (nowIso (rq_tick rq)) key size guard device (rq_uuid rq)]>)));;
                  row ← stored_row prefix normalized;
                  let status := if (existing : option StoredFileRow) then 200%Z else 201%Z in
                  audit "stored-file-write" (Some prefix) normalized status OutOk;;
                  mret (mkResponse status (BStored (Some (storedFileMetadata normalized
                    (default (uploaded_row (nowIso (rq_tick rq)) "" size None device (rq_uuid rq)) row)))))
              end
      end
  end.
Definition handleDeleteStoredFile prefix path rq : W Response :=
  if negb (ho_files host) then mret (jsonError "File body store not configured" 501)
  else
    let normalized := normalizePath path in
    row ← stored_row prefix normalized;
    match (r ← row; key ← opt_truthy (Some (st_body_key r)); Some (r, key)) with
    | None => audit "stored-file-delete" (Some prefix) normalized 404 OutNotFound;; mret (emptyResponse 404)
    | Some (r, key) =>
        match presentedSealGuard rq with
        | inr refusal => mret refusal
        | inl guard =>
            if negb (sealGuardMatches (st_seal_guard r) guard) then mret sealedFileResponse
            else
              bodies (body_delete key);;
              srv (modify (set_db (set_db_stored (delete (prefix, normalized)))));;
              audit "stored-file-delete" (Some prefix) normalized 204 OutOk;;
              mret (emptyResponse 204)
        end
    end.
End handlers.

Section routing.
Context `{WebCrypto} `{IsoClock} {B : Type} `{!FileBodyStore B} (host : Host).
Notation W := (M (World B)).
Implicit Types (prefix path : string) (rq : Request).

(** ** Requests to a mesh *)
Definition query_path rq : string :=
  normalizePath (match opt_truthy (rq_path rq) with Some p => p | None => "/" end).
Definition io_terminal (op method : string) (route : MeshRouteIdentity) rq : W Response :=
  let eqs := String.eqb in
  let storageKey := canonicalAddress route in
  let path := query_path rq in
  if eqs op "health" && eqs method "GET" then mret (mkResponse 200 (BText "interocitor cloudflare worker"))
  else if eqs op "file" && eqs method "GET" then handleGetFile storageKey path rq
  else if eqs op "file" && eqs method "PUT" then handleWriteFile host storageKey path rq
  else if eqs op "file" && eqs method "DELETE" then handleDelete host storageKey path rq
  else if eqs op "metadata" && eqs method "POST" then
    text ← lift (json_text "path" "/" (rq_json rq)); handleMetadata storageKey text rq
  else if eqs op "stored-file" && eqs method "GET" then handleGetStoredFile host storageKey path rq
  else if eqs op "stored-file" && eqs method "PUT" then handlePutStoredFile host route path rq
  else if eqs op "stored-file" && eqs method "DELETE" then handleDeleteStoredFile host storageKey path rq
  else if eqs op "stored-file-metadata" && eqs method "POST" then
    text ← lift (json_text "path" "/" (rq_json rq)); handleStoredFileMetadata storageKey text
  else if eqs op "ensure-folder" && eqs method "POST" then
    text ← lift (json_text "path" "/" (rq_json rq));
    catch (srv (opListChildren (rq_tick rq) storageKey (normalizePath text));; mret ()) (λ _, mret ());;
    mret (emptyResponse 204)
  else if eqs op "list-files" && eqs method "POST" then handleListFiles storageKey rq
  else if eqs op "list-folders" && eqs method "POST" then handleListFolders storageKey rq
  else mret notFound.
Definition handleIoRequest rq : W Response :=
  let method := toUpperCase (rq_method rq) in
  '(prefix, op) ← lift (parseIo (rq_pathname rq));
  match ioRequestAccess op method with
  | None => mret notFound
  | Some access =>
      match resolvePublicMeshRoute host prefix rq Io access with
      | inr refusal => mret refusal
      | inl route =>
          runMeshMiddleware host (mkContext route rq Io access) (io_terminal op method route rq)
      end
  end.

(** The relay's answer to a socket is the relay's. *)
Definition handleWsUpgrade prefix rq : W Response :=
  match resolvePublicMeshRoute host prefix rq Notify ARead with
  | inr refusal => mret refusal
  | inl route =>
      runMeshMiddleware host (mkContext route rq Notify ARead)
        (if negb (ho_relay host) then mret (mkResponse 501 (BText "WebSocket relay not configured"))
         else if String.eqb (toUpperCase (rq_method rq)) "GET" &&
                 bool_decide (segments (rq_pathname rq) !! 2 = Some "health")
         then mret (mkResponse 200 (BRelay (canonicalAddress route)))
         else if negb (bool_decide (rq_header rq "Upgrade" = Some "websocket"))
         then mret (mkResponse 426 (BText "Expected WebSocket upgrade"))
         else mret (mkResponse 101 (BRelay (canonicalAddress route))))
  end.

(** ** Recovery wrappers *)
Definition url_letter (c : ascii) : bool := is_digit c || in_range 65 90 c || in_range 97 122 c ||
  Ascii.eqb c "_" || Ascii.eqb c "-".
Definition RECOVERY_LOCATOR_RE (s : string) : bool := (String.length s =? 43)%nat && str_forall url_letter s.
Definition recovery_path (locator : string) : string := "/wrappers/" +:+ locator +:+ ".json".
Definition handleRecoveryRequest (locator : string) rq : W Response :=
  if negb (RECOVERY_LOCATOR_RE locator) then mret (jsonError "Invalid recovery locator" 400)
  else
    let path := recovery_path locator in
    if String.eqb (rq_method rq) "GET" then
      result ← srv (opGetFile (rq_tick rq) RECOVERY_STORAGE_PREFIX path OTHER);
      match result with
      | None => audit "recovery-read" None path 404 OutNotFound;; mret notFound
      | Some got => audit "recovery-read" None path 200 OutOk;; mret (mkResponse 200 (BBytes (gf_bytes got)))
      end
    else if String.eqb (rq_method rq) "PUT" then
      match rq_bytes rq with
      | None => mret (jsonError "Invalid request body" 400)
      | Some bytes =>
          let limit := maxControlBytes (ho_limits host) in
          if (limit <? Z.of_nat (length bytes))%Z
          then mret (mkResponse 413 (BError "Payload too large" (Some limit)))
          else
            put ← srv (opPutImmutable (rq_tick rq) RECOVERY_STORAGE_PREFIX path bytes OTHER None);
            let status := (if pr_wrote put then 201 else 409)%Z in
            audit "recovery-write" None path status (if pr_wrote put then OutOk else OutRejected);;
            mret (emptyResponse status)
      end
    else mret (mkResponse 405 (BText "Method not allowed")).

(** ** Routing *)
Definition first_segment (rest : string) : string := default "" (head (split_char "/" rest)).
Definition worker_fetch rq : W Response :=
  let method := toUpperCase (rq_method rq) in
  let path := rq_pathname rq in
  if String.eqb method "OPTIONS" then mret (emptyResponse 200)
  else if String.eqb path "/" || String.eqb path "/health"
  then mret (mkResponse 200 (BText "interocitor cloudflare worker"))
  else if startsWith path (NOTIFY_PREFIX +:+ "/") then
    prefix ← lift (decodeURIComponent (first_segment (after_prefix path NOTIFY_PREFIX)));
    handleWsUpgrade prefix rq
  else if startsWith path (IO_PREFIX +:+ "/") then handleIoRequest rq
  else if startsWith path (RECOVERY_PREFIX +:+ "/") then
    locator ← lift (decodeURIComponent (first_segment (after_prefix path RECOVERY_PREFIX)));
    handleRecoveryRequest locator rq
  else mret notFound.

(** [createInterocitorMount]: what it claims, and the request it passes on. *)
Definition mount_matches (mount pathname : string) : bool :=
  let mountPrefix := normalizeMountPrefix mount in
  String.eqb pathname (joinMountPath mountPrefix "/health") ||
  startsWith pathname (joinMountPath mountPrefix IO_PREFIX +:+ "/") ||
  startsWith pathname (joinMountPath mountPrefix NOTIFY_PREFIX +:+ "/") ||
  startsWith pathname (joinMountPath mountPrefix RECOVERY_PREFIX +:+ "/") ||
  (negb (truthy mountPrefix) && (String.eqb pathname "/" || String.eqb pathname "/health")).
Definition at_path (pathname : string) rq : Request :=
  mkRequest (rq_method rq) pathname (rq_path rq) (rq_header rq) (rq_bytes rq) (rq_json rq) (rq_tick rq)
    (rq_uuid rq) (rq_random rq).
Definition mount_fetch (mount : string) rq : W Response :=
  match stripMountPrefix (rq_pathname rq) (normalizeMountPrefix mount) with
  | None => mret notFound
  | Some stripped => worker_fetch (at_path stripped rq)
  end.

(** ** System operations *)
Definition admitCanonicalMesh (address : string) rq : string + Response :=
  match admitMeshRoute host (mkRoute address address) rq with
  | inl route => inl (canonicalAddress route)
  | inr refusal => inr refusal
  end.
Definition mesh_status (prefix : string) (remoteRoot : option string) (db : Db) : list ((string * string) * MeshPath) :=
  match opt_truthy remoteRoot with
  | Some root => rows_where (λ k, bool_decide (k = (prefix, root))) (db_mesh db)
  | None => rows_where (in_prefix prefix) (db_mesh db)
  end.
(** [validate-mesh-id]: any text before the dot, with its tag. *)
Definition validate_mesh_id (meshId secret : string) : bool :=
  let dot := lastIndexOf meshId "." in
  if (dot =? -1)%Z then false
  else timingSafeEqual (slice_from meshId (dot + 1)) (computeTag (slice meshId 0 dot) (utf8_encode secret)).
Definition handleSystemOperation rq : W Response :=
  let secret := meshSecret (ho_limits host) in
  let body := rq_json rq in
  prefix ← lift (decodeURIComponent (default "" (head (segments (after_prefix (rq_pathname rq) SYSTEM_PREFIX)))));
  op ← lift (json_text "op" "" body);
  if negb (truthy prefix) || negb (truthy op) then mret (jsonError "Missing prefix or op" 400)
  else if String.eqb op "issue-mesh-id" then
    mret (mkResponse 200 (BText (issueMeshId (utf8_encode secret) (tk_ms (rq_tick rq)) (rq_random rq))))
  else if String.eqb op "validate-mesh-id" then
    meshId ← lift (json_text "meshId" "" body);
    if negb (truthy meshId) then mret (jsonError "Missing meshId" 400)
    else mret (mkResponse 200 (BValue (VObj [("valid", VBool (validate_mesh_id meshId secret))])))
  else match admitCanonicalMesh prefix rq with
  | inr refusal => mret refusal
  | inl storageKey =>
      if String.eqb op "reconcile-metrics" then
        text ← lift (json_text "remotePath" "/" body);
        counts ← srv (opReconcileMetrics (rq_tick rq) storageKey (normalizePath text));
        mret (mkResponse 200 (BValue (VObj [("fileCount", VNum (Num counts.1)); ("totalBytes", VNum (Num counts.2))])))
      else if String.eqb op "run-maintenance" then
        counts ← srv (runMaintenance (rq_tick rq) (pathTtlHours (ho_limits host)) (Some storageKey));
        mret (mkResponse 200 (BValue (VObj [("ttlCandidates", VNum (Num counts.1)); ("ttlDeleted", VNum (Num counts.2))])))
      else if String.eqb op "maintenance-status" then
        text ← lift (json_text "remotePath" "/" body);
        rows ← srv (gets (λ s, mesh_status storageKey (Some (normalizePath text)) (sv_db s)));
        mret (mkResponse 200 (BStatus rows))
      else mret (jsonError "Unknown op" 404)
  end.
Definition system_fetch (mount : string) rq : W Response :=
  match stripMountPrefix (rq_pathname rq) (normalizeMountPrefix mount) with
  | Some stripped =>
      if startsWith stripped (SYSTEM_PREFIX +:+ "/") then
        if String.eqb (toUpperCase (rq_method rq)) "OPTIONS" then mret (emptyResponse 200)
        else handleSystemOperation (at_path stripped rq)
      else mret notFound
  | None => mret notFound
  end.

(** [withInterocitor]: the host's own worker has what the mount does not claim, and its
    scheduled work goes first. *)
Definition with_fetch (mount : string) (base : option (Request → W Response)) rq : W Response :=
  if mount_matches mount (rq_pathname rq) then mount_fetch mount rq
  else match base with Some fetch => fetch rq | None => mret notFound end.
Definition with_scheduled (base : option (W ())) (t : Tick) : W () :=
  match base with Some scheduled => scheduled | None => mret () end;;
  when (enableScheduledMaintenance (ho_limits host))
    (srv (runMaintenance t (pathTtlHours (ho_limits host)) None);; mret ()).
End routing.
