(* ===== verification/Grants.v ===== *)
(** * Access grants
    ([packages/workers/src/access-control.ts])

    A grant as the host stores it is a value of unknown shape; [snapshotGrant] reads it.  Times are
    milliseconds. *)

From S2P Require Import Prelude JsString Values RowStore Worker.
From Stdlib Require Import Ascii.
From Stdlib Require String.

Open Scope stdpp_scope.

Inductive GrantAuthorization := GReadonly | GFull.
#[global] Instance GrantAuthorization_eq_dec : EqDecision GrantAuthorization.
Proof. solve_decision. Defined.
Record MeshAccessGrant := mkGrant {
  grantId : string; parentGrantId : option string; gr_canonicalAddress : string;
  issuerSubjectId : string; gr_subjectId : string; authorization : GrantAuthorization;
  delegationDepth : Z; issuedAt : Z; notBefore : option Z; expiresAt : option Z; revokedAt : option Z }.
Record MeshGrantAttenuation := mkAttenuation {
  at_grantId : string; at_subjectId : string; at_authorization : GrantAuthorization;
  at_delegationDepth : Z; at_issuedAt : Z; at_notBefore : option Z; at_expiresAt : option Z }.

Definition typeError {A} (message : string) : result A := Throw (JsError message).
Definition require (b : bool) (message : string) : result () := if b then Ok () else typeError message.
Definition MAX_SAFE : Z := 9007199254740991.
Definition assertNonEmpty (value name : string) : result () := require (truthy value) (name +:+ " must be a non-empty string").
Definition assertRequiredTimestamp (value : Z) (name : string) : result () :=
  require (0 <=? value)%Z (name +:+ " must be a non-negative finite timestamp").
Definition assertTimestamp (value : option Z) (name : string) : result () :=
  match value with Some v => assertRequiredTimestamp v name | None => Ok () end.
Definition some_before (a b : option Z) : bool := match a, b with Some a, Some b => (b <=? a)%Z | _, _ => false end.
(** The checks on the times of a grant: its window is not empty, and it is issued before it ends. *)
Definition window_shape (g : MeshAccessGrant) : result () :=
  require (negb (some_before (notBefore g) (expiresAt g))) "grant validity window must be non-empty";;
  require (negb (some_before (Some (issuedAt g)) (expiresAt g))) "grant must be issued before it expires";;
  require (from_option (λ r, issuedAt g <=? r)%Z true (revokedAt g)) "grant cannot be revoked before it is issued".
Definition assertGrantShape (g : MeshAccessGrant) : result () :=
  assertNonEmpty (grantId g) "grantId";;
  assertNonEmpty (gr_canonicalAddress g) "canonicalAddress";;
  assertNonEmpty (issuerSubjectId g) "issuerSubjectId";;
  assertNonEmpty (gr_subjectId g) "subjectId";;
  match parentGrantId g with Some p => assertNonEmpty p "parentGrantId" | None => Ok () end;;
  require ((0 <=? delegationDepth g) && (delegationDepth g <=? MAX_SAFE))%Z
    "delegationDepth must be a non-negative safe integer";;
  assertRequiredTimestamp (issuedAt g) "issuedAt";;
  assertTimestamp (notBefore g) "notBefore";;
  assertTimestamp (expiresAt g) "expiresAt";;
  assertTimestamp (revokedAt g) "revokedAt";;
  window_shape g.

(** ** Reading a stored grant *)
Definition read_text (name : string) (v : jsval) : result string :=
  match field name v with VStr s => Ok s | _ => typeError (name +:+ " must be a non-empty string") end.
Definition read_time (name : string) (v : jsval) : result Z :=
  match field name v with
  | VNum (Num n) => Ok n
  | _ => typeError (name +:+ " must be a non-negative finite timestamp")
  end.
Definition read_optional_time (name : string) (v : jsval) : result (option Z) :=
  match field name v with VUndefined => Ok None | _ => t ← read_time name v; Ok (Some t) end.
Definition snapshotGrant (v : jsval) : result MeshAccessGrant :=
  match v with
  | VObj _ =>
      id ← read_text "grantId" v;
      canonical ← read_text "canonicalAddress" v;
      issuer ← read_text "issuerSubjectId" v;
      subject ← read_text "subjectId" v;
      parent ← match field "parentGrantId" v with VNull => Ok None | _ => p ← read_text "parentGrantId" v; Ok (Some p) end;
      auth ← match field "authorization" v with
             | VStr s => if String.eqb s "readonly" then Ok GReadonly
                         else if String.eqb s "full" then Ok GFull
                         else typeError "authorization must be readonly or full"
             | _ => typeError "authorization must be readonly or full"
             end;
      depth ← match field "delegationDepth" v with
              | VNum (Num n) => Ok n
              | _ => typeError "delegationDepth must be a non-negative safe integer"
              end;
      issued ← read_time "issuedAt" v;
      before ← read_optional_time "notBefore" v;
      expires ← read_optional_time "expiresAt" v;
      revoked ← read_optional_time "revokedAt" v;
      let g := mkGrant id parent canonical issuer subject auth depth issued before expires revoked in
      assertGrantShape g;; Ok g
  | _ => typeError "grant must be an object"
  end.
Fixpoint snapshot_all (l : list jsval) : result (list MeshAccessGrant) :=
  match l with [] => Ok [] | v :: l => g ← snapshotGrant v; gs ← snapshot_all l; Ok (g :: gs) end.
Definition snapshotGrantChain (v : jsval) (maxChainLength : Z) : result (list MeshAccessGrant) :=
  match v with
  | VArr l => require (Z.of_nat (length l) <=? maxChainLength)%Z "grant chain exceeds maximum length";;
              snapshot_all l
  | _ => typeError "grant chain must be an array"
  end.

(** ** Validating a chain, from the root to the leaf *)
Definition authorizationRank (a : GrantAuthorization) : Z := match a with GFull => 2 | GReadonly => 1 end.
(** The grant can be used at [now]. *)
Definition in_force (now : Z) (g : MeshAccessGrant) : bool :=
  negb (bool_decide (is_Some (revokedAt g))) && (issuedAt g <=? now)%Z &&
  from_option (λ b, b <=? now)%Z true (notBefore g) && from_option (λ e, now <? e)%Z true (expiresAt g).
(** [parent.notBefore !== undefined && (grant.notBefore === undefined || grant.notBefore < parent.notBefore)]. *)
Definition starts_before (g parent : MeshAccessGrant) : bool :=
  match notBefore parent with
  | Some p => match notBefore g with Some b => (b <? p)%Z | None => true end
  | None => false
  end.
Definition expires_after (g parent : MeshAccessGrant) : bool :=
  match expiresAt parent with
  | Some p => match expiresAt g with Some e => (p <? e)%Z | None => true end
  | None => false
  end.
Definition check_link (parent g : MeshAccessGrant) : result () :=
  require (bool_decide (parentGrantId g = Some (grantId parent))) "grant parent link does not match the chain";;
  require (String.eqb (issuerSubjectId g) (gr_subjectId parent)) "grant issuer does not hold the parent grant";;
  require (issuedAt parent <=? issuedAt g)%Z "grant predates its parent";;
  require (authorizationRank (authorization g) <=? authorizationRank (authorization parent))%Z
    "grant authorization exceeds its parent";;
  require (negb ((delegationDepth parent =? 0)%Z || (delegationDepth parent <=? delegationDepth g)%Z))
    "grant delegation depth exceeds its parent";;
  require (negb (starts_before g parent)) "grant starts before its parent";;
  require (negb (expires_after g parent)) "grant expires after its parent".
Fixpoint check_chain (canonical : string) (now : Z) (parent : option MeshAccessGrant) (seen : list string)
    (active : bool) (chain : list MeshAccessGrant) : result bool :=
  match chain with
  | [] => Ok active
  | g :: chain =>
      assertGrantShape g;;
      require (negb (bool_decide (grantId g ∈ seen))) "grant chain contains a cycle";;
      require (String.eqb (gr_canonicalAddress g) canonical) "grant canonical address does not match the request";;
      match parent with
      | None => require (negb (bool_decide (is_Some (parentGrantId g)))) "grant chain root has a parent"
      | Some p => check_link p g
      end;;
      check_chain canonical now (Some g) (grantId g :: seen) (active && in_force now g) chain
  end.
Definition validateGrantChain (chain : list MeshAccessGrant) (canonical subjectId : string) (now maxChainLength : Z)
    : result (MeshAccessGrant * bool) :=
  match list.last chain with
  | None => typeError "grant chain must not be empty"
  | Some leaf =>
      require (Z.of_nat (length chain) <=? maxChainLength)%Z "grant chain exceeds maximum length";;
      active ← check_chain canonical now None [] true chain;
      require (String.eqb (gr_subjectId leaf) subjectId) "grant subject does not match principal";;
      Ok (leaf, active)
  end.

(** ** The authorizer: the host's answers are values of unknown shape, [None] for a throw *)
Record GrantOptions := mkGrantOptions {
  authenticate : MeshRequestContext → option jsval;
  loadGrantChain : string → MeshRequestContext → option jsval;
  isTrustedRoot : MeshAccessGrant → MeshRequestContext → option jsval;
  go_now : MeshRequestContext → jsnum; maxChainLength : Z; concealDenied : bool }.
Definition of_throw {A} (o : option A) : result A := match o with Some a => Ok a | None => typeError "threw" end.
Definition grant_decision (o : GrantOptions) (context : MeshRequestContext) : result MeshAuthorization :=
  principal ← of_throw (authenticate o context);
  match principal with
  | VNull => Ok AuthDeny
  | VObj _ =>
      match field "subjectId" principal with
      | VStr subjectId =>
          require (truthy subjectId) "authenticate returned an invalid principal";;
          loaded ← of_throw (loadGrantChain o subjectId context);
          match loaded with
          | VNull => Ok AuthDeny
          | _ =>
              chain ← snapshotGrantChain loaded (maxChainLength o);
              match go_now o context with
              | Num now =>
                  require (0 <=? now)%Z "now returned an invalid timestamp";;
                  '(leaf, active) ← validateGrantChain chain (canonicalAddress (cx_route context)) subjectId now
                                      (maxChainLength o);
                  match chain with
                  | [] => typeError "grant chain must not be empty"
                  | root :: _ =>
                      trusted ← of_throw (isTrustedRoot o root context);
                      match trusted with
                      | VBool false => Ok AuthDeny
                      | VBool true =>
                          Ok (if (active : bool) then match authorization leaf with GFull => AuthFull | GReadonly => AuthReadonly end
                              else AuthDeny)
                      | _ => typeError "isTrustedRoot returned a non-boolean result"
                      end
                  end
              | NaN => typeError "now returned an invalid timestamp"
              end
          end
      | _ => typeError "authenticate returned an invalid principal"
      end
  | _ => typeError "authenticate returned an invalid principal"
  end.
Definition createMeshGrantAuthorizationMiddleware (o : GrantOptions) : result Layer :=
  require ((0 <? maxChainLength o) && (maxChainLength o <=? MAX_SAFE))%Z "maxChainLength must be a positive safe integer";;
  Ok (createMeshAuthorizationMiddleware
        (λ context, match grant_decision o context with Ok d => Some d | Throw _ => None end) (concealDenied o)).

(** ** Delegation and revocation *)
Definition or_else (a b : option Z) : option Z := match a with Some _ => a | None => b end.
Definition attenuateMeshGrant (parent : MeshAccessGrant) (child : MeshGrantAttenuation) : result MeshAccessGrant :=
  assertGrantShape parent;;
  assertNonEmpty (at_grantId child) "grantId";;
  assertNonEmpty (at_subjectId child) "subjectId";;
  require (negb (String.eqb (at_grantId child) (grantId parent))) "child grant id must be unique";;
  require (negb (bool_decide (is_Some (revokedAt parent)))) "a revoked grant cannot delegate";;
  require (authorizationRank (at_authorization child) <=? authorizationRank (authorization parent))%Z
    "child authorization exceeds its parent";;
  require ((0 <=? at_delegationDepth child) && (at_delegationDepth child <=? MAX_SAFE))%Z
    "delegationDepth must be a non-negative safe integer";;
  require (negb ((delegationDepth parent =? 0)%Z || (delegationDepth parent <=? at_delegationDepth child)%Z))
    "child delegation depth exceeds its parent";;
  assertRequiredTimestamp (at_issuedAt child) "issuedAt";;
  require (issuedAt parent <=? at_issuedAt child)%Z "child predates its parent";;
  let before := or_else (at_notBefore child) (notBefore parent) in
  let expires := or_else (at_expiresAt child) (expiresAt parent) in
  assertTimestamp before "notBefore";;
  assertTimestamp expires "expiresAt";;
  let g := mkGrant (at_grantId child) (Some (grantId parent)) (gr_canonicalAddress parent) (gr_subjectId parent)
             (at_subjectId child) (at_authorization child) (at_delegationDepth child) (at_issuedAt child)
             before expires None in
  require (negb (starts_before g parent)) "child starts before its parent";;
  require (negb (expires_after g parent)) "child expires after its parent";;
  require (negb (some_before before expires)) "child validity window must be non-empty";;
  require (negb (some_before (Some (at_issuedAt child)) expires)) "child must be issued before it expires";;
  Ok g.
Definition markMeshGrantRevoked (g : MeshAccessGrant) (at_ : Z) : result MeshAccessGrant :=
  assertGrantShape g;;
  assertRequiredTimestamp at_ "revokedAt";;
  require (issuedAt g <=? at_)%Z "grant cannot be revoked before it is issued";;
  Ok (mkGrant (grantId g) (parentGrantId g) (gr_canonicalAddress g) (issuerSubjectId g) (gr_subjectId g)
        (authorization g) (delegationDepth g) (issuedAt g) (notBefore g) (expiresAt g) (or_else (revokedAt g) (Some at_))).

(** ** Theory *)
Lemma require_ok b m u : require b m = Ok u ↔ b = true.
Proof. destruct b, u; simpl; split; done. Qed.
Lemma bind_Ok {A B} (m : result A) (f : A → result B) b : (m ≫= f) = Ok b ↔ ∃ a, m = Ok a ∧ f a = Ok b.
Proof.
  unfold mbind, result_bind. destruct m as [a|e]; split; [by eexists|by intros (? & [= <-] & ?)|done|by intros (? & ? & _)].
Qed.
(** Checks in sequence. *)
Lemma checks_ok {A} (m : result ()) (k : result A) a : (m;; k) = Ok a ↔ m = Ok () ∧ k = Ok a.
Proof. rewrite bind_Ok. split; [by intros ([] & ? & ?)|by intros [? ?]; exists ()]. Qed.

(** What a chain that passes satisfies, without the clock. *)
Definition link (parent : option MeshAccessGrant) (g : MeshAccessGrant) : Prop :=
  match parent with None => parentGrantId g = None | Some p => check_link p g = Ok () end.
Fixpoint linked (canonical : string) (parent : option MeshAccessGrant) (seen : list string)
    (chain : list MeshAccessGrant) : Prop :=
  match chain with
  | [] => True
  | g :: chain =>
      assertGrantShape g = Ok () ∧ grantId g ∉ seen ∧ gr_canonicalAddress g = canonical ∧ link parent g ∧
      linked canonical (Some g) (grantId g :: seen) chain
  end.
Lemma check_chain_spec canonical now parent seen active chain b :
  check_chain canonical now parent seen active chain = Ok b ↔
  linked canonical parent seen chain ∧ b = active && forallb (in_force now) chain.
Proof.
  revert parent seen active. induction chain as [|g chain IH]; intros parent seen active; cbn [check_chain linked forallb].
  { rewrite andb_true_r. split; [by intros [= ->]|by intros [_ ->]]. }
  rewrite !checks_ok, IH, !require_ok, negb_true_iff, bool_decide_eq_false, String.eqb_eq, andb_assoc.
  assert ((match parent with
           | None => require (negb (bool_decide (is_Some (parentGrantId g)))) "grant chain root has a parent"
           | Some p => check_link p g
           end = Ok ()) ↔ link parent g) as ->; [|tauto].
  destruct parent as [p|]; [done|]. cbn [link]. rewrite require_ok, negb_true_iff, bool_decide_eq_false.
  split; [apply eq_None_not_Some|by intros ->; intros [? ?]].
Qed.
Lemma linked_app canonical parent seen a b :
  linked canonical parent seen (a ++ b) ↔
  linked canonical parent seen a ∧
  linked canonical (if list.last a is Some g then Some g else parent) (reverse (grantId <$> a) ++ seen) b.
Proof.
  revert parent seen. induction a as [|g a IH]; intros parent seen; [by cbn; tauto|].
  cbn [app linked fmap list_fmap]. rewrite IH, reverse_cons, <- app_assoc.
  assert ((if list.last (g :: a) is Some x then Some x else parent) = (if list.last a is Some x then Some x else Some g)) as ->.
  { rewrite last_cons. by destruct (list.last a). }
  cbn [app]. tauto.
Qed.
Lemma linked_nodup canonical parent seen chain : linked canonical parent seen chain →
  NoDup seen → NoDup (reverse (grantId <$> chain) ++ seen).
Proof.
  revert parent seen. induction chain as [|g chain IH]; intros parent seen; [done|]. cbn [linked fmap list_fmap].
  intros (_ & Hg & _ & _ & Hl) Hs. rewrite reverse_cons, <- app_assoc. eapply IH; [done|by constructor].
Qed.

(** A grant no wider than another one: what [check_link] leaves a child, along a chain. *)
Record within (g p : MeshAccessGrant) : Prop := {
  wi_rank : (authorizationRank (authorization g) ≤ authorizationRank (authorization p))%Z;
  wi_issued : (issuedAt p ≤ issuedAt g)%Z;
  wi_start : starts_before g p = false;
  wi_end : expires_after g p = false }.
Lemma within_refl g : within g g.
Proof.
  split; [lia|lia|unfold starts_before|unfold expires_after]; [destruct (notBefore g)|destruct (expiresAt g)]; try done; lia.
Qed.
Lemma within_trans a b c : within a b → within b c → within a c.
Proof.
  intros [R1 I1 S1 E1] [R2 I2 S2 E2]. split; [lia|lia|..]; unfold starts_before, expires_after in *.
  - destruct (notBefore c) as [z|]; [|done]. destruct (notBefore b) as [y|]; [|done]. destruct (notBefore a); [lia|done].
  - destruct (expiresAt c) as [z|]; [|done]. destruct (expiresAt b) as [y|]; [|done]. destruct (expiresAt a); [lia|done].
Qed.
Lemma check_link_within p g : check_link p g = Ok () → within g p ∧ (delegationDepth g < delegationDepth p)%Z.
Proof.
  unfold check_link. rewrite !checks_ok, !require_ok, !negb_true_iff. intros (_ & _ & Hi & Hr & Hd & Hs & He).
  split; [split; [lia|lia|done|done]|]. lia.
Qed.
Lemma linked_within canonical p seen chain g : linked canonical (Some p) seen chain → g ∈ chain →
  within g p ∧ gr_canonicalAddress g = canonical.
Proof.
  revert p seen. induction chain as [|c chain IH]; intros p seen; [by intros _ ?%not_elem_of_nil|].
  cbn [linked link]. intros (_ & _ & Hc & [Hl _]%check_link_within & Hch) [->|Hg]%elem_of_cons; [done|].
  destruct (IH _ _ Hch Hg) as [Hw ->]. split; [by eapply within_trans|done].
Qed.
Lemma linked_leaf canonical parent seen chain leaf g : linked canonical parent seen chain →
  list.last chain = Some leaf → g ∈ chain → within leaf g ∧ gr_canonicalAddress g = canonical.
Proof.
  revert parent seen. induction chain as [|c chain IH]; intros parent seen; [by intros _ _ ?%not_elem_of_nil|].
  cbn [linked]. intros (_ & _ & Hc & _ & Hch) Hl [->|Hg]%elem_of_cons.
  - split; [|done]. rewrite last_cons in Hl. destruct (list.last chain) as [x|] eqn:E; simplify_eq/=; [|apply within_refl].
    eapply linked_within; [done|]. by apply last_Some_elem_of.
  - rewrite last_cons in Hl. destruct (list.last chain) as [x|] eqn:E; simplify_eq/=; [by eapply IH|].
    by apply last_None in E as ->; apply not_elem_of_nil in Hg.
Qed.
Lemma shape_depth g : assertGrantShape g = Ok () → (0 ≤ delegationDepth g)%Z.
Proof. unfold assertGrantShape. rewrite !checks_ok, !require_ok. intros (_ & _ & _ & _ & _ & Hd & _). lia. Qed.
Lemma linked_depth canonical p seen chain : linked canonical (Some p) seen chain →
  (0 ≤ delegationDepth p)%Z → (Z.of_nat (length chain) ≤ delegationDepth p)%Z.
Proof.
  revert p seen. induction chain as [|c chain IH]; intros p seen; [done|].
  cbn [linked link length]. intros (Hs & _ & _ & [_ Hd]%check_link_within & Hch) _.
  apply IH in Hch; [lia|by apply shape_depth].
Qed.
(** A leaf within a grant can only be used when the grant's window is open. *)
Lemma within_in_force now g p : within g p → in_force now g = true → revokedAt p = None → in_force now p = true.
Proof.
  intros [_ Hi Hs He] Hg Hp. unfold in_force, starts_before, expires_after in *. rewrite Hp. cbn [bool_decide] in *.
  rewrite !andb_true_iff in Hg |- *. destruct Hg as [[[_ H1] H2] H3].
  destruct (notBefore p), (notBefore g), (expiresAt p), (expiresAt g); cbn in *; try done; split_and!; try done; lia.
Qed.
Lemma forallb_forces now (leaf : MeshAccessGrant) chain : leaf ∈ chain → (∀ g, g ∈ chain → within leaf g) →
  forallb (in_force now) chain = in_force now leaf && forallb (λ g, negb (bool_decide (is_Some (revokedAt g)))) chain.
Proof.
  intros Hl Hw. apply eq_true_iff_eq. rewrite andb_true_iff, !forallb_forall. split.
  - intros H. split; [by apply H, list_elem_of_In|]. intros g Hg. specialize (H g Hg). unfold in_force in H.
    by apply andb_true_iff in H as [[[H _]%andb_true_iff _]%andb_true_iff _].
  - intros [H Hr] g Hg. eapply within_in_force; [by apply Hw, list_elem_of_In|done|].
    specialize (Hr g Hg). apply negb_true_iff, bool_decide_eq_false in Hr. by apply eq_None_not_Some.
Qed.

(** A delegated grant has the shape and the link a chain asks for. *)
Lemma assert_time_some t n : assertTimestamp (Some t) n = assertRequiredTimestamp t n.
Proof. done. Qed.
Lemma attenuate_links parent child g : attenuateMeshGrant parent child = Ok g →
  assertGrantShape g = Ok () ∧ check_link parent g = Ok () ∧ gr_canonicalAddress g = gr_canonicalAddress parent ∧
  gr_subjectId g = at_subjectId child ∧ grantId g = at_grantId child ∧ revokedAt g = None.
Proof.
  unfold attenuateMeshGrant. rewrite !checks_ok.
  intros (Hp & Hid & Hsub & Hne & Hrev & Hrank & Hd & Hdepth & Ht & Hi & Hb & He & Hs & Hx & Hw & Hw' & [= <-]).
  unfold check_link, assertGrantShape, window_shape in *. cbn [grantId parentGrantId gr_canonicalAddress issuerSubjectId gr_subjectId
    authorization delegationDepth issuedAt notBefore expiresAt revokedAt] in *. rewrite !checks_ok in Hp.
  destruct Hp as (Hp1 & Hp2 & Hp3 & Hp4 & _). rewrite bool_decide_true, String.eqb_refl by done.
  unfold assertRequiredTimestamp, assertNonEmpty in *. rewrite !require_ok in *.
  split; [|split; [|done]]; rewrite !checks_ok, !require_ok; by split_and!.
Qed.

(** What a decision other than a refusal rests on. *)
Record granted (o : GrantOptions) (context : MeshRequestContext) (leaf : MeshAccessGrant) : Prop := {
  gd_chain : ∃ principal subjectId loaded root rest now,
    authenticate o context = Some principal ∧ field "subjectId" principal = VStr subjectId ∧
    loadGrantChain o subjectId context = Some loaded ∧
    snapshotGrantChain loaded (maxChainLength o) = Ok (root :: rest) ∧
    isTrustedRoot o root context = Some (VBool true) ∧ go_now o context = Num now ∧
    validateGrantChain (root :: rest) (canonicalAddress (cx_route context)) subjectId now (maxChainLength o) = Ok (leaf, true) }.
Lemma of_throw_ok {A} (x : option A) a : of_throw x = Ok a ↔ x = Some a.
Proof. destruct x; cbn; split; try done; by intros [= ->]. Qed.
Lemma grant_decision_spec o context d : grant_decision o context = Ok d →
  d = AuthDeny ∨ ∃ leaf, granted o context leaf ∧
    d = match authorization leaf with GFull => AuthFull | GReadonly => AuthReadonly end.
Proof.
  unfold grant_decision. rewrite bind_Ok. intros (p & Hp%of_throw_ok & E).
  destruct p as [| | | | | | |fields]; try done; [by simplify_eq; left|].
  destruct (field "subjectId" (VObj fields)) as [| | | |subject| | |] eqn:Es; try done.
  rewrite checks_ok, bind_Ok in E. destruct E as (_ & loaded & Hl%of_throw_ok & E).
  assert (loaded = VNull ∨ loaded ≠ VNull) as [->|Hn] by (destruct loaded; auto); [by simplify_eq; left|].
  assert ((chain ← snapshotGrantChain loaded (maxChainLength o);
    match go_now o context with
    | NaN => typeError "now returned an invalid timestamp"
    | Num now => require (0 <=? now)%Z "now returned an invalid timestamp";;
        '(leaf, active) ← validateGrantChain chain (canonicalAddress (cx_route context)) subject now (maxChainLength o);
        match chain with
        | [] => typeError "grant chain must not be empty"
        | root :: _ =>
            trusted ← of_throw (isTrustedRoot o root context);
            match trusted with
            | VBool false => Ok AuthDeny
            | VBool true => Ok (if (active : bool) then match authorization leaf with GFull => AuthFull | GReadonly => AuthReadonly end
                                else AuthDeny)
            | _ => typeError "isTrustedRoot returned a non-boolean result"
            end
        end
    end) = Ok d) as E' by by destruct loaded.
  clear E. apply bind_Ok in E' as (chain & Hc & E). destruct (go_now o context) as [|now] eqn:Hnow; [done|].
  rewrite checks_ok, bind_Ok in E. destruct E as (_ & [leaf active] & Hv & E).
  destruct chain as [|root rest]; [done|]. apply bind_Ok in E as (trusted & Ht%of_throw_ok & E).
  destruct trusted as [| |[]| | | | |]; try done; [|by simplify_eq; left].
  destruct active; [|by simplify_eq; left]. right. exists leaf. split; [|by simplify_eq].
  by split; eexists _, _, _, _, _, _.
Qed.

(** ** Properties *)

(** C20: A chain of grants only ever narrows.  When a chain validates, every grant names the requested
    namespace, no grant occurs twice, the leaf is the principal's and gives no more than any grant above it,
    the chain is no longer than the root's delegation depth allows, and it is active exactly
    when the leaf can be used now and nobody on the chain has been revoked. *)
Theorem grant_chain_only_narrows (chain : list MeshAccessGrant) (canonical subjectId : string) (now max : Z)
    (leaf : MeshAccessGrant) (active : bool) :
  validateGrantChain chain canonical subjectId now max = Ok (leaf, active) →
  gr_subjectId leaf = subjectId ∧ NoDup (grantId <$> chain) ∧
  (∀ g, g ∈ chain → gr_canonicalAddress g = canonical ∧ within leaf g) ∧
  (∃ root rest, chain = root :: rest ∧ parentGrantId root = None ∧
     (Z.of_nat (length rest) ≤ delegationDepth root)%Z) ∧
  active = in_force now leaf && forallb (λ g, negb (bool_decide (is_Some (revokedAt g)))) chain.
Proof.
  unfold validateGrantChain. destruct (list.last chain) as [x|] eqn:El; [|done].
  rewrite checks_ok, bind_Ok. intros (_ & b & Hb & Hrest). apply check_chain_spec in Hb as [Hch ->].
  rewrite checks_ok, require_ok, String.eqb_eq in Hrest. destruct Hrest as [Hs [= <- <-]].
  assert (∀ g, g ∈ chain → within x g ∧ gr_canonicalAddress g = canonical) as Hw by (intros g; by eapply linked_leaf).
  split_and!; [done|..].
  - pose proof (linked_nodup _ _ _ _ Hch ltac:(constructor)) as Hnd. rewrite app_nil_r in Hnd.
    by rewrite reverse_Permutation in Hnd.
  - intros g Hg. destruct (Hw g Hg); done.
  - destruct chain as [|root rest]; [done|]. exists root, rest. cbn [linked link] in Hch.
    destruct Hch as (Hsh & _ & _ & Hp & Hr). split_and!; [done..|]. eapply linked_depth; [done|by apply shape_depth].
  - apply forallb_forces; [by apply last_Some_elem_of|]. intros g Hg. by apply Hw.
Qed.

(** A delegation extends its chain.  When a chain validates for the holder of its leaf, a grant that
    [attenuateMeshGrant] makes from that leaf, under an id the chain does not have, gives a chain that
    validates for the new subject, and that is active exactly when the old one is and
    the new grant can be used. *)
Theorem delegation_extends_the_chain (chain : list MeshAccessGrant) (canonical subjectId : string) (now max : Z)
    (leaf g : MeshAccessGrant) (active : bool) (child : MeshGrantAttenuation) :
  validateGrantChain chain canonical subjectId now max = Ok (leaf, active) →
  attenuateMeshGrant leaf child = Ok g → at_grantId child ∉ (grantId <$> chain) →
  (Z.of_nat (length chain) < max)%Z →
  validateGrantChain (chain ++ [g]) canonical (at_subjectId child) now max = Ok (g, active && in_force now g).
Proof.
  unfold validateGrantChain. rewrite last_snoc. destruct (list.last chain) as [x|] eqn:El; [|done].
  rewrite checks_ok, bind_Ok. intros (_ & b & Hb & Hrest) Ha Hfresh Hlen. apply check_chain_spec in Hb as [Hch ->].
  rewrite checks_ok, require_ok, String.eqb_eq in Hrest. destruct Hrest as [_ [= <- <-]].
  destruct (attenuate_links x child g Ha) as (Hsh & Hl & Hc & Hsub & Hid & _).
  apply checks_ok. split; [apply require_ok, Z.leb_le; rewrite length_app; cbn [length]|].
  { lia. }
  apply bind_Ok. exists (forallb (in_force now) chain && in_force now g). split.
  - apply check_chain_spec. split; [|by rewrite forallb_app; cbn [forallb]; rewrite andb_true_r].
    apply linked_app. split; [done|]. rewrite El, app_nil_r. cbn [linked link]. split_and!; [done| |..|done].
    + rewrite Hid, elem_of_reverse. done.
    + rewrite Hc. destruct (linked_leaf _ _ _ _ _ x Hch El) as [_ E]; [by apply last_Some_elem_of|done].
    + done.
  - rewrite Hsub, String.eqb_refl. done.
Qed.

(** Who the grants let in.  A request passes the middleware of [createMeshGrantAuthorizationMiddleware]
    only under a chain the host loaded for the authenticated subject, whose root the host trusts, which validates, is active and,
    for a write, ends in a full grant; every other request is answered without reaching the mesh. *)
Theorem granted_requests (o : GrantOptions) (layer : Layer) (context : MeshRequestContext) :
  createMeshGrantAuthorizationMiddleware o = Ok layer →
  (∃ r, layer context = LDone (Some r) ∧ (400 ≤ rs_status r)%Z) ∨
  (layer context = pass_on ∧ ∃ leaf, granted o context leaf ∧
     (cx_access context = AWrite → authorization leaf = GFull)).
Proof.
  unfold createMeshGrantAuthorizationMiddleware. rewrite checks_ok. intros [_ [= <-]].
  unfold createMeshAuthorizationMiddleware. destruct (grant_decision o context) as [d|e] eqn:E; [|by left; eexists].
  apply grant_decision_spec in E as [->|(leaf & Hg & ->)].
  { left. destruct (concealDenied o); by eexists. }
  destruct (authorization leaf) eqn:Ea.
  - case_bool_decide; [left; destruct (concealDenied o); by eexists|]. right. split; [done|]. by exists leaf.
  - right. split; [done|]. by exists leaf.
Qed.

(** A root that delegates once, read-only. *)
Section witness.
Definition root_grant : MeshAccessGrant :=
  mkGrant "g0" None "mesh" "authority" "alice" GFull 2 100 None (Some 900%Z) None.
Definition child_wish : MeshGrantAttenuation := mkAttenuation "g1" "bob" GReadonly 1 200 (Some 250%Z) None.
Definition child_grant : MeshAccessGrant :=
  mkGrant "g1" (Some "g0") "mesh" "alice" "bob" GReadonly 1 200 (Some 250%Z) (Some 900%Z) None.

Lemma grant_chain_only_narrows_witness :
  validateGrantChain [root_grant; child_grant] "mesh" "bob" 300 32 = Ok (child_grant, true) ∧ within child_grant root_grant.
Proof.
  split; [done|].
  pose proof (grant_chain_only_narrows [root_grant; child_grant] "mesh" "bob" 300 32 child_grant true eq_refl) as (_ & _ & Hw & _).
  exact (proj2 (Hw root_grant ltac:(by left))).
Defined.
Lemma delegation_extends_the_chain_witness :
  validateGrantChain ([root_grant] ++ [child_grant]) "mesh" "bob" 240 32 = Ok (child_grant, true && in_force 240 child_grant) ∧
  in_force 240 child_grant = false.
Proof.
  split; [|done].
  apply (delegation_extends_the_chain [root_grant] "mesh" "alice" 240 32 root_grant child_grant true child_wish); try done.
  intros ?%list_elem_of_singleton. done.
Defined.

(** A host that loads the chain of the subject [bob] and trusts its root. *)
Definition text_fields (g : MeshAccessGrant) : jsval :=
  VObj [("grantId", VStr (grantId g)); ("parentGrantId", match parentGrantId g with Some p => VStr p | None => VNull end);
    ("canonicalAddress", VStr (gr_canonicalAddress g)); ("issuerSubjectId", VStr (issuerSubjectId g));
    ("subjectId", VStr (gr_subjectId g)); ("authorization", VStr match authorization g with GFull => "full" | GReadonly => "readonly" end);
    ("delegationDepth", VNum (Num (delegationDepth g))); ("issuedAt", VNum (Num (issuedAt g)));
    ("notBefore", from_option (λ n, VNum (Num n)) VUndefined (notBefore g));
    ("expiresAt", from_option (λ n, VNum (Num n)) VUndefined (expiresAt g))].
Definition bobs_host : GrantOptions :=
  mkGrantOptions (λ _, Some (VObj [("subjectId", VStr "bob")]))
    (λ _ _, Some (VArr [text_fields root_grant; text_fields child_grant])) (λ _ _, Some (VBool true))
    (λ _, Num 300) 32 true.
Definition bobs_request (access : MeshAccess) : MeshRequestContext :=
  mkContext (mkRoute "mesh" "mesh") (mkRequest "GET" "/io/mesh/file" None (λ _, None) None VUndefined (mkTick 0 "") "" [])
    Io access.
Lemma granted_requests_witness :
  let layer := createMeshAuthorizationMiddleware
        (λ context, match grant_decision bobs_host context with Ok d => Some d | Throw _ => None end) true in
  layer (bobs_request ARead) = pass_on ∧ layer (bobs_request AWrite) = LDone (Some (jsonError "Not found" 404)) ∧
  ∃ leaf, granted bobs_host (bobs_request ARead) leaf.
Proof.
  split; [done|]. split; [done|].
  destruct (granted_requests bobs_host (createMeshAuthorizationMiddleware
    (λ context, match grant_decision bobs_host context with Ok d => Some d | Throw _ => None end) true)
    (bobs_request ARead) eq_refl) as [(r & E & _)|(_ & leaf & Hg & _)]; [done|].
  by exists leaf.
Defined.
End witness.
