(* ===== verification/Requests.v ===== *)
(** * Requests: what the mesh server promises
    ([packages/workers/src/worker.ts], over [RowStore.v] and [Worker.v])

    Every operation of the row store is walked once per two-state relation: [elsewhere] for the
    rows of other addresses, [object_step] for what a request may do to a stored object.  The
    requests inherit the relation through the middleware, which runs a handler at most once. *)

From S2P Require Import Prelude JsString Values Octets Encryption StoredFile Ids Routes RowStore Worker.
From Stdlib Require Import Ascii.
From Stdlib Require String.

Open Scope stdpp_scope.

Notation files s := (db_files (sv_db s)).
Notation folders s := (db_folders (sv_db s)).
Notation meshes s := (db_mesh (sv_db s)).
Notation stored s := (db_stored (sv_db s)).

(** ** Other addresses *)

(** The rows, and the cached answers, of every address but [address] are as they were. *)
Definition same_cached (address : string) (c c' : Cache) : Prop :=
  ∀ p q, p ≠ address → ca_files c' !! cacheKeyFor p q = ca_files c !! cacheKeyFor p q ∧
    ca_listings c' !! listingCacheKeyFor p q = ca_listings c !! listingCacheKeyFor p q.
Definition db_elsewhere (address : string) (db db' : Db) : Prop :=
  ∀ k : string * string, k.1 ≠ address →
    db_files db' !! k = db_files db !! k ∧ db_folders db' !! k = db_folders db !! k ∧
    db_mesh db' !! k = db_mesh db !! k ∧ db_stored db' !! k = db_stored db !! k.
Definition elsewhere (address : string) (s s' : Server) : Prop :=
  db_elsewhere address (sv_db s) (sv_db s') ∧
  match sv_cache s, sv_cache s' with
  | Some c, Some c' => same_cached address c c'
  | None, None => True
  | _, _ => False
  end.

#[global] Instance db_elsewhere_preorder address : PreOrder (db_elsewhere address).
Proof.
  split.
  - by intros db k Hk.
  - intros a b c Hab Hbc k Hk. destruct (Hab k Hk) as (<- & <- & <- & <-). by apply Hbc.
Qed.
#[global] Instance elsewhere_preorder address : PreOrder (elsewhere address).
Proof.
  split.
  - intros s. split; [done|]. destruct (sv_cache s); [by intros p q|done].
  - intros a b c [Hab Cab] [Hbc Cbc]. split; [by etransitivity|].
    destruct (sv_cache a), (sv_cache b), (sv_cache c); try done.
    intros p q Hp. destruct (Cab p q Hp) as [<- <-]. by apply Cbc.
Qed.

Lemma insert_or_ignore_ne {R} (k k' : string * string) (r : R) m :
  k' ≠ k → (insert_or_ignore k r m).2 !! k' = m !! k'.
Proof. intros Hk. unfold insert_or_ignore. destruct (m !! k); [done|]. cbn. by rewrite lookup_insert_ne. Qed.

Section elsewhere.
Context `{WebCrypto} `{IsoClock} (number_of_text : string → jsnum) (address : string).
Notation here := (keeps (elsewhere address)).
Notation within st := (∀ db, db_elsewhere address db (st db).2).

Lemma here_batch l : Forall (λ st : Statement, within st) l → here (run_batch l).
Proof.
  intros Hl s r s'. rewrite run_batch_eq. intros [= _ <-]. split; [|cbn; destruct (sv_cache s); [by intros p q|done]].
  cbn. generalize (sv_db s). induction Hl as [|st l Hst _ IH]; intros db; cbn; [done|].
  specialize (Hst db). destruct (st db) as [n d]. specialize (IH d). destruct (batch l d). by etransitivity.
Qed.
Lemma here_cache f : (∀ c, same_cached address c (f c)) → here (modify (set_cache f)).
Proof. intros Hf [db [c|]] r s' [= _ <-]; (split; [done|]); [apply Hf|done]. Qed.
Lemma within_folders t target : Forall (λ st : Statement, within st) (folderTreeStatements t address target).
Proof.
  unfold folderTreeStatements. destruct (_ || _); [constructor|].
  generalize (segments (normalizePath target)), "". intros segs. induction segs as [|seg segs IH]; intros cur; [constructor|].
  constructor; [|apply IH]. intros db k Hk.
  pose proof (insert_or_ignore_ne (address, cur +:+ "/" +:+ seg) k (nowIso t) (db_folders db)) as E.
  destruct (insert_or_ignore _ _ _) as [n m]. cbn in E |- *. split_and!; try done. apply E. by intros ->.
Qed.
Lemma within_file path row : within (insert_file address path row) ∧ within (upsert_file address path row).
Proof.
  split; intros db k Hk; unfold insert_file, upsert_file.
  - pose proof (insert_or_ignore_ne (address, path) k row (db_files db)) as E.
    destruct (insert_or_ignore _ _ _) as [n m]. cbn in E |- *. split_and!; try done. apply E. by intros ->.
  - cbn. rewrite lookup_insert_ne; [done|]. by intros <-.
Qed.
Lemma within_delete P : (∀ k, P k = true → k.1 = address) → within (delete_files P) ∧ within (delete_folders P).
Proof.
  intros HP. split; intros db k Hk; cbn; rewrite delete_where_lookup; destruct (P k) eqn:E; try done; by apply HP in E.
Qed.
Lemma within_mesh P f : (∀ k, P k = true → k.1 = address) → within (update_mesh P f).
Proof.
  intros HP db k Hk. cbn. rewrite map_lookup_imap. split_and!; try done.
  destruct (db_mesh db !! k); [|done]. cbn. destruct (P k) eqn:E; [by apply HP in E|done].
Qed.
Lemma within_delta t root delta r w :
  Forall (λ st : Statement, within st) (meshDeltaStatements t address root delta r w).
Proof.
  unfold meshDeltaStatements. destruct (opt_truthy root) as [x|]; [|constructor]. apply list.Forall_cons. split; [|apply list.Forall_singleton].
  - intros db k Hk.
    match goal with |- context [insert_or_ignore ?k' ?r ?m] => pose proof (insert_or_ignore_ne k' k r m) as E end.
    destruct (insert_or_ignore _ _ _) as [n m]. cbn in E |- *. split_and!; try done. apply E. by intros ->.
  - apply within_mesh. by intros k ->%bool_decide_eq_true.
Qed.
Lemma under_like_address root pattern k : under_like address root pattern k = true → k.1 = address.
Proof. unfold under_like. by intros [?%String.eqb_eq _]%andb_true_iff. Qed.
Lemma in_subtree_address n k : in_subtree address n k = true → k.1 = address.
Proof. unfold in_subtree. by intros [?%String.eqb_eq _]%andb_true_iff. Qed.
Lemma in_prefix_address k : in_prefix address k = true → k.1 = address.
Proof. apply String.eqb_eq. Qed.

Lemma here_listing_delete path : here (listingCacheDelete address path).
Proof.
  apply here_cache. intros c p q Hp. cbn. split; [done|]. rewrite lookup_delete_ne; [done|].
  intros E. by apply cache_keys in E as [? _].
Qed.
Lemma here_cache_delete path : here (cacheDelete address path).
Proof.
  apply here_cache. intros c p q Hp. cbn. split; [|done]. rewrite lookup_delete_ne; [done|].
  intros E. by apply cache_keys in E as [? _].
Qed.
Lemma here_cache_put t path bytes etag modified : here (cachePut t address path bytes etag modified).
Proof.
  apply here_cache. intros c p q Hp. cbn. split; [|done]. rewrite lookup_insert_ne; [done|].
  intros E. by apply cache_keys in E as [? _].
Qed.
Lemma here_listing_put t path l : here (listingCachePut t address path l).
Proof.
  apply here_cache. intros c p q Hp. cbn. split; [done|]. rewrite lookup_insert_ne; [done|].
  intros E. by apply cache_keys in E as [? _].
Qed.
Lemma here_delta t root delta r w : here (apply_delta t address root delta r w).
Proof. unfold apply_delta. keeps_walk ltac:(apply here_batch, within_delta). Qed.
Lemma here_get t path ty : here (opGetFile t address path ty).
Proof. unfold opGetFile. keeps_walk ltac:(first [apply here_delta|apply here_cache_put]). Qed.
Lemma here_write t parent st root delta r w : within st →
  here (run_batch (folderTreeStatements t address parent ++ [st] ++ meshDeltaStatements t address root delta r w)).
Proof.
  intros Hst. apply here_batch. rewrite !Forall_app. split_and!; [apply within_folders|by apply list.Forall_singleton|apply within_delta].
Qed.
Lemma here_immutable t path bytes ty root : here (opPutImmutable t address path bytes ty root).
Proof.
  unfold opPutImmutable.
  keeps_walk ltac:(first [apply here_write, within_file|apply here_cache_put|apply here_listing_delete]).
Qed.
Lemma here_semantic t path bytes ty root : here (opPutSemantic number_of_text t address path bytes ty root).
Proof.
  unfold opPutSemantic, semantic_read, semantic_write.
  keeps_walk ltac:(first [apply here_write, within_file|apply here_listing_delete]).
Qed.
Lemma here_overwrite t path bytes : here (opPutOverwrite t address path bytes).
Proof.
  unfold opPutOverwrite. keeps_walk ltac:(apply here_listing_delete).
  apply here_batch. rewrite Forall_app. split; [apply within_folders|]. apply list.Forall_singleton, within_file.
Qed.
Lemma here_list t path : here (opListChildren t address path).
Proof. unfold opListChildren. keeps_walk ltac:(apply here_listing_put). Qed.
Lemma here_remove t path root : here (opDeletePath t address path root).
Proof.
  unfold opDeletePath.
  keeps_walk ltac:(first [apply here_listing_delete|apply here_cache_delete|apply here_delta
    |apply keeps_for_each; [apply _|]; intros; apply here_cache_delete]).
  all: apply here_batch; repeat apply list.Forall_cons_2; try apply list.Forall_nil_2.
  all: first [apply within_delete|apply within_mesh]; first [apply in_prefix_address|apply in_subtree_address].
Qed.
Lemma here_reconcile t root : here (opReconcileMetrics t address root).
Proof.
  unfold opReconcileMetrics. keeps_walk fail. apply here_batch, list.Forall_singleton, within_mesh.
  by intros k ->%bool_decide_eq_true.
Qed.
End elsewhere.

(** ** Requests over the row store *)
Section world.
Context `{WebCrypto} `{IsoClock} {B : Type} `{!FileBodyStore B} (host : Host).
Implicit Types (w : World B) (rq : Request).

Definition on_server (R : Server → Server → Prop) w w' : Prop := R (w_server w) (w_server w').
#[export] Instance on_server_preorder R : PreOrder R → PreOrder (on_server R).
Proof. intros HR. split; [intros w; unfold on_server; reflexivity|]. intros a b c Hab Hbc. unfold on_server in *. by etransitivity. Qed.
Lemma keeps_srv R {A} (m : M Server A) : keeps R m → keeps (on_server R) (srv (B := B) m).
Proof. intros Hm w r w'. unfold srv. destruct (m (w_server w)) as [x s] eqn:E. intros [= _ <-]. by eapply Hm. Qed.
Lemma keeps_bodies R `{!PreOrder R} {A} (m : M B A) : keeps (on_server R) (bodies m).
Proof. intros w r w'. unfold bodies. destruct (m (w_bodies w)) as [x b]. intros [= _ <-]. unfold on_server. reflexivity. Qed.
Lemma keeps_log R `{!PreOrder R} e : keeps (on_server R) (log (B := B) e).
Proof. intros w r w' [= _ <-]. unfold on_server. reflexivity. Qed.

(** A handler runs at most once, whatever the middleware does. *)
Lemma run_layer_once l (next : M (World B) Response) continued w r w' :
  run_layer l next continued w = (r, w') →
  w' = w ∨ (continued = false ∧ ∃ r', next w = (r', w')).
Proof.
  revert continued w. induction l as [[x|]|e|k IH]; intros continued w; cbn [run_layer]; [by intros [= _ <-]; left..|].
  destruct continued.
  - intros E. apply IH in E as [->|[? _]]; [by left|done].
  - destruct (next w) as [x w1] eqn:E1. intros E. apply IH in E as [->|[? _]]; [right; eauto|done].
Qed.
Lemma invoke_once layers context (terminal : M (World B) Response) w r w' :
  invoke layers context terminal w = (r, w') → w' = w ∨ ∃ r', terminal w = (r', w').
Proof.
  revert r w'. induction layers as [|layer layers IH]; intros r w'; cbn [invoke]; [by right; exists r|].
  intros E. apply run_layer_once in E as [->|(_ & x & E)]; [by left|]. by eapply IH.
Qed.
Lemma middleware_once context (terminal : M (World B) Response) w r w' :
  runMeshMiddleware host context terminal w = (r, w') → w' = w ∨ ∃ r', terminal w = (r', w').
Proof. unfold runMeshMiddleware. destruct (_ ≫= _); [apply invoke_once|]. intros [= _ <-]. by left. Qed.

(** What a request reaches: the handler of a mesh operation at its admitted route, the handler of recovery
    wrappers, or nothing. *)
Inductive Target :=
  | AtMesh (op : string) (route : MeshRouteIdentity) (access : MeshAccess)
  | AtRecovery (locator : string)
  | Nowhere.
Definition io_target rq : Target :=
  match parseIo (rq_pathname rq) with
  | Throw _ => Nowhere
  | Ok (prefix, op) =>
      match ioRequestAccess op (toUpperCase (rq_method rq)) with
      | None => Nowhere
      | Some access =>
          match resolvePublicMeshRoute host prefix rq Io access with
          | inr _ => Nowhere
          | inl route => AtMesh op route access
          end
      end
  end.
Definition target rq : Target :=
  let path := rq_pathname rq in
  if String.eqb (toUpperCase (rq_method rq)) "OPTIONS" || (String.eqb path "/" || String.eqb path "/health") then Nowhere
  else if startsWith path (NOTIFY_PREFIX +:+ "/") then Nowhere
  else if startsWith path (IO_PREFIX +:+ "/") then io_target rq
  else if startsWith path (RECOVERY_PREFIX +:+ "/") then
    match decodeURIComponent (first_segment (after_prefix path RECOVERY_PREFIX)) with
    | Ok locator => AtRecovery locator
    | Throw _ => Nowhere
    end
  else Nowhere.

(** A request changes the world as its handler does, or not at all. *)
Lemma request_runs_its_target rq w r w' : worker_fetch host rq w = (r, w') →
  w' = w ∨
  match target rq with
  | AtMesh op route access => ∃ r', io_terminal host op (toUpperCase (rq_method rq)) route rq w = (r', w')
  | AtRecovery locator => handleRecoveryRequest host locator rq w = (r, w')
  | Nowhere => False
  end.
Proof.
  unfold worker_fetch, target. destruct (String.eqb (toUpperCase _) "OPTIONS"); [intros [= _ <-]; by left|]. cbn [orb].
  destruct (_ || _); [intros [= _ <-]; by left|].
  destruct (startsWith _ (NOTIFY_PREFIX +:+ "/")).
  { unfold mbind, M_bind, lift. destruct (decodeURIComponent _) as [prefix|e]; [|intros [= _ <-]; by left].
    unfold handleWsUpgrade. destruct (resolvePublicMeshRoute _ _ _ _ _) as [route|x]; [|intros [= _ <-]; by left].
    intros E. apply middleware_once in E as [->|(r' & E)]; [by left|]. left.
    revert E. repeat (case_match; [by intros [= _ <-]|]). by intros [= _ <-]. }
  destruct (startsWith _ (IO_PREFIX +:+ "/")).
  { unfold handleIoRequest, io_target, mbind, M_bind, lift. destruct (parseIo _) as [[prefix op]|e]; [|intros [= _ <-]; by left].
    destruct (ioRequestAccess _ _) as [access|]; [|intros [= _ <-]; by left].
    destruct (resolvePublicMeshRoute _ _ _ _ _) as [route|x]; [|intros [= _ <-]; by left].
    apply middleware_once. }
  destruct (startsWith _ (RECOVERY_PREFIX +:+ "/")); [|intros [= _ <-]; by left].
  unfold mbind, M_bind, lift. destruct (decodeURIComponent _) as [locator|e]; [by right|intros [= _ <-]; by left].
Qed.

(** ** Every request stays at its address *)
Lemma here_stored address f : (∀ m (k : string * string), k.1 ≠ address → f m !! k = m !! k) →
  keeps (elsewhere address) (modify (set_db (set_db_stored f))).
Proof.
  intros Hf s r s' [= _ <-]. split; [|cbn; destruct (sv_cache s); [by intros p q|done]].
  intros k Hk. cbn. by rewrite Hf.
Qed.
Lemma here_write_object t address path bytes ty : keeps (elsewhere address) (write_object host t address path bytes ty).
Proof. unfold write_object. keeps_walk ltac:(first [apply here_immutable|apply here_semantic|apply here_overwrite]). Qed.
Lemma terminal_here op method route rq :
  keeps (on_server (elsewhere (canonicalAddress route))) (io_terminal host op method route rq).
Proof.
  assert (∀ R `{!PreOrder R} o a p s out, keeps (on_server R) (audit (B := B) o a p s out)) as Ha.
  { intros. by apply keeps_log. }
  assert (∀ R `{!PreOrder R} a o p, keeps (on_server R) (broadcast (B := B) host a o p)) as Hb.
  { intros. unfold broadcast, when. destruct (ho_relay host); [by apply keeps_log|apply keeps_ret, _]. }
  unfold io_terminal, handleGetFile, handleWriteFile, handleDelete, handleMetadata, handleGetStoredFile, handlePutStoredFile,
    handleDeleteStoredFile, handleStoredFileMetadata, handleListFiles, handleListFolders, evictionRecordBytes, notify_write, stored_row.
  generalize (canonicalAddress route). intros address.
  keeps_walk ltac:(first [apply Ha, _|apply Hb, _|apply keeps_bodies, _
    |apply keeps_srv; first [apply here_get|apply here_write_object|apply here_list
        |apply here_remove|apply keeps_gets, _
        |apply here_stored; intros ? ? ?; first [rewrite lookup_alter_ne|rewrite lookup_insert_ne|rewrite lookup_delete_ne];
           [done|by intros <-]]]).
Qed.
Lemma recovery_here locator rq :
  keeps (on_server (elsewhere RECOVERY_STORAGE_PREFIX)) (handleRecoveryRequest (B := B) host locator rq).
Proof.
  unfold handleRecoveryRequest, audit.
  keeps_walk ltac:(first [apply keeps_log, _|apply keeps_srv; first [apply here_get|apply here_immutable]]).
Qed.

(** An admitted route is not the reserved one, and a gate has accepted it. *)
Definition admitted (route : MeshRouteIdentity) rq : Prop :=
  canonicalAddress route ≠ RECOVERY_STORAGE_PREFIX ∧
  ∃ gates gate, ho_gates host = Some gates ∧ Some gate ∈ gates ∧
    gate route rq (isValidChecksummedMesh (canonicalAddress route) (meshSecret (ho_limits host))) = Some true.
Lemma all_functions_spec {A} (l : list (option A)) r : all_functions l = Some r → l = Some <$> r.
Proof.
  revert r. induction l as [|[x|] l IH]; intros r; cbn; [by intros [= <-]| |done].
  destruct (all_functions l) as [rest|]; [|done]. intros [= <-]. by rewrite (IH rest).
Qed.
Lemma try_gates_accepts gates route rq sum : try_gates gates route rq sum = Some true →
  ∃ gate, gate ∈ gates ∧ gate route rq sum = Some true.
Proof.
  induction gates as [|gate gates IH]; [done|]. cbn [try_gates].
  destruct (gate route rq sum) as [[]|] eqn:E; [|intros (g & Hg & ?)%IH|done].
  - intros _. exists gate. split; [by left|done].
  - exists g. split; [by right|done].
Qed.
Lemma route_admitted presented rq surface access route :
  resolvePublicMeshRoute host presented rq surface access = inl route →
  presentedAddress route = presented ∧ admitted route rq.
Proof.
  assert (∀ canonical refusal, (if isReservedMeshStorageAddress canonical then inr refusal
      else admitMeshRoute host (mkRoute presented canonical) rq) = inl route →
    presentedAddress route = presented ∧ admitted route rq) as Hadmit.
  { intros canonical refusal. unfold isReservedMeshStorageAddress. destruct (String.eqb_spec canonical RECOVERY_STORAGE_PREFIX); [done|].
    unfold admitMeshRoute. destruct (ho_gates host) as [l|] eqn:El; [|done]. cbn [mbind option_bind].
    destruct (all_functions l) as [gates|] eqn:Eg; [|done].
    destruct (try_gates _ _ _ _) as [[]|] eqn:Et; [|done..]. intros [= <-]. split; [done|]. split; [done|].
    apply try_gates_accepts in Et as (gate & Hin & Hgate). exists l, gate. split; [done|]. split; [|done].
    rewrite (all_functions_spec _ _ Eg). apply list_elem_of_fmap. by exists gate. }
  unfold resolvePublicMeshRoute. destruct (ho_resolver host); [apply Hadmit|done|].
  destruct (f _ _ _ _); [done|done|]. destruct (negb _); [done|]. apply Hadmit.
Qed.

(** C10: Meshes on one server do not reach each other.  Whatever the middleware and the application's callbacks do,
    a request changes nothing, or only rows and cached answers of one storage address: the reserved one
    for a recovery request, and otherwise one that is not reserved and that a configured gate has accepted for this very request. *)
Theorem requests_stay_at_their_address rq w r w' : worker_fetch host rq w = (r, w') →
  match target rq with
  | Nowhere => w' = w
  | AtRecovery _ => elsewhere RECOVERY_STORAGE_PREFIX (w_server w) (w_server w')
  | AtMesh _ route _ => admitted route rq ∧ elsewhere (canonicalAddress route) (w_server w) (w_server w')
  end.
Proof.
  intros E. pose proof (request_runs_its_target rq w r w' E) as Hrun.
  destruct (target rq) as [op route access|locator|] eqn:Et.
  - split.
    + unfold target in Et. repeat (case_match; try done). unfold io_target in Et.
      repeat (case_match; try done). simplify_eq. by eapply route_admitted.
    + destruct Hrun as [->|(x & Hx)]; [reflexivity|]. by eapply (terminal_here op _ route rq).
  - destruct Hrun as [->|Hx]; [reflexivity|]. by eapply recovery_here.
  - by destruct Hrun as [->|[]].
Qed.

(** ** Stored objects *)
Definition same_files (s s' : Server) : Prop := files s' = files s.
#[export] Instance same_files_preorder : PreOrder same_files.
Proof. split; unfold same_files; [by intros s|intros a b c; congruence]. Qed.
Lemma same_files_get t prefix path ty : keeps same_files (opGetFile t prefix path ty).
Proof.
  unfold opGetFile. keeps_walk ltac:(first [by intros s r s' [= _ <-]|
    intros s r s' E; destruct (apply_delta_spec t prefix (meshRootForPath (normalizePath path) ty) no_delta true false s)
      as (s1 & E1 & Hf & _); rewrite E1 in E; by injection E as _ <-]).
Qed.
Lemma same_files_list t prefix path : keeps same_files (opListChildren t prefix path).
Proof. intros s r s'. destruct (list_spec t prefix path s) as (s1 & -> & E & _). intros [= _ <-]. unfold same_files. by rewrite E. Qed.

(** The write of an object. *)
Lemma write_object_files t prefix path bytes s r s' :
  let n := normalizePath path in
  let ty := classifyPath path in
  write_object host t prefix path bytes ty s = (r, s') →
  files s' = files s ∨
  files s' = <[(prefix, n) := written_row t bytes]> (files s) ∧
    (files s !! (prefix, n) = None ∨ ty = DEVICE_HEARTBEAT ∨
     ty ∈ [MANIFEST_POINTER; HEAD] ∧ semantic_refused (ho_number host) ty (files s !! (prefix, n)) bytes = false).
Proof.
  intros n ty. unfold write_object. case_bool_decide as Hty; [|case_bool_decide as Hb].
  - rewrite put_semantic_eq. fold n.
    pose proof (semantic_write_spec (ho_number host) t prefix n bytes ty (meshRootForPath path ty) (files s !! (prefix, n)) s) as Hs.
    destruct (semantic_refused _ _ _ _) eqn:Er.
    + rewrite Hs. intros [= _ <-]. by left.
    + destruct Hs as (s1 & -> & Hf & _). intros [= _ <-]. right. split; [done|]. by right; right.
  - destruct (put_overwrite_spec t prefix path bytes s) as (s1 & -> & Hf & _). intros [= _ <-]. right. split; [done|]. by right; left.
  - destruct (put_immutable_spec t prefix path bytes ty (meshRootForPath path ty) s) as (s1 & -> & Hf & _). intros [= _ <-].
    rewrite Hf. case_bool_decide as He; [right; split; [done|by left]|by left].
Qed.

(** Where a request writes, within the limit of the class of the path, and what it deletes. *)
Definition writes_at (t : Target) rq (k : string * string) (bytes : list Z) : Prop :=
  rq_bytes rq = Some bytes ∧
  match t with
  | AtMesh op route _ =>
      op = "file" ∧ toUpperCase (rq_method rq) = "PUT" ∧ k = (canonicalAddress route, query_path rq) ∧
      classifyPath k.2 ≠ EVICTION_RECORD ∧
      (Z.of_nat (length bytes) ≤ fileSizeLimitForPathType (classifyPath k.2) (ho_limits host))%Z
  | AtRecovery locator =>
      rq_method rq = "PUT" ∧ RECOVERY_LOCATOR_RE locator = true ∧
      k = (RECOVERY_STORAGE_PREFIX, normalizePath (recovery_path locator)) ∧
      (Z.of_nat (length bytes) ≤ maxControlBytes (ho_limits host))%Z
  | Nowhere => False
  end.
Definition deletes_at (t : Target) rq (k : string * string) : Prop :=
  match t with
  | AtMesh op route _ =>
      op = "file" ∧ toUpperCase (rq_method rq) = "DELETE" ∧
      (if String.eqb (query_path rq) "/" then in_prefix (canonicalAddress route) k
       else in_subtree (canonicalAddress route) (query_path rq) k) = true
  | _ => False
  end.

(** What may happen to an object at [k] in one request. *)
Inductive object_step (t : Target) rq (k : string * string) : option FileRow → option FileRow → Prop :=
  | untouched o : object_step t rq k o o
  | created bytes : writes_at t rq k bytes → object_step t rq k None (Some (written_row (rq_tick rq) bytes))
  | refreshed row bytes : writes_at t rq k bytes → classifyPath k.2 = DEVICE_HEARTBEAT →
      object_step t rq k (Some row) (Some (written_row (rq_tick rq) bytes))
  | advanced row bytes : writes_at t rq k bytes → classifyPath k.2 ∈ [MANIFEST_POINTER; HEAD] →
      semantic_refused (ho_number host) (classifyPath k.2) (Some row) bytes = false →
      object_step t rq k (Some row) (Some (written_row (rq_tick rq) bytes))
  | removed row : deletes_at t rq k → object_step t rq k (Some row) None.

Ltac side_effects :=
  first [by apply keeps_log, _|apply keeps_bodies, _
    |unfold broadcast, when; destruct (ho_relay host); [by apply keeps_log, _|apply keeps_ret, _]].
(** What follows an operation only writes the log. *)
Lemma srv_then {A} (m : M Server A) (k : A → M (World B) Response) w r w' :
  (∀ a, keeps (on_server eq) (k a)) → (a ← srv m; k a) w = (r, w') → ∃ x, m (w_server w) = (x, w_server w').
Proof.
  intros Hk. unfold mbind, M_bind, srv. destruct (m (w_server w)) as [[a|e] s1].
  - intros E. apply Hk in E. unfold on_server in E. cbn in E. rewrite <- E. by exists (Ok a).
  - intros [= _ <-]. by exists (Throw e).
Qed.
Lemma put_files route path rq w r w' : handleWriteFile host (canonicalAddress route) path rq w = (r, w') →
  w_server w' = w_server w ∨
  ∃ bytes x, rq_bytes rq = Some bytes ∧ classifyPath path ≠ EVICTION_RECORD ∧
    (Z.of_nat (length bytes) ≤ fileSizeLimitForPathType (classifyPath path) (ho_limits host))%Z ∧
    write_object host (rq_tick rq) (canonicalAddress route) path bytes (classifyPath path) (w_server w) = (x, w_server w').
Proof.
  unfold handleWriteFile. destruct (rq_bytes rq) as [bytes|]; [|intros [= _ <-]; by left].
  case_bool_decide; [intros [= _ <-]; by left|]. case_match eqn:El; [intros [= _ <-]; by left|]. apply Z.ltb_ge in El.
  intros E. right. exists bytes. apply srv_then in E as [x Ex]; [by exists x|].
  intros x. unfold notify_write, audit. keeps_walk side_effects.
Qed.
Lemma delete_files route path rq w r w' : handleDelete host (canonicalAddress route) path rq w = (r, w') →
  files (w_server w') = files (w_server w) ∨
  files (w_server w') = delete_where (if String.eqb (normalizePath path) "/" then in_prefix (canonicalAddress route)
    else in_subtree (canonicalAddress route) (normalizePath path)) (files (w_server w)).
Proof.
  unfold handleDelete. case_bool_decide; [intros [= _ <-]; by left|]. intros E. right.
  apply srv_then in E as [x Ex]; [|intros x; unfold audit; keeps_walk side_effects].
  destruct (delete_path_spec (rq_tick rq) (canonicalAddress route) path (meshRootForPath path (classifyPath path)) (w_server w))
    as (y & s1 & Es & Hf & _). rewrite Es in Ex. injection Ex as _ <-. exact Hf.
Qed.

(** From a run to the relation its computation keeps. *)
Ltac by_keeping R :=
  match goal with |- ?m ?w = (_, _) → _ =>
    let H := fresh in assert (keeps (on_server R) m) as H; [|exact (H w _ _)] end.
Lemma terminal_files op method route rq w r w' : io_terminal host op method route rq w = (r, w') →
  files (w_server w') = files (w_server w) ∨
  op = "file" ∧ method = "PUT" ∧ handleWriteFile host (canonicalAddress route) (query_path rq) rq w = (r, w') ∨
  op = "file" ∧ method = "DELETE" ∧ handleDelete host (canonicalAddress route) (query_path rq) rq w = (r, w').
Proof.
  unfold io_terminal. generalize (canonicalAddress route). intros address.
  destruct (String.eqb op "health" && String.eqb method "GET"); [intros [= _ <-]; by left|].
  destruct (String.eqb op "file" && String.eqb method "GET").
  { intros E. left. revert E. by_keeping same_files.
    unfold handleGetFile, evictionRecordBytes, audit.
    keeps_walk ltac:(first [side_effects|apply keeps_srv; first [apply same_files_get|apply keeps_gets, _]]). }
  destruct (String.eqb op "file" && String.eqb method "PUT") eqn:Ep.
  { apply andb_true_iff in Ep as [->%String.eqb_eq ->%String.eqb_eq]. intros E. by right; left. }
  destruct (String.eqb op "file" && String.eqb method "DELETE") eqn:Ed.
  { apply andb_true_iff in Ed as [->%String.eqb_eq ->%String.eqb_eq]. intros E. by right; right. }
  intros E. left. revert E. by_keeping same_files.
  unfold handleMetadata, handleGetStoredFile, handlePutStoredFile, evictionRecordBytes,
    handleDeleteStoredFile, handleStoredFileMetadata, handleListFiles, handleListFolders, stored_row, audit.
  keeps_walk ltac:(first [side_effects|apply keeps_srv; first [apply same_files_get|apply same_files_list|apply keeps_gets, _
    |by intros ? ? ? [= _ <-]]]).
Qed.
Lemma query_path_normal rq : normalizePath (query_path rq) = query_path rq.
Proof. unfold query_path. apply normal_path_fixed, normalizePath_normal. Qed.
Lemma object_written t rq k bytes old : writes_at t rq k bytes →
  (old = None ∨ classifyPath k.2 = DEVICE_HEARTBEAT ∨
   classifyPath k.2 ∈ [MANIFEST_POINTER; HEAD] ∧ semantic_refused (ho_number host) (classifyPath k.2) old bytes = false) →
  object_step t rq k old (Some (written_row (rq_tick rq) bytes)).
Proof.
  intros Hw Hc. destruct old as [row|]; [|by constructor].
  destruct Hc as [[=]|[Hb|[Hp Hs]]]; [by apply refreshed|by apply advanced].
Qed.

(** C11: Stored objects are written once.  In one request to the server, an object either stays as it is, appears, or
    disappears in a deletion that covers its path.  Its content is replaced only when the path is a
    device record, or a pointer or head and the incoming one is not behind the stored one; changes,
    snapshots and manifests keep their bytes for as long as they exist.  What is written is the body of a PUT on that very
    path, within the limit of its class, and never an eviction record. *)
Theorem objects_are_written_once rq w r w' : worker_fetch host rq w = (r, w') →
  ∀ k : string * string, object_step (target rq) rq k (files (w_server w) !! k) (files (w_server w') !! k).
Proof.
  intros E k. apply request_runs_its_target in E. destruct (target rq) as [op route access|locator|] eqn:Et.
  - destruct E as [->|(x & E)]; [by constructor|].
    apply terminal_files in E as [->|[(Hop & Hm & E)|(Hop & Hm & E)]]; [by constructor|..].
    + apply put_files in E as [->|(bytes & y & Hb & He & Hl & E)]; [by constructor|].
      apply write_object_files in E as [->|[-> Hc]]; [by constructor|]. rewrite query_path_normal in Hc |- *.
      destruct (decide (k = (canonicalAddress route, query_path rq))) as [->|Hne];
        [rewrite lookup_insert_eq|rewrite lookup_insert_ne by done; by constructor].
      by apply object_written.
    + apply delete_files in E as [->| ->]; [by constructor|]. rewrite query_path_normal, delete_where_lookup.
      set (P := if String.eqb (query_path rq) "/" then _ else _). destruct (P k) eqn:EP; [|by constructor].
      destruct (files (w_server w) !! k); [|by constructor]. apply removed. split_and!; try done.
      unfold P in EP. by destruct (String.eqb (query_path rq) "/").
  - destruct E as [->|E]; [by constructor|]. revert E. unfold handleRecoveryRequest.
    destruct (RECOVERY_LOCATOR_RE locator) eqn:El; [|intros [= _ <-]; by constructor]. cbn [negb].
    destruct (String.eqb (rq_method rq) "GET").
    { intros E. assert (same_files (w_server w) (w_server w')) as ->; [|by constructor].
      revert E. by_keeping same_files. unfold audit.
      keeps_walk ltac:(first [side_effects|apply keeps_srv, same_files_get]). }
    destruct (String.eqb_spec (rq_method rq) "PUT") as [Hm|_]; [|intros [= _ <-]; by constructor].
    destruct (rq_bytes rq) as [bytes|] eqn:Eb; [|intros [= _ <-]; by constructor].
    case_match eqn:Elim; [intros [= _ <-]; by constructor|]. apply Z.ltb_ge in Elim. intros E.
    apply srv_then in E as [x Ex]; [|intros y; unfold audit; keeps_walk side_effects].
    destruct (put_immutable_spec (rq_tick rq) RECOVERY_STORAGE_PREFIX (recovery_path locator) bytes OTHER None (w_server w))
      as (s1 & Es & Hf & _). rewrite Es in Ex. injection Ex as _ <-. rewrite Hf.
    case_bool_decide as Hn; [|by constructor].
    destruct (decide (k = (RECOVERY_STORAGE_PREFIX, normalizePath (recovery_path locator)))) as [->|Hne];
      [rewrite lookup_insert_eq, Hn|rewrite lookup_insert_ne by done; by constructor].
    by apply created.
  - destruct E as [->|[]]. by constructor.
Qed.
End world.

(** ** The body store ([FileBodyStore] in [types.ts])

    [get] gives the exact body, [put] replaces it whole or rejects, [delete] removes it; other keys keep
    their bodies. *)
Class BodyStoreLaws (B : Type) `{!FileBodyStore B} := {
  body_at : B → string → option (list Z);
  body_get_law key b r b' : body_get key b = (r, b') →
    (∀ k, body_at b' k = body_at b k) ∧ (∀ o, r = Ok o → o = body_at b key);
  body_put_law key bytes b r b' : body_put key bytes b = (r, b') →
    (∀ k, k ≠ key → body_at b' k = body_at b k) ∧
    (r = Ok () ∧ body_at b' key = Some bytes ∨
     is_ok r = false ∧ (body_at b' key = body_at b key ∨ body_at b' key = Some bytes));
  body_delete_law key b r b' : body_delete key b = (r, b') →
    (∀ k, k ≠ key → body_at b' k = body_at b k) ∧
    (r = Ok () ∧ body_at b' key = None ∨ is_ok r = false ∧ (body_at b' key = body_at b key ∨ body_at b' key = None)) }.

(** A store that keeps the bodies in a map. *)
#[export] Instance map_bodies : FileBodyStore (gmap string (list Z)) := {
  body_get key := gets (λ b, b !! key);
  body_put key bytes := modify <[key := bytes]>;
  body_delete key := modify (delete key) }.
#[export, program] Instance map_bodies_laws : BodyStoreLaws (gmap string (list Z)) := { body_at b k := b !! k }.
Next Obligation. intros key b r b' [= <- <-]. split; [done|]. by intros o [= <-]. Qed.
Next Obligation.
  intros key bytes b r b' [= <- <-]. split; [intros k Hk; by rewrite lookup_insert_ne|]. left. by rewrite lookup_insert_eq.
Qed.
Next Obligation.
  intros key b r b' [= <- <-]. split; [intros k Hk; by rewrite lookup_delete_ne|]. left. by rewrite lookup_delete_eq.
Qed.

Section reading.
Context `{WebCrypto} `{IsoClock} {B : Type} `{!FileBodyStore B} `{!BodyStoreLaws B} (host : Host).
Implicit Types (w : World B) (rq : Request).

(** What a reader leaves alone: objects, folders, stored files up to their use, bodies, and when a root was
    last written or deleted. *)
Definition unused (r : StoredFileRow) : StoredFileRow :=
  mkStoredRow (st_body_key r) (st_size r) (st_seal_guard r) (st_uploaded_by r) (st_uploaded_at r)
    (st_modified_time r) None 0 (st_etag r).
Definition written_side (r : MeshPath) : string * option string * option string :=
  (mp_created_at r, mp_last_write_at r, mp_deleted_at r).
Definition only_read (s s' : Server) : Prop :=
  files s' = files s ∧ folders s' = folders s ∧ (∀ k, unused <$> stored s' !! k = unused <$> stored s !! k) ∧
  ∀ k r, meshes s !! k = Some r → ∃ r', meshes s' !! k = Some r' ∧ written_side r' = written_side r.
Definition only_read_world w w' : Prop :=
  only_read (w_server w) (w_server w') ∧ ∀ key, body_at (w_bodies w') key = body_at (w_bodies w) key.
#[export] Instance only_read_preorder : PreOrder only_read.
Proof.
  split; [intros s; split_and!; eauto|].
  intros a b c (F1 & D1 & S1 & M1) (F2 & D2 & S2 & M2). split_and!; [congruence|congruence| |].
  - intros k. by rewrite S2.
  - intros k r Hr. destruct (M1 k r Hr) as (r1 & Hr1 & <-). by apply M2.
Qed.
#[export] Instance only_read_world_preorder : PreOrder only_read_world.
Proof.
  split; [intros w; by split; [reflexivity|]|]. intros a b c [H1 B1] [H2 B2]. split; [by etransitivity|].
  intros key. by rewrite B2.
Qed.
Lemma reads_srv {A} (m : M Server A) : keeps only_read m → keeps only_read_world (srv m).
Proof. intros Hm w r w'. unfold srv. destruct (m (w_server w)) eqn:E. intros [= _ <-]. split; [by eapply Hm|done]. Qed.
Lemma reads_log e : keeps only_read_world (log e).
Proof. by intros w r w' [= _ <-]. Qed.
Lemma reads_body key : keeps only_read_world (bodies (body_get key)).
Proof.
  intros w r w'. unfold bodies. destruct (body_get key (w_bodies w)) eqn:E. intros [= _ <-].
  apply body_get_law in E as [E _]. by split; [reflexivity|].
Qed.
Lemma reads_cache f : keeps only_read (modify (set_cache f)).
Proof. intros s r s' [= _ <-]. split_and!; [done..|]. intros k x Hx. by exists x. Qed.
Lemma reads_delta t prefix root : keeps only_read (apply_delta t prefix root no_delta true false).
Proof.
  intros s r s' E. destruct (apply_delta_spec t prefix root no_delta true false s) as (s1 & E1 & Hf & Hs & Hd & _ & Hm).
  rewrite E1 in E. injection E as _ <-. split_and!; [done..| |]; [by rewrite Hs|]. intros k r' Hr. rewrite Hm. unfold mesh_delta.
  destruct (opt_truthy root) as [x|]; [|by exists r'].
  destruct (decide (k = (prefix, x))) as [->|Hne]; [rewrite lookup_insert_eq|rewrite lookup_insert_ne by done; by exists r'].
  rewrite Hr. by eexists.
Qed.
Lemma reads_get t prefix path ty : keeps only_read (opGetFile t prefix path ty).
Proof. unfold opGetFile. keeps_walk ltac:(first [apply reads_delta|apply reads_cache]). Qed.
Lemma reads_list t prefix path : keeps only_read (opListChildren t prefix path).
Proof. unfold opListChildren. keeps_walk ltac:(apply reads_cache). Qed.
Lemma reads_use now k : keeps only_read (modify (set_db (set_db_stored (alter (used_row now) k)))).
Proof.
  intros s r s' [= _ <-]. split_and!; [done..| |intros i x Hx; by exists x]. intros i. cbn.
  destruct (decide (i = k)) as [->|Hne]; [rewrite lookup_alter_eq|by rewrite lookup_alter_ne]. by destruct (_ !! k).
Qed.

(** The operations of read access only read. *)
Lemma terminal_reads op method route rq : ioRequestAccess op method = Some ARead →
  keeps only_read_world (io_terminal host op method route rq).
Proof.
  intros Ha.
  assert (∀ o m, (o = "file" ∨ o = "stored-file") → (m = "PUT" ∨ m = "DELETE") → String.eqb op o && String.eqb method m = false) as Hno.
  { intros o m Ho Hm. apply not_true_iff_false. intros [->%String.eqb_eq ->%String.eqb_eq]%andb_true_iff.
    destruct Ho as [->| ->], Hm as [->| ->]; discriminate Ha. }
  unfold io_terminal. cbv zeta.
  rewrite (Hno "file" "PUT"), (Hno "file" "DELETE"), (Hno "stored-file" "PUT"), (Hno "stored-file" "DELETE") by auto. generalize (canonicalAddress route). intros address.
  unfold handleGetFile, handleMetadata, handleGetStoredFile, evictionRecordBytes, handleStoredFileMetadata,
    handleListFiles, handleListFolders, stored_row, audit.
  keeps_walk ltac:(first [apply reads_log|apply reads_body
    |apply reads_srv; first [apply reads_get|apply reads_list|apply reads_use|apply keeps_gets, _]]).
Qed.

(** A layer that answers by itself keeps the handler from running. *)
Lemma answered_by_layer layers layer context (terminal : M (World B) Response) x w r w' :
  layer ∈ layers → layer context = LDone x → invoke layers context terminal w = (r, w') → w' = w.
Proof.
  intros Hin Hx. revert r w'. induction layers as [|l layers IH]; intros r w'; [by apply not_elem_of_nil in Hin|].
  cbn [invoke]. apply elem_of_cons in Hin as [->|Hin].
  - rewrite Hx. destruct x; cbn [run_layer]; by intros [= _ <-].
  - intros E. apply run_layer_once in E as [->|(_ & y & E)]; [done|]. by apply IH in E.
Qed.
Lemma stopped_by_layer layer context (terminal : M (World B) Response) x w r w' layers :
  ho_middleware host = Some layers → Some layer ∈ layers → layer context = LDone x →
  runMeshMiddleware host context terminal w = (r, w') → w' = w.
Proof.
  intros Hl Hin Hx. unfold runMeshMiddleware. rewrite Hl. cbn [mbind option_bind].
  destruct (all_functions layers) as [fs|] eqn:Ef; [|by intros [= _ <-]]. apply all_functions_spec in Ef. subst layers.
  apply list_elem_of_fmap in Hin as (l & [= <-] & Hin). by eapply answered_by_layer.
Qed.

Lemma mesh_request rq op route access w : target host rq = AtMesh op route access →
  ioRequestAccess op (toUpperCase (rq_method rq)) = Some access ∧
  worker_fetch (B := B) host rq w =
    runMeshMiddleware host (mkContext route rq Io access) (io_terminal host op (toUpperCase (rq_method rq)) route rq) w.
Proof.
  unfold target, worker_fetch. destruct (String.eqb _ "OPTIONS"); [done|]. cbn [orb].
  destruct (String.eqb (rq_pathname rq) "/" || _); [done|].
  destruct (startsWith _ (NOTIFY_PREFIX +:+ "/")); [done|].
  destruct (startsWith _ (IO_PREFIX +:+ "/")); [|repeat (case_match; try done)].
  unfold io_target, handleIoRequest, mbind, M_bind, lift. destruct (parseIo _) as [[prefix o]|e]; [|done].
  destruct (ioRequestAccess o _) as [a|] eqn:Ea; [|done].
  destruct (resolvePublicMeshRoute _ _ _ _ _) as [x|x]; [|done]. intros [= -> -> ->]. done.
Qed.

(** C13: A principal who may only read changes nothing.  With the authorization middleware anywhere among
    the layers, a request that the authorizer calls read-only changes no object, no folder, no body of a stored file and no
    stored-file row beyond its use counter, and does not count as a write that would hold the mesh alive; if
    it asks to write, nothing happens at all.  Nor does it when the authorizer denies, throws or
    answers anything undocumented. *)
Theorem readers_change_nothing (authorizer : MeshRequestContext → option MeshAuthorization) (conceal : bool)
    (layers : list (option Layer)) rq op route access w r w' :
  ho_middleware host = Some layers → Some (createMeshAuthorizationMiddleware authorizer conceal) ∈ layers →
  target host rq = AtMesh op route access → worker_fetch host rq w = (r, w') →
  match authorizer (mkContext route rq Io access) with
  | Some AuthReadonly => only_read_world w w' ∧ (access = AWrite → w' = w)
  | Some AuthDeny | None => w' = w
  | Some AuthNone | Some AuthFull => True
  end.
Proof.
  intros Hl Hin Ht E. destruct (mesh_request rq op route access w Ht) as [Ha Ew]. rewrite Ew in E. clear Ew.
  assert (∀ x, createMeshAuthorizationMiddleware authorizer conceal (mkContext route rq Io access) = LDone x → w' = w) as Hstop.
  { intros x Hx. by eapply stopped_by_layer. }
  unfold createMeshAuthorizationMiddleware in Hstop. cbn [cx_access] in Hstop.
  destruct (authorizer _) as [[]|]; try done; try by eapply Hstop.
  case_bool_decide as Hacc; [rewrite (Hstop _ eq_refl); by split; [reflexivity|]|]. split; [|done].
  apply middleware_once in E as [->|(x & E)]; [reflexivity|].
  destruct access; [|done]. by eapply terminal_reads.
Qed.
End reading.

(** ** Witnesses *)
Section witness.
#[local] Existing Instance toy_crypto.
#[local] Existing Instance digit_clock.

(** A host with one open gate, and its mesh [m] with a manifest pointer and a change. *)
Definition open_gate : Gate := λ _ _ _, Some true.
Definition plain_host (layers : list (option Layer)) : Host :=
  mkHost (resolveRuntimeConfig (mkRuntime None None None None None None None true None)) NoResolver
    (Some [Some open_gate]) (Some layers) NoAuthorizer false true (λ _, NaN).
Definition io_request (method op path : string) (bytes : list Z) : Request :=
  mkRequest method ("/io/m/" +:+ op) (Some path) (λ _, None) (Some bytes) (VObj []) (mkTick 5 "t") "u" [].
Definition test_world : World (gmap string (list Z)) :=
  mkWorld (mkServer (mkDb {[("m", "/a/changes/1-chg_x.json") := row_of [1%Z]; ("n", "/a/x") := row_of [2%Z]]} ∅ ∅ ∅) None) ∅ [].
Definition read_only_layer : Layer := createMeshAuthorizationMiddleware (λ _, Some AuthReadonly) false.

Lemma requests_stay_at_their_address_witness :
  let rq := io_request "DELETE" "file" "/" [] in
  let w' := (worker_fetch (plain_host []) rq test_world).2 in
  files (w_server w') !! ("m", "/a/changes/1-chg_x.json") = None ∧
  files (w_server w') !! ("n", "/a/x") = Some (row_of [2%Z]).
Proof.
  split; [by vm_compute|]. destruct (worker_fetch _ _ _) as [r w'] eqn:E. cbn [snd].
  apply requests_stay_at_their_address in E.
  assert (target (plain_host []) (io_request "DELETE" "file" "/" []) = AtMesh "file" (mkRoute "m" "m") AWrite) as Et by by vm_compute.
  rewrite Et in E. destruct E as [_ [Hs _]]. destruct (Hs ("n", "/a/x") ltac:(done)) as [-> _]. by vm_compute.
Defined.
Lemma objects_are_written_once_witness :
  let rq := io_request "PUT" "file" "/a/changes/1-chg_x.json" [9%Z] in
  let w' := (worker_fetch (plain_host []) rq test_world).2 in
  files (w_server w') !! ("m", "/a/changes/1-chg_x.json") = Some (row_of [1%Z]).
Proof.
  cbv zeta. destruct (worker_fetch _ _ _) as [r w'] eqn:E0. cbn [snd].
  pose proof (objects_are_written_once _ _ _ _ _ E0 ("m", "/a/changes/1-chg_x.json")) as Hs. clear E0.
  assert (files (w_server test_world) !! ("m", "/a/changes/1-chg_x.json") = Some (row_of [1%Z])) as E by by vm_compute.
  rewrite E in Hs.
  assert (classifyPath ("m", "/a/changes/1-chg_x.json").2 = CHANGE_FILE) as Ec by by vm_compute.
  inversion Hs as [|?|? ? ? Hc|? ? ? Hc ?|? Hd]; [done|by rewrite Ec in Hc| |].
  - exfalso. rewrite Ec in Hc. set_solver.
  - exfalso. destruct Hd as (_ & Hm & _). by vm_compute in Hm.
Defined.
Lemma readers_change_nothing_witness :
  let rq := io_request "PUT" "file" "/a/mainline/s" [9%Z] in
  (worker_fetch (plain_host [Some read_only_layer]) rq test_world).2 = test_world.
Proof.
  cbv zeta. destruct (worker_fetch _ _ _) as [r w'] eqn:E. cbn [snd].
  apply (readers_change_nothing (plain_host [Some read_only_layer]) (λ _, Some AuthReadonly) false
    [Some read_only_layer] (io_request "PUT" "file" "/a/mainline/s" [9%Z]) "file" (mkRoute "m" "m") AWrite) in E as [_ Hw];
    [by apply Hw|done|by left|by vm_compute].
Defined.
End witness.
