(* ===== verification/Quota.v ===== *)
(** * Stored files on the server
    ([packages/workers/src/worker.ts], the handlers of [stored-file])

    The rows of the table [stored_files] and the bodies in the store together are a map from
    addresses and paths to bytes, [stored_body]; every request changes it as an upload or a
    deletion of one guarded path, or not at all, and keeps each mesh within its quota. *)

From S2P Require Import Prelude JsString Values Octets Encryption StoredFile Ids Routes RowStore Worker Requests.
From Stdlib Require Import Ascii.
From Stdlib Require String.

Open Scope stdpp_scope.

Section quota.
Context `{WebCrypto} `{IsoClock} {B : Type} `{!FileBodyStore B} (host : Host).
Implicit Types (w : World B) (rq : Request).

(** ** What the handlers do *)
Definition guard_ok rq (row : option StoredFileRow) (guard : option string) : Prop :=
  presentedSealGuard rq = inl guard ∧ sealGuardMatches (row ≫= st_seal_guard) guard = true.
Definition body_key (k : string * string) (row : option StoredFileRow) : string :=
  default (storedFileKey k.1 k.2) (opt_truthy (st_body_key <$> row)).
Definition usage (address : string) w : Z := (currentStoredUsage address (sv_db (w_server w))).1.
Definition replaced (row : option StoredFileRow) : Z := from_option st_size 0%Z row.

(** What a handler answers: an error status, or one that says it is done. *)
Definition refused (r : result Response) : Prop := ∃ x, r = Ok x ∧ (400 ≤ rs_status x)%Z.
Definition accepted (r : result Response) : Prop := ∃ x, r = Ok x ∧ (rs_status x < 400)%Z.
Lemma rejection_status answer reason status : normalizeAuthorization answer = Ok (false, reason, status) → (400 ≤ status)%Z.
Proof.
  unfold normalizeAuthorization. intros E. destruct answer as [| |b| | | | |]; try done.
  { destruct b; [discriminate|]. injection E as _ <-. done. }
  destruct (field "allowed" _) as [| |allowed| | | | |]; try done.
  destruct (match field "reason" _ with VUndefined => _ | _ => _ end) as [reason'|]; [|done]. cbn [mbind result_bind] in E.
  destruct (field "status" _) as [| | |[|n]| | | |]; try done.
  { injection E as -> _ <-. done. }
  destruct ((400 <=? n)%Z && (n <=? 599)%Z) eqn:En; [|done]. injection E as _ _ <-. apply andb_true_iff in En as [En%Z.leb_le _]. done.
Qed.
Lemma upload_refusal t prefix request used db x : authorize_upload host t prefix request used db = Some x → (400 ≤ rs_status x)%Z.
Proof.
  unfold authorize_upload. destruct (ho_authorizer host) as [| |f]; [done|by intros [= <-]|].
  destruct (f _ _) as [answer|]; [|by intros [= <-]].
  destruct (normalizeAuthorization answer) as [[[[] reason] status]|] eqn:E; [done| |by intros [= <-]].
  intros [= <-]. by apply rejection_status in E.
Qed.
Lemma guard_refusal rq x : presentedSealGuard rq = inr x → (400 ≤ rs_status x)%Z.
Proof. unfold presentedSealGuard. destruct (negb _); [done|]. destruct (_ && _); [done|]. by intros [= <-]. Qed.
Lemma put_stored_spec route path rq w r w' :
  let k := (canonicalAddress route, normalizePath path) in
  let row := stored (w_server w) !! k in
  handlePutStoredFile host route path rq w = (r, w') →
  w' = w ∧ refused r ∨
  ∃ bytes guard device,
    rq_bytes rq = Some bytes ∧ guard_ok rq row guard ∧
    (Z.of_nat (length bytes) ≤ maxStoredFileBytes (ho_limits host))%Z ∧
    (usage k.1 w - replaced row + Z.of_nat (length bytes) ≤ maxMeshStoredBytes (ho_limits host))%Z ∧
    (w_server w' = w_server w ∧ (∃ e, r = Throw e ∧ body_put (body_key k row) bytes (w_bodies w) = (Throw e, w_bodies w')) ∨
     accepted r ∧ body_put (body_key k row) bytes (w_bodies w) = (Ok (), w_bodies w') ∧
     w_server w' = set_db (set_db_stored <[k := uploaded_row (nowIso (rq_tick rq)) (body_key k row)
       (Z.of_nat (length bytes)) guard device (rq_uuid rq)]>) (w_server w)).
Proof.
  intros k row. unfold handlePutStoredFile.
  assert (∀ x, (400 ≤ rs_status x)%Z → (Ok x, w) = (r, w') → w' = w ∧ refused r) as Href.
  { intros x Hx [= <- <-]. split; [done|]. by exists x. }
  destruct (ho_files host); [|intros E; left; by refine (Href _ _ E)]. cbn [negb].
  destruct (rq_bytes rq) as [bytes|] eqn:Eb; [|intros E; left; by refine (Href _ _ E)].
  case_match eqn:El; [intros E; left; by refine (Href _ _ E)|]. apply Z.ltb_ge in El.
  case_match; [intros E; left; by refine (Href _ _ E)|].
  destruct (presentedSealGuard rq) as [guard|x] eqn:Eg; [|intros E; left; by apply (Href x (guard_refusal _ _ Eg) E)].
  unfold mbind at 1, M_bind, stored_row at 1, srv at 1, gets. cbn [fst snd].
  fold k row. replace (mkWorld (w_server w) (w_bodies w) (w_log w)) with w by by destruct w.
  destruct (sealGuardMatches _ guard) eqn:Em; cbn [negb]; [|intros E; left; by refine (Href _ _ E)].
  unfold mbind at 1, srv at 1. cbn [fst snd].
  replace (mkWorld (w_server w) (w_bodies w) (w_log w)) with w by by destruct w.
  case_match eqn:Eq; [intros E; left; by refine (Href _ _ E)|]. apply Z.ltb_ge in Eq.
  unfold mbind at 1, srv at 1. cbn [fst snd].
  replace (mkWorld (w_server w) (w_bodies w) (w_log w)) with w by by destruct w.
  destruct (authorize_upload _ _ _ _ _ _) as [x|] eqn:Ea; [intros E; left; by apply (Href x (upload_refusal _ _ _ _ _ _ Ea) E)|].
  match goal with |- context [body_put ?key bytes] => change key with (body_key k row) end.
  match goal with |- context [uploaded_row _ ?key _ guard ?d _] => change key with (body_key k row); set (device := d) end.
  unfold mbind at 1, M_bind, bodies. destruct (body_put (body_key k row) bytes (w_bodies w)) as [[[]|e] b] eqn:Ep; cbv beta iota.
  - intros E. right. exists bytes, guard, device. do 4 (split; [done|]). right.
    injection E as <- <-. split; [|done]. eexists. split; [done|]. by destruct row.
  - intros [= <- <-]. right. exists bytes, guard, device. do 4 (split; [done|]). left. split; [done|]. by exists e.
Qed.
Lemma delete_stored_spec route path rq w r w' :
  let k := (canonicalAddress route, normalizePath path) in
  let row := stored (w_server w) !! k in
  handleDeleteStoredFile host (canonicalAddress route) path rq w = (r, w') →
  w_server w' = w_server w ∧ w_bodies w' = w_bodies w ∧ refused r ∨
  ∃ x guard, row = Some x ∧ truthy (st_body_key x) = true ∧ guard_ok rq row guard ∧
    (w_server w' = w_server w ∧ (∃ e, r = Throw e ∧ body_delete (st_body_key x) (w_bodies w) = (Throw e, w_bodies w')) ∨
     accepted r ∧ body_delete (st_body_key x) (w_bodies w) = (Ok (), w_bodies w') ∧
     w_server w' = set_db (set_db_stored (delete k)) (w_server w)).
Proof.
  intros k row. unfold handleDeleteStoredFile.
  assert (∀ x, (400 ≤ rs_status x)%Z → (Ok x, w) = (r, w') → w_server w' = w_server w ∧ w_bodies w' = w_bodies w ∧ refused r) as Href.
  { intros x Hx [= <- <-]. split_and!; [done..|]. by exists x. }
  destruct (ho_files host); [|intros E; left; by refine (Href _ _ E)]. cbn [negb].
  unfold mbind at 1, M_bind, stored_row, srv, gets. cbn [fst snd]. fold k row.
  replace (mkWorld (w_server w) (w_bodies w) (w_log w)) with w by by destruct w.
  assert (∀ w1, w_server w1 = w_server w → w_bodies w1 = w_bodies w → (Ok (emptyResponse 404), w1) = (r, w') →
    w_server w' = w_server w ∧ w_bodies w' = w_bodies w ∧ refused r) as Hmiss.
  { intros w1 H1 H2 [= <- <-]. split_and!; [done..|]. by eexists. }
  destruct row as [x|] eqn:Er; cbn [mbind option_bind]; [|intros E; left; by refine (Hmiss _ _ _ E)].
  destruct (opt_truthy (Some (st_body_key x))) as [key|] eqn:Ek; [|intros E; left; by refine (Hmiss _ _ _ E)].
  assert (key = st_body_key x ∧ truthy (st_body_key x) = true) as [-> Ht].
  { cbn in Ek. destruct (truthy (st_body_key x)) eqn:Et; [|done]. by injection Ek as <-. }
  cbn [mbind option_bind]. destruct (presentedSealGuard rq) as [guard|y] eqn:Eg; [|intros E; left; by apply (Href y (guard_refusal _ _ Eg) E)].
  destruct (sealGuardMatches (st_seal_guard x) guard) eqn:Em; cbn [negb]; [|intros E; left; by refine (Href _ _ E)].
  unfold mbind at 1, M_bind, bodies. destruct (body_delete (st_body_key x) (w_bodies w)) as [[[]|e] b] eqn:Ep; cbv beta iota.
  - intros E. right. exists x, guard. do 3 (split; [done|]). right. injection E as <- <-. split; [|done]. by eexists.
  - intros [= <- <-]. right. exists x, guard. do 3 (split; [done|]). left. split; [done|]. by exists e.
Qed.

(** Only these two, and the use counter, touch the table. *)
Definition same_stored (s s' : Server) : Prop := stored s' = stored s.
#[export] Instance same_stored_preorder : PreOrder same_stored.
Proof. split; unfold same_stored; [by intros s|intros a b c; congruence]. Qed.
Lemma same_stored_get t prefix path ty : keeps same_stored (opGetFile t prefix path ty).
Proof. intros s r s'. destruct (get_file_spec t prefix path ty s) as (s1 & -> & _ & E & _). by intros [= _ <-]. Qed.
Lemma same_stored_list t prefix path : keeps same_stored (opListChildren t prefix path).
Proof. intros s r s'. destruct (list_spec t prefix path s) as (s1 & -> & E & _). intros [= _ <-]. unfold same_stored. by rewrite E. Qed.
Lemma same_stored_delete t prefix path root : keeps same_stored (opDeletePath t prefix path root).
Proof. intros s r s'. destruct (delete_path_spec t prefix path root s) as (d & s1 & -> & _ & _ & E & _). by intros [= _ <-]. Qed.
Lemma same_stored_immutable t prefix path bytes ty root : keeps same_stored (opPutImmutable t prefix path bytes ty root).
Proof. intros s r s'. destruct (put_immutable_spec t prefix path bytes ty root s) as (s1 & -> & _ & _ & E & _). by intros [= _ <-]. Qed.
Lemma same_stored_write t prefix path bytes ty : keeps same_stored (write_object host t prefix path bytes ty).
Proof.
  unfold write_object. case_bool_decide; [|case_bool_decide; [|apply same_stored_immutable]].
  - intros s r s'. rewrite put_semantic_eq.
    pose proof (semantic_write_spec (ho_number host) t prefix (normalizePath path) bytes ty (meshRootForPath path ty)
      (files s !! (prefix, normalizePath path)) s) as Hs.
    destruct (semantic_refused _ _ _ _); [rewrite Hs; by intros [= _ <-]|].
    destruct Hs as (s1 & -> & _ & _ & E & _). by intros [= _ <-].
  - intros s r s'. destruct (put_overwrite_spec t prefix path bytes s) as (s1 & -> & _ & _ & E & _). by intros [= _ <-].
Qed.
End quota.

Section stored_map.
Context `{WebCrypto} `{IsoClock} {B : Type} `{!FileBodyStore B} `{!BodyStoreLaws B} (host : Host).
Implicit Types (w : World B) (rq : Request) (k : string * string).

(** ** Requests *)
Definition kept w w' : Prop :=
  (∀ k, unused <$> stored (w_server w') !! k = unused <$> stored (w_server w) !! k) ∧
  ∀ key, body_at (w_bodies w') key = body_at (w_bodies w) key.
#[export] Instance kept_preorder : PreOrder kept.
Proof. split; [by intros w|]. intros a b c [S1 B1] [S2 B2]. split; intros; by rewrite ?S2, ?B2. Qed.
Lemma kept_log e : keeps kept (log e).
Proof. by intros w r w' [= _ <-]. Qed.
Lemma kept_srv {A} (m : M Server A) : keeps same_stored m → keeps kept (srv m).
Proof. intros Hm w r w'. unfold srv. destruct (m (w_server w)) eqn:E. intros [= _ <-]. apply Hm in E. split; [|done]. intros k. cbn. by rewrite E. Qed.
Lemma kept_read {A} (m : M Server A) : keeps only_read m → keeps kept (srv m).
Proof. intros Hm w r w'. unfold srv. destruct (m (w_server w)) eqn:E. intros [= _ <-]. apply Hm in E as (_ & _ & E & _). by split. Qed.
Lemma kept_body key : keeps kept (bodies (body_get key)).
Proof.
  intros w r w'. unfold bodies. destruct (body_get key (w_bodies w)) eqn:E. intros [= _ <-].
  apply body_get_law in E as [E _]. by split.
Qed.

Lemma terminal_stored op method route rq w r w' : io_terminal host op method route rq w = (r, w') →
  kept w w' ∨
  op = "stored-file" ∧ method = "PUT" ∧ handlePutStoredFile host route (query_path rq) rq w = (r, w') ∨
  op = "stored-file" ∧ method = "DELETE" ∧ handleDeleteStoredFile host (canonicalAddress route) (query_path rq) rq w = (r, w').
Proof.
  unfold io_terminal. cbv zeta.
  destruct (String.eqb op "stored-file" && String.eqb method "PUT") eqn:Ep.
  { apply andb_true_iff in Ep as [->%String.eqb_eq ->%String.eqb_eq]. intros E. by right; left. }
  destruct (String.eqb op "stored-file" && String.eqb method "DELETE") eqn:Ed.
  { apply andb_true_iff in Ed as [->%String.eqb_eq ->%String.eqb_eq]. intros E. by right; right. }
  intros E. left. revert E. generalize (canonicalAddress route). intros address.
  match goal with |- ?m w = _ → _ => enough (keeps kept m) as Hk by exact (Hk w r w') end.
  unfold handleGetFile, handleWriteFile, handleDelete, handleMetadata, handleGetStoredFile, handleStoredFileMetadata,
    handleListFiles, handleListFolders, evictionRecordBytes, notify_write, stored_row, audit, broadcast, when.
  keeps_walk ltac:(first [apply kept_log|apply kept_body|
    apply kept_srv; first [apply same_stored_get|apply same_stored_list|apply same_stored_write|apply same_stored_delete
      |apply keeps_gets, _]|apply kept_read, reads_use]).
Qed.
Lemma request_stored rq w r w' : worker_fetch host rq w = (r, w') →
  kept w w' ∨
  ∃ route access x, target host rq = AtMesh "stored-file" route access ∧
    (toUpperCase (rq_method rq) = "PUT" ∧ handlePutStoredFile host route (query_path rq) rq w = (x, w') ∨
     toUpperCase (rq_method rq) = "DELETE" ∧ handleDeleteStoredFile host (canonicalAddress route) (query_path rq) rq w = (x, w')).
Proof.
  intros E. apply request_runs_its_target in E as [->|E]; [by left|].
  destruct (target host rq) as [op route access|locator|] eqn:Et; [| |done].
  - destruct E as (x & E). apply terminal_stored in E as [?|[(-> & Hm & E)|(-> & Hm & E)]]; [by left|right..];
      exists route, access, x; (split; [done|]); [by left|by right].
  - left. revert E. match goal with |- ?m w = _ → _ => enough (keeps kept m) as Hk by exact (Hk w r w') end.
    unfold handleRecoveryRequest, audit.
    keeps_walk ltac:(first [apply kept_log|apply kept_srv; first [apply same_stored_get|apply same_stored_immutable]]).
Qed.

(** ** A map from paths to bytes *)

(** Every row is at a normal path and has the key of that path. *)
Definition well_keyed (s : Server) : Prop :=
  ∀ k row, stored s !! k = Some row → normal_path k.2 ∧ st_body_key row = storedFileKey k.1 k.2.
Definition stored_body w k : option (list Z) :=
  row ← stored (w_server w) !! k; body_at (w_bodies w) (st_body_key row).
Lemma stored_keys_differ k k' : normal_path k.2 → normal_path k'.2 → storedFileKey k.1 k.2 = storedFileKey k'.1 k'.2 → k = k'.
Proof.
  destruct k as [p q], k' as [p' q']. cbn [fst snd]. intros Hq Hq'. unfold storedFileKey.
  rewrite (normal_path_fixed q), (normal_path_fixed q') by done. intros E%app_inj_l.
  change ("/files/" +:+ encodeURIComponent (slice_from q 1)) with (String "/" ("files/" +:+ encodeURIComponent (slice_from q 1))) in E.
  change ("/files/" +:+ encodeURIComponent (slice_from q' 1)) with (String "/" ("files/" +:+ encodeURIComponent (slice_from q' 1))) in E.
  apply separator_inj in E as [E1%(inj _) E2]; [|apply encode_free..]. apply app_inj_l, (inj _) in E2.
  assert (∀ x, normal_path x → x = String "/" (slice_from x 1)) as Hx.
  { intros x (Hx & _). unfold startsWith in Hx. destruct x as [|c x]; [done|]. cbn [String.prefix] in Hx.
    destruct (ascii_dec "/" c) as [<-|]; [|done]. f_equal. symmetry. exact (slice_from_app "/" x). }
  rewrite (Hx q Hq), (Hx q' Hq'), E1, E2. done.
Qed.
Lemma kept_row w w' k row : kept w w' → stored (w_server w') !! k = Some row →
  ∃ row0, stored (w_server w) !! k = Some row0 ∧ unused row0 = unused row.
Proof.
  intros [Hk _] Hr. specialize (Hk k). rewrite Hr in Hk. symmetry in Hk. apply fmap_Some in Hk as (row0 & E & Hu).
  by exists row0.
Qed.
Lemma kept_body_of w w' k : kept w w' → stored_body w' k = stored_body w k.
Proof.
  intros Hk. unfold stored_body. pose proof (proj1 Hk k) as E.
  destruct (stored (w_server w') !! k) as [row'|], (stored (w_server w) !! k) as [row|]; try done.
  cbn in E |- *. injection E as E _ _ _ _ _ _. rewrite E. apply Hk.
Qed.
Lemma key_of w k : well_keyed (w_server w) → normal_path k.2 →
  body_key k (stored (w_server w) !! k) = storedFileKey k.1 k.2.
Proof.
  intros Hw Hk. unfold body_key. destruct (stored (w_server w) !! k) as [row|] eqn:E; [|done].
  destruct (Hw _ _ E) as [_ Er]. cbn. by rewrite Er.
Qed.
(** Changing one body leaves the bodies of the other rows alone. *)
Lemma other_body w w' k k' : well_keyed (w_server w) → normal_path k.2 → k' ≠ k →
  stored (w_server w') !! k' = stored (w_server w) !! k' →
  (∀ key, key ≠ storedFileKey k.1 k.2 → body_at (w_bodies w') key = body_at (w_bodies w) key) →
  stored_body w' k' = stored_body w k'.
Proof.
  intros Hw Hk Hne Hs Hb. unfold stored_body. rewrite Hs. destruct (stored (w_server w) !! k') as [row|] eqn:E; [|done].
  cbn. apply Hb. destruct (Hw _ _ E) as [Hn ->]. intros Ek. by apply Hne, stored_keys_differ.
Qed.
Lemma guard_presented rq (row : option StoredFileRow) guard x g : guard_ok rq row guard → row = Some x → st_seal_guard x = Some g → truthy g = true →
  trim (default "" (rq_header rq "X-Interocitor-Seal-Guard")) = g.
Proof.
  intros [Hp Hm] -> Hg Ht. cbn in Hm. rewrite Hg in Hm. unfold sealGuardMatches in Hm. cbn in Hm. rewrite Ht in Hm.
  unfold presentedSealGuard in Hp. destruct (truthy (trim _)) eqn:Et; cbn [negb] in Hp; [|by injection Hp as <-].
  destruct (_ && _); [|done]. injection Hp as <-. cbn in Hm. rewrite Et in Hm. symmetry. by apply timingSafeEqual_spec.
Qed.

(** An upload or a deletion at [k], by someone who presents the guard of what is there. *)
Definition guarded rq (t : Target) (k : string * string) (row : option StoredFileRow) : Prop :=
  (∃ route access, t = AtMesh "stored-file" route access ∧ k = (canonicalAddress route, query_path rq)) ∧
  ∀ x g, row = Some x → st_seal_guard x = Some g → truthy g = true →
    trim (default "" (rq_header rq "X-Interocitor-Seal-Guard")) = g.
Lemma kept_keys w w' : kept w w' → well_keyed (w_server w) → well_keyed (w_server w').
Proof.
  intros Hk Hw k row Hr. destruct (kept_row _ _ _ _ Hk Hr) as (row0 & Hr0 & Hu).
  destruct (Hw _ _ Hr0) as [Hn E]. split; [done|]. rewrite <- E. by injection Hu.
Qed.
Lemma put_keys w w' k row : well_keyed (w_server w) → normal_path k.2 → st_body_key row = storedFileKey k.1 k.2 →
  w_server w' = set_db (set_db_stored <[k := row]>) (w_server w) → well_keyed (w_server w').
Proof.
  intros Hw Hn Hk -> k' row'. cbn. destruct (decide (k' = k)) as [->|Hne].
  - rewrite lookup_insert_eq. by intros [= <-].
  - rewrite lookup_insert_ne by done. apply Hw.
Qed.
Lemma delete_keys w w' k : well_keyed (w_server w) →
  w_server w' = set_db (set_db_stored (delete k)) (w_server w) → well_keyed (w_server w').
Proof. intros Hw -> k' row' Hr. cbn in Hr. apply lookup_delete_Some in Hr as [_ Hr]. by apply Hw. Qed.

(** What a request may do to the bytes of the stored files. *)
Lemma stored_bodies_step rq w r w' :
  well_keyed (w_server w) → worker_fetch host rq w = (r, w') →
  well_keyed (w_server w') ∧
  ∀ k, stored_body w' k = stored_body w k ∨
    guarded rq (target host rq) k (stored (w_server w) !! k) ∧
    (toUpperCase (rq_method rq) = "PUT" ∧ rq_bytes rq = stored_body w' k ∨
     toUpperCase (rq_method rq) = "DELETE" ∧ stored_body w' k = None).
Proof.
  intros Hw E. apply request_stored in E as [Hk|(route & access & x & Ht & Hcase)].
  { split; [by eapply kept_keys|]. intros k. left. by apply kept_body_of. }
  assert (normal_path (query_path rq)) as Hn by (rewrite <- query_path_normal; apply normalizePath_normal).
  set (k0 := (canonicalAddress route, query_path rq)).
  assert (∀ guard, guard_ok rq (stored (w_server w) !! k0) guard →
    guarded rq (target host rq) k0 (stored (w_server w) !! k0)) as Hg.
  { intros guard Hok. split; [by exists route, access|]. intros y g. by eapply guard_presented. }
  destruct Hcase as [[Hm E]|[Hm E]].
  - apply put_stored_spec in E. rewrite query_path_normal in E. fold k0 in E.
    destruct E as [[-> _]|(bytes & guard & device & Hb & Hok & _ & _ & E)]; [by split; [|intros k; left]|].
    rewrite (key_of w k0) in E by done. destruct E as [[Es (e & _ & Ep)]|(_ & Ep & Es)]; apply body_put_law in Ep as [Hother Hhere].
    + split; [by rewrite Es|]. intros k. destruct (decide (k = k0)) as [->|Hne]; [|left; apply (other_body w w' k0 k); [done|done|done|by rewrite Es|exact Hother]].
      unfold stored_body. rewrite Es. destruct (stored (w_server w) !! k0) as [y|] eqn:Ey; [|by left]. cbn.
      destruct (Hw _ _ Ey) as [_ ->]. destruct Hhere as [[? _]|[_ [->| ->]]]; [done|by left|].
      right. split; [by eapply Hg|]. left. by split.
    + split; [refine (put_keys w w' k0 _ Hw Hn _ Es); reflexivity|]. intros k. destruct (decide (k = k0)) as [->|Hne].
      * right. split; [by eapply Hg|]. left. split; [done|]. unfold stored_body. rewrite Es. cbn. rewrite lookup_insert_eq.
        change (rq_bytes rq = body_at (w_bodies w') (storedFileKey k0.1 k0.2)). rewrite Hb. by destruct Hhere as [[_ ->]|[? _]].
      * left. apply (other_body w w' k0 k); [done|done|done| |exact Hother]. rewrite Es. cbn. by rewrite lookup_insert_ne.
  - apply delete_stored_spec in E. rewrite query_path_normal in E. fold k0 in E.
    destruct E as [(Es & Eb & _)|(y & guard & Ey & _ & Hok & E)].
    { split; [by rewrite Es|]. intros k. left. unfold stored_body. by rewrite Es, Eb. }
    destruct (Hw _ _ Ey) as [_ Ek]. rewrite Ek in E.
    destruct E as [[Es (e & _ & Ep)]|(_ & Ep & Es)]; apply body_delete_law in Ep as [Hother Hhere].
    + split; [by rewrite Es|]. intros k. destruct (decide (k = k0)) as [->|Hne]; [|left; apply (other_body w w' k0 k); [done|done|done|by rewrite Es|exact Hother]].
      unfold stored_body. rewrite Es, Ey. cbn. rewrite Ek. destruct Hhere as [[? _]|[_ [->| ->]]]; [done|by left|].
      right. split; [rewrite <- Ey; by eapply Hg|]. by right.
    + split; [by eapply (delete_keys w w' k0)|]. intros k. destruct (decide (k = k0)) as [->|Hne].
      * right. split; [by eapply Hg|]. right. split; [done|]. unfold stored_body. rewrite Es. cbn. by rewrite lookup_delete_eq.
      * left. apply (other_body w w' k0 k); [done|done|done| |exact Hother]. rewrite Es. cbn. by rewrite lookup_delete_ne.
Qed.
(** Without middleware the client gets the handler's answer. *)
Lemma direct_answer rq op route access : ho_middleware host = Some [] → target host rq = AtMesh op route access →
  ∀ w, worker_fetch host rq w = io_terminal host op (toUpperCase (rq_method rq)) route rq w.
Proof.
  intros Hm. unfold worker_fetch, target. destruct (String.eqb (toUpperCase _) "OPTIONS"); [done|]. cbn [orb].
  destruct (_ || _); [done|]. destruct (startsWith _ (NOTIFY_PREFIX +:+ "/")); [done|].
  destruct (startsWith _ (IO_PREFIX +:+ "/")).
  - unfold handleIoRequest, io_target, mbind, M_bind, lift. destruct (parseIo _) as [[prefix op']|e]; [|done].
    destruct (ioRequestAccess _ _) as [access'|]; [|done].
    destruct (resolvePublicMeshRoute _ _ _ _ _) as [route'|x]; [|done]. intros [= -> -> ->] w.
    unfold runMeshMiddleware. by rewrite Hm.
  - destruct (startsWith _ (RECOVERY_PREFIX +:+ "/")); [|done]. by destruct (decodeURIComponent _).
Qed.
Definition answered rq k (x : Response) w w' : Prop :=
  if (400 <=? rs_status x)%Z then ∀ k', stored_body w' k' = stored_body w k'
  else (toUpperCase (rq_method rq) = "PUT" → ∃ bytes, rq_bytes rq = Some bytes ∧ stored_body w' k = Some bytes) ∧
       (toUpperCase (rq_method rq) = "DELETE" → stored_body w' k = None).
Lemma answer_tells rq route access w x w' : well_keyed (w_server w) → ho_middleware host = Some [] →
  target host rq = AtMesh "stored-file" route access → toUpperCase (rq_method rq) = "PUT" ∨ toUpperCase (rq_method rq) = "DELETE" →
  worker_fetch host rq w = (Ok x, w') → answered rq (canonicalAddress route, query_path rq) x w w'.
Proof.
  intros Hw Hm Ht Hmeth. rewrite (direct_answer rq _ _ _ Hm Ht). intros E. set (k0 := (canonicalAddress route, query_path rq)).
  assert (normal_path (query_path rq)) as Hn by (rewrite <- query_path_normal; apply normalizePath_normal).
  unfold answered. destruct Hmeth as [Hp|Hd]; [rewrite Hp in E|rewrite Hd in E].
  - unfold io_terminal in E. cbn [String.eqb Ascii.eqb Bool.eqb andb] in E. apply put_stored_spec in E. rewrite query_path_normal in E. fold k0 in E.
    destruct E as [[-> (y & [= <-] & Hy%Z.leb_le)]|(bytes & guard & device & Hb & _ & _ & _ & E)]; [by rewrite Hy|].
    rewrite (key_of w k0) in E by done. destruct E as [[_ (e & ? & _)]|((y & [= <-] & Hy%Z.leb_gt) & Ep & Es)]; [done|]. rewrite Hy.
    split; [|by rewrite Hp]. intros _. exists bytes. split; [done|]. unfold stored_body. rewrite Es. cbn. rewrite lookup_insert_eq.
    apply body_put_law in Ep as [_ [[_ Hb']|[? _]]]; [exact Hb'|done].
  - unfold io_terminal in E. cbn [String.eqb Ascii.eqb Bool.eqb andb] in E. apply delete_stored_spec in E. rewrite query_path_normal in E. fold k0 in E.
    destruct E as [(Es & Eb & (y & [= <-] & Hy%Z.leb_le))|(y & guard & Ey & _ & _ & E)].
    { rewrite Hy. intros k. unfold stored_body. by rewrite Es, Eb. }
    destruct E as [[_ (e & ? & _)]|((z & [= <-] & Hy%Z.leb_gt) & _ & Es)]; [done|]. rewrite Hy. split; [by rewrite Hd|].
    intros _. unfold stored_body. rewrite Es. cbn. by rewrite lookup_delete_eq.
Qed.

(** C18: Stored files are a guarded map, and the answer says what became of it.  With every row at the key of its path (which every request
    preserves), a request leaves the bytes stored at each address and path alone, unless it uploads to or deletes exactly
    that path and, where the file there is sealed, presents its guard; a store that rejects leaves the old or the new bytes.
    Where no middleware stands between, an upload or deletion that is answered with an error status has left every file alone, an upload
    answered otherwise has left the bytes of its body at the path, and a deletion answered otherwise nothing. *)
Theorem stored_files_are_a_guarded_map rq w r w' :
  well_keyed (w_server w) → worker_fetch host rq w = (r, w') →
  well_keyed (w_server w') ∧
  (∀ k, stored_body w' k = stored_body w k ∨
    guarded rq (target host rq) k (stored (w_server w) !! k) ∧
    (toUpperCase (rq_method rq) = "PUT" ∧ rq_bytes rq = stored_body w' k ∨
     toUpperCase (rq_method rq) = "DELETE" ∧ stored_body w' k = None)) ∧
  (ho_middleware host = Some [] → ∀ route access x, target host rq = AtMesh "stored-file" route access →
     toUpperCase (rq_method rq) = "PUT" ∨ toUpperCase (rq_method rq) = "DELETE" → r = Ok x →
     if (400 <=? rs_status x)%Z then ∀ k, stored_body w' k = stored_body w k
     else (toUpperCase (rq_method rq) = "PUT" →
             ∃ bytes, rq_bytes rq = Some bytes ∧ stored_body w' (canonicalAddress route, query_path rq) = Some bytes) ∧
          (toUpperCase (rq_method rq) = "DELETE" → stored_body w' (canonicalAddress route, query_path rq) = None)).
Proof.
  intros Hw E. destruct (stored_bodies_step rq w r w' Hw E) as [Hk Hs]. split_and!; [done..|].
  intros Hm route access x Ht Hmeth ->. exact (answer_tells rq route access w x w' Hw Hm Ht Hmeth E).
Qed.

(** ** The quota *)
Definition total (address : string) (m : gmap (string * string) StoredFileRow) : Z :=
  map_fold (λ _ r n, st_size r + n)%Z 0%Z (filter (λ kr : (string * string) * StoredFileRow, in_prefix address kr.1 = true) m).
Lemma usage_total (address : string) w : usage address w = total address (stored (w_server w)).
Proof.
  unfold usage, currentStoredUsage, total. cbn [fst]. rewrite map_fold_foldr. unfold rows_where.
  induction (map_to_list _) as [|[k r] l IH]; [done|]. cbn. by rewrite IH.
Qed.
Lemma total_fresh (address : string) (m : gmap (string * string) StoredFileRow) (k : string * string) (row : StoredFileRow) : m !! k = None →
  total address (<[k := row]> m) = ((if in_prefix address k then st_size row else 0) + total address m)%Z.
Proof.
  intros Hm. unfold total. destruct (in_prefix address k) eqn:Ek.
  - rewrite map_filter_insert_True by done. rewrite map_fold_insert_L; [done|intros; lia|].
    apply map_lookup_filter_None. by left.
  - rewrite map_filter_insert_False by (cbn; congruence). by rewrite delete_id.
Qed.
Lemma total_delete (address : string) (m : gmap (string * string) StoredFileRow) (k : string * string) :
  total address m = ((if in_prefix address k then replaced (m !! k) else 0) + total address (delete k m))%Z.
Proof.
  destruct (m !! k) as [row|] eqn:E.
  - rewrite <- (insert_delete_id m k row E) at 1. by rewrite total_fresh by apply lookup_delete_eq.
  - rewrite delete_id by done. cbn. by destruct (in_prefix address k).
Qed.
Lemma total_insert (address : string) (m : gmap (string * string) StoredFileRow) (k : string * string) (row : StoredFileRow) :
  total address (<[k := row]> m) = (total address m + if in_prefix address k then st_size row - replaced (m !! k) else 0)%Z.
Proof.
  rewrite <- insert_delete_eq, total_fresh by apply lookup_delete_eq.
  rewrite (total_delete address m k). destruct (in_prefix address k); lia.
Qed.
Lemma total_kept (address : string) w w' : kept w w' → total address (stored (w_server w')) = total address (stored (w_server w)).
Proof.
  intros [Hk _]. assert (∀ m, total address (unused <$> m) = total address m) as Hu.
  { intros m. unfold total. rewrite map_filter_fmap, map_fold_fmap. done. }
  rewrite <- (Hu (stored (w_server w'))), <- (Hu (stored (w_server w))). f_equal. apply map_eq. intros k. by rewrite !lookup_fmap.
Qed.
Definition sizes_ok (s : Server) : Prop := ∀ k row, stored s !! k = Some row → (0 ≤ st_size row)%Z.

(** C19: No mesh outgrows its quota.  Whatever request arrives, the stored bytes of every mesh stay
    within the configured quota, or do not grow where they were beyond it already (the quota may have been lowered);
    recorded sizes stay non-negative. *)
Theorem uploads_stay_within_the_quota rq w r w' :
  sizes_ok (w_server w) → worker_fetch host rq w = (r, w') →
  sizes_ok (w_server w') ∧
  ∀ address, (usage address w' ≤ Z.max (usage address w) (maxMeshStoredBytes (ho_limits host)))%Z.
Proof.
  intros Hs E. apply request_stored in E as [Hk|(route & access & x & _ & Hcase)].
  { split.
    - intros k row Hr. destruct (kept_row _ _ _ _ Hk Hr) as (row0 & Hr0 & Hu). injection Hu as _ <- _ _ _ _ _. by eapply Hs.
    - intros a. rewrite !usage_total, (total_kept _ _ _ Hk). lia. }
  set (k0 := (canonicalAddress route, normalizePath (query_path rq))).
  destruct Hcase as [[_ E]|[_ E]].
  - apply put_stored_spec in E. fold k0 in E.
    destruct E as [[-> _]|(bytes & guard & device & _ & _ & _ & Hq & [[Es _]|(_ & _ & Es)])]; [split; [done|]; intros; lia|..].
    { split; [by rewrite Es|]. intros a. rewrite !usage_total, Es. lia. }
    split.
    + intros k row. rewrite Es. cbn. destruct (decide (k = k0)) as [->|Hne]; [rewrite lookup_insert_eq; intros [= <-]; cbn; lia|].
      rewrite lookup_insert_ne by done. apply Hs.
    + intros a. rewrite usage_total in Hq. rewrite !usage_total, Es. cbn. rewrite total_insert. cbn [st_size uploaded_row].
      unfold in_prefix. destruct (String.eqb_spec k0.1 a) as [<-|]; lia.
  - apply delete_stored_spec in E. fold k0 in E.
    destruct E as [(Es & _)|(y & guard & Ey & _ & _ & [[Es _]|(_ & _ & Es)])];
      [split; [by rewrite Es|]; intros a; rewrite !usage_total, Es; lia..|].
    split.
    + intros k row. rewrite Es. cbn. intros [_ Hr]%lookup_delete_Some. by eapply Hs.
    + intros a. rewrite !usage_total, Es. cbn. rewrite (total_delete a (stored (w_server w)) k0), Ey. cbn [replaced from_option].
      pose proof (Hs _ _ Ey). destruct (in_prefix a k0); lia.
Qed.
End stored_map.

(** ** Witnesses *)
Section witness.
#[local] Existing Instance toy_crypto.
#[local] Existing Instance digit_clock.
Definition guard_text : string := "aaaaaaaaaaaaaaaaaaaaaaaaaaaaaaaaaaaaaaaaaaaaaaaaaaaaaaaaaaaaaaaa".
Definition stored_request (method guard : string) (bytes : list Z) : Request :=
  mkRequest method "/io/m/stored-file" (Some "/f")
    (λ h, if String.eqb h "X-Interocitor-Device-Id" then Some "d"
          else if String.eqb h "X-Interocitor-Seal-Guard" then opt_truthy (Some guard) else None)
    (Some bytes) (VObj []) (mkTick 5 "t") "u" [].
Definition sealed_world : World (gmap string (list Z)) :=
  mkWorld (mkServer (mkDb ∅ ∅ ∅ {[("m", "/f") := mkStoredRow (storedFileKey "m" "/f") 2 (Some guard_text) "d" "t0" "t0" None 0 None]}) None)
    {[storedFileKey "m" "/f" := [7; 7]%Z]} [].
Lemma sealed_world_keyed : well_keyed (w_server sealed_world).
Proof.
  intros k row Hr. unfold sealed_world in Hr. cbn in Hr. apply lookup_singleton_Some in Hr as [<- <-]. split; [|done].
  split_and!; [done|done|]. by intros ?%eq_sym.
Qed.
Definition upload (guard : string) := worker_fetch (plain_host []) (stored_request "PUT" guard [1%Z]) sealed_world.
Lemma stored_files_are_a_guarded_map_witness :
  stored_body (upload "").2 ("m", "/f") = Some [7; 7]%Z ∧ stored_body (upload guard_text).2 ("m", "/f") = Some [1%Z].
Proof.
  destruct (stored_files_are_a_guarded_map (plain_host []) (stored_request "PUT" "" [1%Z]) sealed_world _ _ sealed_world_keyed (surjective_pairing _))
    as (_ & Hs & _).
  destruct (stored_files_are_a_guarded_map (plain_host []) (stored_request "PUT" guard_text [1%Z]) sealed_world _ _ sealed_world_keyed (surjective_pairing _))
    as (_ & _ & Ha).
  split.
  - destruct (Hs ("m", "/f")) as [E|[[_ Hg] _]]; [exact E|]. exfalso.
    assert (trim (default "" (rq_header (stored_request "PUT" "" [1%Z]) "X-Interocitor-Seal-Guard")) = guard_text) as Ht.
    { eapply (Hg _ guard_text (lookup_singleton_eq ("m", "/f") _)); [done|by vm_compute]. }
    by vm_compute in Ht.
  - assert (match (upload guard_text).1 with Ok x => (rs_status x <? 400)%Z | Throw _ => false end = true) as Hok by (vm_compute; reflexivity).
    fold (upload guard_text) in Ha. destruct (upload guard_text) as [[x|e] w']; cbn [fst snd] in *; [|done].
    specialize (Ha eq_refl (mkRoute "m" "m") AWrite x ltac:(vm_compute; reflexivity) (or_introl eq_refl) eq_refl).
    apply Z.ltb_lt in Hok. rewrite (proj2 (Z.leb_gt _ _) Hok) in Ha. destruct Ha as [Hp _].
    destruct (Hp eq_refl) as (bytes & [= <-] & Hb). exact Hb.
Defined.
Lemma uploads_stay_within_the_quota_witness :
  (usage "m" (worker_fetch (plain_host []) (stored_request "PUT" guard_text [1; 2; 3]%Z) sealed_world).2 ≤ DEFAULT_MESH_STORED_BYTES)%Z.
Proof.
  destruct (worker_fetch _ _ _) as [r w'] eqn:E. cbn [snd].
  apply (uploads_stay_within_the_quota (plain_host [])) in E as [_ Hu].
  - specialize (Hu "m"). assert (usage "m" sealed_world = 2%Z) as Eu by by vm_compute. rewrite Eu in Hu.
    change (maxMeshStoredBytes (ho_limits (plain_host []))) with DEFAULT_MESH_STORED_BYTES in Hu. unfold DEFAULT_MESH_STORED_BYTES in *. lia.
  - intros k row Hr. unfold sealed_world in Hr. cbn in Hr. apply lookup_singleton_Some in Hr as [_ <-]. cbn. lia.
Defined.
End witness.
