(* ===== verification/OctetDocs.v ===== *)
(** * Documents as bytes

    A platform for examples whose bytes are octets, as the mesh server stores them: every document of [Wire.v] is
    written as the list of its fields and read back.  Strings and lists carry their length; a plain value is
    the number of its tree. *)

From S2P Require Import Prelude JsString Hlc Values Octets Encryption StoredFile Wire.
From S2P Require Import JsMap LocalStore Crdt Convergence Observation Adapter Codec Session MergeStore Manifest Flush.
From S2P Require Import Pull Compaction ChangeEffects LocalWrites Promises Engine Files.
From Stdlib Require Import Ascii.
From Stdlib Require String.

Open Scope stdpp_scope.

(** ** Writing and reading back *)
Class Ser (A : Type) := {
  ser : A → list Z;
  des : list Z → option (A * list Z);
  des_ser a rest : des (ser a ++ rest) = Some (a, rest) }.

(** An integer: its sign, and its binary digits from the lowest to a mark. *)
Fixpoint ser_pos (p : positive) : list Z :=
  match p with xO p => 0%Z :: ser_pos p | xI p => 1%Z :: ser_pos p | xH => [2%Z] end.
Fixpoint des_pos (l : list Z) : option (positive * list Z) :=
  match l with
  | [] => None
  | d :: l => if (d =? 2)%Z then Some (xH, l)
              else '(p, l) ← des_pos l; Some (if (d =? 0)%Z then xO p else xI p, l)
  end.
Lemma des_ser_pos p rest : des_pos (ser_pos p ++ rest) = Some (p, rest).
Proof. induction p as [p IH|p IH|]; cbn; [by rewrite IH..|done]. Qed.
#[global] Program Instance ser_Z : Ser Z := {
  ser z := match z with Z0 => [0%Z] | Zpos p => 1%Z :: ser_pos p | Zneg p => 2%Z :: ser_pos p end;
  des l := match l with
           | [] => None
           | s :: l => if (s =? 0)%Z then Some (0%Z, l)
                       else '(p, l) ← des_pos l; Some (if (s =? 1)%Z then Zpos p else Zneg p, l)
           end }.
Next Obligation. intros [|p|p] rest; cbn; [done|by rewrite des_ser_pos..]. Qed.
Program Definition ser_via {A B} `{Ser B} (f : A → B) (g : B → A) (Hgf : ∀ a, g (f a) = a) : Ser A := {|
  ser a := ser (f a); des l := '(b, l) ← des l; Some (g b, l) |}.
Next Obligation. intros A B HB f g Hgf a rest. cbn. rewrite des_ser. cbn. by rewrite Hgf. Qed.
#[global] Program Instance ser_prod {A B} `{Ser A} `{Ser B} : Ser (A * B) := {
  ser ab := ser ab.1 ++ ser ab.2;
  des l := '(a, l) ← des l; '(b, l) ← des l; Some ((a, b), l) }.
Next Obligation. intros A B HA HB [a b] rest. cbn. rewrite <- app_assoc, des_ser. cbn. by rewrite des_ser. Qed.
#[global] Program Instance ser_sum {A B} `{Ser A} `{Ser B} : Ser (A + B) := {
  ser x := match x with inl a => 0%Z :: ser a | inr b => 1%Z :: ser b end;
  des l := match l with
           | [] => None
           | t :: l => if (t =? 0)%Z then '(a, l) ← des l; Some (inl a, l) else '(b, l) ← des l; Some (inr b, l)
           end }.
Next Obligation. intros A B HA HB [a|b] rest; cbn; by rewrite des_ser. Qed.
#[global] Program Instance ser_unit : Ser () := { ser _ := []; des l := Some ((), l) }.
Next Obligation. by intros []. Qed.
#[global] Instance ser_option {A} `{Ser A} : Ser (option A) :=
  ser_via (B := A + ()) (λ o, match o with Some a => inl a | None => inr () end)
    (λ x, match x with inl a => Some a | inr _ => None end) ltac:(by intros []).
#[global] Instance ser_bool : Ser bool :=
  ser_via (λ b, if b : bool then 1%Z else 0%Z) (λ z, (z =? 1)%Z) ltac:(by intros []).

Fixpoint des_n {A} `{Ser A} (n : nat) (l : list Z) : option (list A * list Z) :=
  match n with
  | O => Some ([], l)
  | S n => '(a, l) ← des l; '(xs, l) ← des_n n l; Some (a :: xs, l)
  end.
Lemma des_n_ser {A} `{Ser A} (xs : list A) rest : des_n (length xs) ((xs ≫= ser) ++ rest) = Some (xs, rest).
Proof. induction xs as [|x xs IH]; [done|]. cbn. rewrite <- app_assoc, des_ser. cbn. by rewrite IH. Qed.
#[global] Program Instance ser_list {A} `{Ser A} : Ser (list A) := {
  ser xs := ser (Z.of_nat (length xs)) ++ (xs ≫= ser);
  des l := '(n, l) ← des l; des_n (Z.to_nat n) l }.
Next Obligation. intros A HA xs rest. cbn [ser des]. rewrite <- app_assoc, des_ser. cbn. rewrite Nat2Z.id. apply des_n_ser. Qed.
#[global] Program Instance ser_string : Ser string := ser_via (λ s, char_codes s) from_codes _.
Next Obligation. exact (@utf8_roundtrip toy_crypto). Qed.

(** A plain value is one number. *)
#[local] Existing Instance jsnum_countable.
Definition value_of (z : Z) : jsval :=
  match z with Z.pos p => default VUndefined (of_tree <$> decode p) | _ => VUndefined end.
Lemma value_of_encode v : value_of (Z.pos (encode (to_tree v))) = v.
Proof. unfold value_of. rewrite countable.decode_encode. apply of_to_tree. Qed.
#[global] Instance ser_jsval : Ser jsval := ser_via (λ v, Z.pos (encode (to_tree v))) value_of value_of_encode.
#[global] Instance ser_jsnum : Ser jsnum :=
  ser_via (λ n, match n with Num z => Some z | NaN => None end)
    (λ o, match o with Some z => Num z | None => NaN end) ltac:(by intros []).

(** ** The documents *)
#[global] Instance ser_column : Ser ColumnEntry :=
  ser_via (λ e, (value e, hlc e)) (λ '(v, h), mkColumn v h) ltac:(by intros []).
#[global] Instance ser_op : Ser Op :=
  ser_via (B := (string * string * list (string * ColumnEntry)) + (string * string * string))
    (λ o, match o with UpsertOp t r cs => inl (t, r, cs) | DeleteOp t r h => inr (t, r, h) end)
    (λ x, match x with inl (t, r, cs) => UpsertOp t r cs | inr (t, r, h) => DeleteOp t r h end) ltac:(by intros []).
#[global] Instance ser_change : Ser ChangeEntry :=
  ser_via (λ e, (ce_id e, ce_ts e, ce_device e, ce_user e, ce_hlc e, ce_ops e))
    (λ '(i, t, d, u, h, o), mkChange i t d u h o) ltac:(by intros []).
#[global] Instance ser_meta : Ser RowMeta :=
  ser_via (λ m, (rm_table m, rm_rowId m, rm_deleted m, rm_deletedHlc m, rm_schemaVersion m, rm_owner m, rm_key m))
    (λ '(t, r, d, h, v, o, k), mkMeta t r d h v o k) ltac:(by intros []).
Definition row_of_list (mp : RowMeta * list (string * ColumnEntry)) : Row := mkRow mp.1 (list_to_map mp.2).
Lemma row_of_list_row r : row_of_list (_meta r, map_to_list (payload r)) = r.
Proof. destruct r as [m p]. unfold row_of_list. cbn. by rewrite list_to_map_to_list. Qed.
#[global] Instance ser_row : Ser Row :=
  ser_via (B := RowMeta * list (string * ColumnEntry)) (λ r, (_meta r, map_to_list (payload r))) row_of_list row_of_list_row.
#[global] Instance ser_snapshot : Ser Snapshot :=
  ser_via (λ s, (sn_snapshotId s, sn_timestamp s, sn_hlc s, sn_epoch s, sn_schemaVersion s, sn_coveredChangeFiles s,
                 sn_tables s))
    (λ '(i, t, h, e, v, c, ts), mkSnapshot i t h e v c ts) ltac:(by intros []).
#[global] Instance ser_payload : Ser MeshPayload :=
  ser_via (λ p, (pl_hasMesh p, pl_meshId p, pl_kind p, pl_entry p, pl_snapshot p))
    (λ '(h, m, k, e, s), mkMeshPayload h m k e s) ltac:(by intros []).
#[global] Instance ser_server : Ser ServerConfig :=
  ser_via (λ s, (sv_managed s, sv_relayUrl s, sv_serverId s)) (λ '(m, r, i), mkServer m r i) ltac:(by intros []).
#[global] Instance ser_retention : Ser RetentionPolicyInput :=
  ser_via (λ r, (ri_compactAfterMs r, ri_maxOfflineDurationMs r)) (λ '(a, b), mkRetentionInput a b) ltac:(by intros []).
#[global] Instance ser_manifest : Ser Manifest :=
  ser_via (λ '(mkManifest m h),
      (m_generation m, m_parentGeneration m, m_writtenBy m, m_writtenAt m, m_version m, m_meshId m, m_schema m,
       m_encrypted m, (m_server m, m_createdAt m, m_epoch m, m_watermarkHlc m, m_snapshotPath m, m_deltaPath m,
       m_retention m, m_lineage m), h))
    (λ '(g, pg, wb, wa, v, mi, s, e, (sv, ca, ep, wm, sp, dp, r, l), h),
      mkManifest (mkManifestPayload g pg wb wa v mi s e sv ca ep wm sp dp r l) h) ltac:(by intros [[]]).
#[global] Instance ser_pointer : Ser ManifestPointer :=
  ser_via (λ p, (mp_currentGeneration p, mp_file p)) (λ '(g, f), mkPointer g f) ltac:(by intros []).
#[global] Instance ser_device : Ser DeviceMetadata :=
  ser_via (λ d, (dm_deviceId d, dm_registeredAt d, dm_lastSeenAt d, dm_userId d, dm_name d, dm_displayName d,
       dm_deviceType d, (dm_retired d, dm_observedManifestGeneration d, dm_observedEpoch d, dm_observedWatermarkHlc d,
       dm_observedAt d, dm_cutOffAt d, dm_cutOffReason d)))
    (λ '(a, b, c, d, e, f, g, (h, i, j, k, l, m, n)), mkDevice a b c d e f g h i j k l m n) ltac:(by intros []).
#[global] Instance ser_head : Ser ChangesHead := ser_via latestHlc mkHead ltac:(by intros []).
#[global] Instance ser_doc : Ser Doc :=
  ser_via (B := (MeshPayload + (Manifest + ManifestPointer)) + (DeviceMetadata + (ChangesHead + jsval)))
    (λ d, match d with
      | DPayload p => inl (inl p) | DManifest m => inl (inr (inl m)) | DPointer p => inl (inr (inr p))
      | DDevice d => inr (inl d) | DHead h => inr (inr (inl h)) | DOther v => inr (inr (inr v)) end)
    (λ x, match x with
      | inl (inl p) => DPayload p | inl (inr (inl m)) => DManifest m | inl (inr (inr p)) => DPointer p
      | inr (inl d) => DDevice d | inr (inr (inl h)) => DHead h | inr (inr (inr v)) => DOther v end) ltac:(by intros []).

(** ** The platform *)
Definition octet_parse (t : list Z) : result Doc :=
  match des t with Some (d, []) => Ok d | _ => Throw (JsError "SyntaxError") end.
Definition octet_decrypt (k : Z) (b : list Z) : result (list Z) :=
  match des b with
  | Some (k', t) => if (k' =? k)%Z then Ok t else Throw (JsError "decryption failed")
  | None => Throw (JsError "decryption failed")
  end.
Lemma octet_parse_ser d : octet_parse (ser d) = Ok d.
Proof. unfold octet_parse. by rewrite <- (app_nil_r (ser d)), des_ser. Qed.
Lemma octet_decrypt_own k t : octet_decrypt k (ser k ++ t) = Ok t.
Proof. unfold octet_decrypt. by rewrite des_ser, Z.eqb_refl. Qed.
Definition octet_platform : Platform := {|
  Text := list Z; Bytes := list Z; CryptoKey := Z; byteLength b := Z.of_nat (length b);
  stringify d := ser d; parse := octet_parse; encodeText t := t; decodeText b := b;
  encryptEntry k t := ser k ++ t; decryptEntry := octet_decrypt;
  hashPayload m := num_toString 10 (Num (m_generation m));
  parse_stringify d _ := octet_parse_ser d; decode_encode t := eq_refl; decrypt_encrypt := octet_decrypt_own |}.
Definition octet_view : @ByteView octet_platform := {|
  toBytes l := l : @Bytes octet_platform; ofBytes b := b : list Z;
  ofBytes_toBytes l := eq_refl; byteLength_toBytes l := eq_refl |}.
