(* ===== verification/Cloudflare.v ===== *)
(** * The adapter for the mesh server
    ([packages/core/src/adapters/cloudflare.ts], [adapters/http-status.ts])

    The client of [Worker.v]: every call of the engine is one HTTP request, and what its
    status says becomes an answer or an error.  [fetch] is the platform's, a class with the server and
    the network behind it.  A base URL is its origin, when it has one, and its pathname; a query is the one
    parameter the adapter sets.  The pairing capabilities are a value that the adapter only
    hands on. *)

From S2P Require Import Prelude JsString Hlc Values JsMap LocalStore Octets Encryption StoredFile.
From S2P Require Import Wire Crdt Convergence Observation Adapter Codec Session MergeStore Manifest Flush Pull.
From S2P Require Import Compaction ChangeEffects LocalWrites Promises Engine Files Ids Routes RowStore Worker.
From Stdlib Require Import Ascii.
From Stdlib Require String.

Open Scope stdpp_scope.

(** ** Requests *)
Inductive HttpBody :=
  | NoBody
  | JsonBody (v : jsval)
  | ByteBody (b : list Z).
Record HttpRequest := mkHttp {
  ht_method : string; ht_origin : option string; ht_pathname : string; ht_path : option string;
  ht_headers : list (string * string); ht_body : HttpBody }.
(** [an_retryAfter] is the one header of an answer that the adapter reads. *)
Record Answer := mkAnswer { an_response : Response; an_retryAfter : option string }.
Definition an_status (a : Answer) : Z := rs_status (an_response a).
(** [res.ok]. *)
Definition an_ok (a : Answer) : bool := success (an_status a).

(** What the platform does: [fetch] rejects or answers; [Number] and [Date.parse] of a header; the octets of a
    body that is not bytes already. *)
Class Fetch (N : Type) := {
  fetch : HttpRequest → M N Answer;
  textNumber : string → jsnum;
  textDate : string → jsnum;
  bodyOctets : Body → list Z }.

(** ** What a status means ([http-status.ts], [RemoteAccessError.kindForStatus]) *)
Definition kindForStatus (status : Z) (notFoundIsAccess : bool) : option remoteAccessKind :=
  if (status =? 401)%Z then Some Unauthenticated
  else if (status =? 403)%Z then Some Forbidden
  else if (status =? 404)%Z then (if notFoundIsAccess then Some NotFound else None)
  else if (status =? 429)%Z then Some RateLimited
  else if (status =? 503)%Z then Some PolicyUnavailable
  else None.

Section http_status.
Context {N : Type} `{!Fetch N}.

Definition retryAfterMs (now : Z) (header : option string) : option Z :=
  match opt_truthy header with
  | None => None
  | Some raw =>
      match textNumber raw with
      | Num seconds => if (0 <=? seconds)%Z then Some (seconds * 1000)%Z
                       else match textDate raw with Num at_ => Some (Z.max 0 (at_ - now)) | NaN => None end
      | NaN => match textDate raw with Num at_ => Some (Z.max 0 (at_ - now)) | NaN => None end
      end
  end.
Definition remoteAccessError (now : Z) (res : Answer) (notFoundIsAccess : bool) : option error :=
  kind ← kindForStatus (an_status res) notFoundIsAccess;
  Some (RemoteAccessErr kind (an_status res) (retryAfterMs now (an_retryAfter res))).
Definition httpFailure (now : Z) (res : Answer) (notFoundIsAccess : bool) (fallbackMessage : string) : error :=
  default (JsError (fallbackMessage +:+ ": HTTP " +:+ num_toString 10 (Num (an_status res))))
    (remoteAccessError now res notFoundIsAccess).
Definition throwIfAccessDenied (now : Z) (res : Answer) (notFoundIsAccess : bool) : result () :=
  match remoteAccessError now res notFoundIsAccess with Some err => Throw err | None => Ok () end.
End http_status.

(** ** Configuration and state *)
Record CloudflareAdapterConfig := mkCloudConfig {
  co_origin : option string; co_pathname : string; co_relayEnabled : bool;
  co_recoveryBase : option (option string * string); co_recoveryToken : option string;
  co_pairing : option jsval; co_now : Z }.
(** [.replace(/\/$/, "")]. *)
Definition trim_slash (s : string) : string :=
  if endsWith s "/" then str_take (String.length s - 1) s else s.

Record CloudflareAdapter (N : Type) := mkCloud {
  cl_token : option string; cl_authenticated : bool; cl_ensuredFolders : gset string; cl_net : N }.
Arguments mkCloud {_} _ _ _ _.
Arguments cl_token {_} _.
Arguments cl_authenticated {_} _.
Arguments cl_ensuredFolders {_} _.
Arguments cl_net {_} _.
Definition newCloudflareAdapter {N} (token : option string) (net : N) : CloudflareAdapter N :=
  mkCloud token false ∅ net.

Section adapter.
Context `{Platform} `{!ByteView} {N : Type} `{!Fetch N} (cfg : CloudflareAdapterConfig).
Notation C := (CloudflareAdapter N).

Definition setToken (token : option string) : M C () := modify (λ c,
  mkCloud token false (cl_ensuredFolders c) (cl_net c)).
Definition set_authenticated : M C () := modify (λ c,
  mkCloud (cl_token c) true (cl_ensuredFolders c) (cl_net c)).
Definition add_ensured (path : string) : M C () := modify (λ c,
  mkCloud (cl_token c) (cl_authenticated c) ({[path]} ∪ cl_ensuredFolders c) (cl_net c)).
Definition cloud_resetFolderCache (c : C) : C := mkCloud (cl_token c) (cl_authenticated c) ∅ (cl_net c).
Definition send (rq : HttpRequest) : M C Answer := λ c,
  let '(r, n) := fetch rq (cl_net c) in
  (r, mkCloud (cl_token c) (cl_authenticated c) (cl_ensuredFolders c) n).

(** ** URLs *)
Definition bearer (token : option string) : list (string * string) :=
  match opt_truthy token with Some t => [("Authorization", "Bearer " +:+ t)] | None => [] end.
Definition headers (c : C) (extra : list (string * string)) : list (string * string) := bearer (cl_token c) ++ extra.
Definition sealGuardHeader (guard : option string) : list (string * string) :=
  match opt_truthy guard with Some g => [("X-Interocitor-Seal-Guard", g)] | None => [] end.
Definition parseBaseUrl : result (option string * string) :=
  let pathname := trim_slash (co_pathname cfg) in
  if includes pathname "/io/" then Ok (co_origin cfg, pathname)
  else Throw (JsError "CloudflareAdapter baseUrl must include /io/<address>").
(** The base may be relative to the page. *)
Definition ioBaseUrl : result (option string * string) :=
  '(origin, pathname) ← parseBaseUrl; Ok (origin, trim_slash pathname).
(** The relay's address: the first [/io/] of the pathname becomes [/notify/]. *)
Definition replace_first (s from to : string) : string :=
  let i := indexOf s from 0 in
  if (i =? -1)%Z then s
  else slice s 0 i +:+ to +:+ slice_from s (i + Z.of_nat (String.length from)).
Definition notifyUrl (c : C) : result (option string * string * option string) :=
  '(origin, pathname) ← parseBaseUrl;
  Ok (origin, replace_first pathname "/io/" "/notify/", opt_truthy (cl_token c)).
Definition ioUrl (pathname : string) : result (option string * string) :=
  '(origin, base) ← ioBaseUrl;
  Ok (origin, base +:+ (if startsWith pathname "/" then pathname else "/" +:+ pathname)).
(** [new URL(text)] without a base rejects a relative one. *)
Definition absolute_url (url : option string * string) : result (option string * string) :=
  match url.1 with Some _ => Ok url | None => Throw (JsError "Invalid URL") end.
Definition fileUrl : result (option string * string) := u ← ioUrl "/file"; absolute_url u.
Definition storedFileUrl : result (option string * string) := u ← ioUrl "/stored-file"; absolute_url u.
Definition recoveryUrl (locator : string) : result (option string * string) :=
  match co_recoveryBase cfg with
  | None => Throw (JsError "Cloudflare recovery requires recoveryBaseUrl")
  | Some (origin, pathname) =>
      if negb (RECOVERY_LOCATOR_RE locator) then Throw (JsError "Invalid recovery locator")
      else Ok (origin, trim_slash pathname +:+ "/" +:+ locator)
  end.
Definition recoveryHeaders (c : C) : list (string * string) :=
  bearer (match co_recoveryToken cfg with Some t => Some t | None => cl_token c end).

(** A request with the adapter's headers to one of its routes; one that names a file; one with a JSON body. *)
Definition request (url : result (option string * string)) (method : string) (path : option string)
    (extra : list (string * string)) (body : HttpBody) : M C Answer :=
  u ← lift url;
  hs ← gets (λ c, headers c extra);
  send (mkHttp method u.1 u.2 path hs body).
Definition post (route path : string) : M C Answer :=
  request (ioUrl route) "POST" None [("Content-Type", "application/json; charset=utf-8")]
    (JsonBody (VObj [("path", VStr path)])).
Definition failure {B} (res : Answer) (notFoundIsAccess : bool) (message : string) : M C B :=
  throw (httpFailure (co_now cfg) res notFoundIsAccess message).

(** [await res.arrayBuffer()], and the JSON documents of the routes: a document of another shape has no such
    field, and a body that is no document is refused. *)
Definition arrayBuffer (res : Answer) : list Z :=
  match rs_body (an_response res) with BBytes b => b | body => bodyOctets body end.
Definition json_of {B} (f : Body → option B) (dflt : B) (res : Answer) : result B :=
  match f (rs_body (an_response res)) with
  | Some b => Ok b
  | None => match rs_body (an_response res) with
            | BEmpty | BText _ | BBytes _ | BRelay _ => Throw (JsError "Unexpected token in JSON")
            | _ => Ok dflt
            end
  end.
Definition listed_file (e : RowStore.FileEntry) : Wire.FileEntry :=
  mkFile (le_name e) (le_path e) (le_size e) (le_modified e).
Definition stored_info (i : StoredFileInfo) : StoredFileMetadata :=
  mkStoredMeta (si_name i) (si_path i) (si_size i) (si_modifiedTime i) (Some (si_uploadedAt i))
    (Some (si_uploadedByDeviceId i)) (Some (si_size i)) (si_lastAccessedAt i) (Some (si_useCount i)).

(** ** The calls of the engine *)
Definition cloud_authenticate : M C () :=
  res ← request (ioUrl "/health") "GET" None [] NoBody;
  if an_ok res then set_authenticated else failure res true "Cloudflare Worker unreachable".
(** What a QR code carries of it: no credentials. *)
Definition getHandshakeConfig : jsval :=
  VObj [("baseUrl", VStr (default "" (co_origin cfg) +:+ trim_slash (co_pathname cfg)))].
Definition getPairingCapabilities : option jsval := co_pairing cfg.

Definition cloud_ensureFolder (path : string) : M C () :=
  c ← gets id;
  if bool_decide (path ∈ cl_ensuredFolders c) then mret ()
  else
    res ← post "/ensure-folder" path;
    if negb (an_ok res) && negb (an_status res =? 405)%Z
    then failure res true ("Failed to ensure folder " +:+ path)
    else add_ensured path.
Definition cloud_listFiles (path : string) : M C (list Wire.FileEntry) :=
  res ← post "/list-files" path;
  if negb (an_ok res) then failure res true ("Failed to list files for " +:+ path)
  else lift (json_of (λ b, match b with BFiles l => Some (listed_file <$> l) | _ => None end) [] res).
Definition cloud_listFolders (path : string) : M C (list string) :=
  res ← post "/list-folders" path;
  if negb (an_ok res) then failure res true ("Failed to list folders for " +:+ path)
  else lift (json_of (λ b, match b with BFolders l => Some l | _ => None end) [] res).
Definition cloud_readFile (path : string) : M C Bytes :=
  res ← request fileUrl "GET" (Some path) [] NoBody;
  if negb (an_ok res) then failure res false ("Failed to read " +:+ path)
  else mret (toBytes (arrayBuffer res)).
Definition cloud_writeFile (path : string) (data : Bytes) : M C () :=
  res ← request fileUrl "PUT" (Some path) [("Content-Type", "application/octet-stream")] (ByteBody (ofBytes data));
  if negb (an_ok res) && negb (an_status res =? 201)%Z && negb (an_status res =? 204)%Z
  then failure res false ("Failed to write " +:+ path)
  else mret ().
Definition cloud_deleteFile (path : string) : M C () :=
  res ← request fileUrl "DELETE" (Some path) [] NoBody;
  if negb (an_ok res) && negb (an_status res =? 404)%Z && negb (an_status res =? 405)%Z
  then failure res false ("Failed to delete " +:+ path)
  else mret ().
(** A missing file, and any failure that is no access decision, is [null]. *)
Definition metadata_of {B} (f : Body → option (option B)) (res : Answer) : M C (option B) :=
  if (an_status res =? 404)%Z then mret None
  else
    lift (throwIfAccessDenied (co_now cfg) res false);;
    if negb (an_ok res) then mret None else lift (json_of f None res).
Definition cloud_getFileMetadata (path : string) : M C (option Wire.FileEntry) :=
  res ← post "/metadata" path;
  metadata_of (λ b, match b with
    | BFile f => Some ((λ '(name, path, size, modified, _), mkFile name path size (default "" modified)) <$> f)
    | _ => None
    end) res.

(** ** Recovery wrappers *)
Definition readRecoveryWrapper (locator : string) : M C (list Z) :=
  u ← lift (recoveryUrl locator);
  hs ← gets recoveryHeaders;
  res ← send (mkHttp "GET" u.1 u.2 None hs NoBody);
  if negb (an_ok res) then failure res false "Failed to read recovery wrapper" else mret (arrayBuffer res).
Definition writeRecoveryWrapper (locator : string) (data : list Z) : M C () :=
  u ← lift (recoveryUrl locator);
  hs ← gets recoveryHeaders;
  res ← send (mkHttp "PUT" u.1 u.2 None hs (ByteBody data));
  if negb (an_ok res) then failure res false "Failed to write recovery wrapper" else mret ().

(** ** Durable files *)
Definition cloud_putStoredFile (path : string) (data : Bytes) (uploadedByDeviceId sealGuard : option string)
    : M C (option StoredFileMetadata) :=
  res ← request storedFileUrl "PUT" (Some path)
          ([("Content-Type", "application/octet-stream");
            ("X-Interocitor-Device-Id", default "" uploadedByDeviceId)] ++ sealGuardHeader sealGuard)
          (ByteBody (ofBytes data));
  if negb (an_ok res) then failure res false ("Failed to upload stored file " +:+ path)
  else lift (json_of (λ b, match b with BStored f => Some (stored_info <$> f) | _ => None end) None res).
Definition cloud_getStoredFile (path : string) : M C Bytes :=
  res ← request storedFileUrl "GET" (Some path) [] NoBody;
  if negb (an_ok res) then failure res false ("Failed to read stored file " +:+ path)
  else mret (toBytes (arrayBuffer res)).
Definition cloud_deleteStoredFile (path : string) (sealGuard : option string) : M C () :=
  res ← request storedFileUrl "DELETE" (Some path) (sealGuardHeader sealGuard) NoBody;
  if negb (an_ok res) && negb (an_status res =? 404)%Z
  then failure res false ("Failed to delete stored file " +:+ path)
  else mret ().
Definition cloud_getStoredFileMetadata (path : string) : M C (option StoredFileMetadata) :=
  res ← post "/stored-file-metadata" path;
  metadata_of (λ b, match b with BStored f => Some (stored_info <$> f) | _ => None end) res.

(** The engine runs over it. *)
Definition cloud_ops : StorageOps C := {|
  isAuthenticated := cl_authenticated; authenticate := cloud_authenticate;
  ensureFolder := cloud_ensureFolder; listFiles := cloud_listFiles; readFile := cloud_readFile;
  writeFile := cloud_writeFile; deleteFile := cloud_deleteFile;
  resetFolderCache := cloud_resetFolderCache |}.
End adapter.
