(* ===== verification/Notify.v ===== *)
(** * The way of an announcement
    ([packages/workers/src/relay.ts]; [subscribeToInvalidations] of [adapters/cloudflare.ts])

    The object that sends a mesh's announcements to its sockets, and the subscription of a device that
    keeps a socket to it.  Both are driven by the event loop: requests, timers at their deadlines, sockets that come
    and go.  Which sends and constructions throw is an argument of the step. *)

From S2P Require Import Prelude JsString Hlc Values JsMap LocalStore Octets Encryption StoredFile.
From S2P Require Import Wire Crdt Convergence Observation Adapter Codec Session MergeStore Manifest Flush Pull.
From S2P Require Import Compaction ChangeEffects LocalWrites Promises Engine Relay Files Ids Routes RowStore Worker Cloudflare.
From Stdlib Require Import Ascii Sorted.
From Stdlib Require String.

Open Scope stdpp_scope.
Open Scope Z_scope.

(** ** The relay object *)
Definition RELAY_BROADCAST_BATCH_DELAY_MS : Z := 1000.

(** [ro_timer] is the deadline of the armed timer.  The sockets are those of [ctx.getWebSockets()]; [ro_sent] is what they
    were sent and [ro_closes] the closings asked for, the last first. *)
Record RelayObject := mkRelayObject {
  ro_payload : option string; ro_timer : option Z; ro_sockets : list nat;
  ro_sent : list (nat * string); ro_closes : list nat }.
Definition new_object : RelayObject := mkRelayObject None None [] [] [].
Inductive RelayAnswer :=
  | Upgraded (ws : nat)
  | Queued
  | RelayStatus (connected : nat) (pendingBroadcast : bool)
  | Cleared (n : nat)
  | Denied (status : Z).

Section relay_object.
(** Sends and closings that the platform accepts. *)
Variable accepts : nat → bool.

Definition flushPendingBroadcast (o : RelayObject) : (nat * nat * nat) * RelayObject :=
  let sockets := ro_sockets o in
  match opt_truthy (ro_payload o) with
  | None => ((length sockets, 0, 0)%nat, mkRelayObject None None sockets (ro_sent o) (ro_closes o))
  | Some payload =>
      let got := List.filter accepts sockets in
      ((length sockets, length got, length sockets - length got)%nat,
       mkRelayObject None None sockets (rev ((λ ws, (ws, payload)) <$> got) ++ ro_sent o) (ro_closes o))
  end.
Definition scheduleBroadcastFlush (now : Z) (o : RelayObject) : RelayObject :=
  match ro_timer o with
  | Some _ => o
  | None => mkRelayObject (ro_payload o) (Some (now + RELAY_BROADCAST_BATCH_DELAY_MS)) (ro_sockets o)
              (ro_sent o) (ro_closes o)
  end.
Definition resetRelay (o : RelayObject) : nat * RelayObject :=
  (length (ro_sockets o),
   mkRelayObject None None (ro_sockets o) (ro_sent o) (rev (List.filter accepts (ro_sockets o)) ++ ro_closes o)).
(** [fetch]; a new socket has the number [ws]. *)
Definition relay_fetch (now : Z) (pathname : string) (upgrade : option string) (text : string) (ws : nat)
    (o : RelayObject) : RelayAnswer * RelayObject :=
  if String.eqb pathname "/__connect" then
    if negb (bool_decide (upgrade = Some "websocket")) then (Denied 426, o)
    else (Upgraded ws, mkRelayObject (ro_payload o) (ro_timer o) (ro_sockets o ++ [ws]) (ro_sent o) (ro_closes o))
  else if String.eqb pathname "/__broadcast" then
    (Queued, scheduleBroadcastFlush now
               (mkRelayObject (Some text) (ro_timer o) (ro_sockets o) (ro_sent o) (ro_closes o)))
  else if String.eqb pathname "/__status" then
    (RelayStatus (length (ro_sockets o)) (bool_decide (is_Some (ro_payload o))), o)
  else if String.eqb pathname "/__reset" then (let '(n, o) := resetRelay o in (Cleared n, o))
  else (Denied 404, o).
(** The callbacks of the runtime: a message and a closing are ignored, an error closes the socket. *)
Definition webSocketError (ws : nat) (o : RelayObject) : RelayObject :=
  if accepts ws then mkRelayObject (ro_payload o) (ro_timer o) (ro_sockets o) (ro_sent o) (ws :: ro_closes o) else o.
End relay_object.

(** What happens to it; [OGone]: the runtime forgets a socket. *)
Inductive object_event :=
  | OFetch (pathname : string) (upgrade : option string) (text : string) (ws : nat)
  | OTimer | OError (ws : nat) | OGone (ws : nat).
Inductive object_step (now : Z) : object_event → RelayObject → RelayObject → Prop :=
  | object_fetch accepts p u t ws o : object_step now (OFetch p u t ws) o (relay_fetch accepts now p u t ws o).2
  | object_timer accepts d o : ro_timer o = Some d → d ≤ now → object_step now OTimer o (flushPendingBroadcast accepts o).2
  | object_error accepts ws o : object_step now (OError ws) o (webSocketError accepts ws o)
  | object_gone ws o : object_step now (OGone ws) o
      (mkRelayObject (ro_payload o) (ro_timer o) (List.filter (λ w, negb (w =? ws)%nat) (ro_sockets o)) (ro_sent o) (ro_closes o)).
(** A history, the last event first. *)
Inductive object_run : list (Z * object_event) → RelayObject → Prop :=
  | object_new : object_run [] new_object
  | object_next l o now ev o' : object_run l o → object_step now ev o o' → object_run ((now, ev) :: l) o'.
(** The broadcasts since the timer last fired and the last reset. *)
Fixpoint waiting (l : list (Z * object_event)) : list (Z * string) :=
  match l with
  | [] => []
  | (now, OFetch p _ text _) :: l =>
      if String.eqb p "/__broadcast" then (now, text) :: waiting l
      else if String.eqb p "/__reset" then [] else waiting l
  | (_, OTimer) :: _ => []
  | _ :: l => waiting l
  end.

Fixpoint oldest (w : list (Z * string)) : option Z :=
  match w with [] => None | b :: w => match oldest w with Some t => Some t | None => Some b.1 end end.
Lemma oldest_some w : w ≠ [] → is_Some (oldest w).
Proof. destruct w as [|b w]; [done|]. intros _. cbn. destruct (oldest w); by eexists. Qed.

Lemma relay_batches l o : object_run l o →
  ro_payload o = match waiting l with [] => None | (_, text) :: _ => Some text end ∧
  ro_timer o = match oldest (waiting l) with Some t => Some (t + RELAY_BROADCAST_BATCH_DELAY_MS) | None => None end.
Proof.
  induction 1 as [|l o now ev o' _ [Hp Ht] Hs]; [done|]. destruct Hs as [a p u t ws o|a d o E _|a ws o|ws o]; cbn [waiting].
  - unfold relay_fetch. destruct (String.eqb_spec p "/__connect") as [->|_].
    { cbn. by destruct (negb _). }
    destruct (String.eqb p "/__broadcast"); cbn [snd].
    + unfold scheduleBroadcastFlush. cbn. rewrite Ht. destruct (oldest (waiting l)) as [t0|] eqn:Eo; cbn; by rewrite ?Eo.
    + destruct (String.eqb_spec p "/__status") as [->|_]; [done|]. by destruct (String.eqb p "/__reset").
  - unfold flushPendingBroadcast. by destruct (opt_truthy _).
  - unfold webSocketError. by destruct (a ws).
  - done.
Qed.
Lemma flush_sends accepts o p ws : opt_truthy (ro_payload o) = Some p → ws ∈ ro_sockets o → accepts ws = true →
  (ws, p) ∈ ro_sent (flushPendingBroadcast accepts o).2.
Proof.
  intros Hp Hw Ha. unfold flushPendingBroadcast. rewrite Hp. cbn. apply elem_of_app. left.
  rewrite list_elem_of_In, <- in_rev, <- list_elem_of_In. apply list_elem_of_fmap. exists ws. split; [done|].
  by rewrite list_elem_of_In, List.filter_In, <- list_elem_of_In.
Qed.

(** ** The subscription of a device *)
Definition INITIAL_BACKOFF_MS : Z := 1000.
Definition MAX_BACKOFF_MS : Z := 30000.
Definition MAX_FAILED_UPGRADES : Z := 5.
Definition COOLDOWN_MS : Z := 60 * 60 * 1000.

(** The hooks and the callback, as they are called. *)
Inductive heard := HReady | HError | HClose | HInvalidate (payload : jsval).
(** The sockets that live, each with its [opened]; the armed timers, at whose deadline [connect] runs; [sb_attempts]
    has the times at which a socket was constructed, the last first. *)
Record Subscription := mkSubscription {
  sb_cancelled : bool; sb_ws : option nat; sb_backoffMs : Z; sb_failedUpgradeStreak : Z;
  sb_sockets : list (nat * bool); sb_timers : list Z; sb_fresh : nat; sb_attempts : list Z; sb_heard : list heard }.

Definition hear (h : heard) (s : Subscription) : Subscription :=
  mkSubscription (sb_cancelled s) (sb_ws s) (sb_backoffMs s) (sb_failedUpgradeStreak s) (sb_sockets s) (sb_timers s)
    (sb_fresh s) (sb_attempts s) (h :: sb_heard s).
Definition set_streak (n : Z) (s : Subscription) : Subscription :=
  mkSubscription (sb_cancelled s) (sb_ws s) (sb_backoffMs s) n (sb_sockets s) (sb_timers s)
    (sb_fresh s) (sb_attempts s) (sb_heard s).
Definition set_backoff (n : Z) (s : Subscription) : Subscription :=
  mkSubscription (sb_cancelled s) (sb_ws s) n (sb_failedUpgradeStreak s) (sb_sockets s) (sb_timers s)
    (sb_fresh s) (sb_attempts s) (sb_heard s).
Definition arm (d : Z) (s : Subscription) : Subscription :=
  mkSubscription (sb_cancelled s) (sb_ws s) (sb_backoffMs s) (sb_failedUpgradeStreak s) (sb_sockets s) (d :: sb_timers s)
    (sb_fresh s) (sb_attempts s) (sb_heard s).
Definition set_sockets (l : list (nat * bool)) (s : Subscription) : Subscription :=
  mkSubscription (sb_cancelled s) (sb_ws s) (sb_backoffMs s) (sb_failedUpgradeStreak s) l (sb_timers s)
    (sb_fresh s) (sb_attempts s) (sb_heard s).
Definition set_timers (l : list Z) (s : Subscription) : Subscription :=
  mkSubscription (sb_cancelled s) (sb_ws s) (sb_backoffMs s) (sb_failedUpgradeStreak s) (sb_sockets s) l
    (sb_fresh s) (sb_attempts s) (sb_heard s).

Definition scheduleReconnect (now : Z) (s : Subscription) : Subscription :=
  if sb_cancelled s then s
  else set_backoff (Z.min (sb_backoffMs s * 2) MAX_BACKOFF_MS) (arm (now + sb_backoffMs s) s).
(** [constructed]: [notifyUrl] and [new WebSocket] did not throw. *)
Definition connect_socket (now : Z) (constructed : bool) (s : Subscription) : Subscription :=
  if sb_cancelled s then s
  else if constructed
  then mkSubscription (sb_cancelled s) (Some (sb_fresh s)) (sb_backoffMs s) (sb_failedUpgradeStreak s)
         ((sb_fresh s, false) :: sb_sockets s) (sb_timers s) (S (sb_fresh s)) (now :: sb_attempts s) (sb_heard s)
  else scheduleReconnect now (set_streak (sb_failedUpgradeStreak s + 1) (hear HError s)).
Definition onopen (i : nat) (s : Subscription) : Subscription :=
  hear HReady (set_backoff INITIAL_BACKOFF_MS (set_streak 0
    (set_sockets ((λ '(j, opened), (j, opened || (j =? i)%nat)) <$> sb_sockets s) s))).
Definition onsocketerror (s : Subscription) : Subscription := hear HError s.
Definition onclose (now : Z) (opened : bool) (i : nat) (s : Subscription) : Subscription :=
  let s := set_sockets (List.filter (λ j : nat * bool, negb (j.1 =? i)%nat) (sb_sockets s)) s in
  let s := if opened then s else set_streak (sb_failedUpgradeStreak s + 1) s in
  if sb_cancelled s then s
  else
    let s := hear HClose s in
    if MAX_FAILED_UPGRADES <=? sb_failedUpgradeStreak s
    then arm (now + COOLDOWN_MS) (set_backoff INITIAL_BACKOFF_MS (set_streak 0 s))
    else scheduleReconnect now s.
(** The function that [subscribeToInvalidations] returns; closing the socket is the platform's. *)
Definition unsubscribe (s : Subscription) : Subscription :=
  mkSubscription true None (sb_backoffMs s) (sb_failedUpgradeStreak s) (sb_sockets s) (sb_timers s)
    (sb_fresh s) (sb_attempts s) (sb_heard s).
Definition subscribeToInvalidations (relayEnabled hasWebSocket : bool) (now : Z) (constructed : bool) : Subscription :=
  let s := mkSubscription false None INITIAL_BACKOFF_MS 0 [] [] 0 [] [] in
  if negb relayEnabled then hear HClose (unsubscribe s)
  else if negb hasWebSocket then hear HClose (hear HError (unsubscribe s))
  else connect_socket now constructed s.

(** What a message says: the payload that is handed on, if any. *)
Definition is_kind (kind : string) (v : jsval) : bool := match v with VStr s => String.eqb s kind | _ => false end.
Definition unknown_invalidation (now : Z) : jsval :=
  VObj [("type", VStr "unknown"); ("path", VStr "/"); ("ts", VNum (Num now))].
Definition onmessage `{WebCrypto} (now : Z) (data : string) : option jsval :=
  match json_parse data with
  | Throw _ | Ok VNull => Some (unknown_invalidation now)
  | Ok msg =>
      let kind := field "type" msg in
      if is_kind "invalidation" kind || is_kind "invalidate" kind || is_kind "compact" kind then Some msg else None
  end.
Definition receive `{WebCrypto} (now : Z) (data : string) (s : Subscription) : Subscription :=
  match onmessage now data with Some payload => hear (HInvalidate payload) s | None => s end.

Section subscription.
Context `{WebCrypto}.

Inductive socket_event := SFires (constructed : bool) | SOpen (i : nat) | SMessage (data : string) | SError
  | SClose (i : nat) | SUnsubscribe.
Inductive socket_step (now : Z) : socket_event → Subscription → Subscription → Prop :=
  | socket_fires constructed s l d l' : sb_timers s = l ++ d :: l' → d ≤ now →
      socket_step now (SFires constructed) s (connect_socket now constructed (set_timers (l ++ l') s))
  | socket_open i s : (i, false) ∈ sb_sockets s → socket_step now (SOpen i) s (onopen i s)
  | socket_message i data s : (i, true) ∈ sb_sockets s → socket_step now (SMessage data) s (receive now data s)
  | socket_error s : socket_step now SError s (onsocketerror s)
  | socket_close i opened s : (i, opened) ∈ sb_sockets s → socket_step now (SClose i) s (onclose now opened i s)
  | socket_unsubscribe s : socket_step now SUnsubscribe s (unsubscribe s).
(** Time does not go back; [b]: every construction succeeds. *)
Inductive socket_run (b : bool) (t0 : Z) : Z → Subscription → Prop :=
  | socket_start constructed : (b = true → constructed = true) →
      socket_run b t0 t0 (subscribeToInvalidations true true t0 constructed)
  | socket_next t s now ev s' : socket_run b t0 t s → t ≤ now → socket_step now ev s s' →
      (b = true → ev ≠ SFires false) → socket_run b t0 now s'.

Definition spaced : list Z → Prop := StronglySorted (λ later earlier, earlier + INITIAL_BACKOFF_MS ≤ later).
Record subscription_ok (b : bool) (t : Z) (s : Subscription) : Prop := {
  sok_backoff : INITIAL_BACKOFF_MS ≤ sb_backoffMs s ≤ MAX_BACKOFF_MS;
  sok_streak : b = true → sb_cancelled s = false → sb_failedUpgradeStreak s < MAX_FAILED_UPGRADES;
  sok_one : sb_cancelled s = false →
    (∃ i opened, sb_sockets s = [(i, opened)] ∧ sb_timers s = [] ∧ (opened = true → sb_failedUpgradeStreak s = 0)) ∨
    (sb_sockets s = [] ∧ ∃ d, sb_timers s = [d] ∧ d ≤ t + COOLDOWN_MS);
  sok_past a : a ∈ sb_attempts s → a ≤ t;
  sok_timer a d : a ∈ sb_attempts s → d ∈ sb_timers s → a + INITIAL_BACKOFF_MS ≤ d;
  sok_gaps : spaced (sb_attempts s) }.

Lemma ok_later b t t' s : t ≤ t' → subscription_ok b t s → subscription_ok b t' s.
Proof.
  intros Ht [Hb Hs Ho Hp Htm Hg]. split; try done.
  - intros Hc. destruct (Ho Hc) as [?|(E & d & Et & Hd)]; [by left|]. right. split; [done|]. exists d. split; [done|lia].
  - intros a Ha. specialize (Hp a Ha). lia.
Qed.
Lemma ok_hear b t h s : subscription_ok b t s → subscription_ok b t (hear h s).
Proof. intros []. by split. Qed.
Lemma ok_unsubscribe b t s : subscription_ok b t s → subscription_ok b t (unsubscribe s).
Proof. intros []. by split. Qed.
(** A retry is armed by a subscription without sockets and timers. *)
Lemma ok_arm b t s d n : INITIAL_BACKOFF_MS ≤ n ≤ MAX_BACKOFF_MS → sb_sockets s = [] → sb_timers s = [] →
  t + INITIAL_BACKOFF_MS ≤ d → d ≤ t + COOLDOWN_MS → (b = true → sb_failedUpgradeStreak s < MAX_FAILED_UPGRADES) →
  (∀ a, a ∈ sb_attempts s → a ≤ t) → spaced (sb_attempts s) → subscription_ok b t (set_backoff n (arm d s)).
Proof.
  intros Hn Hs Ht Hd Hd' Hb Hp Hg. split; cbn; try done.
  - intros E _. by apply Hb.
  - intros _. right. split; [done|]. exists d. by rewrite Ht.
  - intros a x Ha. rewrite Ht. intros ->%list_elem_of_singleton. specialize (Hp a Ha). lia.
Qed.
Lemma ok_reconnect b t s : sb_cancelled s = false → INITIAL_BACKOFF_MS ≤ sb_backoffMs s ≤ MAX_BACKOFF_MS →
  sb_sockets s = [] → sb_timers s = [] → (b = true → sb_failedUpgradeStreak s < MAX_FAILED_UPGRADES) →
  (∀ a, a ∈ sb_attempts s → a ≤ t) → spaced (sb_attempts s) → subscription_ok b t (scheduleReconnect t s).
Proof.
  intros Hc Hb. intros. unfold scheduleReconnect. rewrite Hc. unfold INITIAL_BACKOFF_MS, MAX_BACKOFF_MS, COOLDOWN_MS in *.
  apply ok_arm; unfold INITIAL_BACKOFF_MS, MAX_BACKOFF_MS, COOLDOWN_MS; try done; lia.
Qed.
Lemma ok_connect b t constructed s : sb_cancelled s = false → INITIAL_BACKOFF_MS ≤ sb_backoffMs s ≤ MAX_BACKOFF_MS →
  sb_sockets s = [] → sb_timers s = [] → (b = true → constructed = true ∧ sb_failedUpgradeStreak s < MAX_FAILED_UPGRADES) →
  (∀ a, a ∈ sb_attempts s → a + INITIAL_BACKOFF_MS ≤ t) → spaced (sb_attempts s) →
  subscription_ok b t (connect_socket t constructed s).
Proof.
  intros Hc Hb Hs Ht Hst Hp Hg. assert (∀ a, a ∈ sb_attempts s → a ≤ t) as Hp'.
  { intros a Ha. specialize (Hp a Ha). unfold INITIAL_BACKOFF_MS in Hp. lia. }
  unfold connect_socket. rewrite Hc. destruct constructed.
  - split; cbn; try done.
    + intros E _. by apply Hst.
    + intros _. left. rewrite Hs, Ht. by eexists _, false.
    + intros a [->|Ha]%elem_of_cons; [lia|by apply Hp'].
    + intros a d _. rewrite Ht. by intros ?%elem_of_nil.
    + constructor; [done|]. apply Forall_forall. intros x Hx. by apply Hp, list_elem_of_In.
  - apply ok_reconnect; try done. intros E. by destruct (Hst E).
Qed.

Lemma subscription_step_ok b t now ev s s' : t ≤ now → socket_step now ev s s' →
  (b = true → ev ≠ SFires false) → subscription_ok b t s → subscription_ok b now s'.
Proof.
  intros Htn Hs Hb Hok%(ok_later b t now); [|done]. clear Htn t. destruct Hs as [constructed s l d l' Et Hd|i s Hi|i data s Hi|s|i opened s Hi|s].
  - destruct (sb_cancelled s) eqn:Ec.
    { unfold connect_socket. cbn. rewrite Ec. destruct Hok as [Hbk Hs Ho Hp Htm Hg]. split; try done; cbn; [congruence|].
      intros a x Ha Hx. apply Htm; [done|]. rewrite Et. set_solver. }
    destruct Hok as [Hbk Hs Ho Hp Htm Hg]. destruct (Ho Ec) as [(i & o & _ & E & _)|(Es & x & E & _)]; rewrite E in Et.
    { by destruct l. }
    assert (l = [] ∧ l' = [] ∧ d = x) as (-> & -> & ->).
    { destruct l as [|y [|]]; [|done..]. by injection Et as -> <-. }
    apply ok_connect; try done.
    + intros Hbt. split; [|by apply Hs]. destruct constructed; [done|]. by specialize (Hb Hbt).
    + intros a Ha. cbn in Ha. specialize (Htm a x Ha). rewrite E in Htm. specialize (Htm (list_elem_of_here _ _)). lia.
  - destruct Hok as [Hbk Hs Ho Hp Htm Hg]. split; cbn; try done; unfold INITIAL_BACKOFF_MS, MAX_BACKOFF_MS, MAX_FAILED_UPGRADES; try lia.
    intros Hc. left. destruct (Ho Hc) as [(j & o & E & Et & _)|(E & _)]; rewrite E in Hi |- *; [|by apply elem_of_nil in Hi].
    cbn. eexists _, _. split_and!; done.
  - unfold receive. destruct (onmessage _ _); [by apply ok_hear|done].
  - by apply ok_hear.
  - destruct (sb_cancelled s) eqn:Ec.
    { unfold onclose. destruct Hok as [Hbk Hs Ho Hp Htm Hg]. destruct opened; cbn; rewrite Ec; split; cbn; try done; congruence. }
    destruct Hok as [Hbk Hs Ho Hp Htm Hg]. unfold onclose.
    destruct (Ho Ec) as [(j & o & E & Et & Hj)|(E & _)]; rewrite E in Hi |- *; [|by apply elem_of_nil in Hi].
    apply list_elem_of_singleton in Hi as [= <- <-]. cbn. rewrite Nat.eqb_refl. cbn [negb].
    set (s1 := if opened then _ else _).
    assert (sb_cancelled s1 = false ∧ sb_sockets s1 = [] ∧ sb_timers s1 = [] ∧ sb_backoffMs s1 = sb_backoffMs s ∧
      sb_attempts s1 = sb_attempts s) as (Ec1 & Es1 & Et1 & Eb1 & Ea1) by by destruct opened.
    rewrite Ec1. cbn. destruct (Z.leb_spec MAX_FAILED_UPGRADES (sb_failedUpgradeStreak s1)).
    + change (subscription_ok b now
        (set_backoff INITIAL_BACKOFF_MS (arm (now + COOLDOWN_MS) (set_streak 0 (hear HClose s1))))).
      apply ok_arm; cbn; rewrite ?Ea1; try done;
        unfold INITIAL_BACKOFF_MS, MAX_BACKOFF_MS, COOLDOWN_MS; lia.
    + apply ok_reconnect; cbn; rewrite ?Eb1, ?Ea1; done.
  - by apply ok_unsubscribe.
Qed.
Lemma subscription_run_ok b t0 t s : socket_run b t0 t s → subscription_ok b t s.
Proof.
  induction 1 as [constructed Hb|t s now ev s' _ IH Ht Hs Hb]; [|by eapply subscription_step_ok].
  unfold subscribeToInvalidations. apply ok_connect; try done.
  - intros E. split; [by apply Hb|done].
  - by intros a ?%elem_of_nil.
  - constructor.
Qed.
Lemma cancelled_is_quiet now ev s s' : sb_cancelled s = true → socket_step now ev s s' →
  sb_cancelled s' = true ∧ sb_attempts s' = sb_attempts s ∧ sb_timers s' ⊆ sb_timers s.
Proof.
  intros Hc Hs. revert Hc. destruct Hs as [constructed s l d l' Et Hd|i s Hi|i data s Hi|s|i opened s Hi|s]; intros Hc; try done.
  - unfold connect_socket. cbn. rewrite Hc. cbn. rewrite Et. split_and!; [done..|]. set_solver.
  - unfold receive. by destruct (onmessage _ _).
  - unfold onclose. destruct opened; cbn; by rewrite Hc.
Qed.

(** C26: A subscription never gives up and never hammers.  Sockets are constructed at least a second
    apart.  Until it is cancelled a subscription has one socket or one armed timer, never both and never two: an
    open socket, which a failure has not touched; a socket on its way, whose opening resets the delays and whose
    failure arms one retry, after the backoff or, at the fifth failure in a row, after an hour; or the
    retry, at most an hour away, which constructs the next socket.  Once cancelled it constructs and arms nothing. *)
Theorem subscription_keeps_trying (b : bool) (t0 t : Z) (s : Subscription) : socket_run b t0 t s →
  spaced (sb_attempts s) ∧
  (sb_cancelled s = true → ∀ now ev s', socket_step now ev s s' →
     sb_cancelled s' = true ∧ sb_attempts s' = sb_attempts s ∧ sb_timers s' ⊆ sb_timers s) ∧
  (sb_cancelled s = false → (b = true → sb_failedUpgradeStreak s < MAX_FAILED_UPGRADES) ∧
    ((∃ i, sb_sockets s = [(i, true)] ∧ sb_timers s = [] ∧ sb_failedUpgradeStreak s = 0) ∨
     (∃ i, sb_sockets s = [(i, false)] ∧ sb_timers s = [] ∧
        (sb_sockets (onopen i s) = [(i, true)] ∧ sb_heard (onopen i s) = HReady :: sb_heard s ∧
         sb_failedUpgradeStreak (onopen i s) = 0 ∧ sb_backoffMs (onopen i s) = INITIAL_BACKOFF_MS) ∧
        ∀ now, sb_sockets (onclose now false i s) = [] ∧
          sb_timers (onclose now false i s) =
            [now + if MAX_FAILED_UPGRADES <=? sb_failedUpgradeStreak s + 1 then COOLDOWN_MS else sb_backoffMs s]) ∨
     (∃ d, sb_sockets s = [] ∧ sb_timers s = [d] ∧ d ≤ t + COOLDOWN_MS ∧
        ∀ now, d ≤ now → ∃ s', socket_step now (SFires true) s s' ∧
          sb_sockets s' = [(sb_fresh s, false)] ∧ sb_timers s' = [] ∧ sb_attempts s' = now :: sb_attempts s))).
Proof.
  intros Hr%subscription_run_ok. destruct Hr as [Hbk Hs Ho Hp Htm Hg]. split_and!; [done|intros Hc *; by apply cancelled_is_quiet|].
  intros Hc. split; [intros E; by apply Hs|]. destruct (Ho Hc) as [(i & [] & E & Et & Hi)|(E & d & Et & Hd)].
  - left. exists i. split_and!; [done..|by apply Hi].
  - right. left. exists i. split_and!; [done|done|cbn; rewrite E; cbn; by rewrite Nat.eqb_refl|done..|].
    intros now. unfold onclose. cbn. rewrite Hc, E. cbn. rewrite Nat.eqb_refl. cbn.
    destruct (Z.leb_spec MAX_FAILED_UPGRADES (sb_failedUpgradeStreak s + 1)); cbn; [by rewrite Et|].
    unfold scheduleReconnect. cbn. rewrite Hc. cbn. by rewrite Et.
  - right. right. exists d. split_and!; [done..|]. intros now Hn.
    eexists. split; [by apply (socket_fires now true s [] d [])|].
    unfold connect_socket. cbn. rewrite Hc. cbn. by rewrite E.
Qed.

(** ** From a write to a pull *)

(** What [worker.ts] announces: a write with the kind of its path, or a deletion. *)
Definition invalidation_payload (op path : string) (pathType : option string) (ts : Z) : jsval :=
  VObj ([("type", VStr "invalidation"); ("op", VStr op); ("path", VStr path)] ++
        match pathType with Some ty => [("pathType", VStr ty)] | None => [] end ++ [("ts", VNum (Num ts))]).
Definition announced (text : string) : Prop :=
  text ≠ "" ∧ ∃ op path pathType ts, text = json_stringify (invalidation_payload op path pathType ts).
Lemma onmessage_announced now op path pathType ts :
  onmessage now (json_stringify (invalidation_payload op path pathType ts)) =
  Some (invalidation_payload op path pathType ts).
Proof. unfold onmessage. rewrite json_roundtrip by by destruct pathType. done. Qed.

(** C24: An announced change is pulled.  While announcements of the worker wait at the relay object, it
    holds the latest of them and a timer, due a second after the earliest.  When the timer
    fires every socket that takes a message is sent that announcement; the subscription at its other end
    hands it to the engine, and an engine that is connected then owes a pull. *)
Theorem announced_changes_reach_the_engine (l : list (Z * object_event)) (o : RelayObject) : object_run l o →
  waiting l ≠ [] → Forall (λ b, announced b.2) (waiting l) →
  ∃ t v, oldest (waiting l) = Some t ∧ head (waiting l) = Some (v.1, json_stringify v.2) ∧
    ro_timer o = Some (t + RELAY_BROADCAST_BATCH_DELAY_MS) ∧ ro_payload o = Some (json_stringify v.2) ∧
    ∀ accepts now ws, t + RELAY_BROADCAST_BATCH_DELAY_MS ≤ now → ws ∈ ro_sockets o → accepts ws = true →
      let o' := (flushPendingBroadcast accepts o).2 in
      object_step now OTimer o o' ∧ (ws, json_stringify v.2) ∈ ro_sent o' ∧
      ∀ later (s : Subscription) (r : Relay),
        receive later (json_stringify v.2) s = hear (HInvalidate v.2) s ∧
        (rl_connected r = true → rl_missed (invalidation later r) = true).
Proof.
  intros Hr Hw Ha. destruct (relay_batches l o Hr) as [Hp Ht]. destruct (oldest_some _ Hw) as [t Eo]. rewrite Eo in Ht.
  destruct (waiting l) as [|[t1 text] w] eqn:Ew; [done|]. apply List.Forall_inv in Ha as [Hne (op & path & ty & ts & E)].
  cbn in Hne, E. subst text. exists t, (t1, invalidation_payload op path ty ts). split_and!; [done..|].
  intros accepts now ws Hn Hws Hacc. split_and!.
  - by apply (object_timer now accepts _ o Ht).
  - apply flush_sends; [|done..]. rewrite Hp. unfold opt_truthy. by destruct (json_stringify _).
  - intros later s r. unfold receive. cbn [snd]. rewrite onmessage_announced. split; [done|]. intros Hc.
    unfold invalidation, scheduleInvalidationPull. cbn. rewrite Hc. by destruct (rl_timer r).
Qed.
End subscription.

(** ** Runs *)
#[local] Existing Instance toy_crypto.
(** Two failed upgrades, then a socket that opens. *)
Definition trial_started : Subscription := subscribeToInvalidations true true 0 true.
Definition trial_failed : Subscription := onclose 0 false 0 trial_started.
Definition trial_second : Subscription := connect_socket 1000 true (set_timers [] trial_failed).
Definition trial_failed_again : Subscription := onclose 1001 false 1 trial_second.
Definition trial_third : Subscription := connect_socket 3001 true (set_timers [] trial_failed_again).
Definition trial_subscription : Subscription := onopen 2 trial_third.
Lemma trial_subscription_run : socket_run true 0 3001 trial_subscription.
Proof.
  assert (socket_run true 0 0 trial_failed) as H1.
  { apply (socket_next true 0 0 trial_started 0 (SClose 0)); [by apply socket_start|done| |done].
    apply (socket_close 0 0 false). by left. }
  assert (socket_run true 0 1000 trial_second) as H2.
  { apply (socket_next true 0 0 trial_failed 1000 (SFires true)); [done..| |done].
    by apply (socket_fires 1000 true trial_failed [] 1000 []). }
  assert (socket_run true 0 1001 trial_failed_again) as H3.
  { apply (socket_next true 0 1000 trial_second 1001 (SClose 1)); [done..| |done].
    apply (socket_close 1001 1 false). by left. }
  assert (socket_run true 0 3001 trial_third) as H4.
  { apply (socket_next true 0 1001 trial_failed_again 3001 (SFires true)); [done..| |done].
    by apply (socket_fires 3001 true trial_failed_again [] 3001 []). }
  apply (socket_next true 0 3001 trial_third 3001 (SOpen 2)); [done..| |done]. apply socket_open. by left.
Qed.
Lemma subscription_keeps_trying_witness :
  sb_attempts trial_subscription = [3001; 1000; 0] ∧ spaced [3001; 1000; 0] ∧
  sb_failedUpgradeStreak trial_subscription < MAX_FAILED_UPGRADES.
Proof.
  destruct (subscription_keeps_trying true 0 3001 trial_subscription trial_subscription_run) as (Hs & _ & Hl).
  split; [done|]. split; [exact Hs|]. exact (proj1 (Hl eq_refl) eq_refl).
Defined.

(** A socket that cannot be constructed at all is tried every thirty seconds: only the failure of an upgrade
    is followed by the long pause. *)
Fixpoint never_constructed (n : nat) (s : Subscription) : Subscription :=
  match n with
  | O => s
  | S n => let s := never_constructed n s in
           match sb_timers s with d :: l => connect_socket d false (set_timers l s) | [] => s end
  end.
Lemma constructor_failures_never_cool_down n :
  let s := never_constructed (n + 5) (subscribeToInvalidations true true 0 false) in
  sb_failedUpgradeStreak s = Z.of_nat n + 6 ∧ ∃ d, sb_timers s = [d + MAX_BACKOFF_MS].
Proof.
  assert (∀ n, let s := never_constructed (n + 5) (subscribeToInvalidations true true 0 false) in
    sb_cancelled s = false ∧ sb_backoffMs s = MAX_BACKOFF_MS ∧
    sb_failedUpgradeStreak s = Z.of_nat n + 6 ∧ ∃ d, sb_timers s = [d + MAX_BACKOFF_MS]) as Hn; [|apply Hn].
  clear n. induction n as [|n (Hc & Hb & Hs & d & Ht)]; [by split_and!; [..|exists 31000]|].
  change (S n + 5)%nat with (S (n + 5)). cbn [never_constructed]. cbv zeta.
  set (s := never_constructed (n + 5) _) in *. cbv zeta in *. rewrite Ht. unfold connect_socket. cbn. rewrite Hc.
  unfold scheduleReconnect. cbn. rewrite Hc. cbn. rewrite Hb, Hs. split_and!; [done|done|lia|by eexists].
Qed.

(** A write and a deletion within the second. *)
Definition trial_text (op path : string) : string := json_stringify (invalidation_payload op path None 7).
Definition trial_object_run : list (Z * object_event) :=
  [(400, OFetch "/__broadcast" None (trial_text "delete" "/b") 0); (0, OFetch "/__broadcast" None (trial_text "write" "/a") 0);
   (0, OFetch "/__connect" (Some "websocket") "" 3)].
Definition trial_object : RelayObject := mkRelayObject (Some (trial_text "delete" "/b")) (Some 1000) [3%nat] [] [].
Lemma announced_changes_reach_the_engine_witness : ∃ v,
  (3%nat, json_stringify v) ∈ ro_sent (flushPendingBroadcast (λ _, true) trial_object).2 ∧
  rl_missed (invalidation 1001 (setConnected true new_relay)) = true.
Proof.
  assert (object_run trial_object_run trial_object) as Hr.
  { eapply object_next; [eapply object_next; [eapply object_next; [apply object_new|]|]|];
      apply (object_fetch _ (λ _, true)). }
  destruct (announced_changes_reach_the_engine trial_object_run trial_object Hr) as (t & v & Et & _ & _ & _ & Hf); [done| |].
  { repeat constructor; try done; by eexists _, _, None, 7. }
  exists v.2. injection Et as <-. destruct (Hf (λ _, true) 1000 3%nat) as (_ & Hin & Hl); [done|by left|done|].
  split; [exact Hin|]. by apply (Hl 1001 trial_subscription).
Defined.
