(* ===== verification/CloudMesh.v ===== *)
(** * Devices on the mesh server
    ([adapters/cloudflare.ts] over [workers/worker.ts])

    The adapter of [Cloudflare.v] with the server of [Worker.v] behind its [fetch]: what the storage
    contract of [Adapter.v] becomes there, and where it does not hold. *)

From S2P Require Import Prelude JsString Hlc Values JsMap LocalStore Octets Encryption StoredFile.
From S2P Require Import Wire Crdt Convergence Observation Adapter Codec Session MergeStore Manifest Flush Pull.
From S2P Require Import Compaction ChangeEffects LocalWrites Promises Engine Files Ids Routes RowStore Worker.
From S2P Require Import Requests Cloudflare OctetDocs.
From Stdlib Require Import Ascii.
From Stdlib Require String.

Open Scope stdpp_scope.

(** ** The network *)

(** What happens to a request: it is answered, it is lost before the server sees it, or its answer is lost. *)
Inductive Fault := Delivered | NotSent | NoAnswer.
(** What the [i]-th request of the device meets at the server. *)
Record Network := mkNetwork {
  nw_tick : nat → Tick; nw_uuid : nat → string; nw_random : nat → list Z; nw_fault : nat → Fault;
  nw_number : string → jsnum; nw_date : string → jsnum; nw_octets : Body → list Z }.
Record Link (B : Type) := mkLink { lk_world : World B; lk_sent : nat }.
Arguments mkLink {_} _ _.
Arguments lk_world {_} _.
Arguments lk_sent {_} _.

Section link.
Context `{WebCrypto} `{IsoClock} {B : Type} `{!FileBodyStore B} (host : Host) (net : Network).

(** The body as the server reads it: its octets, and the document they spell, an empty object when they do not. *)
Definition body_octets (b : HttpBody) : list Z :=
  match b with NoBody => [] | JsonBody v => utf8_encode (json_stringify v) | ByteBody b => b end.
Definition body_json (b : HttpBody) : jsval :=
  match b with
  | NoBody => VObj []
  | JsonBody v => v
  | ByteBody b => match json_parse (utf8_decode b) with Ok v => v | Throw _ => VObj [] end
  end.
Definition at_server (i : nat) (rq : HttpRequest) : Request :=
  mkRequest (ht_method rq) (ht_pathname rq) (ht_path rq) (λ h, assoc h (ht_headers rq))
    (Some (body_octets (ht_body rq))) (body_json (ht_body rq)) (nw_tick net i) (nw_uuid net i) (nw_random net i).
(** A handler that throws is a response with status 500. *)
Definition answer (r : result Response) : Answer :=
  mkAnswer (match r with Ok x => x | Throw _ => emptyResponse 500 end) None.
Definition link_fetch (rq : HttpRequest) : M (Link B) Answer := λ l,
  let i := lk_sent l in
  let lost : result Answer := Throw (JsError "Failed to fetch") in
  match nw_fault net i with
  | NotSent => (lost, mkLink (lk_world l) (S i))
  | NoAnswer => (lost, mkLink (worker_fetch host (at_server i rq) (lk_world l)).2 (S i))
  | Delivered => let '(r, w) := worker_fetch host (at_server i rq) (lk_world l) in (Ok (answer r), mkLink w (S i))
  end.
Definition link_net : Fetch (Link B) := {|
  fetch := link_fetch; textNumber := nw_number net; textDate := nw_date net; bodyOctets := nw_octets net |}.
End link.

(** ** Addresses and routes *)
Definition plain_segment (s : string) : Prop :=
  s ≠ "" ∧ free_of "/" s = true ∧ str_forall (λ c, printable c && negb (Ascii.eqb c "%")) s = true.

Lemma percent_plain s : str_forall (λ c, printable c && negb (Ascii.eqb c "%")) s = true →
  percent_decode s = Some s ∧ utf8_valid s = true.
Proof.
  induction s as [|c s IH]; [done|]. cbn [str_forall]. intros [[Hp Hc]%andb_true_iff Hs]%andb_true_iff.
  destruct (IH Hs) as [E U]. cbn [percent_decode utf8_valid].
  apply negb_true_iff in Hc. rewrite Hc, E. split; [done|].
  unfold in_range, printable in *. apply andb_true_iff in Hp as [H1%Z.leb_le H2%Z.ltb_lt].
  destruct (Z.leb_spec 0 (char_code c)); [|lia]. destruct (Z.leb_spec (char_code c) 127); [|lia]. done.
Qed.
Lemma plain_decode s : plain_segment s → decodeURIComponent s = Ok s.
Proof. intros (_ & _ & Hs). unfold decodeURIComponent. by destruct (percent_plain s Hs) as [-> ->]. Qed.

Definition IO_OPS : list string :=
  ["health"; "file"; "metadata"; "stored-file"; "stored-file-metadata"; "ensure-folder"; "list-files"; "list-folders"].
Lemma io_op_plain op : op ∈ IO_OPS → plain_segment op.
Proof. intros Hop. unfold IO_OPS in Hop. repeat (apply elem_of_cons in Hop as [->|Hop]; [done|]). by apply elem_of_nil in Hop. Qed.

Definition io_path (address op : string) : string := IO_PREFIX +:+ "/" +:+ address +:+ "/" +:+ op.
Lemma parse_io address op : plain_segment address → op ∈ IO_OPS → parseIo (io_path address op) = Ok (address, op).
Proof.
  intros Ha Hop%io_op_plain. unfold parseIo, io_path, after_prefix.
  replace (IO_PREFIX +:+ "/" +:+ address +:+ "/" +:+ op) with ((IO_PREFIX +:+ "/") +:+ (address +:+ "/" +:+ op))
    by by rewrite !str_app_assoc.
  replace (Z.of_nat (String.length IO_PREFIX) + 1)%Z with (Z.of_nat (String.length (IO_PREFIX +:+ "/"))) by done.
  rewrite slice_from_app. unfold segments. destruct Ha as (Ha & Fa & Pa), Hop as (Ho & Fo & Po).
  change ("/" +:+ op) with (String "/" op). rewrite (split_app "/" address op Fa), (split_free "/" op Fo). cbn [List.filter].
  assert (∀ s, s ≠ "" → truthy s = true) as Ht by (by intros []).
  rewrite (Ht address Ha), (Ht op Ho). cbn -[decodeURIComponent].
  by rewrite (plain_decode address), (plain_decode op).
Qed.

Section mesh.
Context `{Platform} `{!ByteView} `{WebCrypto} `{IsoClock} {B : Type} `{!FileBodyStore B}.
Context (host : Host) (net : Network) (cfg : CloudflareAdapterConfig) (address mesh : string).
#[local] Instance mesh_fetch : Fetch (Link B) := link_net host net.
Notation C := (CloudflareAdapter (Link B)).
Implicit Types (c : C) (w : World B) (rq : Request).

(** An absolute base URL, at an address that the server resolves and whose middleware lets the device through. *)
Record reaches : Prop := mkReaches {
  re_origin : is_Some (co_origin cfg);
  re_base : co_pathname cfg = IO_PREFIX +:+ "/" +:+ address;
  re_address : plain_segment address;
  re_route rq access : ∃ route, resolvePublicMeshRoute host address rq Io access = inl route ∧ canonicalAddress route = mesh;
  re_layers context (terminal : M (World B) Response) w : runMeshMiddleware host context terminal w = terminal w }.

Lemma plain_end a : plain_segment a → trim_slash (IO_PREFIX +:+ "/" +:+ a) = IO_PREFIX +:+ "/" +:+ a.
Proof.
  intros (Hne & Hf & _). unfold trim_slash. assert (endsWith (IO_PREFIX +:+ "/" +:+ a) "/" = false) as ->; [|done].
  unfold IO_PREFIX. cbn [String.append]. rewrite !str_app_cons, str_app_nil_l. rewrite !endsWith_cons by (by destruct a).
  destruct (endsWith a "/") eqn:E; [|done]. apply endsWith_split in E. rewrite E, free_of_app, andb_false_r in Hf. done.
Qed.
Lemma io_url (Hr : reaches) op : op ∈ IO_OPS → ioUrl cfg ("/" +:+ op) = Ok (co_origin cfg, io_path address op).
Proof.
  intros Hop. unfold ioUrl, ioBaseUrl, parseBaseUrl. rewrite (re_base Hr), plain_end by apply Hr.
  assert (includes (IO_PREFIX +:+ "/" +:+ address) "/io/" = true) as ->.
  { change (IO_PREFIX +:+ "/" +:+ address) with ("/io/" +:+ address). unfold includes, indexOf.
    change (str_drop (Z.to_nat (Z.max 0 0)) ("/io/" +:+ address)) with ("/io/" +:+ address).
    destruct (index_of_le "/io/" "" address) as (i & E & _). rewrite str_app_nil_l in E. rewrite E. cbn.
    apply negb_true_iff, Z.eqb_neq. lia. }
  cbn [mbind result_bind]. rewrite plain_end by apply Hr. unfold startsWith. rewrite prefix_app.
  unfold io_path. by rewrite !str_app_assoc.
Qed.
Lemma io_dispatch op : let path := io_path address op in
  String.eqb path "/" = false ∧ String.eqb path "/health" = false ∧
  startsWith path (NOTIFY_PREFIX +:+ "/") = false ∧ startsWith path (IO_PREFIX +:+ "/") = true.
Proof.
  unfold io_path, startsWith. change (IO_PREFIX +:+ "/" +:+ address +:+ "/" +:+ op) with ("/io/" +:+ address +:+ "/" +:+ op).
  split_and!; try done. apply (prefix_app "/io/").
Qed.

(** Such a request runs the handler of its route. *)
Lemma request_served (Hr : reaches) op rq access :
  op ∈ IO_OPS → rq_pathname rq = io_path address op → toUpperCase (rq_method rq) ≠ "OPTIONS" →
  ioRequestAccess op (toUpperCase (rq_method rq)) = Some access →
  ∃ route, canonicalAddress route = mesh ∧
    ∀ w, worker_fetch (B := B) host rq w = io_terminal host op (toUpperCase (rq_method rq)) route rq w.
Proof.
  intros Hop Hp Ho Ha. destruct (re_route Hr rq access) as (route & Er & Hc). exists route. split; [done|]. intros w.
  unfold worker_fetch. rewrite Hp. apply String.eqb_neq in Ho as ->.
  destruct (io_dispatch op) as (-> & -> & -> & ->). cbn [orb].
  unfold handleIoRequest. rewrite Hp, parse_io by (done || apply Hr). unfold mbind, M_bind, lift.
  rewrite Ha, Er. apply Hr.
Qed.

(** ** One exchange *)
Definition world_of c : World B := lk_world (cl_net c).
Definition with_world c w : C :=
  mkCloud (cl_token c) (cl_authenticated c) (cl_ensuredFolders c) (mkLink w (S (lk_sent (cl_net c)))).
Definition fault_of c : Fault := nw_fault net (lk_sent (cl_net c)).
Definition lost : error := JsError "Failed to fetch".
(** The server's run of [m], as the device sees it. *)
Inductive exchanged (m : M (World B) Response) c : result Answer → C → Prop :=
  | lost_request : fault_of c = NotSent → exchanged m c (Throw lost) (with_world c (world_of c))
  | lost_answer r w' : fault_of c = NoAnswer → m (world_of c) = (r, w') → exchanged m c (Throw lost) (with_world c w')
  | answered r w' : fault_of c = Delivered → m (world_of c) = (r, w') → exchanged m c (Ok (answer r)) (with_world c w').

Lemma send_exchanged (m : M (World B) Response) h c r c' :
  (∀ w, worker_fetch host (at_server net (lk_sent (cl_net c)) h) w = m w) →
  send h c = (r, c') → exchanged m c r c'.
Proof.
  intros Hm. unfold send. cbn [fetch mesh_fetch link_net]. unfold link_fetch. fold (fault_of c).
  rewrite !Hm. fold (world_of c). destruct (fault_of c) eqn:Ef; destruct (m (world_of c)) as [x w] eqn:Em; cbn;
    intros [= <- <-]; by econstructor.
Qed.
(** A request to a route of the mesh is an exchange with its handler. *)
Lemma request_exchanged (Hr : reaches) op method url path extra body access c r c' :
  url = Ok (co_origin cfg, io_path address op) → op ∈ IO_OPS →
  toUpperCase method = method → method ≠ "OPTIONS" → ioRequestAccess op method = Some access →
  request url method path extra body c = (r, c') →
  ∃ route rq, canonicalAddress route = mesh ∧ rq_path rq = path ∧ rq_bytes rq = Some (body_octets body) ∧
    rq_json rq = body_json body ∧ rq_tick rq = nw_tick net (lk_sent (cl_net c)) ∧
    (∀ h, rq_header rq h = assoc h (headers c extra)) ∧
    exchanged (io_terminal host op method route rq) c r c'.
Proof.
  intros -> Hop Hm Ho Ha. unfold request, mbind, M_bind, lift, gets. cbn [fst snd]. intros E.
  set (h := mkHttp _ _ _ _ _ _) in E. set (rq := at_server net (lk_sent (cl_net c)) h).
  destruct (request_served Hr op rq access) as (route & Hroute & Hs); [done|done|cbn; by rewrite Hm|cbn; by rewrite Hm|].
  exists route, rq. split_and!; try done. eapply send_exchanged; [|exact E]. intros w. fold rq. rewrite Hs. cbn. by rewrite Hm.
Qed.
(** What holds of the world the server leaves, and of the world nothing has reached, holds afterwards. *)
Lemma exchanged_world (P : World B → Prop) m c r c' :
  exchanged m c r c' → P (world_of c) → (∀ x w', m (world_of c) = (x, w') → P w') → P (world_of c').
Proof. intros [] H0' Hm; [done|by eapply Hm..]. Qed.

(** ** The objects of the mesh *)
Definition content_at (s : Server) (n : string) : option (list Z) := fr_content <$> files s !! (mesh, n).
(** A cached manifest is the stored one. *)
Definition coherent (s : Server) : Prop := ∀ ca n e x, sv_cache s = Some ca → normal_path n →
  classifyPath n = MANIFEST_SNAPSHOT → ca_files ca !! cacheKeyFor mesh n = Some (e, x) → content_at s n = Some (ca_bytes e).

Lemma cacheable ty : isCacheableImmutablePathType ty = true ↔ ty = MANIFEST_SNAPSHOT.
Proof. apply bool_decide_eq_true. Qed.
Lemma mesh_keys n n' : normal_path n → normal_path n' → cacheKeyFor mesh n = cacheKeyFor mesh n' → n = n'.
Proof. intros (Hn & _) (Hn' & _) E%cache_keys. rewrite !absolute_id in E by done. apply E. Qed.
Lemma coherent_cached t n s e : coherent s → normal_path n →
  cached_file t mesh n (classifyPath n) s = Some e → content_at s n = Some (ca_bytes e).
Proof.
  intros Hc Hn. unfold cached_file. destruct (isCacheableImmutablePathType _) eqn:Et; [|done]. apply cacheable in Et.
  destruct (sv_cache s) as [ca|] eqn:Ec; [|done]. cbn. unfold unexpired.
  destruct (ca_files ca !! _) as [[a x]|] eqn:Ea; [|done]. case_match; [|done]. intros [= ->]. by eapply Hc.
Qed.
(** Entries may go, and files may change where nothing is cached. *)
Lemma coherent_fewer s s' : coherent s →
  (∀ n, content_at s' n ≠ content_at s n → classifyPath n ≠ MANIFEST_SNAPSHOT) →
  (∀ ca', sv_cache s' = Some ca' → ∃ ca, sv_cache s = Some ca ∧ ca_files ca' ⊆ ca_files ca) → coherent s'.
Proof.
  intros Hc Hf Hs ca' n e x Eca Hn Ht He. destruct (Hs ca' Eca) as (ca & Ec & Hsub).
  destruct (decide (content_at s' n = content_at s n)) as [->|Hne]; [|by apply Hf in Hne].
  eapply Hc; [done..|]. by eapply lookup_weaken.
Qed.
(** A new entry for a stored manifest. *)
Lemma coherent_entry s s' n b etag modified x : coherent s → normal_path n → content_at s' n = Some b →
  (∀ q, q ≠ n → content_at s' q = content_at s q) →
  (∀ ca', sv_cache s' = Some ca' → ∃ ca, sv_cache s = Some ca ∧
     ca_files ca' = <[cacheKeyFor mesh n := (mkCached b etag modified, x)]> (ca_files ca)) → coherent s'.
Proof.
  intros Hc Hn Hb Hq Hs ca' q e y Eca Hqn Ht. destruct (Hs ca' Eca) as (ca & Ec & ->).
  destruct (decide (q = n)) as [->|Hne].
  - rewrite lookup_insert_eq. by intros [= <- _].
  - rewrite lookup_insert_ne, Hq by (try done; intros E; by apply mesh_keys in E). intros He. by eapply Hc.
Qed.
Lemma content_same s s' : files s' = files s → ∀ n, content_at s' n = content_at s n.
Proof. intros E n. unfold content_at. by rewrite E. Qed.

Lemma get_object t n s : normal_path n → coherent s →
  ∃ got s', opGetFile t mesh n (classifyPath n) s = (Ok got, s') ∧ gf_bytes <$> got = content_at s n ∧
    files s' = files s ∧ coherent s'.
Proof.
  intros Hn Hc. destruct (get_file_spec t mesh n (classifyPath n) s) as (s' & E & Hf & _ & _ & _ & Hca).
  rewrite (normal_path_fixed n Hn) in *. eexists _, s'. split; [exact E|]. split_and!; [|done|].
  - destruct (cached_file _ _ _ _ _) as [e|] eqn:Ee; [symmetry; by eapply coherent_cached|].
    unfold content_at. by destruct (files s !! _).
  - destruct (cached_file _ _ _ _ _) as [e|] eqn:Ee.
    { eapply coherent_fewer; [done|by intros q []; apply content_same|]. rewrite Hca. eauto. }
    destruct (files s !! (mesh, n)) as [row|] eqn:Er.
    + destruct (isCacheableImmutablePathType _).
      * eapply (coherent_entry s s' n (fr_content row)); [done..|unfold content_at; by rewrite Hf, Er| |].
        { intros q _. by apply content_same. }
        intros ca' Eca. rewrite Hca in Eca. destruct (sv_cache s) as [ca|]; [|done]. injection Eca as <-. by exists ca.
      * eapply coherent_fewer; [done|by intros q []; apply content_same|]. rewrite Hca. eauto.
    + eapply coherent_fewer; [done|by intros q []; apply content_same|]. rewrite Hca. eauto.
Qed.

Definition write_once (ty : PathType) : bool := bool_decide (ty ∉ [MANIFEST_POINTER; HEAD; DEVICE_HEARTBEAT]).
(** What a write does to the object it names, by its status. *)
Inductive written (n : string) (bytes : list Z) (s s' : Server) : Z → Prop :=
  | stored_new status : success status = true → content_at s' n = Some bytes →
      (write_once (classifyPath n) = true → content_at s n = None) → written n bytes s s' status
  | kept status : success status = true → write_once (classifyPath n) = true → is_Some (content_at s n) →
      content_at s' n = content_at s n → written n bytes s s' status
  | refused status : success status = false → content_at s' n = content_at s n → written n bytes s s' status.
Lemma content_insert s s' n row : files s' = <[(mesh, n) := row]> (files s) →
  content_at s' n = Some (fr_content row) ∧ ∀ q, q ≠ n → content_at s' q = content_at s q.
Proof.
  intros E. unfold content_at. rewrite E. split; [by rewrite lookup_insert_eq|].
  intros q Hq. rewrite lookup_insert_ne; [done|]. by intros [= ->].
Qed.
Lemma coherent_written s s' n row : coherent s → files s' = <[(mesh, n) := row]> (files s) →
  classifyPath n ≠ MANIFEST_SNAPSHOT →
  (∀ ca', sv_cache s' = Some ca' → ∃ ca, sv_cache s = Some ca ∧ ca_files ca' = ca_files ca) → coherent s'.
Proof.
  intros Hc Hf Ht Hs. destruct (content_insert s s' n row Hf) as [_ Hq]. eapply coherent_fewer; [done| |].
  - intros q Hne. destruct (decide (q = n)) as [->|Hqn]; [done|]. by destruct Hne; apply Hq.
  - intros ca' Hca. destruct (Hs ca' Hca) as (ca & E & ->). by exists ca.
Qed.

Lemma put_object t n bytes s : normal_path n → coherent s →
  ∃ res s', write_object host t mesh n bytes (classifyPath n) s = (Ok res, s') ∧ coherent s' ∧
    (∀ q, q ≠ n → content_at s' q = content_at s q) ∧ written n bytes s s' (pr_status res).
Proof.
  intros Hn Hc. pose proof (normal_path_fixed n Hn) as En. unfold write_object.
  case_bool_decide as Hp; [|case_bool_decide as Hb].
  - rewrite put_semantic_eq, En.
    pose proof (semantic_write_spec (ho_number host) t mesh n bytes (classifyPath n) (meshRootForPath n (classifyPath n)) (files s !! (mesh, n)) s) as Hs.
    destruct (semantic_refused _ _ _ _); [by eexists _, s; split; [exact Hs|]; split_and!; [done..|by apply refused]|].
    destruct Hs as (s' & E & Hf & _ & _ & Hca). eexists _, s'. split; [exact E|].
    destruct (content_insert _ _ _ _ Hf) as [Hnew Hq]. split_and!; [|done|].
    + eapply coherent_written; [done..|by intros Ht; rewrite Ht in Hp; set_solver|].
      intros ca' Eca. rewrite Hca in Eca. destruct (sv_cache s) as [ca|]; [|done]. injection Eca as <-. by exists ca.
    + apply stored_new; [done..|]. unfold write_once. rewrite bool_decide_eq_true. set_solver.
  - destruct (put_overwrite_spec t mesh n bytes s) as (s' & E & Hf & _ & _ & Hca). rewrite En in Hf, Hca.
    eexists _, s'. split; [exact E|]. destruct (content_insert _ _ _ _ Hf) as [Hnew Hq]. split_and!; [|done|].
    + eapply coherent_written; [done..|by rewrite Hb|].
      intros ca' Eca. rewrite Hca in Eca. destruct (sv_cache s) as [ca|]; [|done]. injection Eca as <-. by exists ca.
    + apply stored_new; [done..|]. unfold write_once. rewrite bool_decide_eq_true, Hb. set_solver.
  - assert (write_once (classifyPath n) = true) as Hw by (apply bool_decide_eq_true; set_solver).
    destruct (put_immutable_spec t mesh n bytes (classifyPath n) (meshRootForPath n (classifyPath n)) s) as (s' & E & Hf & _ & _ & Hca).
    rewrite En in E, Hf, Hca. eexists _, s'. split; [exact E|]. cbn [pr_status].
    destruct (files s !! (mesh, n)) as [row|] eqn:Er; cbn in *.
    + split_and!; [|by intros q _; apply content_same|].
      * eapply coherent_fewer; [done|by intros q []; apply content_same|]. rewrite Hca. eauto.
      * apply kept; [done..| |by apply content_same]. unfold content_at. by rewrite Er.
    + destruct (content_insert _ _ _ _ Hf) as [Hnew Hq].
      split_and!; [|done|apply stored_new; [done..|]; unfold content_at; by rewrite Er].
      destruct (isCacheableImmutablePathType (classifyPath n)) eqn:Et.
      * eapply (coherent_entry s s' n bytes); [done..|].
        intros ca' Eca. rewrite Hca in Eca. destruct (sv_cache s) as [ca|]; [|done]. injection Eca as <-. by exists ca.
      * eapply coherent_written; [done..|by intros Ht%cacheable; rewrite Ht in Et|].
        intros ca' Eca. rewrite Hca in Eca. destruct (sv_cache s) as [ca|]; [|done]. injection Eca as <-. by exists ca.
Qed.

(** Deleting a path takes its subtree, and what was cached of it. *)
Definition covered_by (n q : string) : Prop := in_subtree mesh n (mesh, q) = true.
#[global] Instance covered_by_dec n q : Decision (covered_by n q).
Proof. unfold covered_by. apply _. Defined.
Lemma covered_self n : covered_by n n.
Proof. apply in_subtree_spec. split; [done|by left]. Qed.
Lemma dropped_keys (l : list ((string * string) * FileRow)) (m : gmap string (CacheEntry * Z)) :
  let m' := foldl (λ m kr, delete (cacheKeyFor mesh kr.1.2) m) m l in
  m' ⊆ m ∧ ∀ kr, kr ∈ l → m' !! cacheKeyFor mesh kr.1.2 = None.
Proof.
  revert m. induction l as [|kr l IH]; intros m; cbn; [split; [done|by intros kr ?%elem_of_nil]|].
  destruct (IH (delete (cacheKeyFor mesh kr.1.2) m)) as [Hs Hl]. split.
  - etransitivity; [exact Hs|]. apply delete_subseteq.
  - intros x [->|Hx]%elem_of_cons; [|by apply Hl].
    apply eq_None_not_Some. intros [y Hy]. eapply lookup_weaken in Hy; [|exact Hs]. by rewrite lookup_delete_eq in Hy.
Qed.
Lemma delete_object t n s : normal_path n → n ≠ "/" → coherent s →
  ∃ deleted s', opDeletePath t mesh n (meshRootForPath n (classifyPath n)) s = (Ok deleted, s') ∧ coherent s' ∧
    ∀ q, content_at s' q = if in_subtree mesh n (mesh, q) then None else content_at s q.
Proof.
  intros Hn Hroot Hc. destruct (delete_path_spec t mesh n (meshRootForPath n (classifyPath n)) s)
    as (d & s' & E & Hf & _ & _ & _ & Hca). rewrite (normal_path_fixed n Hn) in Hf, Hca. apply String.eqb_neq in Hroot.
  rewrite Hroot in Hf, Hca.
  assert (∀ q, content_at s' q = if in_subtree mesh n (mesh, q) then None else content_at s q) as Hq.
  { intros q. unfold content_at. rewrite Hf, delete_where_lookup. by destruct (in_subtree _ _ _). }
  eexists d, s'. split_and!; [exact E| |exact Hq].
  intros ca' q e x Eca Hqn Ht He. destruct (sv_cache s) as [ca|] eqn:Ec; [|by rewrite Eca in Hca].
  rewrite Eca in Hca. cbn in Hca. injection Hca as Hca.
  destruct (dropped_keys (rows_where (in_subtree mesh n) (files s)) (ca_files ca)) as [Hs Hl]. rewrite <- Hca in Hs, Hl.
  assert (ca_files ca !! cacheKeyFor mesh q = Some (e, x)) as He' by (by eapply lookup_weaken).
  pose proof (Hc ca q e x Ec Hqn Ht He') as Hrow. rewrite Hq, Hrow. destruct (in_subtree mesh n (mesh, q)) eqn:Ein; [|done].
  unfold content_at in Hrow. destruct (files s !! (mesh, q)) as [row|] eqn:Er; [|done].
  assert (ca_files ca' !! cacheKeyFor mesh q = None) as He0 by (apply (Hl ((mesh, q), row)); by apply rows_where_spec).
  by rewrite He0 in He.
Qed.

(** ** The handlers *)
Implicit Types n path : string.
(** What follows the operation of a handler writes the log and answers. *)
Lemma srv_answers {X} (m : M Server X) (k : X → M (World B) Response) w a s' (resp : Response) :
  m (w_server w) = (Ok a, s') → (∀ w1, ∃ l, k a w1 = (Ok resp, mkWorld (w_server w1) (w_bodies w1) l)) →
  ∃ w', (x ← srv m; k x) w = (Ok resp, w') ∧ w_server w' = s'.
Proof.
  intros Em Hk. unfold mbind, M_bind, srv. rewrite Em. destruct (Hk (mkWorld s' (w_bodies w) (w_log w))) as (l & ->).
  by eexists.
Qed.
Lemma no_record n : classifyPath n ≠ EVICTION_RECORD →
  ∀ w, evictionRecordBytes (B := B) mesh n (classifyPath n) w = (Ok None, w).
Proof. intros Ht w. unfold evictionRecordBytes. by rewrite bool_decide_false. Qed.

Definition found (content : option (list Z)) : Response :=
  match content with Some b => mkResponse 200 (BBytes b) | None => notFound end.
Lemma get_handler rq n w : normal_path n → classifyPath n ≠ EVICTION_RECORD → coherent (w_server w) →
  ∃ w', handleGetFile (B := B) mesh n rq w = (Ok (found (content_at (w_server w) n)), w') ∧
    files (w_server w') = files (w_server w) ∧ coherent (w_server w').
Proof.
  intros Hn Ht Hc. destruct (get_object (rq_tick rq) n (w_server w) Hn Hc) as (got & s' & E & Hg & Hf & Hc').
  unfold handleGetFile. unfold mbind at 1, M_bind at 1. rewrite (no_record n Ht).
  edestruct (srv_answers (opGetFile (rq_tick rq) mesh n (classifyPath n))) as (w' & Ew & Es); [exact E| |].
  2: { exists w'. split; [exact Ew|]. by rewrite Es. }
  intros w1. rewrite <- Hg. destruct got; by eexists.
Qed.
Lemma put_handler rq n bytes w : normal_path n → coherent (w_server w) → rq_bytes rq = Some bytes →
  ∃ resp w', handleWriteFile host mesh n rq w = (Ok resp, w') ∧ coherent (w_server w') ∧
    (∀ q, q ≠ n → content_at (w_server w') q = content_at (w_server w) q) ∧
    written n bytes (w_server w) (w_server w') (rs_status resp).
Proof.
  intros Hn Hc Hb. unfold handleWriteFile. rewrite Hb.
  case_bool_decide; [by eexists _, w; split_and!; [done..|by apply refused]|].
  case_match; [by eexists _, w; split_and!; [done..|by apply refused]|].
  destruct (put_object (rq_tick rq) n bytes (w_server w) Hn Hc) as (res & s' & E & Hc' & Hq & Hw).
  destruct (srv_answers (write_object host (rq_tick rq) mesh n bytes (classifyPath n))
    (λ result, notify_write host mesh n (classifyPath n) (pr_status result)) w res s' (emptyResponse (pr_status res)) E)
    as (w' & Ew & <-); [|by eexists _, w'].
  intros w1. unfold notify_write, broadcast, audit, when. case_match; [|by eexists]. by destruct (ho_relay host); eexists.
Qed.
Lemma delete_handler rq n w : normal_path n → n ≠ "/" → classifyPath n ≠ EVICTION_RECORD → coherent (w_server w) →
  ∃ status w', handleDelete host mesh n rq w = (Ok (emptyResponse status), w') ∧
    (status = 204 ∨ status = 404)%Z ∧ coherent (w_server w') ∧
    ∀ q, content_at (w_server w') q = if in_subtree mesh n (mesh, q) then None else content_at (w_server w) q.
Proof.
  intros Hn Hr Ht Hc. destruct (delete_object (rq_tick rq) n (w_server w) Hn Hr Hc) as (d & s' & E & Hc' & Hq).
  unfold handleDelete. rewrite bool_decide_false by done.
  edestruct (srv_answers (opDeletePath (rq_tick rq) mesh n (meshRootForPath n (classifyPath n)))) as (w' & Ew & Es); [exact E| |].
  2: { exists (if d then 204 else 404)%Z, w'. split; [exact Ew|]. rewrite Es. split_and!; [|done..]. destruct d; auto. }
  intros w1. unfold broadcast, audit, when. destruct d; [|by eexists]. by destruct (ho_relay host); eexists.
Qed.
Lemma list_handler rq p w : json_text "path" "/" (rq_json rq) = Ok p → coherent (w_server w) →
  let n := normalizePath p in
  ∃ listing w', handleListFiles (B := B) mesh rq w = (Ok (mkResponse 200 (BFiles (ls_files listing))), w') ∧
    sv_db (w_server w') = sv_db (w_server w) ∧ coherent (w_server w') ∧
    (isAuthoritativeCompactionListing n = true → listing = list_children mesh n (sv_db (w_server w))).
Proof.
  intros Hp Hc n. unfold handleListFiles. unfold mbind at 1, M_bind at 1, lift. rewrite Hp. fold n.
  destruct (list_spec (rq_tick rq) mesh n (w_server w)) as (s' & E & Hdb & Hca).
  rewrite (normal_path_fixed n) in E by apply normalizePath_normal. set (listing := default _ _) in E.
  edestruct (srv_answers (opListChildren (rq_tick rq) mesh n)) as (w' & Ew & Es); [exact E| |].
  2: { exists listing, w'. split; [exact Ew|]. rewrite Es. split_and!; [done| |].
       - eapply coherent_fewer; [done|intros q []; apply content_same; by rewrite Hdb|].
         intros ca' Eca. rewrite Eca in Hca. destruct (sv_cache (w_server w)) as [ca|]; [|done]. injection Hca as Hca. exists ca. by rewrite Hca.
       - intros Ha. unfold listing, cached_listing. by rewrite Ha. }
  intros w1. by eexists.
Qed.

(** ** The calls *)
Definition remote_file c n : option Bytes := toBytes <$> content_at (w_server (world_of c)) n.
Definition ready c : Prop := coherent (w_server (world_of c)).
(** The paths of the protocol: normal, not the root of the mesh, and no record of an eviction. *)
Definition object_path p : Prop := normal_path p ∧ p ≠ "/" ∧ classifyPath p ≠ EVICTION_RECORD.

Lemma query_normal rq p : rq_path rq = Some p → normal_path p → query_path rq = p.
Proof.
  intros E Hn. unfold query_path. rewrite E. pose proof Hn as (Ha & _). destruct p as [|x p]; [done|].
  rewrite opt_truthy_Some by done. by apply normal_path_fixed.
Qed.
Lemma file_url (Hr : reaches) : fileUrl cfg = Ok (co_origin cfg, io_path address "file").
Proof.
  unfold fileUrl. change "/file" with ("/" +:+ "file"). rewrite (io_url Hr) by set_solver. cbn.
  destruct (re_origin Hr) as [o ->]. done.
Qed.

(** A call is one exchange, and what it makes of the answer. *)
Inductive called {X} (m : M (World B) Response) (k : Answer → M C X) c : result X → C → Prop :=
  | no_request : fault_of c = NotSent → called m k c (Throw lost) (with_world c (world_of c))
  | no_answer r w' : fault_of c = NoAnswer → m (world_of c) = (r, w') → called m k c (Throw lost) (with_world c w')
  | got_answer x w' r c' : fault_of c = Delivered → m (world_of c) = (x, w') → k (answer x) (with_world c w') = (r, c') →
      called m k c r c'.
Lemma call_request (Hr : reaches) {X} op method url qp extra body access (k : Answer → M C X) c r c' :
  url = Ok (co_origin cfg, io_path address op) → op ∈ IO_OPS →
  toUpperCase method = method → method ≠ "OPTIONS" → ioRequestAccess op method = Some access →
  (a ← request url method qp extra body; k a) c = (r, c') →
  ∃ route rq, canonicalAddress route = mesh ∧ rq_path rq = qp ∧ rq_bytes rq = Some (body_octets body) ∧
    rq_json rq = body_json body ∧ called (io_terminal host op method route rq) k c r c'.
Proof.
  intros Hu Hop Hm Ho Ha. unfold mbind, M_bind. destruct (request url method qp extra body c) as [r0 c0] eqn:E.
  eapply (request_exchanged Hr) in E as (route & rq & ? & ? & ? & ? & _ & _ & E); [|done..].
  intros Hk. exists route, rq. split_and!; [done..|].
  destruct E; [injection Hk as <- <-; by econstructor..|by eapply got_answer].
Qed.

Lemma read_call (Hr : reaches) p c r c' : ready c → object_path p → cloud_readFile cfg p c = (r, c') →
  ready c' ∧ (∀ q, remote_file c' q = remote_file c q) ∧
  match r with
  | Ok d => remote_file c p = Some d
  | Throw _ => fault_of c = Delivered → remote_file c p = None
  end.
Proof.
  intros Hc (Hn & _ & Ht) E. eapply (call_request Hr "file") in E as (route & rq & Hroute & Hpath & _ & _ & E);
    [|by apply file_url|set_solver|done..].
  change (io_terminal host "file" "GET" route rq) with (handleGetFile (B := B) (canonicalAddress route) (query_path rq) rq) in E.
  rewrite Hroute, (query_normal rq p) in E by done.
  destruct (get_handler rq p (world_of c) Hn Ht Hc) as (w1 & Ew & Hf & Hc1).
  destruct E as [Hfault|x w' Hfault Ex|x w' r c' Hfault Ex E]; [by rewrite Hfault|..]; rewrite Ew in Ex; injection Ex as <- <-.
  - split_and!; [done| |by rewrite Hfault]. intros q. unfold remote_file. by rewrite (content_same _ _ Hf).
  - revert E. unfold remote_file. destruct (content_at (w_server (world_of c)) p) as [b|]; cbn; intros [= <- <-];
      (split_and!; [done| |done]); intros q; by rewrite (content_same _ _ Hf).
Qed.

Lemma delete_call (Hr : reaches) p c r c' : ready c → object_path p → cloud_deleteFile cfg p c = (r, c') →
  ready c' ∧ (∀ q, ¬ covered_by p q → remote_file c' q = remote_file c q) ∧
  match r with
  | Ok _ => ∀ q, covered_by p q → remote_file c' q = None
  | Throw _ => fault_of c ≠ Delivered ∧ ∀ q, remote_file c' q = None ∨ remote_file c' q = remote_file c q
  end.
Proof.
  intros Hc (Hn & Hroot & Ht) E. eapply (call_request Hr "file") in E as (route & rq & Hroute & Hpath & _ & _ & E);
    [|by apply file_url|set_solver|done..].
  change (io_terminal host "file" "DELETE" route rq) with (handleDelete (B := B) host (canonicalAddress route) (query_path rq) rq) in E.
  rewrite Hroute, (query_normal rq p) in E by done.
  destruct (delete_handler rq p (world_of c) Hn Hroot Ht Hc) as (status & w1 & Ew & Hst & Hc1 & Hq).
  assert (∀ c0, world_of c0 = w1 → ∀ q, (covered_by p q → remote_file c0 q = None) ∧
    (¬ covered_by p q → remote_file c0 q = remote_file c q)) as Hw.
  { intros c0 <- q. unfold remote_file, covered_by. rewrite Hq. by destruct (in_subtree mesh p (mesh, q)). }
  destruct E as [Hfault|x w' Hfault Ex|x w' r c' Hfault Ex E]; [by rewrite Hfault; split_and!; auto|..];
    rewrite Ew in Ex; injection Ex as <- <-.
  - split_and!; [done|intros q; by apply Hw|by rewrite Hfault|]. intros q.
    destruct (decide (covered_by p q)); [left|right]; by apply Hw.
  - assert (r = Ok () ∧ c' = with_world c w1) as [-> ->] by (destruct Hst as [-> | ->]; by injection E as <- <-).
    split_and!; [done|intros q; by apply Hw..].
Qed.
Context (Hbytes : ∀ d, toBytes (ofBytes d) = d).
Lemma write_call (Hr : reaches) p d c r c' : ready c → object_path p → cloud_writeFile cfg p d c = (r, c') →
  ready c' ∧ (∀ q, q ≠ p → remote_file c' q = remote_file c q) ∧
  match r with
  | Ok _ => remote_file c' p = Some d ∧ (write_once (classifyPath p) = true → remote_file c p = None) ∨
            write_once (classifyPath p) = true ∧ is_Some (remote_file c p) ∧ remote_file c' p = remote_file c p
  | Throw _ => remote_file c' p = remote_file c p ∨
               remote_file c' p = Some d ∧ (write_once (classifyPath p) = true → remote_file c p = None)
  end.
Proof.
  intros Hc (Hn & Hroot & Ht) E. eapply (call_request Hr "file") in E as (route & rq & Hroute & Hpath & Hb & _ & E);
    [|by apply file_url|set_solver|done..].
  change (io_terminal host "file" "PUT" route rq) with (handleWriteFile (B := B) host (canonicalAddress route) (query_path rq) rq) in E.
  rewrite Hroute, (query_normal rq p) in E by done.
  destruct (put_handler rq p (ofBytes d) (world_of c) Hn Hc Hb) as (resp & w1 & Ew & Hc1 & Hq & Hw).
  assert (∀ c0, world_of c0 = w1 → ∀ q, q ≠ p → remote_file c0 q = remote_file c q) as Ho.
  { intros c0 <- q Hne. unfold remote_file. by rewrite Hq. }
  assert (∀ c0, world_of c0 = w1 →
    remote_file c0 p = Some d ∧ success (rs_status resp) = true ∧ (write_once (classifyPath p) = true → remote_file c p = None) ∨
    remote_file c0 p = remote_file c p ∧
      (success (rs_status resp) = true → write_once (classifyPath p) = true ∧ is_Some (remote_file c p))) as Hp.
  { intros c0 <-. unfold remote_file. destruct Hw as [st Hs Hn1 Hnone|st Hs Honce [b Hb'] Hk|st Hs Hk].
    - left. rewrite Hn1. cbn. rewrite Hbytes. split_and!; [done..|]. intros Hx. by rewrite (Hnone Hx).
    - right. rewrite Hk. split; [done|]. intros _. rewrite Hb'. eauto.
    - right. rewrite Hk, Hs. done. }
  destruct E as [Hfault|x w' Hfault Ex|x w' r c' Hfault Ex E]; [by split_and!; auto|..];
    rewrite Ew in Ex; injection Ex as <- <-.
  - split_and!; [done|by apply Ho|]. destruct (Hp (with_world c w1) eq_refl) as [(-> & _ & ?)|[-> _]]; auto.
  - assert (c' = with_world c w1 ∧ (r = Ok () → success (rs_status resp) = true)) as [-> Hok].
    { revert E. unfold an_ok, an_status. cbn [answer an_response].
      destruct (success (rs_status resp)) eqn:Es; cbn [negb andb]; [by intros [= _ <-]|].
      destruct (Z.eqb_spec (rs_status resp) 201) as [E1|_]; [by rewrite E1 in Es|].
      destruct (Z.eqb_spec (rs_status resp) 204) as [E1|_]; [by rewrite E1 in Es|]. cbn. by intros [= <- <-]. }
    split_and!; [done|by apply Ho|].
    destruct r as [[]|e]; [specialize (Hok eq_refl)|]; destruct (Hp (with_world c w1) eq_refl) as [(? & ? & ?)|[? Hk]]; auto.
    right. by destruct (Hk Hok).
Qed.
Lemma list_call (Hr : reaches) p c r c' : ready c → object_path p → cloud_listFiles cfg p c = (r, c') →
  ready c' ∧ (∀ q, remote_file c' q = remote_file c q) ∧
  match r with
  | Ok l => isAuthoritativeCompactionListing p = true →
      (∀ name, free_of "/" name = true → is_Some (remote_file c (p +:+ "/" +:+ name)) →
         ∃ e, e ∈ l ∧ fe_path e = p +:+ "/" +:+ name ∧ fe_name e = fileNameFromPath (p +:+ "/" +:+ name)) ∧
      (∀ e, e ∈ l → is_Some (remote_file c (fe_path e)) ∧ fe_name e = fileNameFromPath (fe_path e) ∧
                    slashes (fe_path e) = S (slashes p))
  | Throw _ => fault_of c ≠ Delivered
  end.
Proof.
  intros Hc (Hn & Hroot & Ht) E. pose proof Hn as (Habs & _).
  eapply (call_request Hr "list-files") in E as (route & rq & Hroute & Hpath & _ & Hj & E);
    [|apply (io_url Hr "list-files"); set_solver|set_solver|done..].
  change (io_terminal host "list-files" "POST" route rq) with (handleListFiles (B := B) (canonicalAddress route) rq) in E.
  rewrite Hroute in E. destruct (list_handler rq p (world_of c)) as (listing & w1 & Ew & Hdb & Hc1 & Ha); [|done|].
  { rewrite Hj. unfold json_text. cbn. by destruct p. }
  rewrite (normal_path_fixed p Hn) in Ha.
  assert (∀ c0, world_of c0 = w1 → ∀ q, remote_file c0 q = remote_file c q) as Hs.
  { intros c0 <- q. unfold remote_file, content_at. by rewrite Hdb. }
  destruct E as [Hfault|x w' Hfault Ex|x w' r c' Hfault Ex E]; [by split_and!; [..|rewrite Hfault]|..];
    rewrite Ew in Ex; injection Ex as <- <-; [by split_and!; [|apply Hs|rewrite Hfault]|].
  injection E as <- <-. split_and!; [done|by apply Hs|]. intros Hauth. rewrite (Ha Hauth).
  destruct (listing_is_complete mesh p (sv_db (w_server (world_of c))) Hn Hroot) as [Hin Hout]. split.
  - intros name Hf [d Hd]. unfold remote_file, content_at in Hd.
    destruct (files (w_server (world_of c)) !! (mesh, p +:+ "/" +:+ name)) as [row|] eqn:Er; [|done].
    eexists. split; [apply list_elem_of_fmap; eexists; split; [done|exact (Hin name row Hf Er)]|done].
  - intros e (le & -> & Hle)%list_elem_of_fmap. destruct (Hout le Hle) as ([row Er] & Hs' & _).
    split_and!; [unfold remote_file, content_at; cbn; rewrite Er; by eexists| |done].
    unfold list_children in Hle. cbn in Hle. by apply list_elem_of_fmap in Hle as (kr & -> & _).
Qed.
Lemma authenticate_call (Hr : reaches) c r c' : ready c → cloud_authenticate cfg c = (r, c') →
  ready c' ∧ (∀ q, remote_file c' q = remote_file c q) ∧
  (fault_of c = Delivered → r = Ok () ∧ cl_authenticated c' = true).
Proof.
  intros Hc E. eapply (call_request Hr "health") in E as (route & rq & _ & _ & _ & _ & E);
    [|apply (io_url Hr "health"); set_solver|set_solver|done..].
  change (io_terminal host "health" "GET" route rq)
    with (mret (M := M (World B)) (mkResponse 200 (BText "interocitor cloudflare worker"))) in E.
  destruct E as [Hfault|x w' Hfault [= <- <-]|x w' r c' Hfault [= <- <-] E]; [by rewrite Hfault..|].
  by injection E as <- <-.
Qed.
Lemma ensure_call (Hr : reaches) p c r c' : ready c → object_path p → cloud_ensureFolder cfg p c = (r, c') →
  ready c' ∧ (∀ q, remote_file c' q = remote_file c q) ∧ (fault_of c = Delivered → r = Ok ()).
Proof.
  intros Hc (Hn & _ & _). unfold cloud_ensureFolder. unfold mbind at 1, M_bind at 1, gets, id. cbn [fst snd].
  case_bool_decide; [by intros [= <- <-]|]. intros E. pose proof Hn as (Habs & _).
  eapply (call_request Hr "ensure-folder") in E as (route & rq & Hroute & _ & _ & Hj & E);
    [|apply (io_url Hr "ensure-folder"); set_solver|set_solver|done..].
  destruct (list_spec (rq_tick rq) mesh (normalizePath p) (w_server (world_of c))) as (s' & El & Hdb & Hca).
  assert (io_terminal host "ensure-folder" "POST" route rq (world_of c) =
    (Ok (emptyResponse 204), mkWorld s' (w_bodies (world_of c)) (w_log (world_of c)))) as Ew.
  { cbn. rewrite Hj, Hroute. cbn. assert (truthy_value (VStr p) = true) as Ht by by destruct p.
    unfold json_text. cbn in Ht |- *. rewrite Ht. cbn. unfold mbind, M_bind, catch, srv. cbn. by rewrite El. }
  assert (coherent s') as Hc'.
  { eapply coherent_fewer; [exact Hc|intros q []; apply content_same; by rewrite Hdb|].
    intros ca' Eca. rewrite Eca in Hca. destruct (sv_cache (w_server (world_of c))) as [ca|]; [|done].
    injection Hca as Hca. exists ca. by rewrite Hca. }
  destruct E as [Hfault|x w' Hfault Ex|x w' r c' Hfault Ex E]; [by rewrite Hfault|..]; rewrite Ew in Ex; injection Ex as <- <-.
  - split_and!; [done| |by rewrite Hfault]. intros q. unfold remote_file, content_at. cbn. by rewrite Hdb.
  - injection E as <- <-. split_and!; [done| |done]. intros q. unfold remote_file, content_at. cbn. by rewrite Hdb.
Qed.

(** C12: The mesh server behind its adapter is the storage the protocol asks for, but for one thing.  Over
    a network that may lose a request or its answer, on any path of the protocol: authenticating, making a folder, listing
    and reading change no object; a read returns the stored object; a listing of the changes or of the
    snapshots has every object of the folder and nothing that is not stored; a deletion takes the path and what is below it;
    a write stores what it is given, except that over an object of a write-once kind (a change, a snapshot, a
    manifest) it reports success and the old object stays. *)
Theorem mesh_server_is_a_storage (Hr : reaches) (p : string) c : ready c → object_path p →
  (∀ r c', cloud_authenticate cfg c = (r, c') → ready c' ∧ ∀ q, remote_file c' q = remote_file c q) ∧
  (∀ r c', cloud_ensureFolder cfg p c = (r, c') → ready c' ∧ ∀ q, remote_file c' q = remote_file c q) ∧
  (∀ r c', cloud_readFile cfg p c = (r, c') → ready c' ∧ (∀ q, remote_file c' q = remote_file c q) ∧
     match r with Ok d => remote_file c p = Some d | Throw _ => fault_of c = Delivered → remote_file c p = None end) ∧
  (∀ r c', cloud_listFiles cfg p c = (r, c') → ready c' ∧ (∀ q, remote_file c' q = remote_file c q) ∧
     ∀ l, r = Ok l → isAuthoritativeCompactionListing p = true →
       (∀ name, free_of "/" name = true → is_Some (remote_file c (p +:+ "/" +:+ name)) →
          ∃ e, e ∈ l ∧ fe_path e = p +:+ "/" +:+ name) ∧
       (∀ e, e ∈ l → is_Some (remote_file c (fe_path e)))) ∧
  (∀ d r c', cloud_writeFile cfg p d c = (r, c') → ready c' ∧ (∀ q, q ≠ p → remote_file c' q = remote_file c q) ∧
     match r with
     | Ok _ => remote_file c' p =
         if write_once (classifyPath p) then Some (default d (remote_file c p)) else Some d
     | Throw _ => remote_file c' p = remote_file c p ∨ remote_file c' p = Some d
     end) ∧
  (∀ r c', cloud_deleteFile cfg p c = (r, c') → ready c' ∧ (∀ q, ¬ covered_by p q → remote_file c' q = remote_file c q) ∧
     match r with
     | Ok _ => ∀ q, covered_by p q → remote_file c' q = None
     | Throw _ => fault_of c ≠ Delivered
     end).
Proof.
  intros Hc Hp. split_and!; intros *.
  - intros E. by destruct (authenticate_call Hr c r c' Hc E) as (? & ? & _).
  - intros E. by destruct (ensure_call Hr p c r c' Hc Hp E) as (? & ? & _).
  - by apply read_call.
  - intros E. destruct (list_call Hr p c r c' Hc Hp E) as (? & ? & Hl). split_and!; [done..|].
    intros l -> Ha. destruct (Hl Ha) as [Hin Hout]. split; [|intros e He; by apply Hout].
    intros name Hf Hs. destruct (Hin name Hf Hs) as (e & ? & ? & _). by exists e.
  - intros E. destruct (write_call Hr p d c r c' Hc Hp E) as (? & ? & Hw). split_and!; [done..|].
    destruct r; [|destruct Hw as [|[? _]]; auto]. destruct Hw as [[Hw Hnone]|(-> & [b Hb] & ->)].
    + rewrite Hw. destruct (write_once _); [by rewrite Hnone|done].
    + by rewrite Hb.
  - intros E. destruct (delete_call Hr p c r c' Hc Hp E) as (? & ? & Hd). split_and!; [done..|].
    destruct r; [done|by destruct Hd].
Qed.
End mesh.

(** ** A trial network *)
Section trial.
#[local] Existing Instance toy_crypto.
#[local] Existing Instance digit_clock.
#[local] Existing Instance octet_platform.
#[local] Existing Instance octet_view.
Notation Bodies := (gmap string (list Z)).

Definition trial_host : Host := plain_host [].
(** A network that loses the [k]-th request, or none. *)
Definition trial_net (lost : option nat) : Network :=
  mkNetwork (λ i, mkTick (Z.of_nat i) "t") (λ _, "u") (λ _, [])
    (λ i, if bool_decide (lost = Some i) then NotSent else Delivered) (λ _, NaN) (λ _, NaN) (λ _, []).
Definition trial_config : CloudflareAdapterConfig := mkCloudConfig (Some "https://h") "/io/m" true None None None 0.
Definition over (w : World Bodies) : CloudflareAdapter (Link Bodies) := newCloudflareAdapter None (mkLink w 0).
Lemma trial_reaches : reaches (B := Bodies) trial_host trial_config "m" "m".
Proof. split; [by eexists|done|by split_and!|intros rq access; by eexists|done]. Qed.
Lemma no_cache_ready mesh (c : CloudflareAdapter (Link Bodies)) : sv_cache (w_server (world_of c)) = None → ready mesh c.
Proof. intros Hn ca n e x. by rewrite Hn. Qed.

(** A second PUT of a change: it is reported as done, and the first one stays. *)
Definition trial_path : string := "/a/changes/1-chg_x.json".
Definition rewritten : result () * CloudflareAdapter (Link Bodies) :=
  cloud_writeFile (Fetch0 := link_net trial_host (trial_net None)) trial_config trial_path [9%Z] (over test_world).
#[local] Strategy expand [rewritten].
Lemma trial_object : object_path trial_path.
Proof.
  split; [split; [by vm_compute|split; [by vm_compute|]]|split; [done|]].
  - assert (endsWith trial_path "/" = false) as -> by by vm_compute. done.
  - assert (classifyPath trial_path = CHANGE_FILE) as -> by by vm_compute. done.
Qed.
Lemma mesh_server_is_a_storage_witness :
  rewritten.1 = Ok () ∧ remote_file "m" rewritten.2 trial_path = Some [1%Z].
Proof.
  assert (rewritten.1 = Ok ()) as Hok by by vm_compute. split; [exact Hok|].
  destruct (mesh_server_is_a_storage (H0 := octet_view) trial_host (trial_net None) trial_config "m" "m" (λ d, eq_refl)
    trial_reaches trial_path (over test_world)) as (_ & _ & _ & _ & Hw & _).
  - by apply no_cache_ready.
  - exact trial_object.
  - destruct (Hw [9%Z] (Ok ()) rewritten.2) as (_ & _ & E).
    { change (rewritten = (Ok (), rewritten.2)). apply ok_run. by rewrite Hok. }
    rewrite E. by vm_compute.
Defined.
End trial.
