(* ===== verification/CloudCompaction.v ===== *)
(** * Compaction over the mesh server
    ([core/compaction.ts] over [adapters/cloudflare.ts] and [workers/worker.ts])

    A compaction that was interrupted after its snapshot is retried under the same snapshot name, and the
    server keeps what it has under a write-once name. *)

From S2P Require Import Prelude JsString Hlc Values JsMap LocalStore Octets Encryption StoredFile.
From S2P Require Import Wire Crdt Convergence Observation Adapter Codec Session MergeStore Manifest Flush Pull.
From S2P Require Import Compaction ChangeEffects LocalWrites Promises Engine Files Ids Routes RowStore Worker.
From S2P Require Import Requests Cloudflare CloudMesh OctetDocs.
From Stdlib Require Import Ascii.
From Stdlib Require String.

Open Scope stdpp_scope.

(** ** Paths *)
Lemma split_last a b : free_of "/" b = true → split_char "/" (a +:+ "/" +:+ b) = split_char "/" a ++ [b].
Proof.
  intros Hb. induction a as [|c a IH].
  - rewrite str_app_nil_l. change ("/" +:+ b) with (String "/" b). cbn [split_char]. by rewrite (split_free "/" b Hb).
  - rewrite str_app_cons. cbn [split_char]. rewrite IH. destruct (Ascii.eqb c "/"); [done|].
    destruct (split_cons "/" a) as (p & parts & E). by rewrite E.
Qed.
Lemma file_name a b : free_of "/" b = true → b ≠ "" → fileNameFromPath (a +:+ "/" +:+ b) = b.
Proof.
  intros Hb Hne. unfold fileNameFromPath, segments. rewrite split_last by done. rewrite List.filter_app. cbn [List.filter].
  assert (truthy b = true) as -> by by destruct b. by rewrite last_snoc.
Qed.
Lemma last_of_cut a b : free_of "/" b = true → last_name (a +:+ "/" +:+ b) = b.
Proof. intros Hb. change ("/" +:+ b) with (String "/" b). unfold last_name. destruct (cut_at_separator "/" a b Hb) as (-> & _ & ->). done. Qed.
Lemma slash_end a b : free_of "/" b = true → b ≠ "" → endsWith (a +:+ "/" +:+ b) "/" = false.
Proof.
  intros Hf Hne. assert (endsWith b "/" = false) as Hb.
  { destruct (endsWith b "/") eqn:E; [|done]. apply endsWith_split in E. rewrite E, free_of_app, andb_false_r in Hf. done. }
  induction a as [|c a IH]; [rewrite str_app_nil_l; change ("/" +:+ b) with (String "/" b); by rewrite endsWith_cons|].
  rewrite str_app_cons, endsWith_cons; [done|]. by destruct a.
Qed.
Lemma no_double_free b : free_of "/" b = true → no_double b = true.
Proof.
  induction b as [|c b IH]; [done|]. rewrite free_of_cons. intros [Hc%negb_true_iff Hb]%andb_true_iff.
  destruct b as [|d b]; [done|]. rewrite no_double_cons, Hc. cbn. by apply IH.
Qed.
Lemma normal_child a b : normal_path a → a ≠ "/" → free_of "/" b = true → b ≠ "" → normal_path (a +:+ "/" +:+ b).
Proof.
  intros (Hs & Hd & He) Hne Hb Hbn. split_and!; [by apply starts_app| |by rewrite slash_end].
  assert (endsWith a "/" = false) as Ha by (destruct (endsWith a "/"); [by rewrite He in Hne|done]). clear Hs He Hne.
  assert (no_double ("/" +:+ b) = true) as Hb'.
  { change ("/" +:+ b) with (String "/" b). destruct b as [|d b]; [done|]. rewrite no_double_cons.
    pose proof Hb as Hb0. rewrite free_of_cons in Hb0. apply andb_true_iff in Hb0 as [Hd'%negb_true_iff _]. rewrite Hd'.
    by apply no_double_free. }
  induction a as [|c a IH]; [done|]. rewrite str_app_cons. destruct a as [|d a].
  - rewrite str_app_nil_l. change ("/" +:+ b) with (String "/" b) in *. rewrite no_double_cons, Hb', andb_true_r.
    cbn in Ha. unfold endsWith in Ha. cbn in Ha. by destruct (Ascii.eqb_spec c "/") as [->|].
  - rewrite str_app_cons. rewrite no_double_cons in Hd |- *. apply andb_true_iff in Hd as [-> Hd].
    rewrite endsWith_cons in Ha by done. specialize (IH Hd Ha). by rewrite str_app_cons in IH.
Qed.
Lemma normal_cut q : normal_path q → q ≠ "/" → ∃ a b, q = a +:+ "/" +:+ b ∧ free_of "/" b = true ∧ b ≠ "".
Proof.
  intros (Hs & _ & He) Hne. assert (∃ n, last_index_of "/" q = Some n) as [n En].
  { destruct q as [|c q]; [done|]. cbn [last_index_of]. destruct (last_index_of "/" q) as [m|]; [by eexists|].
    unfold startsWith in Hs. rewrite Hs. by eexists. }
  apply last_separator_cut in En as (a & b & -> & Hb). exists a, b. split_and!; [done..|]. intros ->.
  assert (endsWith (a +:+ "/") "/" = true) as E by apply endsWith_app. by apply He in E.
Qed.
Lemma classify_record q : classifyPath q = EVICTION_RECORD → last_name (absolute q) = "evicted.json".
Proof. unfold classifyPath. case_match eqn:E; [by apply String.eqb_eq in E|]. repeat (case_match; try done). Qed.
Lemma child_object a b : normal_path a → a ≠ "/" → free_of "/" b = true → b ≠ "" → b ≠ "evicted.json" →
  object_path (a +:+ "/" +:+ b).
Proof.
  intros Ha Hne Hb Hbn He. pose proof (normal_child a b Ha Hne Hb Hbn) as Hn. split_and!; [done| |].
  - intros E. destruct a as [|x [|]]; [by destruct Ha| |done]. destruct Ha as (Ha & _). destruct b; [done|]. discriminate E.
  - intros E%classify_record. destruct Hn as (Hs & _). rewrite absolute_id, last_of_cut in E by done. done.
Qed.

(** ** A snapshot that is there already *)
Section retry.
Context `{Platform} `{!ByteView} `{WebCrypto} `{IsoClock} {B : Type} `{!FileBodyStore B}.
Context (host : Host) (net : Network) (cfg : CloudflareAdapterConfig) (address mesh : string).
Context (Hbytes : ∀ d, toBytes (ofBytes d) = d) (Hr : reaches (B := B) host cfg address mesh).
#[local] Instance retry_fetch : Fetch (Link B) := link_net host net.
#[local] Instance retry_ops : StorageOps (CloudflareAdapter (Link B)) := cloud_ops cfg.
Notation C := (CloudflareAdapter (Link B)).
Notation S := (Session C).
Implicit Types (c : C) (s : S) (p q P : string).
Notation at_remote := (remote_file mesh).

(** What is stored is stored at normal paths, and the cache is coherent. *)
Definition sound c : Prop := ready mesh c ∧ ∀ q, is_Some (at_remote c q) → normal_path q.
(** The object at [P] has these bytes; there is none at [p]. *)
Definition holds P old s : Prop := sound (ss_adapter s) ∧ at_remote (ss_adapter s) P = Some old.
Definition gone p s : Prop := sound (ss_adapter s) ∧ at_remote (ss_adapter s) p = None.
Definition from (I : S → Prop) s s' : Prop := I s → I s'.
#[local] Instance from_preorder I : PreOrder (from I).
Proof. split; [by intros s ?|intros a b c Hab Hbc Ha; by apply Hbc, Hab]. Qed.

Lemma sound_fewer c c' : sound c → ready mesh c' → (∀ q, at_remote c' q = None ∨ at_remote c' q = at_remote c q) → sound c'.
Proof. intros [_ Hn] Hc Hq. split; [done|]. intros q Hs. destruct (Hq q) as [E|E]; rewrite E in Hs; [by destruct Hs|by apply Hn]. Qed.
Lemma sound_read p c r c' : object_path p → sound c → cloud_readFile cfg p c = (r, c') → sound c' ∧ ∀ q, at_remote c' q = at_remote c q.
Proof.
  intros Hp Hs E. destruct (read_call host net cfg address mesh Hr p c r c' (proj1 Hs) Hp E) as (Hc & Hq & _).
  split; [|done]. eapply sound_fewer; [done..|]. auto.
Qed.
Lemma sound_write p d c r c' : object_path p → sound c → cloud_writeFile cfg p d c = (r, c') →
  sound c' ∧ (∀ q, q ≠ p → at_remote c' q = at_remote c q) ∧
  (write_once (classifyPath p) = true → is_Some (at_remote c p) → at_remote c' p = at_remote c p).
Proof.
  intros Hp Hs E. destruct (write_call host net cfg address mesh Hbytes Hr p d c r c' (proj1 Hs) Hp E) as (Hc & Hq & Hw).
  split_and!; [|done|].
  - split; [done|]. intros q Hsq. destruct (decide (q = p)) as [->|Hne]; [apply Hp|]. rewrite Hq in Hsq by done. by apply Hs.
  - intros Ho [b Hb]. assert ((write_once (classifyPath p) = true → at_remote c p = None) → False) as Hno.
    { intros Hn. rewrite Hn in Hb; done. }
    destruct r; [destruct Hw as [[_ Hn]|(_ & _ & E')]|destruct Hw as [E'|[_ Hn]]]; done.
Qed.
Lemma sound_delete p c r c' : object_path p → sound c → cloud_deleteFile cfg p c = (r, c') →
  sound c' ∧ (∀ q, at_remote c' q = None ∨ at_remote c' q = at_remote c q) ∧
  (∀ q, ¬ covered_by mesh p q → at_remote c' q = at_remote c q) ∧
  (fault_of net c = Delivered → at_remote c' p = None).
Proof.
  intros Hp Hs E. destruct (delete_call host net cfg address mesh Hr p c r c' (proj1 Hs) Hp E) as (Hc & Hq & Hd).
  assert (∀ q, at_remote c' q = None ∨ at_remote c' q = at_remote c q) as Hf.
  { intros q. destruct (decide (covered_by mesh p q)); [|right; by apply Hq]. destruct r; [left; by apply Hd|by apply Hd]. }
  split_and!; [by eapply sound_fewer|done|done|]. intros Hfault. destruct r; [|by destruct Hd].
  apply Hd, covered_self.
Qed.

(** Steps of the session and what they keep of the remote. *)
Lemma from_loc I {X} (m : M MemoryLocalStore X) : (∀ s s', ss_adapter s' = ss_adapter s → I s → I s') → keeps (from I) (loc (A := C) m).
Proof. intros HI s r s'. unfold loc. destruct (m (ss_local s)). intros [= _ <-] Hi. by apply (HI s). Qed.
Lemma from_emit I e : (∀ s s', ss_adapter s' = ss_adapter s → I s → I s') → keeps (from I) (emit (A := C) e).
Proof. intros HI s r s' [= _ <-] Hi. by apply (HI s). Qed.
Lemma holds_adapter P old s s' : ss_adapter s' = ss_adapter s → holds P old s → holds P old s'.
Proof. unfold holds. by intros ->. Qed.
Lemma gone_adapter p s s' : ss_adapter s' = ss_adapter s → gone p s → gone p s'.
Proof. unfold gone. by intros ->. Qed.
Lemma holds_write P old p d : object_path p → (p = P → write_once (classifyPath P) = true) →
  keeps (from (holds P old)) (remote (writeFile (A := C) p d)).
Proof.
  intros Hp Ho s r s'. unfold remote. cbn_ops. cbn [retry_ops cloud_ops writeFile].
  destruct (cloud_writeFile cfg p d (ss_adapter s)) as [x c'] eqn:E. intros [= _ <-] [Hs HP].
  destruct (sound_write p d _ x c' Hp Hs E) as (Hs' & Hq & Hw). split; [done|]. cbn.
  destruct (decide (P = p)) as [->|Hne]; [|by rewrite Hq]. rewrite Hw; [done|by apply Ho|by rewrite HP].
Qed.
Lemma holds_delete P old p : object_path p → ¬ covered_by mesh p P →
  keeps (from (holds P old)) (remote (deleteFile (A := C) p)).
Proof.
  intros Hp Hn s r s'. unfold remote. cbn [deleteFile retry_ops cloud_ops].
  destruct (cloud_deleteFile cfg p (ss_adapter s)) as [x c'] eqn:E. intros [= _ <-] [Hs HP].
  destruct (sound_delete p _ x c' Hp Hs E) as (Hs' & _ & Hq & _). split; [done|]. cbn. by rewrite Hq.
Qed.
Lemma gone_delete p q : object_path p → keeps (from (gone q)) (remote (deleteFile (A := C) p)).
Proof.
  intros Hp s r s'. unfold remote. cbn [deleteFile retry_ops cloud_ops].
  destruct (cloud_deleteFile cfg p (ss_adapter s)) as [x c'] eqn:E. intros [= _ <-] [Hs HP].
  destruct (sound_delete p _ x c' Hp Hs E) as (Hs' & Hf & _). split; [done|]. cbn. by destruct (Hf q) as [-> | ->].
Qed.
Lemma settle_keeps I ps : (∀ s s', ss_adapter s' = ss_adapter s → I s → I s') →
  (∀ p, p ∈ ps → keeps (from I) (remote (deleteFile (A := C) p))) → keeps (from I) (settle_deletes ps).
Proof.
  intros HI. induction ps as [|p ps IH]; intros Hd; cbn [settle_deletes]; [apply keeps_ret, _|].
  keeps_walk ltac:(first [apply Hd; left|apply IH; intros; apply Hd; by right]).
Qed.
(** Deletions that are all answered take every path. *)
Lemma settle_takes ps s r s' : (∀ i, nw_fault net i = Delivered) → (∀ p, p ∈ ps → object_path p) →
  sound (ss_adapter s) → settle_deletes ps s = (r, s') → sound (ss_adapter s') ∧ ∀ p, p ∈ ps → gone p s'.
Proof.
  intros Hnet. revert s r s'. induction ps as [|p ps IH]; intros s r s' Hps Hs; cbn [settle_deletes].
  { intros [= _ <-]. split; [done|]. by intros p ?%elem_of_nil. }
  set (one := catch _ _). unfold mbind, M_bind. destruct (one s) as [x s1] eqn:E1.
  assert (∃ y, cloud_deleteFile cfg p (ss_adapter s) = (y, ss_adapter s1) ∧ is_ok x = true) as (y & Ed & Hok).
  { revert E1. unfold one, catch, mbind, M_bind, remote. cbn [deleteFile retry_ops cloud_ops].
    destruct (cloud_deleteFile cfg p (ss_adapter s)) as [[[]|e] c']; intros [= <- <-]; by eexists. }
  destruct (sound_delete p _ _ _ (Hps p ltac:(by left)) Hs Ed) as (Hs1 & _ & _ & Hg).
  destruct x as [b|e]; [|done]. destruct (settle_deletes ps s1) as [z s2] eqn:E2.
  destruct (IH s1 z s2 (λ q Hq, Hps q ltac:(by right)) Hs1 E2) as [Hs2 Hps2]. intros E.
  assert (s' = s2) as -> by (destruct z; by injection E as _ <-). split; [done|].
  intros q [->|Hq]%elem_of_cons; [|by apply Hps2].
  eapply (settle_keeps (gone p) ps (gone_adapter p)); [intros; apply gone_delete, Hps; by right|exact E2|].
  split; [done|]. apply Hg, Hnet.
Qed.

(** ** The names a compaction uses *)
Context (env : Env) (ec : Config) (ctx : CompactContext).
Notation root := (cf_remotePath ec).
Notation epoch := (m_epoch (m_payload (cc_manifest ctx)) + 1)%Z.
Context (Hroot : normal_path root) (Hroot' : root ≠ "/") (Hsid : free_of "/" (cf_serverId ec) = true).
Definition snapshot_name : string := "snapshot-" +:+ num_toString 10 (Num epoch) +:+ "-" +:+ cf_serverId ec +:+ ".json".
Definition active : string := snapshotPath root (cf_serverId ec) epoch.
Lemma active_cut : active = mainlineFolder root +:+ "/" +:+ snapshot_name.
Proof. done. Qed.
Lemma num_slash_free z : free_of "/" (num_toString 10 (Num z)) = true.
Proof.
  apply numeral_forall; [done|]. intros d Hd.
  assert (d ∈ [0;1;2;3;4;5;6;7;8;9]%Z) as Hin by (rewrite !elem_of_cons; lia).
  repeat (apply elem_of_cons in Hin as [->|Hin]; [done|]). by apply not_elem_of_nil in Hin.
Qed.
Lemma snapshot_name_free : free_of "/" snapshot_name = true.
Proof. unfold snapshot_name. rewrite !free_of_app, num_slash_free, Hsid. done. Qed.
Lemma folder_normal name : name = "mainline" ∨ name = "changes" →
  normal_path (root +:+ "/" +:+ name) ∧ root +:+ "/" +:+ name ≠ "/" ∧ slashes (root +:+ "/" +:+ name) ≠ 0.
Proof.
  intros Hname. split_and!; [destruct Hname as [-> | ->]; by apply normal_child| |].
  - intros E. apply (f_equal String.length) in E. rewrite !str_length_app in E. destruct Hname as [-> | ->]; cbn in E; lia.
  - rewrite !slashes_app. cbn. lia.
Qed.
Lemma active_object : object_path active ∧ write_once (classifyPath active) = true.
Proof.
  rewrite active_cut. destruct (folder_normal "mainline") as (Hn & Hne & _); [by left|]. pose proof snapshot_name_free as Hf.
  split; [by apply child_object|].
  destruct (folder_file root "mainline" snapshot_name (proj1 Hroot) eq_refl Hf) as (E1 & E2 & _).
  unfold mainlineFolder. rewrite str_app_assoc. change ("/mainline" +:+ ?x) with ("/" +:+ "mainline" +:+ x).
  unfold classifyPath. rewrite E1, E2. unfold snapshot_name.
  destruct (ordinary_name "s" ("napshot-" +:+ num_toString 10 (Num epoch) +:+ "-" +:+ cf_serverId ec +:+ ".json")) as (H1' & H2' & H3');
    [done|done|]. change ("snapshot-" +:+ ?x) with (String "s" ("napshot-" +:+ x)). rewrite H1', H2', H3'. cbn.
  by rewrite !andb_false_r.
Qed.

(** ** Publication *)
Lemma change_object n : free_of "/" n = true → n ≠ "" → n ≠ "evicted.json" →
  object_path (changesFolder root +:+ "/" +:+ n) ∧ ¬ covered_by mesh (changesFolder root +:+ "/" +:+ n) active.
Proof.
  intros Hf Hne He. destruct (folder_normal "changes") as (Hn & Hn' & _); [by right|]. split; [by apply child_object|].
  unfold covered_by. rewrite in_subtree_spec. cbn [fst snd]. unfold active, snapshotPath, mainlineFolder, changesFolder.
  intros (_ & [E|(rest & E & _)]); rewrite !str_app_assoc in E; apply app_inj_l in E; discriminate E.
Qed.
Lemma holds_publish old covered : keeps (from (holds active old)) (publish env ec ctx covered).
Proof.
  unfold publish, writeJson.
  assert (∀ name d, free_of "/" name = true → name ≠ "" → name ≠ "evicted.json" → str_take 3 name = "man" →
    keeps (from (holds active old)) (remote (writeFile (A := C) (root +:+ "/" +:+ name) d))) as Hw.
  { intros name d Hf Hne He Hm. apply holds_write; [by apply child_object|]. intros E. exfalso. revert E.
    unfold active, snapshotPath, mainlineFolder. rewrite !str_app_assoc. intros E%app_inj_l.
    destruct name as [|x [|y [|z name]]]; try discriminate Hm. cbn in Hm. injection Hm as -> -> ->. discriminate E. }
  keeps_walk ltac:(first [apply from_loc; apply holds_adapter
    |apply holds_write; [apply active_object|intros _; apply active_object]]).
  - unfold manifestFile. change ("/manifest-" +:+ ?x) with ("/" +:+ "manifest-" +:+ x). apply Hw; try done.
    rewrite !free_of_app, num_slash_free. done.
  - apply (Hw "manifest.json"); done.
Qed.

(** ** Cleanup *)
(** What is taken for a superseded snapshot is another object. *)
Lemma superseded_object (l : list Wire.FileEntry) c q : sound c →
  (∀ e, e ∈ l → is_Some (at_remote c (fe_path e)) ∧ fe_name e = fileNameFromPath (fe_path e) ∧
     slashes (fe_path e) = Datatypes.S (slashes (mainlineFolder root))) →
  q ∈ superseded active l → object_path q ∧ ¬ covered_by mesh q active.
Proof.
  intros [_ Htidy] Hl. unfold superseded. intros (e & -> & He)%list_elem_of_fmap.
  rewrite list_elem_of_In, filter_In, <- list_elem_of_In in He. destruct He as (He & [Hsn Hne]%andb_true_iff).
  destruct (Hl e He) as (Hs & Hname & Hd). apply Htidy in Hs as Hn.
  destruct (folder_normal "mainline") as (_ & _ & Hz); [by left|].
  assert (fe_path e ≠ "/") as Hroot1. { intros E. rewrite E in Hd. unfold mainlineFolder in Hd. cbn -[slashes] in Hd. by injection Hd. }
  destruct (normal_cut _ Hn Hroot1) as (a & b & Eq & Hb & Hbn). rewrite Hname, Eq, file_name in Hsn, Hne by done.
  apply negb_true_iff, String.eqb_neq in Hne. split.
  - split_and!; [done|done|]. intros E%classify_record. destruct Hn as (Habs & _).
    rewrite absolute_id, Eq, last_of_cut in E by done. by rewrite E in Hsn.
  - unfold covered_by. rewrite in_subtree_spec. cbn [fst snd]. rewrite active_cut. intros (_ & [E|(rest & E & _)]).
    + apply Hne. rewrite Eq in E. rewrite <- (last_of_cut a b Hb), <- E. unfold last_name. by rewrite <- active_cut.
    + apply (f_equal slashes) in E. rewrite !slashes_app, Hd, (slashes_free _ snapshot_name_free) in E. cbn in E. lia.
Qed.
Lemma list_step (X : Type) p (k : list Wire.FileEntry → X) (h : error → X) s x s' : object_path p → sound (ss_adapter s) →
  isAuthoritativeCompactionListing p = true →
  catch (l ← remote (listFiles (A := C) p); mret (k l)) (λ e, mret (h e)) s = (x, s') →
  sound (ss_adapter s') ∧ (∀ q, at_remote (ss_adapter s') q = at_remote (ss_adapter s) q) ∧
  ((∃ e, x = Ok (h e)) ∨ ∃ l, x = Ok (k l) ∧
     ∀ e, e ∈ l → is_Some (at_remote (ss_adapter s) (fe_path e)) ∧ fe_name e = fileNameFromPath (fe_path e) ∧
       slashes (fe_path e) = Datatypes.S (slashes p)).
Proof.
  intros Hp Hs Ha. unfold catch, mbind, M_bind, remote. cbn [listFiles retry_ops cloud_ops].
  destruct (cloud_listFiles cfg p (ss_adapter s)) as [r c'] eqn:E.
  destruct (list_call host net cfg address mesh Hbytes Hr p _ r c' (proj1 Hs) Hp E) as (Hc & Hq & Hl).
  assert (sound c') as Hs' by (eapply sound_fewer; [done|done|by right]).
  destruct r as [l|e]; intros [= <- <-]; (split_and!; [done|done|]); [right|by left; exists e].
  exists l. split; [done|]. apply (Hl Ha).
Qed.
Lemma prune_step I s r s' : (∀ s s', ss_adapter s' = ss_adapter s → I s → I s') →
  (∀ s s', (∀ q, at_remote (ss_adapter s') q = at_remote (ss_adapter s) q) → sound (ss_adapter s') → I s → I s') →
  (∀ p, object_path p → ¬ covered_by mesh p active → keeps (from I) (remote (deleteFile (A := C) p))) →
  sound (ss_adapter s) → I s → pruneSupersededSnapshots root active s = (r, s') → I s'.
Proof.
  intros HI Hsame Hdel Hs Hi. destruct (folder_normal "mainline") as (Hn & Hne & _); [by left|].
  assert (object_path (mainlineFolder root)) as Hobj by (apply (child_object root "mainline"); done).
  unfold pruneSupersededSnapshots. unfold mbind at 1, M_bind at 1. destruct (catch _ _ s) as [x s1] eqn:E.
  apply list_step in E as (Hs1 & Hq & Hx); [|done|done|].
  2: { unfold isAuthoritativeCompactionListing, mainlineFolder. by rewrite endsWith_app, orb_true_r. }
  assert (I s1) as Hi1 by (by eapply Hsame).
  destruct Hx as [(e & ->)|(l & -> & Hl)]; intros E.
  - match type of E with ?m _ = _ => assert (keeps (from I) m) as K; [|exact (K _ _ _ E Hi1)] end. unfold emit_cleanup.
    keeps_walk ltac:(apply from_emit; exact HI).
  - match type of E with ?m _ = _ => assert (keeps (from I) m) as K; [|exact (K _ _ _ E Hi1)] end. unfold emit_cleanup.
    keeps_walk ltac:(first [apply from_emit; exact HI|apply settle_keeps; [exact HI|]; intros q Hin;
      destruct (superseded_object l (ss_adapter s) q Hs Hl Hin); by apply Hdel]).
Qed.
Definition plain_change n : Prop := free_of "/" n = true ∧ n ≠ "" ∧ n ≠ "evicted.json".
Lemma cleanup_keeps old covered next s r s' : (∀ n, n ∈ covered → plain_change n) →
  m_epoch (m_payload next) = epoch → holds active old s → cleanup ec covered next s = (r, s') →
  holds active old s' ∧
  ((∀ i, nw_fault net i = Delivered) → ∀ n, n ∈ covered → gone (changesFolder root +:+ "/" +:+ n) s').
Proof.
  intros Hcov Hep Hh. unfold cleanup. rewrite Hep. fold active. set (paths := (λ n, _) <$> covered).
  assert (∀ p, p ∈ paths → object_path p ∧ ¬ covered_by mesh p active) as Hpaths.
  { intros p (n & -> & Hn)%list_elem_of_fmap. destruct (Hcov n Hn) as (? & ? & ?). by apply change_object. }
  unfold mbind, M_bind. destruct (settle_deletes paths s) as [x s1] eqn:E1.
  assert (holds active old s1) as Hh1.
  { eapply (settle_keeps (holds active old) paths (holds_adapter active old)); [|exact E1|exact Hh].
    intros p Hp. destruct (Hpaths p Hp). by apply holds_delete. }
  assert (∃ b, x = Ok b) as [b ->].
  { clear -E1. revert s x s1 E1. induction paths as [|p ps IH]; intros s x s1; cbn [settle_deletes]; [intros [= <- _]; by eexists|].
    unfold mbind, M_bind, catch. destruct (remote _ s) as [[?|?] s2]; cbn;
      (destruct (settle_deletes ps s2) as [y s3] eqn:E3; destruct (IH _ _ _ E3) as [b' ->]; intros [= <- _]; by eexists). }
  destruct (pruneSupersededSnapshots root active s1) as [y s2] eqn:E2. intros E.
  assert (s' = s2) as -> by (destruct y; by injection E as _ <-). clear E. split.
  - eapply (prune_step (holds active old)); [apply holds_adapter| | |apply Hh1|exact Hh1|exact E2].
    + intros a a' Hq Hs [_ Ha]. split; [done|]. by rewrite Hq.
    + intros p Hp Hn. by apply holds_delete.
  - intros Hnet n Hn. destruct (settle_takes paths s (Ok b) s1 Hnet) as [_ Hg]; [intros p Hp; by apply Hpaths|apply Hh|done|].
    eapply (prune_step (gone (changesFolder root +:+ "/" +:+ n))); [apply gone_adapter| | |apply Hh1| |exact E2].
    + intros a a' Hq Hs [_ Ha]. split; [done|]. by rewrite Hq.
    + intros p Hp _. by apply gone_delete.
    + apply Hg. apply list_elem_of_fmap. by exists n.
Qed.

(** C39: A retried compaction loses what came between.  When the snapshot of the next epoch is already at
    the server (an attempt stopped between the snapshot and the pointer; the retry computes the same name), a compaction that
    succeeds publishes a manifest that names that snapshot, with the old bytes, whatever the store holds now; and
    when every request is answered it has deleted every change file it has merged, those that the old
    snapshot does not have included. *)
Theorem retried_compaction_keeps_the_old_snapshot (ctx_pull : M S ()) (s s1 s' : S) (next : Manifest) (old : Bytes) :
  compact env ec ctx ctx_pull s = (Ok next, s') → ctx_pull s = (Ok (), s1) →
  sound (ss_adapter s1) → at_remote (ss_adapter s1) active = Some old →
  (∀ n, n ∈ capturedChangeFileNames (load (ss_local s1)) → plain_change n) →
  m_snapshotPath (m_payload next) = Some active ∧ at_remote (ss_adapter s') active = Some old ∧
  ((∀ i, nw_fault net i = Delivered) → ∀ n, n ∈ capturedChangeFileNames (load (ss_local s1)) →
     at_remote (ss_adapter s') (changesFolder root +:+ "/" +:+ n) = None).
Proof.
  unfold compact. destruct (_ && _); [done|]. intros E Hpull Hs Hold Hcov.
  rewrite (bind_ok _ _ _ _ _ Hpull) in E. apply bind_ok_inv in E as (obs & s2 & E1 & E).
  injection E1 as <- <-. cbn in E. set (covered := capturedChangeFileNames _) in E. apply bind_ok_inv in E as (n & s3 & Epub & E).
  assert (n = next_manifest env ec ctx) as ->.
  { unfold publish in Epub. repeat (apply bind_ok_inv in Epub as (? & ? & _ & Epub)). by injection Epub as <- _. }
  apply bind_ok_inv in E as ([] & s4 & Eclean & [= <- <-]).
  assert (holds active old s3) as Hh by (eapply holds_publish; [exact Epub|by split]).
  destruct (cleanup_keeps old covered (next_manifest env ec ctx) s3 (Ok ()) s4 Hcov eq_refl Hh Eclean) as [[_ Ha] Hg].
  split_and!; [done|done|]. intros Hnet m Hm. by apply (Hg Hnet).
Qed.
End retry.

(** ** A trial

    Two devices over one server.  The first change is published; the compaction stops before its manifest;
    the second change is published; the compaction is retried, over a network that answers. *)
Section trial.
#[local] Existing Instance toy_crypto.
#[local] Existing Instance digit_clock.
#[local] Existing Instance octet_platform.
#[local] Existing Instance octet_view.
Notation Bodies := (gmap string (list Z)).
Notation Device := (Session (CloudflareAdapter (Link Bodies))).

Definition trial_ops (lost : option nat) : StorageOps (CloudflareAdapter (Link Bodies)) :=
  cloud_ops (H0 := octet_view) (Fetch0 := link_net trial_host (trial_net lost)) trial_config.
Definition world_at (s : Device) : World Bodies := lk_world (cl_net (ss_adapter s)).
Definition empty_world : World Bodies := mkWorld (RowStore.mkServer emptyDb None) ∅ [].

Definition device_config (device : string) : Config :=
  mkConfig "/mesh" "srv" false device false None None
    (mkRetention (Num DEFAULT_COMPACT_AFTER_MS) (Num DEFAULT_MAX_OFFLINE_DURATION_MS)) false.
Definition trial_manifest : Manifest :=
  let p := mkManifestPayload 1 0 "srv" "now" 3 "mesh_1" 1 (Some false) (Wire.mkServer false None "srv")
             "now" 0 "" None None None None in mkManifest p (hashPayload p).
Definition device_on (w : World Bodies) (device : string) : Device :=
  mkSession (over w) emptyStore ∅ ∅ (hlcInit 1711785600000 device) (Some trial_manifest) false None true [].
Definition change_of (n : Z) (row : string) : ChangeEntry :=
  sample_change ("chg_" +:+ row) (stamp_at (1711785600000 + n) 0 "dev1")
    [UpsertOp "todo" row [("title", mkColumn (VStr "milk") (stamp_at (1711785600000 + n) 0 "dev1"))]].
Definition publish_change (e : ChangeEntry) (w : World Bodies) : World Bodies :=
  world_at (fo_session (@flushPrimary _ _ (trial_ops None) test_env (device_config "dev1") [e] [] (device_on w "dev1"))).

Definition trial_context : CompactContext :=
  mkCompact trial_manifest (mkCodec None false (Some trial_manifest)) (hlcInit 1711785600000 "srv")
    (mkRetention (Num DEFAULT_COMPACT_AFTER_MS) (Num DEFAULT_MAX_OFFLINE_DURATION_MS)).
Definition pull_across (lost : option nat) (device : string) : M Device () :=
  @pull _ _ (trial_ops lost) test_env (device_config device);; mret ().
Definition compact_over (lost : option nat) : M Device Manifest :=
  @compact _ _ (trial_ops lost) test_env (device_config "srv") trial_context (pull_across lost "srv").

(** The fifth request is the one that writes the manifest. *)
Definition stopped : result Manifest * Device :=
  compact_over (Some 4%nat) (device_on (publish_change (change_of 0 "r1") empty_world) "srv").
Definition resumed : Device := set_adapter (over (publish_change (change_of 1 "r2") (world_at stopped.2))) stopped.2.
Definition pulled : result () * Device := pull_across None "srv" resumed.
Definition retried : result Manifest * Device := compact_over None resumed.
Definition retried_manifest : Manifest := match retried.1 with Ok m => m | Throw _ => trial_manifest end.
(** A device that joins now. *)
Definition joined : Device :=
  (@rehydrate _ _ (trial_ops None) (device_config "dev3")
     (mkRehydrate (mkCodec None false (Some retried_manifest)) (Some retried_manifest) (hlcInit 1711785600000 "dev3") [])
     (mret None) (pull_across None "dev3") (device_on (world_at retried.2) "dev3")).2.
Definition row_ids (s : Device) : list string := (λ r, rm_rowId (_meta r)) <$> getAllRows (ss_local s).
#[local] Strategy expand [stopped resumed pulled retried retried_manifest joined].

Lemma normal_rows_sound mesh (c : CloudflareAdapter (Link Bodies)) : sv_cache (w_server (world_of c)) = None →
  forallb (λ kr : (string * string) * FileRow, String.eqb (normalizePath kr.1.2) kr.1.2) (map_to_list (files (w_server (world_of c)))) = true →
  sound mesh c.
Proof.
  intros Hn Hf. split; [by apply no_cache_ready|]. intros q [d Hd]. unfold remote_file, content_at in Hd.
  destruct (files (w_server (world_of c)) !! (mesh, q)) as [row|] eqn:Er; [|done].
  rewrite forallb_forall in Hf. specialize (Hf ((mesh, q), row)). cbn in Hf.
  apply elem_of_map_to_list, list_elem_of_In in Er. specialize (Hf Er). apply String.eqb_eq in Hf. rewrite <- Hf.
  apply normalizePath_normal.
Qed.

Lemma trial_names : Forall plain_change [entry_name (change_of 0 "r1"); entry_name (change_of 1 "r2")].
Proof. repeat apply list.Forall_cons_2; [by split_and!; vm_compute..|apply list.Forall_nil_2]. Qed.

Lemma retried_compaction_keeps_the_old_snapshot_witness :
  row_ids retried.2 = ["r1"; "r2"] ∧
  remote_file "m" (ss_adapter retried.2) (changesFolder "/mesh" +:+ "/" +:+ entry_name (change_of 1 "r2")) = None ∧
  row_ids joined = ["r1"].
Proof.
  split; [by vm_compute|]. split; [|by vm_compute].
  assert (is_Some (remote_file "m" (ss_adapter pulled.2) (active (device_config "srv") trial_context))) as [old Hold]
    by (vm_compute; eauto).
  assert (retried.1 = Ok retried_manifest) as Hok by by vm_compute.
  assert (pulled = (Ok (), pulled.2)) as Hpull.
  { assert (pulled.1 = Ok ()) as <- by by vm_compute. apply surjective_pairing. }
  assert (capturedChangeFileNames (load (ss_local pulled.2)) = [entry_name (change_of 0 "r1"); entry_name (change_of 1 "r2")])
    as Hcov by by vm_compute.
  destruct (retried_compaction_keeps_the_old_snapshot (H0 := octet_view) trial_host (trial_net None) trial_config "m" "m"
    (λ d, eq_refl) trial_reaches test_env (device_config "srv") trial_context
    ltac:(by split_and!) ltac:(done) ltac:(done) (pull_across None "srv") resumed pulled.2 retried.2 retried_manifest old)
    as (_ & _ & Hgone).
  - change (retried = (Ok retried_manifest, retried.2)). rewrite <- Hok. apply surjective_pairing.
  - exact Hpull.
  - apply normal_rows_sound; by vm_compute.
  - exact Hold.
  - rewrite Hcov. apply list.Forall_forall. exact trial_names.
  - apply Hgone; [done|]. rewrite Hcov. by right; left.
Defined.
End trial.
