(* ===== verification/Recovery.v ===== *)
(** * Recovery phrases
    ([packages/core/src/crypto/recovery.ts], over [adapters/cloudflare.ts] and the recovery routes of
     [workers/worker.ts])

    A phrase gives a root, the root a locator and, with a salt, the key that seals the credentials of a mesh.  The wrapper
    is stored under its locator, by the adapter's own recovery calls or as a file.  Random values and the time
    are arguments, and a wrapper is the JSON value that the code checks before it uses it. *)

From S2P Require Import Prelude JsString Hlc Values JsMap LocalStore Octets Encryption StoredFile.
From S2P Require Import Wire Crdt Convergence Observation Adapter Codec Session MergeStore Manifest Flush Pull.
From S2P Require Import Compaction ChangeEffects LocalWrites Promises Engine Files Ids Routes RowStore Worker.
From S2P Require Import Requests Cloudflare OctetDocs CloudMesh.
From Stdlib Require Import Ascii.
From Stdlib Require String.

Open Scope stdpp_scope.

(** ** What the platform adds

    Unicode normalisation, PBKDF2 and HKDF with a salt.  Bytes are octets. *)
Class RecoveryCrypto `{WebCrypto} := {
  nfkd : string → string;
  pbkdf2 : list Z → list Z → Z → list Z;
  hkdf_salted : list Z → list Z → list Z → list Z;
  utf8_octets s : octets (utf8_encode s);
  pbkdf2_octets p s n : octets p → octets s → octets (pbkdf2 p s n);
  hkdf_octets k s i : octets k → octets s → octets i → octets (hkdf_salted k s i);
  hmac_octets k m : octets k → octets m → octets (hmac_sign k m);
  gcm_octets k iv aad p : octets k → octets iv → octets aad → octets p → octets (gcm_encrypt k iv aad p) }.

Definition ROOT_ITERATIONS : Z := 600000.
Definition RECOVERY_FOLDER : string := "/.interocitor/recovery".
Record RecoveredMeshCredentials := mkRecovered {
  rmc_remotePath : string; rmc_portableKey : string; rmc_meshId : option string }.

(** [s.replaceAll(/\s+/g, " ")]. *)
Fixpoint squeeze (s : string) : string :=
  match s with
  | "" => ""
  | String c s' =>
      if is_space c
      then match s' with
           | String d _ => if is_space d then squeeze s' else String " " (squeeze s')
           | "" => " "
           end
      else String c (squeeze s')
  end.

Section recovery.
Context `{RecoveryCrypto}.

Definition RECOVERY_ROOT_SALT : list Z := utf8_encode "interocitor.recovery.root.v1".
Definition LOCATOR_INFO : list Z := utf8_encode "interocitor.recovery.locator.v1".
Definition KEK_INFO : list Z := utf8_encode "interocitor.recovery.kek.v1".

Definition normalizePhrase (phrase : string) : string := squeeze (trim (nfkd phrase)).
Definition assertPhrase (phrase : string) : result string :=
  let normalized := normalizePhrase phrase in
  if truthy normalized then Ok normalized else Throw (JsError "Recovery phrase must not be empty").
(** The conditions in the order of the code; [String(wrapper.locator || "")] may itself throw. *)
Definition is_text (s : string) (v : jsval) : bool := match v with VStr x => String.eqb x s | _ => false end.
Definition is_number (n : Z) (v : jsval) : bool := match v with VNum (Num m) => (m =? n)%Z | _ => false end.
Definition text_value (v : jsval) : bool := match v with VStr _ => true | _ => false end.
Definition assertWrapper (wrapper : jsval) : result () :=
  let invalid := Throw (JsError "Invalid recovery wrapper") in
  let kdf := field "kdf" wrapper in
  if negb (match wrapper with VObj _ | VArr _ | VDate _ => true | _ => false end) then invalid
  else if negb (is_number 1 (field "v" wrapper)) ||
          negb (is_text "AES-GCM" (field "alg" wrapper)) ||
          negb (is_text "PBKDF2-HMAC-SHA-256" (field "name" (field "root" kdf))) ||
          negb (is_number ROOT_ITERATIONS (field "iterations" (field "root" kdf))) ||
          negb (is_text "HKDF-SHA-256" (field "name" (field "kek" kdf))) ||
          negb (text_value (field "salt" (field "kek" kdf)))
  then invalid
  else
    locator ← String_ (if truthy_value (field "locator" wrapper) then field "locator" wrapper else VStr "");
    if negb (RECOVERY_LOCATOR_RE locator) || negb (text_value (field "iv" wrapper)) ||
       negb (text_value (field "ciphertext" wrapper)) || negb (text_value (field "createdAt" wrapper))
    then invalid else Ok ().

(** ** Derivations *)
Definition deriveRecoveryRoot (phrase : string) : result (list Z) :=
  text ← assertPhrase phrase;
  Ok (pbkdf2 (utf8_encode text) RECOVERY_ROOT_SALT ROOT_ITERATIONS).
Definition deriveLocator (root : list Z) : string := bytesToBase64Url (hmac_sign root LOCATOR_INFO).
Definition deriveKek (root salt : list Z) : list Z := hkdf_salted root salt KEK_INFO.
Definition wrapperAad (locator salt : string) : list Z :=
  utf8_encode ("interocitor.recovery.wrapper.v1|" +:+ locator +:+ "|" +:+ salt).
Definition recoveryPath (locator : string) : result string :=
  if negb (RECOVERY_LOCATOR_RE locator) then Throw (JsError "Invalid recovery locator")
  else Ok (RECOVERY_FOLDER +:+ "/" +:+ locator +:+ ".json").
Definition recoveryLocator (phrase : string) : result string :=
  root ← deriveRecoveryRoot phrase; Ok (deriveLocator root).

(** ** Wrapping *)
Definition credentials_json (c : RecoveredMeshCredentials) : jsval :=
  VObj ([("remotePath", VStr (rmc_remotePath c)); ("portableKey", VStr (rmc_portableKey c))] ++
        match opt_truthy (rmc_meshId c) with Some m => [("meshId", VStr m)] | None => [] end).
Definition wrapper_json (locator salt iv ciphertext createdAt : string) : jsval :=
  VObj [("v", VNum (Num 1)); ("alg", VStr "AES-GCM");
    ("kdf", VObj [("root", VObj [("name", VStr "PBKDF2-HMAC-SHA-256"); ("iterations", VNum (Num ROOT_ITERATIONS))]);
                  ("kek", VObj [("name", VStr "HKDF-SHA-256"); ("salt", VStr salt)])]);
    ("locator", VStr locator); ("iv", VStr iv); ("ciphertext", VStr ciphertext); ("createdAt", VStr createdAt)].
Definition createRecoveryWrapper (phrase : string) (credentials : RecoveredMeshCredentials) (salt iv : list Z)
    (now : string) : result jsval :=
  if negb (truthy (rmc_remotePath credentials)) || negb (truthy (rmc_portableKey credentials))
  then Throw (JsError "Recovery credentials require remotePath and portableKey")
  else
    root ← deriveRecoveryRoot phrase;
    let locator := deriveLocator root in
    let saltText := bytesToBase64Url salt in
    let ciphertext := gcm_encrypt (deriveKek root salt) iv (wrapperAad locator saltText)
                        (utf8_encode (json_stringify (credentials_json credentials))) in
    Ok (wrapper_json locator saltText (bytesToBase64Url iv) (bytesToBase64Url ciphertext) now).

Definition text_of (v : jsval) : string := match v with VStr s => s | _ => "" end.
Definition recovered_of (value : jsval) : result RecoveredMeshCredentials :=
  match field "remotePath" value, field "portableKey" value with
  | VStr remotePath, VStr portableKey =>
      Ok (mkRecovered remotePath portableKey (opt_truthy (Some (text_of (field "meshId" value)))))
  | _, _ => Throw (JsError "Recovery wrapper contains invalid credentials")
  end.
Definition open_wrapper (root : list Z) (wrapper : jsval) : result (list Z) :=
  let salt := text_of (field "salt" (field "kek" (field "kdf" wrapper))) in
  iv ← base64UrlToBytes (text_of (field "iv" wrapper));
  kek ← (saltBytes ← base64UrlToBytes salt; Ok (deriveKek root saltBytes));
  ciphertext ← base64UrlToBytes (text_of (field "ciphertext" wrapper));
  gcm_decrypt kek iv (wrapperAad (text_of (field "locator" wrapper)) salt) ciphertext.
Definition unwrapRecoveryWrapper (phrase : string) (wrapper : jsval) : result RecoveredMeshCredentials :=
  assertWrapper wrapper;;
  root ← deriveRecoveryRoot phrase;
  if negb (is_text (deriveLocator root) (field "locator" wrapper))
  then Throw (JsError "Recovery phrase does not match this wrapper")
  else
    match (plaintext ← open_wrapper root wrapper; json_parse (utf8_decode plaintext)) with
    | Ok value => recovered_of value
    | Throw _ => Throw (JsError "Recovery phrase could not unlock this wrapper")
    end.

(** ** Publication and recovery

    [recoveryAdapter]: the adapter's own recovery calls, when it has both. *)
Context `{Platform} `{!ByteView} {A : Type} `{!StorageOps A}.
Record RecoveryStorageAdapter := mkRecoveryStorage {
  rs_readRecoveryWrapper : string → M A (list Z);
  rs_writeRecoveryWrapper : string → list Z → M A () }.
Implicit Types recoveryAdapter : option RecoveryStorageAdapter.

Definition publishRecoveryWrapper recoveryAdapter (wrapper : jsval) : M A () :=
  lift (assertWrapper wrapper);;
  let data := utf8_encode (json_stringify wrapper) in
  locator ← lift (String_ (field "locator" wrapper));
  match recoveryAdapter with
  | Some recovery => rs_writeRecoveryWrapper recovery locator data
  | None =>
      ensureFolder RECOVERY_FOLDER;;
      path ← lift (recoveryPath locator);
      writeFile path (toBytes data)
  end.
Definition recoverMeshCredentials recoveryAdapter (phrase : string) : M A RecoveredMeshCredentials :=
  locator ← lift (recoveryLocator phrase);
  data ← match recoveryAdapter with
         | Some recovery => rs_readRecoveryWrapper recovery locator
         | None => path ← lift (recoveryPath locator); bytes ← readFile path; mret (ofBytes bytes)
         end;
  match json_parse (utf8_decode data) with
  | Throw _ => throw (JsError "Invalid recovery wrapper")
  | Ok wrapper => lift (assertWrapper wrapper);; lift (unwrapRecoveryWrapper phrase wrapper)
  end.
End recovery.

(** ** Phrases are words *)
Fixpoint split_spaces (s : string) : list string :=
  match s with
  | "" => [""]
  | String c s => if is_space c then "" :: split_spaces s
                  else match split_spaces s with p :: ps => String c p :: ps | [] => [String c ""] end
  end.
Definition words (s : string) : list string := List.filter truthy (split_spaces s).

Lemma split_spaces_cons s : ∃ p ps, split_spaces s = p :: ps.
Proof. destruct s as [|c s]; [by eexists _, _|]. cbn. destruct (is_space c); [by eexists _, _|]. destruct (split_spaces s); by eexists _, _. Qed.
Lemma words_space c s : is_space c = true → words (String c s) = words s.
Proof. intros Hc. unfold words. cbn. by rewrite Hc. Qed.
Lemma words_trim_start s : words (trim_start s) = words s.
Proof. induction s as [|c s IH]; [done|]. cbn [trim_start]. destruct (is_space c) eqn:E; [by rewrite words_space|done]. Qed.
Lemma split_trim_end s : head (split_spaces (trim_end s)) = head (split_spaces s) ∧
  List.filter truthy (tail (split_spaces (trim_end s))) = List.filter truthy (tail (split_spaces s)).
Proof.
  induction s as [|c s IH]; [done|]. cbn [trim_end]. cbn [split_spaces].
  destruct (split_spaces_cons s) as (p & ps & Es). rewrite Es in *. destruct (trim_end s) as [|d s'] eqn:Et.
  - cbn in IH. destruct IH as [[= <-] Hps]. destruct (is_space c) eqn:Ec; cbn; rewrite ?Ec; cbn; by rewrite <- ?Hps.
  - cbn [split_spaces] in IH |- *. set (l := if is_space d then _ else _) in *.
    assert (∃ q qs, l = q :: qs) as (q & qs & El).
    { unfold l. destruct (split_spaces_cons s') as (x & xs & ->). destruct (is_space d); by eexists _, _. }
    rewrite El in *. cbn in IH. destruct IH as [[= ->] Hqs].
    destruct (is_space c); cbn; [|by rewrite Hqs]. split; [done|]. by destruct (truthy p); rewrite Hqs.
Qed.
Lemma words_trim_end s : words (trim_end s) = words s.
Proof.
  unfold words. destruct (split_trim_end s) as [Hh Ht], (split_spaces_cons (trim_end s)) as (p & ps & E),
    (split_spaces_cons s) as (q & qs & E'). rewrite E, E' in *. cbn in *. injection Hh as ->. by rewrite Ht.
Qed.

(** No space at the end. *)
Fixpoint closed_end (s : string) : bool :=
  match s with "" => true | String c "" => negb (is_space c) | String _ s => closed_end s end.
Lemma closed_cons c d s : closed_end (String c (String d s)) = closed_end (String d s).
Proof. done. Qed.
Lemma closed_trim_end s : closed_end (trim_end s) = true.
Proof.
  induction s as [|c s IH]; [done|]. cbn [trim_end]. destruct (trim_end s) as [|d s'] eqn:E.
  - destruct (is_space c) eqn:Ec; [done|]. cbn. by rewrite Ec.
  - by rewrite closed_cons.
Qed.
Definition opens_with_space (s : string) : bool := match s with String c _ => is_space c | "" => false end.
Lemma words_some s : closed_end s = true → s ≠ "" → words s ≠ [].
Proof.
  induction s as [|c s IH]; [done|]. intros Hs _. destruct s as [|d s].
  - cbn in Hs. apply negb_true_iff in Hs. unfold words. cbn. by rewrite Hs.
  - rewrite closed_cons in Hs. destruct (is_space c) eqn:Ec; [rewrite words_space by done; by apply IH|].
    unfold words. cbn [split_spaces]. rewrite Ec. fold (split_spaces (String d s)).
    destruct (split_spaces_cons (String d s)) as (p & ps & E). cbn [split_spaces] in E. rewrite E. done.
Qed.
Lemma squeeze_words s : closed_end s = true →
  squeeze s = (if opens_with_space s then " " else "") +:+ join " " (words s).
Proof.
  induction s as [|c s IH]; [done|]. destruct s as [|d s].
  { cbn [closed_end squeeze opens_with_space]. intros Hc%negb_true_iff. unfold words. cbn [split_spaces]. by rewrite !Hc. }
  rewrite closed_cons. intros Hs. specialize (IH Hs). pose proof (words_some _ Hs ltac:(done)) as Hw.
  change (squeeze (String c (String d s))) with (if is_space c then (if is_space d then squeeze (String d s) else String " " (squeeze (String d s)))
    else String c (squeeze (String d s))).
  rewrite IH. cbn [opens_with_space]. destruct (is_space c) eqn:Ec.
  - rewrite (words_space c) by done. 
    by destruct (is_space d).
  - destruct (is_space d) eqn:Ed.
    + assert (words (String c (String d s)) = String c "" :: words (String d s)) as ->.
      { unfold words. cbn [split_spaces]. rewrite Ec, Ed. done. }
      destruct (words (String d s)) as [|w ws]; [done|]. rewrite join_cons2. done.
    + rewrite str_app_nil_l. unfold words. cbn [split_spaces]. rewrite Ec, Ed.
      destruct (split_spaces_cons s) as (p & ps & E). rewrite E. cbn. by destruct (List.filter truthy ps).
Qed.
Lemma trim_words s : squeeze (trim s) = join " " (words s).
Proof.
  unfold trim. rewrite squeeze_words by apply closed_trim_end. rewrite words_trim_end, words_trim_start.
  assert (opens_with_space (trim_end (trim_start s)) = false) as ->; [|done].
  induction s as [|c s IH]; [done|]. cbn [trim_start]. destruct (is_space c) eqn:Ec; [done|]. cbn [trim_end].
  destruct (trim_end s); [by rewrite Ec|done].
Qed.

(** ** Wrappers *)
Section theory.
Context `{RecoveryCrypto}.

Lemma url_letters ds : sextets_ok ds →
  str_forall Worker.url_letter (replace_char "/" "_" (replace_char "+" "-" (letters ds))) = true.
Proof.
  induction 1 as [|d ds Hd _ IH]; [done|]. cbn [letters foldr replace_char]. fold (letters ds).
  cbn [str_forall]. rewrite IH, andb_true_r. revert d Hd.
  assert (forallb (λ n, Worker.url_letter (let x := letter BASE64_ALPHABET (Z.of_nat n) in
    let y := if Ascii.eqb x "+" then "-"%char else x in if Ascii.eqb y "/" then "_"%char else y))
    (seq 0 64) = true) as Hall by by vm_compute.
  rewrite forallb_forall in Hall. intros d Hd. specialize (Hall (Z.to_nat d)). rewrite Z2Nat.id in Hall by lia.
  apply Hall, in_seq. lia.
Qed.
Lemma sextets_32 bytes : length bytes = 32%nat → length (bytes_sextets bytes) = 43%nat.
Proof. intros E. do 33 (destruct bytes as [|? bytes]; [try discriminate E; try done|]). discriminate E. Qed.
(** A locator is 43 letters of the URL alphabet. *)
Lemma locator_shape root : RECOVERY_LOCATOR_RE (deriveLocator root) = true.
Proof.
  unfold RECOVERY_LOCATOR_RE, deriveLocator. rewrite base64Url_letters, !replace_length, letters_length.
  rewrite sextets_32 by apply hmac_length. rewrite url_letters by apply bytes_sextets_ok. done.
Qed.
Lemma root_octets phrase root : deriveRecoveryRoot phrase = Ok root → octets root.
Proof.
  unfold deriveRecoveryRoot. destruct (assertPhrase phrase); [|done]. intros [= <-].
  apply pbkdf2_octets; apply utf8_octets.
Qed.
Lemma words_truthy s w : In w (words s) → truthy w = true.
Proof. unfold words. by intros []%List.filter_In. Qed.
(** The root depends on the words of the phrase alone. *)
Lemma root_of_words phrase : deriveRecoveryRoot phrase =
  match words (nfkd phrase) with
  | [] => Throw (JsError "Recovery phrase must not be empty")
  | ws => Ok (pbkdf2 (utf8_encode (join " " ws)) RECOVERY_ROOT_SALT ROOT_ITERATIONS)
  end.
Proof.
  unfold deriveRecoveryRoot, assertPhrase, normalizePhrase. rewrite trim_words.
  pose proof (words_truthy (nfkd phrase)) as Hw. destruct (words (nfkd phrase)) as [|w ws]; [done|].
  destruct w as [|c w]; [by specialize (Hw "" (or_introl eq_refl))|]. by destruct ws.
Qed.

Lemma wrapper_accepted locator salt iv ciphertext now : RECOVERY_LOCATOR_RE locator = true →
  assertWrapper (wrapper_json locator salt iv ciphertext now) = Ok ().
Proof.
  intros Hl. unfold assertWrapper. destruct locator as [|c l]; [done|].
  cbn -[RECOVERY_LOCATOR_RE String_].
  change (truthy (String c l)) with true. cbn -[RECOVERY_LOCATOR_RE]. by rewrite Hl.
Qed.
Lemma credentials_read c : truthy (rmc_remotePath c) = true →
  json_value (credentials_json c) = true ∧
  recovered_of (credentials_json c) = Ok (mkRecovered (rmc_remotePath c) (rmc_portableKey c) (opt_truthy (rmc_meshId c))).
Proof.
  intros _. unfold credentials_json. destruct c as [p k [m|]]; cbn; [|done]. unfold opt_truthy. destruct (truthy m) eqn:E; cbn; [|done].
  unfold recovered_of. cbn. unfold opt_truthy. by rewrite E.
Qed.

Lemma created_opens phrase credentials salt iv now wrapper root :
  octets salt → octets iv → deriveRecoveryRoot phrase = Ok root →
  createRecoveryWrapper phrase credentials salt iv now = Ok wrapper →
  assertWrapper wrapper = Ok () ∧ json_value wrapper = true ∧ field "locator" wrapper = VStr (deriveLocator root) ∧
  open_wrapper root wrapper = Ok (utf8_encode (json_stringify (credentials_json credentials))) ∧
  truthy (rmc_remotePath credentials) = true.
Proof.
  intros Hs Hi Hroot. unfold createRecoveryWrapper. destruct (truthy (rmc_remotePath credentials)) eqn:E; [|done].
  destruct (truthy (rmc_portableKey credentials)); [|done]. cbn [negb orb]. rewrite Hroot. cbn [mbind result_bind].
  intros [= <-]. split_and!; [apply wrapper_accepted, locator_shape|done|done| |done].
  pose proof (root_octets _ _ Hroot) as Ho.
  assert (octets (deriveKek root salt)) as Hk by (by apply hkdf_octets; [..|apply utf8_octets]).
  unfold open_wrapper. cbn. rewrite !base64Url_roundtrip by (try done; apply gcm_octets; try done; apply utf8_octets).
  cbn. apply gcm_roundtrip.
Qed.

(** C33: A phrase opens what it sealed, whatever its spacing.  A wrapper made under a phrase is one the
    code accepts; any phrase with the same words (after Unicode normalisation) unwraps it to the credentials; a phrase with
    another locator is told apart; and whatever phrase unwraps any wrapper at all, the
    wrapper's ciphertext is the sealing of those credentials under that phrase's key, locator and salt. *)
Theorem recovery_wrapper_roundtrip (phrase phrase' : string) (credentials : RecoveredMeshCredentials)
    (salt iv : list Z) (now : string) (wrapper : jsval) :
  octets salt → octets iv → createRecoveryWrapper phrase credentials salt iv now = Ok wrapper →
  assertWrapper wrapper = Ok () ∧
  (words (nfkd phrase') = words (nfkd phrase) →
   unwrapRecoveryWrapper phrase' wrapper =
     Ok (mkRecovered (rmc_remotePath credentials) (rmc_portableKey credentials) (opt_truthy (rmc_meshId credentials)))) ∧
  (recoveryLocator phrase' ≠ recoveryLocator phrase → is_ok (unwrapRecoveryWrapper phrase' wrapper) = false) ∧
  (∀ wrapper' recovered, unwrapRecoveryWrapper phrase' wrapper' = Ok recovered →
     ∃ root plaintext value, deriveRecoveryRoot phrase' = Ok root ∧
       field "locator" wrapper' = VStr (deriveLocator root) ∧
       (salt ← base64UrlToBytes (text_of (field "salt" (field "kek" (field "kdf" wrapper'))));
        iv ← base64UrlToBytes (text_of (field "iv" wrapper'));
        Ok (gcm_encrypt (deriveKek root salt) iv
              (wrapperAad (deriveLocator root) (text_of (field "salt" (field "kek" (field "kdf" wrapper'))))) plaintext)) =
         base64UrlToBytes (text_of (field "ciphertext" wrapper')) ∧
       json_parse (utf8_decode plaintext) = Ok value ∧ recovered_of value = Ok recovered).
Proof.
  intros Hs Hi Hc. assert (∃ root, deriveRecoveryRoot phrase = Ok root) as [root Hroot].
  { unfold createRecoveryWrapper in Hc. destruct (_ || _); [done|]. destruct (deriveRecoveryRoot phrase); [by eexists|done]. }
  destruct (created_opens _ _ _ _ _ _ root Hs Hi Hroot Hc) as (Ha & _ & Hl & Ho & Hp).
  destruct (credentials_read credentials Hp) as [Hj Hread]. split_and!; [done|..].
  - intros Hw. unfold unwrapRecoveryWrapper. rewrite Ha. cbn [mbind result_bind].
    rewrite root_of_words, Hw, <- root_of_words, Hroot. rewrite Hl. cbn. rewrite String.eqb_refl. cbn.
    rewrite Ho. cbn. by rewrite utf8_roundtrip, json_roundtrip.
  - unfold recoveryLocator. rewrite Hroot. intros Hne. unfold unwrapRecoveryWrapper. rewrite Ha. cbn [mbind result_bind].
    destruct (deriveRecoveryRoot phrase') as [root'|] eqn:E; [|done]. rewrite Hl. cbn.
    destruct (String.eqb_spec (deriveLocator root) (deriveLocator root')) as [E'|]; [|done].
    destruct Hne. cbn. by rewrite E'.
  - intros wrapper' recovered. unfold unwrapRecoveryWrapper. destruct (assertWrapper wrapper'); [|done]. cbn [mbind result_bind].
    destruct (deriveRecoveryRoot phrase') as [root'|] eqn:E; [|done]. cbn [mbind result_bind].
    destruct (is_text (deriveLocator root') (field "locator" wrapper')) eqn:Et; cbn [negb]; [|done].
    assert (field "locator" wrapper' = VStr (deriveLocator root')) as Hloc.
    { unfold is_text in Et. destruct (field "locator" wrapper'); try done. by apply String.eqb_eq in Et as ->. }
    destruct (open_wrapper root' wrapper') as [plaintext|] eqn:Eo; [|done]. cbn [mbind result_bind].
    destruct (json_parse _) as [value|] eqn:Ej; [|done]. intros Hr. exists root', plaintext, value. split_and!; try done.
    revert Eo. unfold open_wrapper. rewrite Hloc. cbn [text_of].
    destruct (base64UrlToBytes (text_of (field "iv" wrapper'))) as [ivb|]; [|done].
    destruct (base64UrlToBytes (text_of (field "salt" (field "kek" (field "kdf" wrapper'))))) as [sb|]; [|done].
    destruct (base64UrlToBytes (text_of (field "ciphertext" wrapper'))) as [ct|]; [|done].
    cbn [mbind result_bind]. by intros ->%gcm_authentic.
Qed.
End theory.

(** ** A concrete cipher *)
#[local] Existing Instance toy_crypto.
Lemma char_codes_octets s : octets (char_codes s).
Proof. induction s as [|c s IH]; cbn; constructor; [|done]. unfold octet, char_code. pose proof (nat_ascii_bounded c). lia. Qed.
#[local] Program Instance toy_recovery : RecoveryCrypto := {
  nfkd s := s; pbkdf2 p s _ := take 32 (p ++ s); hkdf_salted k s i := k ++ s ++ i }.
Next Obligation. exact char_codes_octets. Qed.
Next Obligation. intros p s n Hp Hs. by apply Forall_take, Forall_app. Qed.
Next Obligation. intros k s i Hk Hs Hi. unfold octets in *. by rewrite !Forall_app. Qed.
Next Obligation.
  intros k m Hk Hm. unfold octets in *. cbn. unfold toy_sign. apply Forall_take, Forall_app. split; [by apply Forall_take|].
  apply Forall_app. split; [by apply Forall_take|]. apply Forall_replicate. done.
Qed.
Next Obligation.
  intros k iv aad p Hk Hi Ha Hp. unfold octets in *. cbn. unfold toy_tag. rewrite Forall_app. split; [done|]. apply Forall_take.
  rewrite !Forall_app. split_and!; try done. apply Forall_replicate. done.
Qed.

Definition trial_credentials : RecoveredMeshCredentials := mkRecovered "p" "key" (Some "m").
Definition trial_salt : list Z := replicate 16 5%Z.
Lemma recovery_wrapper_roundtrip_witness : ∃ wrapper,
  createRecoveryWrapper "stop crab" trial_credentials trial_salt toy_iv "t" = Ok wrapper ∧
  unwrapRecoveryWrapper " stop  crab " wrapper = Ok trial_credentials ∧
  is_ok (unwrapRecoveryWrapper "go crab" wrapper) = false.
Proof.
  destruct (createRecoveryWrapper "stop crab" trial_credentials trial_salt toy_iv "t") as [wrapper|e] eqn:E; [|discriminate E].
  exists wrapper. split; [done|].
  assert (octets trial_salt) as Hs by (by apply Forall_replicate). assert (octets toy_iv) as Hi by (by apply Forall_replicate).
  destruct (recovery_wrapper_roundtrip "stop crab" " stop  crab " trial_credentials trial_salt toy_iv "t" wrapper Hs Hi E)
    as (_ & Hok & _).
  destruct (recovery_wrapper_roundtrip "stop crab" "go crab" trial_credentials trial_salt toy_iv "t" wrapper Hs Hi E)
    as (_ & _ & Hne & _).
  split; [exact (Hok eq_refl)|]. apply Hne. vm_compute. discriminate.
Defined.
