(* ===== verification/Invitation.v ===== *)
(** * Invitations
    ([packages/core/src/handshake/capabilities.ts], [handshake/handshake-id.ts], [handshake/qr.ts])

    What a QR code or a pair link says: who wants what, where the two devices meet, the public key of
    the device that shows it, and the features that it supports and requires.  Values from outside are
    [jsval]s, checked before they become records; an array has no holes. *)

From S2P Require Import Prelude JsString Hlc Values JsMap LocalStore Octets Encryption StoredFile.
From S2P Require Import Wire Crdt Convergence Observation Adapter Codec Session MergeStore Manifest Flush Pull.
From S2P Require Import Compaction ChangeEffects LocalWrites Promises Engine Files Ids Routes RowStore Worker Recovery.
From Stdlib Require Import Ascii.
From Stdlib Require String.

Open Scope stdpp_scope.

(** ** Capabilities *)
Definition MAX_CAPABILITIES : nat := 32.
Definition MAX_CAPABILITY_ID_LENGTH : nat := 128.
Record PairingCapabilities := mkCapabilities { pc_supported : list string; pc_required : option (list string) }.
Record NormalizedPairingCapabilities := mkNormalized { np_supported : list string; np_required : list string }.

(** [sortedStrings(new Set(values))]. *)
Definition sorted_set (values : list string) : list string := merge_sort String.le (remove_dups values).
Definition capability_id (candidate : jsval) : result string :=
  match candidate with
  | VStr s => if (String.length s =? 0)%nat || (MAX_CAPABILITY_ID_LENGTH <? String.length s)%nat
              then Throw (JsError "Invalid pairing capabilities: invalid id") else Ok s
  | _ => Throw (JsError "Invalid pairing capabilities: invalid id")
  end.
Fixpoint capability_ids (values : list jsval) : result (list string) :=
  match values with
  | [] => Ok []
  | v :: values => id ← capability_id v; ids ← capability_ids values; Ok (id :: ids)
  end.
Definition snapshotCapabilityIds (value : jsval) : result (list string) :=
  match value with
  | VArr l => if (MAX_CAPABILITIES <? length l)%nat then Throw (JsError "Invalid pairing capabilities: too many ids")
              else capability_ids l
  | _ => Throw (JsError "Invalid pairing capabilities: must be an array")
  end.
(** [typeof value === "object"], neither [null] nor an array. *)
Definition plain_object (value : jsval) : bool := match value with VObj _ | VDate _ => true | _ => false end.
Definition snapshotPairingCapabilities (value : jsval) : result PairingCapabilities :=
  if negb (plain_object value) then Throw (JsError "Invalid pairing capabilities")
  else
    supported ← snapshotCapabilityIds (field "supported" value);
    match field "required" value with
    | VUndefined => Ok (mkCapabilities supported None)
    | r => required ← snapshotCapabilityIds r; Ok (mkCapabilities supported (Some required))
    end.
(** The object of a profile. *)
Definition strings_value (l : list string) : jsval := VArr (VStr <$> l).
Definition capabilities_value (c : PairingCapabilities) : jsval :=
  VObj (("supported", strings_value (pc_supported c)) ::
        match pc_required c with Some r => [("required", strings_value r)] | None => [] end).
Definition normalizePairingCapabilities (value : jsval) : result NormalizedPairingCapabilities :=
  match value with
  | VUndefined | VNull => Ok (mkNormalized [] [])
  | _ => snapshot ← snapshotPairingCapabilities value;
         Ok (mkNormalized (sorted_set (pc_supported snapshot)) (sorted_set (default [] (pc_required snapshot))))
  end.
Definition isPairingCapabilities (value : jsval) : bool :=
  is_ok (normalizePairingCapabilities value) && match value with VObj _ | VArr _ | VDate _ => true | _ => false end.
Fixpoint merge_profiles (values : list jsval) (supported required : list string) : result NormalizedPairingCapabilities :=
  match values with
  | [] => normalizePairingCapabilities (capabilities_value (mkCapabilities (sorted_set supported) (Some (sorted_set required))))
  | v :: values => n ← normalizePairingCapabilities v;
                   merge_profiles values (supported ++ np_supported n) (required ++ np_required n)
  end.
Definition mergePairingCapabilities (values : list jsval) : result NormalizedPairingCapabilities := merge_profiles values [] [].
Definition pairingCapabilitiesForWire (n : NormalizedPairingCapabilities) : option PairingCapabilities :=
  match np_supported n, np_required n with
  | [], [] => None
  | s, [] => Some (mkCapabilities s None)
  | s, r => Some (mkCapabilities s (Some r))
  end.
Definition UnsupportedPairingCapabilityError (missing : list string) : error :=
  JsError ("Pairing requires unsupported capabilities: " +:+ join ", " (sorted_set missing)).
Definition missing_from (required supported : list string) : list string :=
  List.filter (λ id, negb (bool_decide (id ∈ supported))) required.
Definition assertPairingCapabilitiesCompatible (loc peer : NormalizedPairingCapabilities) : result () :=
  let missing := missing_from (np_required loc) (np_supported loc) ++ missing_from (np_required peer) (np_supported loc) ++
                 missing_from (np_required loc) (np_supported peer) ++ missing_from (np_required peer) (np_supported peer) in
  match missing with [] => Ok () | _ => Throw (UnsupportedPairingCapabilityError missing) end.

(** ** Identifiers and payloads *)
Definition HANDSHAKE_ID_PATTERN (s : string) : bool :=
  (1 <=? String.length s)%nat && (String.length s <=? 128)%nat && str_forall url_letter s.
Definition assertValidHandshakeId (value : jsval) : result string :=
  match value with
  | VStr s => if HANDSHAKE_ID_PATTERN s then Ok s else Throw (JsError "Invalid handshake id")
  | _ => Throw (JsError "Invalid handshake id")
  end.
Definition generateHandshakeId (random : list Z) : string := hex_bytes random.

Inductive HandshakeIntent := Share | Join.
#[global] Instance handshake_intent_eq_dec : EqDecision HandshakeIntent.
Proof. solve_decision. Defined.
Definition intent_text (i : HandshakeIntent) : string := match i with Share => "share" | Join => "join" end.
Definition assertHandshakeIntent (value : jsval) : result HandshakeIntent :=
  match value with
  | VStr "share" => Ok Share
  | VStr "join" => Ok Join
  | _ => Throw (JsError "Invalid handshake intent")
  end.

Record HandshakeQRPayload := mkQR {
  qr_intent : HandshakeIntent; qr_handshakeId : string; qr_generatorPub : string;
  qr_adapterConfig : option string; qr_capabilities : option PairingCapabilities }.
(** A string, when it is there. *)
Definition optional_text (v : jsval) (e : error) : result (option string) :=
  match v with VUndefined => Ok None | VStr s => Ok (Some s) | _ => Throw e end.
Definition snapshotHandshakeQRPayload (value : jsval) : result HandshakeQRPayload :=
  let invalid := JsError "Invalid handshake QR payload" in
  if negb (plain_object value) then Throw invalid
  else
    intent ← assertHandshakeIntent (field "intent" value);
    handshakeId ← assertValidHandshakeId (field "handshakeId" value);
    match field "generatorPub" value with
    | VStr generatorPub =>
        adapterConfig ← optional_text (field "adapterConfig" value) invalid;
        match field "capabilities" value with
        | VUndefined => Ok (mkQR intent handshakeId generatorPub adapterConfig None)
        | c => capabilities ← snapshotPairingCapabilities c;
               Ok (mkQR intent handshakeId generatorPub adapterConfig (Some capabilities))
        end
    | _ => Throw invalid
    end.
Definition qr_value (p : HandshakeQRPayload) : jsval :=
  VObj ([("intent", VStr (intent_text (qr_intent p))); ("handshakeId", VStr (qr_handshakeId p));
         ("generatorPub", VStr (qr_generatorPub p))] ++
        match qr_adapterConfig p with Some c => [("adapterConfig", VStr c)] | None => [] end ++
        match qr_capabilities p with Some c => [("capabilities", capabilities_value c)] | None => [] end).

Section qr.
Context `{WebCrypto}.

Definition encodeQRPayload (payload : jsval) : result string :=
  match snapshotHandshakeQRPayload payload with
  | Throw _ => Throw (JsError "Invalid handshake QR payload")
  | Ok stablePayload => Ok (bytesToBase64Url (utf8_encode (json_stringify (qr_value stablePayload))))
  end.
Definition decodeQRPayload (encoded : string) : result HandshakeQRPayload :=
  bytes ← base64UrlToBytes encoded;
  payload ← json_parse (utf8_decode bytes);
  match snapshotHandshakeQRPayload payload with
  | Throw _ => Throw (JsError "Invalid handshake QR payload")
  | Ok p => Ok p
  end.
(** [baseUrl.replace(/#.*$/, "")]: a dot matches no line terminator. *)
Definition newline (c : ascii) : bool := Ascii.eqb c "010" || Ascii.eqb c "013".
Fixpoint strip_fragment (s : string) : string :=
  match s with
  | "" => ""
  | String c s' => if Ascii.eqb c "#" && str_forall (λ x, negb (newline x)) s' then ""
                   else String c (strip_fragment s')
  end.
Definition buildPairUrl (baseUrl : string) (payload : jsval) : result string :=
  encoded ← encodeQRPayload payload; Ok (strip_fragment baseUrl +:+ "#hs=" +:+ encoded).
(** The match of [/(?:^|[#&])hs=([A-Za-z0-9_-]+)/]. *)
Definition after_hs (s : string) : option string :=
  if startsWith s "hs=" then opt_truthy (Some (take_while url_letter (str_drop 3 s))) else None.
Fixpoint find_hs (s : string) : option string :=
  match s with
  | "" => None
  | String c s' =>
      match (if Ascii.eqb c "#" || Ascii.eqb c "&" then after_hs s' else None) with
      | Some m => Some m
      | None => find_hs s'
      end
  end.
Definition parseQRFromUrl (hash : string) : option HandshakeQRPayload :=
  match (match after_hs hash with Some m => Some m | None => find_hs hash end) with
  | None => None
  | Some encoded => match decodeQRPayload encoded with Ok p => Some p | Throw _ => None end
  end.
End qr.

(** ** Theory *)
Lemma compatible_iff loc peer : assertPairingCapabilitiesCompatible loc peer = Ok () ↔
  ∀ id, id ∈ np_required loc ∨ id ∈ np_required peer → id ∈ np_supported loc ∧ id ∈ np_supported peer.
Proof.
  assert (∀ r s, missing_from r s = [] ↔ ∀ id, id ∈ r → id ∈ s) as Hm.
  { intros r s. unfold missing_from. induction r as [|x r IH]; cbn; [split; [by intros _ id ?%elem_of_nil|done]|].
    case_bool_decide as Hx; cbn.
    - rewrite IH. split; [intros Ha id [->|Hi]%elem_of_cons; [done|by apply Ha]|intros Ha id Hi; apply Ha; by right].
    - split; [done|]. intros Ha. destruct Hx. apply Ha. by left. }
  unfold assertPairingCapabilitiesCompatible. set (l := _ ++ _).
  assert (l = [] ↔ (∀ id, id ∈ np_required loc → id ∈ np_supported loc) ∧ (∀ id, id ∈ np_required peer → id ∈ np_supported loc) ∧
    (∀ id, id ∈ np_required loc → id ∈ np_supported peer) ∧ (∀ id, id ∈ np_required peer → id ∈ np_supported peer)) as Hl.
  { unfold l. rewrite <- !Hm. split; [by intros [? [? [? ?]%app_eq_nil]%app_eq_nil]%app_eq_nil|by intros (-> & -> & -> & ->)]. }
  transitivity (l = []); [by destruct l|]. rewrite Hl. split; [intros (A & B & C & D) id [H|H]; by auto|].
  intros Ha. split_and!; intros id H; apply Ha; auto.
Qed.

Lemma ids_value value l : snapshotCapabilityIds value = Ok l → value = strings_value l.
Proof.
  unfold snapshotCapabilityIds. destruct value as [| | | | | |vs|]; try done. destruct (_ <? _)%nat; [done|]. intros Hi.
  unfold strings_value. f_equal. revert l Hi. induction vs as [|v vs IH]; intros l; [by intros [= <-]|]. cbn.
  destruct v as [| | | |s| | |]; try done. unfold capability_id. destruct (_ || _); [done|]. cbn.
  destruct (capability_ids vs) as [ids|]; [|done]. intros [= <-]. cbn. f_equal. by apply IH.
Qed.
Lemma profile_again value c : snapshotPairingCapabilities value = Ok c → snapshotPairingCapabilities (capabilities_value c) = Ok c.
Proof.
  unfold snapshotPairingCapabilities. destruct (plain_object value); [|done]. cbn [negb].
  destruct (snapshotCapabilityIds (field "supported" value)) as [s|] eqn:Es; [|done]. cbn [mbind result_bind].
  intros Hr. assert (∃ r, c = mkCapabilities s r ∧ match r with None => True | Some r => snapshotCapabilityIds (strings_value r) = Ok r end) as (r & -> & Hrs).
  { destruct (field "required" value) as [| | | | | |l|] eqn:Er; try done; [by injection Hr as <-; eexists|].
    destruct (snapshotCapabilityIds (VArr l)) as [r|] eqn:El; [|done]. injection Hr as <-. exists (Some r). split; [done|].
    by rewrite <- (ids_value _ _ El). }
  rewrite (ids_value _ _ Es) in Es. unfold capabilities_value. cbn [plain_object negb pc_supported pc_required].
  change (field "supported" (VObj (("supported", ?x) :: ?l))) with x. rewrite Es. cbn [mbind result_bind].
  destruct r as [r|]; [|done]. change (field "required" _) with (strings_value r). unfold strings_value in *.
  cbn -[snapshotCapabilityIds]. by rewrite Hrs.
Qed.
Lemma strings_json l : json_value (strings_value l) = true.
Proof. unfold strings_value. induction l as [|s l IH]; [done|]. exact IH. Qed.
Lemma capabilities_json c : json_value (capabilities_value c) = true.
Proof.
  destruct c as [s [r|]]; unfold capabilities_value; cbn [pc_supported pc_required];
    change (json_value (strings_value s) && ?x) with (json_value (strings_value s) && x).
  - change (json_value (strings_value s) && (json_value (strings_value r) && true) = true). by rewrite !strings_json.
  - change (json_value (strings_value s) && true = true). by rewrite strings_json.
Qed.
Lemma payload_again value p : snapshotHandshakeQRPayload value = Ok p →
  snapshotHandshakeQRPayload (qr_value p) = Ok p ∧ HANDSHAKE_ID_PATTERN (qr_handshakeId p) = true.
Proof.
  unfold snapshotHandshakeQRPayload at 1. destruct (plain_object value); [|done]. cbn [negb].
  destruct (assertHandshakeIntent _) as [i|]; [|done]. cbn [mbind result_bind].
  destruct (assertValidHandshakeId (field "handshakeId" value)) as [id|] eqn:Eid; [|done]. cbn [mbind result_bind].
  assert (HANDSHAKE_ID_PATTERN id = true) as Hid.
  { unfold assertValidHandshakeId in Eid. destruct (field _ _); try done.
    destruct (HANDSHAKE_ID_PATTERN s) eqn:E; [|done]. by injection Eid as <-. }
  destruct (field "generatorPub" value) as [| | | |g| | |]; try done.
  destruct (optional_text _ _) as [ac|]; [|done]. cbn [mbind result_bind]. intros Hc.
  assert (∃ c, p = mkQR i id g ac c ∧ match c with None => True | Some c => snapshotPairingCapabilities (capabilities_value c) = Ok c end)
    as (c & -> & Hcs).
  { destruct (field "capabilities" value) as [| | | | | | |] eqn:Ec; [by injection Hc as <-; eexists|..];
      (destruct (snapshotPairingCapabilities _) as [c|] eqn:Es in Hc; [|done]; injection Hc as <-; exists (Some c);
       split; [done|]; by eapply profile_again). }
  split; [|done]. unfold snapshotHandshakeQRPayload, qr_value. cbn [plain_object negb qr_intent qr_handshakeId qr_generatorPub qr_adapterConfig qr_capabilities].
  change (field "intent" _) with (VStr (intent_text i)). change (field "handshakeId" _) with (VStr id).
  change (field "generatorPub" _) with (VStr g).
  assert (assertHandshakeIntent (VStr (intent_text i)) = Ok i) as -> by by destruct i.
  cbn [mbind result_bind assertValidHandshakeId]. rewrite Hid. cbn [mbind result_bind].
  destruct ac as [ac|], c as [c|]; cbn -[snapshotPairingCapabilities capabilities_value]; try done; unfold capabilities_value in *; by rewrite Hcs.
Qed.
Lemma payload_json p : json_value (qr_value p) = true.
Proof.
  destruct p as [i id g [ac|] [c|]]; unfold qr_value; cbn -[capabilities_value];
    try exact (eq_trans (andb_true_r _) (capabilities_json c)); done.
Qed.

Section links.
Context `{RecoveryCrypto}.

Lemma encoded_letters bytes : octets bytes → str_forall url_letter (bytesToBase64Url bytes) = true.
Proof. intros Ho. rewrite base64Url_letters. apply url_letters, bytes_sextets_ok. Qed.
Lemma take_while_all P s : str_forall P s = true → take_while P s = s.
Proof. induction s as [|c s IH]; [done|]. cbn. intros [-> Hs]%andb_true_iff. by rewrite IH. Qed.
Lemma strip_free s : str_forall (λ c, negb (newline c)) s = true → free_of "#" (strip_fragment s) = true.
Proof.
  induction s as [|c s IH]; [done|]. cbn [str_forall strip_fragment]. intros [_ Hs]%andb_true_iff.
  destruct (Ascii.eqb c "#") eqn:E; [by rewrite Hs|]. cbn [andb]. unfold free_of in *. cbn [str_forall].
  by rewrite E, IH.
Qed.

(** [location.hash]: from the first [#]. *)
Fixpoint location_hash (s : string) : string :=
  match s with "" => "" | String c s' => if Ascii.eqb c "#" then s else location_hash s' end.
Lemma location_hash_app a b : free_of "#" a = true → location_hash (a +:+ String "#" b) = String "#" b.
Proof.
  unfold free_of. induction a as [|c a IH]; [done|]. cbn [str_forall]. intros [Hc Ha]%andb_true_iff.
  apply negb_true_iff in Hc. change (String c a +:+ ?x) with (String c (a +:+ x)). cbn [location_hash]. rewrite Hc. by apply IH.
Qed.

(** C32: A code or a link says what was put in.  A payload that the code accepts, encoded, decodes
    to exactly its declared fields, and so does the link made of it when the receiver is given the link's
    fragment, whatever base it was built on.  Whatever text decodes, its session id is one path segment of
    letters of the URL alphabet, and encoding what it decoded to gives it back once more. *)
Theorem invitation_roundtrip (value : jsval) (p : HandshakeQRPayload) (baseUrl : string) :
  snapshotHandshakeQRPayload value = Ok p → utf8_encode (json_stringify (qr_value p)) ≠ [] →
  str_forall (λ c, negb (newline c)) baseUrl = true →
  ∃ encoded url, encodeQRPayload value = Ok encoded ∧ decodeQRPayload encoded = Ok p ∧
    buildPairUrl baseUrl value = Ok url ∧ parseQRFromUrl (location_hash url) = Some p ∧
    ∀ text q, decodeQRPayload text = Ok q →
      HANDSHAKE_ID_PATTERN (qr_handshakeId q) = true ∧
      ∃ text', encodeQRPayload (qr_value q) = Ok text' ∧ decodeQRPayload text' = Ok q.
Proof.
  intros Hp Hne Hb.
  assert (∀ v q, snapshotHandshakeQRPayload v = Ok q → ∃ e, encodeQRPayload v = Ok e ∧
    e = bytesToBase64Url (utf8_encode (json_stringify (qr_value q))) ∧ decodeQRPayload e = Ok q) as Henc.
  { intros v q Hq. unfold encodeQRPayload. rewrite Hq. eexists. split_and!; [done|done|]. unfold decodeQRPayload.
    rewrite base64Url_roundtrip by apply utf8_octets. cbn [mbind result_bind].
    rewrite utf8_roundtrip, json_roundtrip by apply payload_json. cbn [mbind result_bind].
    by destruct (payload_again _ _ Hq) as [-> _]. }
  destruct (Henc value p Hp) as (e & He & Ee & Hd). exists e, (strip_fragment baseUrl +:+ "#hs=" +:+ e).
  split_and!; [done|done|unfold buildPairUrl; by rewrite He| |].
  - change ("#hs=" +:+ e) with (String "#" (String "h" (String "s" (String "=" e)))). rewrite location_hash_app by by apply strip_free.
    assert (after_hs ("hs=" +:+ e) = Some e) as Ha.
    { unfold after_hs, startsWith. rewrite prefix_app. change (str_drop 3 ("hs=" +:+ e)) with e.
      rewrite take_while_all by (rewrite Ee; apply encoded_letters, utf8_octets). unfold opt_truthy.
      destruct e as [|c e]; [|done]. exfalso. rewrite base64Url_letters in Ee. apply (f_equal String.length) in Ee.
      rewrite !replace_length, letters_length in Ee. destruct (utf8_encode _) as [|x [|y [|z l]]]; done. }
    unfold parseQRFromUrl. change (String "h" (String "s" (String "=" e))) with ("hs=" +:+ e).
    change (after_hs (String "#" ("hs=" +:+ e))) with (@None string). cbn [find_hs].
    change (Ascii.eqb "#" "#") with true. cbn [orb]. by rewrite Ha, Hd.
  - intros text q. unfold decodeQRPayload at 1. destruct (base64UrlToBytes text) as [b|]; [|done]. cbn [mbind result_bind].
    destruct (json_parse _) as [v|]; [|done]. cbn [mbind result_bind].
    destruct (snapshotHandshakeQRPayload v) as [q'|] eqn:Eq; [|done]. intros [= ->].
    destruct (payload_again _ _ Eq) as [Hq Hid]. split; [done|].
    destruct (Henc _ _ Hq) as (e' & He' & _ & Hd'). by exists e'.
Qed.
End links.

(** ** An invitation *)
#[local] Existing Instance toy_crypto.
#[local] Existing Instance toy_recovery.
Definition trial_payload : HandshakeQRPayload :=
  mkQR Share "a1" "AQID" None (Some (mkCapabilities ["x"] (Some ["x"]))).
Lemma invitation_roundtrip_witness : ∃ encoded url,
  encodeQRPayload (qr_value trial_payload) = Ok encoded ∧ decodeQRPayload encoded = Ok trial_payload ∧
  buildPairUrl "https://a.b/pair#old" (qr_value trial_payload) = Ok url ∧ parseQRFromUrl (location_hash url) = Some trial_payload.
Proof.
  destruct (invitation_roundtrip (qr_value trial_payload) trial_payload "https://a.b/pair#old") as (e & u & He & Hd & Hu & Hp & _).
  - reflexivity.
  - vm_compute. discriminate.
  - reflexivity.
  - by exists e, u.
Defined.
