(* ===== verification/Handshake.v ===== *)
(** * Pairing
    ([packages/core/src/handshake/channel.ts], [handshake/index.ts])

    Two devices meet at a relay, any storage adapter, agree on a key by an exchange of ephemeral public
    keys, and one hands the credentials of a mesh to the other.  Private keys, initialisation vectors and clock
    readings are arguments.  What the rest of the world does while a device waits is an argument
    too: a step on the state of the adapter for every wait. *)

From S2P Require Import Prelude JsString Hlc Values JsMap LocalStore Octets Encryption StoredFile.
From S2P Require Import Wire Crdt Convergence Observation Adapter Codec Session MergeStore Manifest Flush Pull.
From S2P Require Import Compaction ChangeEffects LocalWrites Promises Engine Files Ids Routes RowStore Worker Recovery.
From S2P Require Import Cloudflare OctetDocs Invitation.
From Stdlib Require Import Ascii.
From Stdlib Require String.

Open Scope stdpp_scope.

(** ** Keys

    ECDH on P-256: the public key of a private one as SPKI bytes, which bytes [importKey] takes, and the
    shared bits, the same from both sides. *)
Class Ecdh := {
  ecdh_public : list Z → list Z;
  ecdh_valid : list Z → bool;
  ecdh_bits : list Z → list Z → list Z;
  ecdh_public_valid sk : octets sk → ecdh_valid (ecdh_public sk) = true;
  ecdh_public_octets sk : octets sk → octets (ecdh_public sk);
  ecdh_bits_octets sk pub : octets sk → octets pub → octets (ecdh_bits sk pub);
  ecdh_agree a b : ecdh_bits a (ecdh_public b) = ecdh_bits b (ecdh_public a) }.

Definition HKDF_INFO : string := "interocitor-handshake-v1".

Section channel.
Context `{RecoveryCrypto} `{!Ecdh}.

Definition exportECDHPublicKey (sk : list Z) : string := bytesToBase64Url (ecdh_public sk).
Definition importECDHPublicKey (spki : string) : result (list Z) :=
  bytes ← base64UrlToBytes spki; if ecdh_valid bytes then Ok bytes else Throw (JsError "DataError").
Definition deriveWrappingKey (sk peer : list Z) : list Z :=
  hkdf_salted (ecdh_bits sk peer) (replicate 32 0%Z) (utf8_encode HKDF_INFO).

(** ** Credentials *)
Record HandshakeCredentials := mkHandshakeCredentials {
  hc_remotePath : string; hc_passphrase : option string; hc_connectionConfig : option string }.
Definition snapshotHandshakeCredentials (value : jsval) : result HandshakeCredentials :=
  let invalid := JsError "Invalid handshake credentials" in
  if negb (plain_object value) then Throw invalid
  else
    match field "remotePath" value, field "passphrase" value with
    | VStr remotePath, VNull =>
        c ← optional_text (field "connectionConfig" value) invalid; Ok (mkHandshakeCredentials remotePath None c)
    | VStr remotePath, VStr passphrase =>
        c ← optional_text (field "connectionConfig" value) invalid; Ok (mkHandshakeCredentials remotePath (Some passphrase) c)
    | _, _ => Throw invalid
    end.
Definition optional_field (k : string) (v : option string) : list (string * jsval) :=
  match v with Some s => [(k, VStr s)] | None => [] end.
Definition CredentialPayload (creds : HandshakeCredentials) : jsval :=
  VObj (("remotePath", VStr (hc_remotePath creds)) ::
        optional_field "passphrase" (hc_passphrase creds) ++ optional_field "connectionConfig" (hc_connectionConfig creds)).
(** Without additional data the cipher has none. *)
Definition aad_bytes (additionalData : option (list Z)) : list Z := default [] additionalData.
Definition encryptCredentials (wrappingKey : list Z) (creds : HandshakeCredentials) (additionalData : option (list Z))
    (iv : list Z) : string :=
  let ct := gcm_encrypt wrappingKey iv (aad_bytes additionalData) (utf8_encode (json_stringify (CredentialPayload creds))) in
  json_stringify (VObj [("v", VNum (Num (match additionalData with None => 1 | Some _ => 2 end)));
                        ("iv", VStr (bytesToBase64Url iv)); ("ct", VStr (bytesToBase64Url ct))]).
(** A property of [null] or [undefined] cannot be read. *)
Definition readable (v : jsval) : result () :=
  match v with VNull | VUndefined => Throw (JsError "Cannot read properties of null") | _ => Ok () end.
Definition credentials_of (raw : jsval) : result HandshakeCredentials :=
  let invalid := JsError "Invalid handshake credentials" in
  readable raw;;
  match field "remotePath" raw with
  | VStr remotePath =>
      passphrase ← optional_text (field "passphrase" raw) invalid;
      connectionConfig ← optional_text (field "connectionConfig" raw) invalid;
      Ok (mkHandshakeCredentials remotePath passphrase connectionConfig)
  | _ => Throw invalid
  end.
Definition decryptCredentials (wrappingKey : list Z) (envelope : string) (additionalData : option (list Z))
    : result HandshakeCredentials :=
  env ← json_parse envelope;
  readable env;;
  let v := field "v" env in
  if negb (is_number 1 v) && negb (is_number 2 v) then Throw (JsError "Unknown handshake envelope version")
  else if is_number 1 v && bool_decide (is_Some additionalData)
  then Throw (JsError "Pairing capability negotiation requires handshake envelope version 2")
  else if is_number 2 v && bool_decide (additionalData = None)
  then Throw (JsError "Unexpected capability-bound handshake envelope")
  else
    match field "iv" env, field "ct" env with
    | VStr iv, VStr ct =>
        ivBytes ← base64UrlToBytes iv;
        ctBytes ← base64UrlToBytes ct;
        pt ← gcm_decrypt wrappingKey ivBytes (aad_bytes additionalData) ctBytes;
        raw ← json_parse (utf8_decode pt);
        credentials_of raw
    | _, _ => Throw (JsError "Invalid handshake credential envelope")
    end.

(** ** The scanner's hello and the transcript *)
Definition scanner_hello (scannerPub : string) (capabilities : option PairingCapabilities) : string :=
  json_stringify (VObj (("pub", VStr scannerPub) ::
    match capabilities with Some c => [("capabilities", capabilities_value c)] | None => [] end)).
(** The public key, and the profile as it was sent. *)
Definition parseScannerHello (data : string) : result (string * jsval) :=
  raw ← json_parse data;
  readable raw;;
  match field "pub" raw with
  | VStr pub =>
      match field "capabilities" raw with
      | VUndefined => Ok (pub, VUndefined)
      | c => if isPairingCapabilities c then Ok (pub, c) else Throw (JsError "Invalid handshake scanner hello")
      end
  | _ => Throw (JsError "Invalid handshake scanner hello")
  end.
Definition normalized_value (n : NormalizedPairingCapabilities) : jsval :=
  VObj [("supported", strings_value (np_supported n)); ("required", strings_value (np_required n))].
Definition capabilityTranscriptBytes (intent : HandshakeIntent) (handshakeId generatorPub scannerPub : string)
    (generatorCapabilities scannerCapabilities : NormalizedPairingCapabilities) : option (list Z) :=
  match np_required generatorCapabilities, np_required scannerCapabilities with
  | [], [] => None
  | _, _ => Some (utf8_encode (json_stringify (VObj
      [("v", VNum (Num 2)); ("intent", VStr (intent_text intent)); ("handshakeId", VStr handshakeId);
       ("generatorPub", VStr generatorPub); ("scannerPub", VStr scannerPub);
       ("generatorCapabilities", normalized_value generatorCapabilities);
       ("scannerCapabilities", normalized_value scannerCapabilities)])))
  end.

(** ** The relay *)
Record RelayPaths := mkRelayPaths { rp_scannerPub : string; rp_credentials : string }.
Definition relayPaths (handshakeId relayBase : string) : result RelayPaths :=
  id ← assertValidHandshakeId (VStr handshakeId);
  let base := relayBase +:+ "/handshake/" +:+ id in
  Ok (mkRelayPaths (base +:+ "/scanner-pub.json") (base +:+ "/credentials.json")).

Context `{Platform} `{!ByteView} {A : Type} `{!StorageOps A}.

Definition relayRead (path : string) : M A (option string) :=
  catch (bytes ← readFile path; mret (Some (utf8_decode (ofBytes bytes)))) (λ _, mret None).
Definition relayWrite (path data : string) : M A () := writeFile path (toBytes (utf8_encode data)).
(** Both deletions are tried; nobody waits for them. *)
Definition relayCleanup (paths : RelayPaths) : M A () :=
  catch (deleteFile (rp_scannerPub paths)) (λ _, mret ());;
  catch (deleteFile (rp_credentials paths)) (λ _, mret ()).

(** [pollFor]: [ck_start] is the reading that the deadline is counted from, [ck_check i] the reading before the
    [i]-th call, and [ck_wait i] what the world does to the adapter during the wait that follows it. *)
Record Clock := mkClock { ck_start : Z; ck_check : nat → Z; ck_wait : nat → A → A }.
Fixpoint poll_from {T} (fuel : nat) (fn : M A (option T)) (clock : Clock) (timeoutMs : Z) (i : nat) : M A T :=
  match fuel with
  | O => throw (JsError "Handshake timed out")
  | S fuel =>
      if (ck_check clock i <? ck_start clock + timeoutMs)%Z then
        r ← fn;
        match r with
        | Some x => mret x
        | None => modify (ck_wait clock i);; poll_from fuel fn clock timeoutMs (S i)
        end
      else throw (JsError "Handshake timed out")
  end.
Definition pollFor {T} (fn : M A (option T)) (clock : Clock) (timeoutMs : Z) : M A T :=
  poll_from (S (Z.to_nat timeoutMs)) fn clock timeoutMs 0.

Record HandshakeChannelOptions := mkChannelOptions { ho_timeoutMs : Z; ho_capabilities : jsval }.

(** ** The generator *)
Definition read_hello (path : string) : M A (option (string * jsval)) :=
  data ← relayRead path;
  match opt_truthy data with
  | None => mret None
  | Some data => hello ← lift (parseScannerHello data); mret (Some hello)
  end.
(** [complete]: [sk] is the private key of the session, [iv] of the envelope it may write. *)
Definition generator_complete (sk : list Z) (handshakeId relayBase : string) (intent : HandshakeIntent)
    (ownCredentials : jsval) (options : HandshakeChannelOptions) (iv : list Z) (clock clock' : Clock)
    : M A (option HandshakeCredentials) :=
  let generatorPub := exportECDHPublicKey sk in
  credentialsToShare ← lift (match intent with
    | Share => if negb (truthy_value ownCredentials) then Throw (JsError "intent=share requires ownCredentials")
               else c ← snapshotHandshakeCredentials ownCredentials; Ok (Some c)
    | Join => Ok None
    end);
  paths ← lift (relayPaths handshakeId relayBase);
  generatorCapabilities ← lift (normalizePairingCapabilities (ho_capabilities options));
  lift (assertPairingCapabilitiesCompatible generatorCapabilities generatorCapabilities);;
  scannerHello ← pollFor (read_hello (rp_scannerPub paths)) clock (ho_timeoutMs options);
  scannerCapabilities ← lift (normalizePairingCapabilities scannerHello.2);
  lift (assertPairingCapabilitiesCompatible generatorCapabilities scannerCapabilities);;
  scannerPublicKey ← lift (importECDHPublicKey scannerHello.1);
  let wrappingKey := deriveWrappingKey sk scannerPublicKey in
  let additionalData := capabilityTranscriptBytes intent handshakeId generatorPub scannerHello.1
                          generatorCapabilities scannerCapabilities in
  match credentialsToShare with
  | Some creds =>
      relayWrite (rp_credentials paths) (encryptCredentials wrappingKey creds additionalData iv);; mret None
  | None =>
      envelope ← pollFor (relayRead (rp_credentials paths)) clock' (ho_timeoutMs options);
      credentials ← lift (decryptCredentials wrappingKey envelope additionalData);
      relayCleanup paths;;
      mret (Some credentials)
  end.

(** ** The scanner

    What it has once its hello is out: the paths, the key and the additional data. *)
Record ScannerState := mkScannerState {
  sc_intent : HandshakeIntent; sc_credentials : option HandshakeCredentials; sc_paths : RelayPaths;
  sc_key : list Z; sc_additionalData : option (list Z) }.
Definition scanner_open (sk : list Z) (payload ownCredentials : jsval) (relayBase : string)
    (options : HandshakeChannelOptions) : M A ScannerState :=
  p ← lift (snapshotHandshakeQRPayload payload);
  credentialsToSend ← lift (match qr_intent p with
    | Join => if negb (truthy_value ownCredentials) then Throw (JsError "intent=join requires scanner to have ownCredentials")
              else c ← snapshotHandshakeCredentials ownCredentials; Ok (Some c)
    | Share => Ok None
    end);
  paths ← lift (relayPaths (qr_handshakeId p) relayBase);
  generatorCapabilities ← lift (normalizePairingCapabilities
    (match qr_capabilities p with Some c => capabilities_value c | None => VUndefined end));
  scannerCapabilities ← lift (normalizePairingCapabilities (ho_capabilities options));
  lift (assertPairingCapabilitiesCompatible scannerCapabilities generatorCapabilities);;
  let scannerPub := exportECDHPublicKey sk in
  relayWrite (rp_scannerPub paths) (scanner_hello scannerPub (pairingCapabilitiesForWire scannerCapabilities));;
  generatorPublicKey ← lift (importECDHPublicKey (qr_generatorPub p));
  mret (mkScannerState (qr_intent p) credentialsToSend paths (deriveWrappingKey sk generatorPublicKey)
    (capabilityTranscriptBytes (qr_intent p) (qr_handshakeId p) (qr_generatorPub p) scannerPub
       generatorCapabilities scannerCapabilities)).
Definition scanner_finish (iv : list Z) (clock : Clock) (timeoutMs : Z) (st : ScannerState) : M A (option HandshakeCredentials) :=
  match sc_credentials st with
  | None =>
      envelope ← pollFor (relayRead (rp_credentials (sc_paths st))) clock timeoutMs;
      credentials ← lift (decryptCredentials (sc_key st) envelope (sc_additionalData st));
      relayCleanup (sc_paths st);;
      mret (Some credentials)
  | Some creds =>
      relayWrite (rp_credentials (sc_paths st)) (encryptCredentials (sc_key st) creds (sc_additionalData st) iv);; mret None
  end.
Definition runScannerHandshake (sk : list Z) (payload ownCredentials : jsval) (relayBase : string)
    (options : HandshakeChannelOptions) (iv : list Z) (clock : Clock) : M A (option HandshakeCredentials) :=
  st ← scanner_open sk payload ownCredentials relayBase options;
  scanner_finish iv clock (ho_timeoutMs options) st.

(** ** The calls of an application

    [reported] is what the adapter reports, [undefined] when it has no such method. *)
Definition resolvePairingCapabilities (reported explicit : jsval) : result (option PairingCapabilities) :=
  e ← match explicit with
      | VUndefined => Ok VUndefined
      | c => p ← snapshotPairingCapabilities c; Ok (capabilities_value p)
      end;
  a ← match reported with
      | VUndefined | VNull => Ok VUndefined
      | c => p ← snapshotPairingCapabilities c; Ok (capabilities_value p)
      end;
  capabilities ← mergePairingCapabilities [a; e];
  assertPairingCapabilitiesCompatible capabilities capabilities;;
  Ok (pairingCapabilitiesForWire capabilities).
Definition profile_value (c : option PairingCapabilities) : jsval :=
  match c with Some c => capabilities_value c | None => VUndefined end.
(** The frozen credentials that an application hands on. *)
Definition credentials_value (c : HandshakeCredentials) : jsval :=
  VObj ([("remotePath", VStr (hc_remotePath c)); ("passphrase", match hc_passphrase c with Some s => VStr s | None => VNull end)] ++
        optional_field "connectionConfig" (hc_connectionConfig c)).
Record PairOptions := mkPairOptions {
  po_relayBase : string; po_explicit : jsval; po_pairBaseUrl : option string; po_timeoutMs : Z }.
(** A code, its link, and how the session goes on. *)
Record GeneratedQR (R : Type) := mkGenerated {
  gq_payload : HandshakeQRPayload; gq_encoded : string; gq_pairUrl : option string; gq_complete : R }.
Arguments mkGenerated {_} _ _ _ _.
Definition generated {R} (options : PairOptions) (qrPayload : HandshakeQRPayload) (complete : R) : result (GeneratedQR R) :=
  encoded ← encodeQRPayload (qr_value qrPayload);
  pairUrl ← match opt_truthy (po_pairBaseUrl options) with
            | Some base => u ← buildPairUrl base (qr_value qrPayload); Ok (Some u)
            | None => Ok None
            end;
  Ok (mkGenerated qrPayload encoded pairUrl complete).
(** [reported] and [adapterConfig] are what the adapter says of itself. *)
Definition generateShareQR (options : PairOptions) (reported : jsval) (adapterConfig : option string) (credentials : jsval)
    (sk idBytes : list Z) : result (GeneratedQR (list Z → Clock → Clock → M A ())) :=
  c ← snapshotHandshakeCredentials credentials;
  capabilities ← resolvePairingCapabilities reported (po_explicit options);
  let handshakeId := generateHandshakeId idBytes in
  generated options (mkQR Share handshakeId (exportECDHPublicKey sk) adapterConfig capabilities)
    (λ iv clock clock',
       generator_complete sk handshakeId (po_relayBase options) Share (credentials_value c)
         (mkChannelOptions (po_timeoutMs options) (profile_value capabilities)) iv clock clock';; mret ()).
Definition generateJoinQR (options : PairOptions) (reported : jsval) (adapterConfig : option string)
    (sk idBytes : list Z) : result (GeneratedQR (Clock → Clock → M A HandshakeCredentials)) :=
  capabilities ← resolvePairingCapabilities reported (po_explicit options);
  let handshakeId := generateHandshakeId idBytes in
  generated options (mkQR Join handshakeId (exportECDHPublicKey sk) adapterConfig capabilities)
    (λ clock clock',
       r ← generator_complete sk handshakeId (po_relayBase options) Join VNull
             (mkChannelOptions (po_timeoutMs options) (profile_value capabilities)) [] clock clock';
       match r with Some c => mret c | None => throw (JsError "join handshake produced no credentials") end).
(** [adapter_for]: what the adapter that the scanner has, or makes of the payload's configuration, reports; [None] when
    there is none. *)
Definition handleScannedQR (options : PairOptions) (adapter_for : option string → option jsval)
    (payload ownCredentials : jsval) (sk iv : list Z) (clock : Clock) : M A (option HandshakeCredentials) :=
  p ← lift (snapshotHandshakeQRPayload payload);
  own ← lift (match qr_intent p with
    | Join => if negb (truthy_value ownCredentials) then Throw (JsError "handleScannedQR: ownCredentials required")
              else c ← snapshotHandshakeCredentials ownCredentials; Ok (credentials_value c)
    | Share => Ok VNull
    end);
  reported ← lift (match adapter_for (qr_adapterConfig p) with
    | Some r => Ok r
    | None => Throw (JsError "handleScannedQR: adapter required")
    end);
  capabilities ← lift (resolvePairingCapabilities reported (po_explicit options));
  runScannerHandshake sk (qr_value p) own (po_relayBase options)
    (mkChannelOptions (po_timeoutMs options) (profile_value capabilities)) iv clock.
End channel.

(** ** Theory: profiles *)
Lemma capability_ids_valid l : capability_ids (VStr <$> l) = Ok l ↔
  Forall (λ s, is_ok (capability_id (VStr s)) = true) l.
Proof.
  induction l as [|s l IH]; [split; [by constructor|done]|]. cbn -[capability_id]. rewrite List.Forall_cons_iff.
  destruct (capability_id (VStr s)) as [id|] eqn:E; cbn -[capability_id].
  - assert (id = s) as -> by (cbn in E; destruct (_ || _); [done|by injection E as ->]).
    destruct (capability_ids (VStr <$> l)) as [ids|] eqn:E'; cbn.
    + split; [intros [= ->]; split; [done|by apply IH]|intros [_ Hl]; apply IH in Hl; by injection Hl as ->].
    + split; [done|intros [_ Hl]; by apply IH in Hl].
  - split; [done|]. by intros [].
Qed.
Lemma sorted_set_elem l x : x ∈ sorted_set l ↔ x ∈ l.
Proof. unfold sorted_set. by rewrite merge_sort_Permutation, elem_of_remove_dups. Qed.
Lemma sorted_set_nodup l : NoDup (sorted_set l).
Proof. unfold sorted_set. rewrite merge_sort_Permutation. apply NoDup_remove_dups. Qed.
Lemma sorted_set_again l : sorted_set (sorted_set l) = sorted_set l.
Proof.
  apply (StronglySorted_unique String.le); [apply (StronglySorted_merge_sort _)..|].
  apply NoDup_Permutation; [apply sorted_set_nodup..|]. intros x. by rewrite sorted_set_elem.
Qed.
Lemma sorted_set_nil : sorted_set [] = [].
Proof. done. Qed.
Lemma sorted_set_length l : (length (sorted_set l) ≤ length l)%nat.
Proof. apply submseteq_length, NoDup_submseteq; [apply sorted_set_nodup|]. intros x. by rewrite sorted_set_elem. Qed.
Lemma ids_valid value l : snapshotCapabilityIds value = Ok l →
  (length l ≤ MAX_CAPABILITIES)%nat ∧ Forall (λ s, is_ok (capability_id (VStr s)) = true) l.
Proof.
  intros Hv. pose proof (ids_value _ _ Hv) as ->. unfold snapshotCapabilityIds, strings_value in Hv.
  rewrite length_fmap in Hv. destruct (Nat.ltb_spec MAX_CAPABILITIES (length l)); [done|]. split; [done|].
  by apply capability_ids_valid.
Qed.
Lemma ids_of_valid l : (length l ≤ MAX_CAPABILITIES)%nat → Forall (λ s, is_ok (capability_id (VStr s)) = true) l →
  snapshotCapabilityIds (strings_value l) = Ok l.
Proof.
  intros Hn Hl. unfold snapshotCapabilityIds, strings_value. rewrite length_fmap.
  destruct (Nat.ltb_spec MAX_CAPABILITIES (length l)); [lia|]. by apply capability_ids_valid.
Qed.
Lemma sorted_ids value l : snapshotCapabilityIds value = Ok l → snapshotCapabilityIds (strings_value (sorted_set l)) = Ok (sorted_set l).
Proof.
  intros [Hn Hl]%ids_valid. apply ids_of_valid; [pose proof (sorted_set_length l); lia|].
  rewrite List.Forall_forall in Hl |- *. intros x Hx. apply Hl. by rewrite <- list_elem_of_In, sorted_set_elem, list_elem_of_In in Hx.
Qed.
Lemma snapshot_of_lists s r : snapshotCapabilityIds (strings_value s) = Ok s →
  match r with Some r => snapshotCapabilityIds (strings_value r) = Ok r | None => True end →
  snapshotPairingCapabilities (capabilities_value (mkCapabilities s r)) = Ok (mkCapabilities s r).
Proof.
  intros Hs Hr. unfold snapshotPairingCapabilities, capabilities_value. cbn [plain_object negb pc_supported pc_required].
  change (field "supported" (VObj (("supported", ?x) :: ?l))) with x. rewrite Hs. cbn [mbind result_bind].
  destruct r as [r|]; [|done]. change (field "required" _) with (strings_value r). unfold strings_value in *.
  cbn -[snapshotCapabilityIds]. by rewrite Hr.
Qed.
(** The profile that goes over the wire is read as it was meant. *)
Lemma wire_profile value n : normalizePairingCapabilities value = Ok n →
  match pairingCapabilitiesForWire n with
  | Some c => isPairingCapabilities (capabilities_value c) = true ∧ normalizePairingCapabilities (capabilities_value c) = Ok n
  | None => n = mkNormalized [] []
  end.
Proof.
  intros Hv. assert (∃ s r, n = mkNormalized (sorted_set s) (sorted_set r) ∧
    snapshotCapabilityIds (strings_value (sorted_set s)) = Ok (sorted_set s) ∧
    snapshotCapabilityIds (strings_value (sorted_set r)) = Ok (sorted_set r)) as (s & r & -> & Hs & Hr).
  { assert (n = mkNormalized [] [] ∨ ∃ c, snapshotPairingCapabilities value = Ok c ∧
      n = mkNormalized (sorted_set (pc_supported c)) (sorted_set (default [] (pc_required c)))) as [->|(c & Hc & ->)].
    { unfold normalizePairingCapabilities in Hv. destruct value; try (by left; injection Hv as <-);
        right; (destruct (snapshotPairingCapabilities _) as [c|]; [|done]; exists c; split; [done|]; by injection Hv as <-). }
    { by exists [], []. }
    exists (pc_supported c), (default [] (pc_required c)). split; [done|]. unfold snapshotPairingCapabilities in Hc.
    destruct (plain_object value); [|done]. cbn [negb] in Hc.
    destruct (snapshotCapabilityIds (field "supported" value)) as [s|] eqn:Es; [|done]. cbn [mbind result_bind] in Hc.
    destruct (field "required" value) as [| | | | | |l|] eqn:Er; try done; [injection Hc as <-; cbn; split; [by eapply sorted_ids|done]|].
    destruct (snapshotCapabilityIds (VArr l)) as [r|] eqn:El; [|done]. injection Hc as <-. cbn. split; by eapply sorted_ids. }
  clear Hv. unfold pairingCapabilitiesForWire. cbn [np_supported np_required].
  assert (∀ c, snapshotPairingCapabilities (capabilities_value c) = Ok c → pc_supported c = sorted_set s →
    default [] (pc_required c) = sorted_set r → isPairingCapabilities (capabilities_value c) = true ∧
    normalizePairingCapabilities (capabilities_value c) = Ok (mkNormalized (sorted_set s) (sorted_set r))) as Hc.
  { intros c Hc Es Er. assert (normalizePairingCapabilities (capabilities_value c) = Ok (mkNormalized (sorted_set s) (sorted_set r))) as Hn.
    { unfold normalizePairingCapabilities. change (capabilities_value c) with (VObj match capabilities_value c with VObj l => l | _ => [] end) at 1.
      cbv iota. rewrite Hc. cbn [mbind result_bind]. by rewrite Es, Er, !sorted_set_again. }
    split; [|done]. unfold isPairingCapabilities. by rewrite Hn. }
  destruct (sorted_set s) as [|x xs] eqn:Es, (sorted_set r) as [|y ys] eqn:Er; [done|..]; apply Hc; try done;
    by apply snapshot_of_lists.
Qed.

(** ** Theory: polling *)
Section polling.
Context `{RecoveryCrypto} `{!Ecdh} `{Platform} `{!ByteView} {A : Type} `{!StorageOps A}.

(** Every wait takes at least a millisecond. *)
Definition ticking (clock : Clock (A := A)) : Prop := ∀ i, (ck_start clock + Z.of_nat i ≤ ck_check clock i)%Z.
(** From check [i] in [a] to check [j] in [b]: the calls in between are in time and find nothing. *)
Inductive waits {T} (fn : M A (option T)) (clock : Clock) (timeoutMs : Z) : nat → A → nat → A → Prop :=
  | waits_nil i a : waits fn clock timeoutMs i a i a
  | waits_cons i a a' j b : (ck_check clock i < ck_start clock + timeoutMs)%Z → fn a = (Ok None, a') →
      waits fn clock timeoutMs (S i) (ck_wait clock i a') j b → waits fn clock timeoutMs i a j b.

Lemma waits_later {T} (fn : M A (option T)) clock timeoutMs i a j b : waits fn clock timeoutMs i a j b → (i ≤ j)%nat.
Proof. induction 1; lia. Qed.
Lemma poll_from_returns {T} (fn : M A (option T)) clock timeoutMs fuel i a j b x b' :
  waits fn clock timeoutMs i a j b → (j < i + fuel)%nat → (ck_check clock j < ck_start clock + timeoutMs)%Z →
  fn b = (Ok (Some x), b') → poll_from fuel fn clock timeoutMs i a = (Ok x, b').
Proof.
  intros Hw. revert fuel. induction Hw as [i a|i a a' j b Ht Hf Hw IH]; intros fuel Hj Hc Hx.
  - destruct fuel as [|fuel]; [lia|]. cbn. apply Z.ltb_lt in Hc. rewrite Hc. by rewrite (bind_ok _ _ _ _ _ Hx).
  - apply waits_later in Hw. destruct fuel as [|fuel]; [lia|]. cbn. apply Z.ltb_lt in Ht. rewrite Ht. rewrite (bind_ok _ _ _ _ _ Hf).
    apply IH; [lia|done..].
Qed.
Lemma poll_returns {T} (fn : M A (option T)) clock timeoutMs a j b x b' : ticking clock →
  waits fn clock timeoutMs 0 a j b → (ck_check clock j < ck_start clock + timeoutMs)%Z →
  fn b = (Ok (Some x), b') → pollFor fn clock timeoutMs a = (Ok x, b').
Proof. intros Ht Hw Hc Hx. specialize (Ht j). unfold pollFor. eapply poll_from_returns; [exact Hw|lia|done..]. Qed.
(** The fuel is enough: more changes nothing. *)
Lemma poll_fuel {T} (fn : M A (option T)) clock timeoutMs a fuel : ticking clock → (S (Z.to_nat timeoutMs) ≤ fuel)%nat →
  poll_from fuel fn clock timeoutMs 0 a = pollFor fn clock timeoutMs a.
Proof.
  intros Ht Hf. unfold pollFor. assert (∀ n m i a, (S (Z.to_nat timeoutMs) ≤ i + n)%nat → (S (Z.to_nat timeoutMs) ≤ i + m)%nat →
    poll_from n fn clock timeoutMs i a = poll_from m fn clock timeoutMs i a) as Hn; [|apply Hn; lia].
  clear Hf a fuel. induction n as [|n IH]; intros m i a Hi Hm; specialize (Ht i).
  - destruct m as [|m]; [done|]. cbn. destruct (Z.ltb_spec (ck_check clock i) (ck_start clock + timeoutMs)); [lia|done].
  - destruct m as [|m]; cbn; destruct (Z.ltb_spec (ck_check clock i) (ck_start clock + timeoutMs)); try done; [lia|].
    unfold mbind, M_bind. destruct (fn a) as [[[x|]|e] a']; [done| |done]. cbn. apply IH; lia.
Qed.
Lemma poll_inv {T} (fn : M A (option T)) clock timeoutMs a x a' : pollFor fn clock timeoutMs a = (Ok x, a') →
  ∃ j b, waits fn clock timeoutMs 0 a j b ∧ (ck_check clock j < ck_start clock + timeoutMs)%Z ∧ fn b = (Ok (Some x), a').
Proof.
  unfold pollFor. generalize (S (Z.to_nat timeoutMs)) 0%nat. intros fuel. revert a. induction fuel as [|fuel IH]; intros a i; [done|].
  cbn. destruct (Z.ltb_spec (ck_check clock i) (ck_start clock + timeoutMs)) as [Hi|]; [|done].
  unfold mbind, M_bind. destruct (fn a) as [[[y|]|e] b] eqn:E; [| |done].
  - intros [= -> ->]. exists i, a. split_and!; [constructor|done..].
  - intros (j & c & Hw & Hc & Hf)%IH. exists j, c. split_and!; [by eapply waits_cons|done..].
Qed.
Lemma relayRead_inv path a s a' : relayRead path a = (Ok (Some s), a') →
  ∃ bytes, readFile path a = (Ok bytes, a') ∧ s = utf8_decode (ofBytes bytes).
Proof.
  unfold relayRead, catch, mbind, M_bind. destruct (readFile path a) as [[bytes|e] b]; [|done]. intros [= <- <-]. by exists bytes.
Qed.
(** The poll has come upon the text [s] at [path], which left the adapter in [a']. *)
Definition delivered {T} (fn : M A (option T)) (path : string) (clock : Clock) (timeoutMs : Z) a (s : string) a' : Prop :=
  ∃ j b bytes, waits fn clock timeoutMs 0 a j b ∧ (ck_check clock j < ck_start clock + timeoutMs)%Z ∧
    readFile path b = (Ok bytes, a') ∧ s = utf8_decode (ofBytes bytes).
Lemma delivered_text path clock timeoutMs a s a' : pollFor (relayRead path) clock timeoutMs a = (Ok s, a') →
  delivered (relayRead path) path clock timeoutMs a s a'.
Proof. intros (j & b & Hw & Hc & (bytes & Hr & Hs)%relayRead_inv)%poll_inv. by exists j, b, bytes. Qed.
Lemma delivered_hello path clock timeoutMs a hello a' : pollFor (read_hello path) clock timeoutMs a = (Ok hello, a') →
  ∃ s, delivered (read_hello path) path clock timeoutMs a s a' ∧ parseScannerHello s = Ok hello.
Proof.
  intros (j & b & Hw & Hc & Hf)%poll_inv. unfold read_hello, mbind, M_bind, lift in Hf.
  destruct (relayRead path b) as [[o|e] b'] eqn:Er; [|done]. destruct (opt_truthy o) as [s|] eqn:Eo; [|done].
  destruct (parseScannerHello s) as [h|] eqn:Ep; [|done]. injection Hf as -> ->.
  assert (o = Some s) as -> by (unfold opt_truthy in Eo; destruct o as [x|]; [|done]; destruct (truthy x); [by injection Eo as ->|done]).
  apply relayRead_inv in Er as (bytes & Hr & Hs). exists s. split; [|done]. by exists j, b, bytes.
Qed.
End polling.

(** ** Theory: envelopes *)
Section envelopes.
Context `{RecoveryCrypto} `{!Ecdh}.

Lemma import_export sk : octets sk → importECDHPublicKey (exportECDHPublicKey sk) = Ok (ecdh_public sk).
Proof.
  intros Ho. unfold importECDHPublicKey, exportECDHPublicKey. rewrite base64Url_roundtrip by by apply ecdh_public_octets.
  cbn. by rewrite ecdh_public_valid.
Qed.
Lemma keys_agree a b : deriveWrappingKey a (ecdh_public b) = deriveWrappingKey b (ecdh_public a).
Proof. unfold deriveWrappingKey. by rewrite ecdh_agree. Qed.
Lemma key_octets sk pub : octets sk → octets pub → octets (deriveWrappingKey sk pub).
Proof.
  intros Hs Hp. unfold deriveWrappingKey. apply hkdf_octets; [by apply ecdh_bits_octets|by apply Forall_replicate|apply utf8_octets].
Qed.
Lemma payload_read c : json_value (CredentialPayload c) = true ∧ credentials_of (CredentialPayload c) = Ok c.
Proof. by destruct c as [p [s|] [x|]]. Qed.
Lemma own_envelope_opens key c aad iv : octets key → octets iv → octets (aad_bytes aad) →
  decryptCredentials key (encryptCredentials key c aad iv) aad = Ok c.
Proof.
  intros Hk Hi Ha. unfold decryptCredentials, encryptCredentials. rewrite json_roundtrip by done.
  destruct (payload_read c) as [Hj Hc].
  destruct aad as [aad|]; cbn -[aad_bytes credentials_of CredentialPayload];
    rewrite !base64Url_roundtrip by (try done; apply gcm_octets; try done; apply utf8_octets);
    cbn -[aad_bytes credentials_of CredentialPayload]; rewrite gcm_roundtrip; cbn -[credentials_of CredentialPayload];
    by rewrite utf8_roundtrip, json_roundtrip.
Qed.
Lemma transcript_octets i id gp sp gn sn : octets (aad_bytes (capabilityTranscriptBytes i id gp sp gn sn)).
Proof. unfold capabilityTranscriptBytes. destruct (np_required gn), (np_required sn); try apply utf8_octets. constructor. Qed.
(** What opens was sealed, in the version that the additional data asks for. *)
Lemma opened_was_sealed key envelope aad c : decryptCredentials key envelope aad = Ok c →
  ∃ env iv ct ivBytes pt raw, json_parse envelope = Ok env ∧
    is_number (match aad with None => 1 | Some _ => 2 end) (field "v" env) = true ∧
    field "iv" env = VStr iv ∧ field "ct" env = VStr ct ∧ base64UrlToBytes iv = Ok ivBytes ∧
    base64UrlToBytes ct = Ok (gcm_encrypt key ivBytes (aad_bytes aad) pt) ∧
    json_parse (utf8_decode pt) = Ok raw ∧ credentials_of raw = Ok c.
Proof.
  unfold decryptCredentials. destruct (json_parse envelope) as [env|]; [|done]. cbn [mbind result_bind].
  destruct (readable env); [|done]. cbn [mbind result_bind].
  destruct (is_number 1 (field "v" env)) eqn:E1, (is_number 2 (field "v" env)) eqn:E2; cbn [negb andb]; try done.
  { unfold is_number in *. destruct (field "v" env) as [| | |[|m]| | | |]; try done. apply Z.eqb_eq in E1, E2. lia. }
  all: destruct aad as [aad|]; cbn; try done.
  all: destruct (field "iv" env) as [| | | |iv| | |] eqn:Ei; try done; destruct (field "ct" env) as [| | | |ct| | |] eqn:Ec; try done.
  all: destruct (base64UrlToBytes iv) as [ivb|] eqn:Eib; [|done]; cbn [mbind result_bind].
  all: destruct (base64UrlToBytes ct) as [ctb|] eqn:Ecb; [|done]; cbn [mbind result_bind].
  all: destruct (gcm_decrypt _ _ _ _) as [pt|] eqn:Eg; [|done]; cbn [mbind result_bind].
  all: destruct (json_parse (utf8_decode pt)) as [raw|] eqn:Ej; [|done]; cbn [mbind result_bind]; intros Hc.
  all: apply gcm_authentic in Eg; subst ctb; exists env, iv, ct, ivb, pt, raw; split_and!; done.
Qed.
End envelopes.

(** ** Theory: a relay that works *)
Section pairing.
Context `{RecoveryCrypto} `{!Ecdh} `{Platform} `{!ByteView} {A : Type} `{!StorageAdapter A} {up : A → Prop} `{!ReliableAdapter up}.
Implicit Types (a b : A).

Definition text_bytes (s : string) : Bytes := toBytes (utf8_encode s).
Lemma relayRead_file path s b : up b → filesOf b !! path = Some (text_bytes s) →
  ∃ b', relayRead path b = (Ok (Some s), b') ∧ up b' ∧ filesOf b' = filesOf b.
Proof.
  intros Hu Hf. destruct (up_read path b Hu) as (r & b' & Hr & Hu' & Hd). rewrite (Hd _ Hf) in Hr.
  exists b'. destruct (read_files path b _ b' Hr) as [Hfs _]. split_and!; [|done..].
  unfold relayRead, catch. rewrite (bind_ok _ _ _ _ _ Hr). cbn. unfold text_bytes. by rewrite ofBytes_toBytes, utf8_roundtrip.
Qed.
Lemma relayWrite_file path s a : up a → ∃ a', relayWrite path s a = (Ok (), a') ∧ up a' ∧
  filesOf a' = <[path := text_bytes s]> (filesOf a).
Proof.
  intros Hu. destruct (up_write path (text_bytes s) a Hu) as (a' & Hw & Hu'). exists a'. split_and!; [done..|].
  by apply write_ok.
Qed.
Lemma cleanup_files paths a : up a → ∃ a', relayCleanup paths a = (Ok (), a') ∧ up a' ∧
  filesOf a' = delete (rp_credentials paths) (delete (rp_scannerPub paths) (filesOf a)).
Proof.
  intros Hu. destruct (up_delete (rp_scannerPub paths) a Hu) as (a1 & Hd1 & Hu1).
  destruct (up_delete (rp_credentials paths) a1 Hu1) as (a2 & Hd2 & Hu2). exists a2. split_and!; [|done|].
  - unfold relayCleanup. erewrite bind_ok by by apply catch_ok. by erewrite catch_ok.
  - apply delete_ok in Hd1, Hd2. by rewrite Hd2, Hd1.
Qed.

(** The poll comes upon the file [d] at [path] in state [b], in time. *)
Definition meets {T} (fn : M A (option T)) (clock : Clock) (timeoutMs : Z) (path : string) (d : Bytes) a b : Prop :=
  ticking clock ∧ up b ∧ filesOf b !! path = Some d ∧
  ∃ j, waits fn clock timeoutMs 0 a j b ∧ (ck_check clock j < ck_start clock + timeoutMs)%Z.
Lemma meets_text clock t path s a b : meets (relayRead path) clock t path (text_bytes s) a b →
  ∃ b', pollFor (relayRead path) clock t a = (Ok s, b') ∧ up b' ∧ filesOf b' = filesOf b.
Proof.
  intros (Ht & Hu & Hf & j & Hw & Hc). destruct (relayRead_file path s b Hu Hf) as (b' & Hr & Hu' & Hf').
  exists b'. split; [by eapply poll_returns|done].
Qed.

Definition hello_value (sn : NormalizedPairingCapabilities) : jsval := profile_value (pairingCapabilitiesForWire sn).
Lemma hello_parses pub value sn : normalizePairingCapabilities value = Ok sn →
  parseScannerHello (scanner_hello pub (pairingCapabilitiesForWire sn)) = Ok (pub, hello_value sn) ∧
  normalizePairingCapabilities (hello_value sn) = Ok sn.
Proof.
  intros Hn%wire_profile. unfold hello_value, scanner_hello, parseScannerHello.
  destruct (pairingCapabilitiesForWire sn) as [c|]; cbn [profile_value].
  - destruct Hn as [Hp Hn]. split; [|done]. rewrite json_roundtrip.
    + cbn [mbind result_bind readable]. change (field "pub" _) with (VStr pub). change (field "capabilities" _) with (capabilities_value c).
      unfold capabilities_value in *. cbn -[isPairingCapabilities]. by rewrite Hp.
    + change (json_value (capabilities_value c) && true = true). by rewrite capabilities_json.
  - subst sn. split; [|done]. by rewrite json_roundtrip.
Qed.
Lemma meets_hello clock t path pub value sn a b : normalizePairingCapabilities value = Ok sn →
  scanner_hello pub (pairingCapabilitiesForWire sn) ≠ "" →
  meets (read_hello path) clock t path (text_bytes (scanner_hello pub (pairingCapabilitiesForWire sn))) a b →
  ∃ b', read_hello path b = (Ok (Some (pub, hello_value sn)), b') ∧
    pollFor (read_hello path) clock t a = (Ok (pub, hello_value sn), b') ∧ up b' ∧ filesOf b' = filesOf b.
Proof.
  intros Hn Hne (Ht & Hu & Hf & j & Hw & Hc). destruct (relayRead_file path _ b Hu Hf) as (b' & Hr & Hu' & Hf').
  assert (read_hello path b = (Ok (Some (pub, hello_value sn)), b')) as Hrh.
  { unfold read_hello. rewrite (bind_ok _ _ _ _ _ Hr).
    assert (opt_truthy (Some (scanner_hello pub (pairingCapabilitiesForWire sn))) =
      Some (scanner_hello pub (pairingCapabilitiesForWire sn))) as -> by (unfold opt_truthy; by destruct (scanner_hello _ _)).
    destruct (hello_parses pub value sn Hn) as [Hp _]. unfold lift, mbind, M_bind. by rewrite Hp. }
  exists b'. split_and!; [done|by eapply poll_returns|done..].
Qed.

(** One pairing: an accepted payload of a generator with private key [gsk], a scanner with [ssk], the profiles of both,
    and the credentials of the one that has them. *)
Context (p : HandshakeQRPayload) (payload own profile : jsval) (gsk ssk : list Z) (gn sn : NormalizedPairingCapabilities)
  (credentials : HandshakeCredentials) (relayBase : string) (t : Z).
Record pairing : Prop := mkPairing {
  pr_payload : snapshotHandshakeQRPayload payload = Ok p;
  pr_pub : qr_generatorPub p = exportECDHPublicKey gsk;
  pr_gsk : octets gsk; pr_ssk : octets ssk;
  pr_gn : normalizePairingCapabilities (profile_value (qr_capabilities p)) = Ok gn;
  pr_sn : normalizePairingCapabilities profile = Ok sn;
  pr_compatible : assertPairingCapabilitiesCompatible sn gn = Ok ();
  pr_own : snapshotHandshakeCredentials own = Ok credentials;
  pr_hello : scanner_hello (exportECDHPublicKey ssk) (pairingCapabilitiesForWire sn) ≠ "" }.
Definition pair_paths : RelayPaths :=
  let base := relayBase +:+ "/handshake/" +:+ qr_handshakeId p in
  mkRelayPaths (base +:+ "/scanner-pub.json") (base +:+ "/credentials.json").
Definition pair_hello : string := scanner_hello (exportECDHPublicKey ssk) (pairingCapabilitiesForWire sn).
Definition pair_key : list Z := deriveWrappingKey gsk (ecdh_public ssk).
Definition pair_aad : option (list Z) :=
  capabilityTranscriptBytes (qr_intent p) (qr_handshakeId p) (exportECDHPublicKey gsk) (exportECDHPublicKey ssk) gn sn.
Definition generator_options : HandshakeChannelOptions := mkChannelOptions t (profile_value (qr_capabilities p)).
Definition scanner_options : HandshakeChannelOptions := mkChannelOptions t profile.

Lemma pair_paths_ok (Hp : pairing) : relayPaths (qr_handshakeId p) relayBase = Ok pair_paths.
Proof. destruct (payload_again _ _ (pr_payload Hp)) as [_ Hid]. unfold relayPaths, assertValidHandshakeId. by rewrite Hid. Qed.
Lemma paths_differ : rp_scannerPub pair_paths ≠ rp_credentials pair_paths.
Proof. cbn. intros E%(inj (String.append _)). discriminate. Qed.
Lemma pair_own (Hp : pairing) : truthy_value own = true.
Proof.
  pose proof (pr_own Hp) as Ho. unfold snapshotHandshakeCredentials in Ho. by destruct own.
Qed.
Lemma pair_all_compatible (Hp : pairing) : assertPairingCapabilitiesCompatible gn gn = Ok () ∧
  assertPairingCapabilitiesCompatible gn sn = Ok ().
Proof.
  pose proof (proj1 (compatible_iff _ _) (pr_compatible Hp)) as Hc. split; apply compatible_iff; intros id Hid.
  - destruct (Hc id); [tauto|done].
  - destruct (Hc id); [tauto|done].
Qed.
Lemma pair_key_octets (Hp : pairing) : octets pair_key.
Proof. apply key_octets; [apply Hp|]. by apply ecdh_public_octets, Hp. Qed.
Lemma pair_opens (Hp : pairing) iv : octets iv →
  decryptCredentials pair_key (encryptCredentials pair_key credentials pair_aad iv) pair_aad = Ok credentials.
Proof. intros Hi. apply own_envelope_opens; [by apply pair_key_octets|done|apply transcript_octets]. Qed.

(** The scanner up to the moment its hello is out. *)
Lemma scanner_opens (Hp : pairing) (mine : jsval) a : up a →
  (qr_intent p = Join → mine = own) →
  ∃ a1, scanner_open ssk payload mine relayBase scanner_options a =
    (Ok (mkScannerState (qr_intent p) (match qr_intent p with Join => Some credentials | Share => None end)
           pair_paths pair_key pair_aad), a1) ∧ up a1 ∧
    filesOf a1 = <[rp_scannerPub pair_paths := text_bytes pair_hello]> (filesOf a).
Proof.
  intros Hu Hm. destruct (relayWrite_file (rp_scannerPub pair_paths) pair_hello a Hu) as (a1 & Hw & Hu1 & Hf).
  exists a1. split; [|done]. unfold scanner_open. rewrite (pr_payload Hp).
  assert (match qr_intent p with
    | Share => Ok None
    | Join => if negb (truthy_value mine) then Throw (JsError "intent=join requires scanner to have ownCredentials")
              else c ← snapshotHandshakeCredentials mine; Ok (Some c)
    end = Ok (match qr_intent p with Join => Some credentials | Share => None end)) as Hc.
  { destruct (qr_intent p); [done|]. rewrite (Hm eq_refl), pair_own by done. by rewrite (pr_own Hp). }
  unfold mbind, M_bind, lift in *. rewrite Hc, pair_paths_ok by done. pose proof (pr_gn Hp) as Hg. unfold profile_value in Hg.
  rewrite Hg. cbn [ho_capabilities scanner_options]. rewrite (pr_sn Hp), (pr_compatible Hp). fold pair_hello. rewrite Hw.
  rewrite (pr_pub Hp), import_export by apply Hp. cbn. unfold mret, M_ret. unfold pair_aad, pair_key.
  by rewrite keys_agree.
Qed.
(** The generator up to the moment it has the scanner's key. *)
Lemma generator_hears (Hp : pairing) (mine : jsval) iv (clock clock' : Clock) a b :
  (qr_intent p = Share → mine = own) →
  meets (read_hello (rp_scannerPub pair_paths)) clock t (rp_scannerPub pair_paths) (text_bytes pair_hello) a b →
  ∃ b1 x, read_hello (rp_scannerPub pair_paths) b = (Ok (Some x), b1) ∧ up b1 ∧ filesOf b1 = filesOf b ∧
    generator_complete gsk (qr_handshakeId p) relayBase (qr_intent p) mine generator_options iv clock clock' a =
    match qr_intent p with
    | Share => (relayWrite (rp_credentials pair_paths) (encryptCredentials pair_key credentials pair_aad iv);; mret None) b1
    | Join => (envelope ← pollFor (relayRead (rp_credentials pair_paths)) clock' t;
               c ← lift (decryptCredentials pair_key envelope pair_aad);
               relayCleanup pair_paths;; mret (Some c)) b1
    end.
Proof.
  intros Hm Hh. destruct (meets_hello _ _ _ _ _ _ _ _ (pr_sn Hp) (pr_hello Hp) Hh) as (b1 & Hr & Hpoll & Hu & Hf).
  exists b1. eexists. split_and!; [exact Hr|done..|]. unfold generator_complete.
  assert (match qr_intent p with
    | Share => if negb (truthy_value mine) then Throw (JsError "intent=share requires ownCredentials")
               else c ← snapshotHandshakeCredentials mine; Ok (Some c)
    | Join => Ok None
    end = Ok (match qr_intent p with Share => Some credentials | Join => None end)) as Hc.
  { destruct (qr_intent p); [|done]. rewrite (Hm eq_refl), pair_own by done. by rewrite (pr_own Hp). }
  destruct (pair_all_compatible Hp) as [Hgg Hgs]. destruct (hello_parses (exportECDHPublicKey ssk) _ _ (pr_sn Hp)) as [_ Hn].
  unfold mbind, M_bind, lift in *. rewrite Hc, pair_paths_ok by done. cbn [ho_capabilities ho_timeoutMs generator_options].
  rewrite (pr_gn Hp), Hgg, Hpoll. cbn [fst snd]. rewrite Hn, Hgs, import_export by apply Hp.
  fold pair_key pair_aad. by destruct (qr_intent p).
Qed.
Lemma receiver_ends (Hp : pairing) iv clk a b : octets iv →
  meets (relayRead (rp_credentials pair_paths)) clk t (rp_credentials pair_paths)
    (text_bytes (encryptCredentials pair_key credentials pair_aad iv)) a b →
  ∃ b', (envelope ← pollFor (relayRead (rp_credentials pair_paths)) clk t;
         c ← lift (decryptCredentials pair_key envelope pair_aad);
         relayCleanup pair_paths;; mret (Some c)) a = (Ok (Some credentials), b') ∧ up b' ∧
    filesOf b' = delete (rp_credentials pair_paths) (delete (rp_scannerPub pair_paths) (filesOf b)).
Proof.
  intros Hi Hm. destruct (meets_text _ _ _ _ _ _ Hm) as (b1 & Hpoll & Hu & Hf).
  destruct (cleanup_files pair_paths b1 Hu) as (b2 & Hc & Hu2 & Hf2). exists b2. split; [|by rewrite <- Hf].
  rewrite (bind_ok _ _ _ _ _ Hpoll). unfold mbind, M_bind, lift. rewrite pair_opens by done. by rewrite Hc.
Qed.

(** C30: Pairing hands over the credentials, both ways.  Over a relay that works, whatever else happens to it
    while the devices wait: with a share code the scanner posts its hello; a generator that comes upon that hello
    in time, however often it polled before, posts one envelope and is done; and the scanner, when it
    comes upon that envelope in time, returns exactly the credentials of the generator and leaves
    neither file behind.  With a join code the scanner posts both files at once and is done, and the generator that
    comes upon them, one after the other, returns the credentials of the scanner. *)
Theorem pairing_hands_over_the_credentials (Hp : pairing) (iv : list Z) (clk clock clock' : Clock) a :
  octets iv → up a →
  let hello := text_bytes pair_hello in let hp := rp_scannerPub pair_paths in let cp := rp_credentials pair_paths in
  (qr_intent p = Share →
   ∃ a1, up a1 ∧ filesOf a1 = <[hp := hello]> (filesOf a) ∧
     ∀ g b, meets (read_hello hp) clock t hp hello g b →
       ∃ b' envelope,
         generator_complete gsk (qr_handshakeId p) relayBase Share own generator_options iv clock clock' g = (Ok None, b') ∧
         up b' ∧ filesOf b' = <[cp := envelope]> (filesOf b) ∧
         ∀ b2, meets (relayRead cp) clk t cp envelope a1 b2 →
           ∃ b3, runScannerHandshake ssk payload VNull relayBase scanner_options iv clk a = (Ok (Some credentials), b3) ∧
             filesOf b3 = delete cp (delete hp (filesOf b2))) ∧
  (qr_intent p = Join →
   ∃ a1 envelope,
     runScannerHandshake ssk payload own relayBase scanner_options iv clk a = (Ok None, a1) ∧ up a1 ∧
     filesOf a1 = <[cp := envelope]> (<[hp := hello]> (filesOf a)) ∧
     ∀ g b, meets (read_hello hp) clock t hp hello g b →
       ∃ b1 x, read_hello hp b = (Ok (Some x), b1) ∧
         ∀ b2, meets (relayRead cp) clock' t cp envelope b1 b2 →
           ∃ b3, generator_complete gsk (qr_handshakeId p) relayBase Join VNull generator_options [] clock clock' g =
                   (Ok (Some credentials), b3) ∧
             filesOf b3 = delete cp (delete hp (filesOf b2))).
Proof.
  intros Hi Hu hello hp cp. split; intros Hint.
  - destruct (scanner_opens Hp VNull a Hu) as (a1 & Ho & Hu1 & Hf1); [by rewrite Hint|].
    exists a1. split_and!; [done..|]. intros g b Hm.
    destruct (generator_hears Hp own iv clock clock' g b) as (b1 & x & _ & Hu2 & Hf2 & Hg); [done..|]. rewrite Hint in Hg.
    destruct (relayWrite_file cp (encryptCredentials pair_key credentials pair_aad iv) b1 Hu2) as (b' & Hw & Hu3 & Hf3).
    exists b'. eexists. split_and!; [rewrite Hg; by rewrite (bind_ok _ _ _ _ _ Hw)|done|by rewrite Hf3, Hf2|].
    intros b2 Hm2. destruct (receiver_ends Hp iv clk a1 b2 Hi Hm2) as (b3 & He & _ & Hf4). exists b3. split; [|done].
    unfold runScannerHandshake. rewrite (bind_ok _ _ _ _ _ Ho), Hint. exact He.
  - destruct (scanner_opens Hp own a Hu) as (a1 & Ho & Hu1 & Hf1); [done|]. rewrite Hint in Ho.
    destruct (relayWrite_file cp (encryptCredentials pair_key credentials pair_aad iv) a1 Hu1) as (a2 & Hw & Hu2 & Hf2).
    exists a2. eexists. split_and!; [|done|by rewrite Hf2, Hf1|].
    { unfold runScannerHandshake. rewrite (bind_ok _ _ _ _ _ Ho). unfold scanner_finish. cbn [sc_credentials sc_paths sc_key sc_additionalData].
      by rewrite (bind_ok _ _ _ _ _ Hw). }
    intros g b Hm. destruct (generator_hears Hp VNull [] clock clock' g b) as (b1 & x & Hr & _ & _ & Hg); [by rewrite Hint|done|].
    exists b1, x. split; [done|]. intros b2 Hm2. destruct (receiver_ends Hp iv clock' b1 b2 Hi Hm2) as (b3 & He & _ & Hf4).
    exists b3. split; [|done]. rewrite Hint in Hg. by rewrite Hg.
Qed.
End pairing.

(** ** Theory: any relay at all *)
Section hostile.
Context `{RecoveryCrypto} `{!Ecdh} `{Platform} `{!ByteView} {A : Type} `{!StorageOps A}.
Implicit Types (a : A).

(** The credentials are the content of this very envelope, which is sealed under [key] with the additional data [aad], in the
    version that this asks for. *)
Definition sealed_in (envelope : string) (key : list Z) (aad : option (list Z)) (c : HandshakeCredentials) : Prop :=
  ∃ env iv ct ivBytes pt raw, json_parse envelope = Ok env ∧
    is_number (match aad with None => 1 | Some _ => 2 end) (field "v" env) = true ∧
    field "iv" env = VStr iv ∧ field "ct" env = VStr ct ∧ base64UrlToBytes iv = Ok ivBytes ∧
    base64UrlToBytes ct = Ok (gcm_encrypt key ivBytes (aad_bytes aad) pt) ∧
    json_parse (utf8_decode pt) = Ok raw ∧ credentials_of raw = Ok c.

Lemma scanner_open_inv ssk payload own relayBase options a st a' :
  scanner_open ssk payload own relayBase options a = (Ok st, a') →
  ∃ p gpub gn sn, snapshotHandshakeQRPayload payload = Ok p ∧ importECDHPublicKey (qr_generatorPub p) = Ok gpub ∧
    relayPaths (qr_handshakeId p) relayBase = Ok (sc_paths st) ∧
    relayWrite (rp_scannerPub (sc_paths st)) (scanner_hello (exportECDHPublicKey ssk) (pairingCapabilitiesForWire sn)) a = (Ok (), a') ∧
    normalizePairingCapabilities (profile_value (qr_capabilities p)) = Ok gn ∧
    normalizePairingCapabilities (ho_capabilities options) = Ok sn ∧
    assertPairingCapabilitiesCompatible sn gn = Ok () ∧ sc_intent st = qr_intent p ∧
    (sc_credentials st = None ↔ qr_intent p = Share) ∧ sc_key st = deriveWrappingKey ssk gpub ∧
    sc_additionalData st = capabilityTranscriptBytes (qr_intent p) (qr_handshakeId p) (qr_generatorPub p)
                             (exportECDHPublicKey ssk) gn sn.
Proof.
  unfold scanner_open, lift. unfold mbind at 1, M_bind at 1. destruct (snapshotHandshakeQRPayload payload) as [p|]; [|done].
  unfold mbind at 1, M_bind at 1.
  destruct (match qr_intent p with Share => _ | Join => _ end) as [own'|] eqn:Eo; [|done].
  unfold mbind at 1, M_bind at 1. destruct (relayPaths _ _) as [paths|] eqn:Epaths; [|done].
  unfold mbind at 1, M_bind at 1. destruct (normalizePairingCapabilities (match _ with Some _ => _ | None => _ end)) as [gn|] eqn:Eg; [|done].
  unfold mbind at 1, M_bind at 1. destruct (normalizePairingCapabilities (ho_capabilities options)) as [sn|] eqn:Es; [|done].
  unfold mbind at 1, M_bind at 1. destruct (assertPairingCapabilitiesCompatible sn gn) as [[]|] eqn:Ec; [|done].
  unfold mbind at 1, M_bind at 1. destruct (relayWrite _ _ a) as [[[]|] a1] eqn:Ew; [|done].
  unfold mbind at 1, M_bind at 1. destruct (importECDHPublicKey _) as [gpub|] eqn:Ei; [|done]. intros [= <- <-].
  exists p, gpub, gn, sn. split_and!; try done. cbn. destruct (qr_intent p); [by injection Eo as <-|].
  destruct (negb _); [done|]. destruct (snapshotHandshakeCredentials own); [|done]. injection Eo as <-. by split.
Qed.
Lemma received_inv clk timeoutMs paths key aad a c a' :
  (envelope ← pollFor (relayRead (rp_credentials paths)) clk timeoutMs;
   credentials ← lift (decryptCredentials key envelope aad);
   relayCleanup paths;; mret (Some credentials)) a = (Ok (Some c), a') →
  ∃ envelope a1, delivered (relayRead (rp_credentials paths)) (rp_credentials paths) clk timeoutMs a envelope a1 ∧
    sealed_in envelope key aad c.
Proof.
  unfold mbind at 1, M_bind at 1. destruct (pollFor _ _ _ a) as [[envelope|] a1] eqn:Ep; [|done].
  unfold mbind at 1, M_bind at 1, lift. destruct (decryptCredentials key envelope aad) as [c'|] eqn:Ed; [|done].
  unfold mbind at 1, M_bind at 1. destruct (relayCleanup paths a1) as [[[]|] a2]; [|done]. intros [= -> _].
  exists envelope, a1. split; [by apply delivered_text|]. by apply opened_was_sealed.
Qed.
(** What a generator that comes to an end has agreed to and done. *)
Lemma generator_inv gsk id relayBase intent own options iv clock clock' a r a' :
  generator_complete gsk id relayBase intent own options iv clock clock' a = (Ok r, a') →
  ∃ gn sn caps pubText spub paths hello a1, relayPaths id relayBase = Ok paths ∧
    delivered (read_hello (rp_scannerPub paths)) (rp_scannerPub paths) clock (ho_timeoutMs options) a hello a1 ∧
    parseScannerHello hello = Ok (pubText, caps) ∧ normalizePairingCapabilities (ho_capabilities options) = Ok gn ∧
    normalizePairingCapabilities caps = Ok sn ∧ assertPairingCapabilitiesCompatible gn sn = Ok () ∧
    importECDHPublicKey pubText = Ok spub ∧
    let key := deriveWrappingKey gsk spub in
    let aad := capabilityTranscriptBytes intent id (exportECDHPublicKey gsk) pubText gn sn in
    (intent = Share → ∃ c, r = None ∧ snapshotHandshakeCredentials own = Ok c ∧
       relayWrite (rp_credentials paths) (encryptCredentials key c aad iv) a1 = (Ok (), a')) ∧
    (intent = Join → ∀ c, r = Some c → ∃ envelope a2,
       delivered (relayRead (rp_credentials paths)) (rp_credentials paths) clock' (ho_timeoutMs options) a1 envelope a2 ∧
       sealed_in envelope key aad c).
Proof.
  unfold generator_complete, lift. unfold mbind at 1, M_bind at 1.
  destruct (match intent with Share => _ | Join => _ end) as [own'|] eqn:Eo; [|done].
  unfold mbind at 1, M_bind at 1. destruct (relayPaths id relayBase) as [paths|] eqn:Ep; [|done].
  unfold mbind at 1, M_bind at 1. destruct (normalizePairingCapabilities (ho_capabilities options)) as [gn|] eqn:Eg; [|done].
  unfold mbind at 1, M_bind at 1. destruct (assertPairingCapabilitiesCompatible gn gn) as [[]|]; [|done].
  unfold mbind at 1, M_bind at 1. destruct (pollFor _ clock _ a) as [[[pubText caps]|] a1] eqn:Eh; [|done]. cbn [fst snd].
  unfold mbind at 1, M_bind at 1. destruct (normalizePairingCapabilities caps) as [sn|] eqn:Es; [|done].
  unfold mbind at 1, M_bind at 1. destruct (assertPairingCapabilitiesCompatible gn sn) as [[]|] eqn:Ec; [|done].
  unfold mbind at 1, M_bind at 1. destruct (importECDHPublicKey pubText) as [spub|] eqn:Ei; [|done].
  apply delivered_hello in Eh as (hello & Hd & Hh). intros Hr. exists gn, sn, caps, pubText, spub, paths, hello, a1.
  split_and!; try done; intros ->.
  - destruct (negb _); [done|]. destruct (snapshotHandshakeCredentials own) as [c|]; [|done]. injection Eo as <-.
    unfold mbind, M_bind in Hr. destruct (relayWrite _ _ a1) as [[[]|] b] eqn:Ew; [|done]. injection Hr as <- <-.
    by exists c.
  - injection Eo as <-. intros c ->. by eapply received_inv.
Qed.

(** C31: No device takes or gives credentials beyond what was agreed, whatever the relay does.  Credentials that a
    scanner or a generator returns are the content of the envelope that the relay delivered at the credentials path of the handshake,
    after the hello was written (or read) and before the deadline, and that envelope's ciphertext is a sealing
    under the key of its own private key and the public key in the code (or in the hello the relay delivered),
    with the transcript of the profiles it has checked against each other as additional data as soon as one of
    them requires something.  A generator that has shared has sealed its credentials in the same way.  A
    scanner whose profile and the code's do not fit touches nothing. *)
Theorem credentials_cross_only_as_agreed (sk : list Z) (payload own : jsval) (id relayBase : string) (intent : HandshakeIntent)
    (options : HandshakeChannelOptions) (iv : list Z) (clk clk' : Clock) a :
  (∀ c a', runScannerHandshake sk payload own relayBase options iv clk a = (Ok (Some c), a') →
     ∃ p gpub gn sn paths envelope a1 a2, snapshotHandshakeQRPayload payload = Ok p ∧ qr_intent p = Share ∧
       relayPaths (qr_handshakeId p) relayBase = Ok paths ∧
       relayWrite (rp_scannerPub paths) (scanner_hello (exportECDHPublicKey sk) (pairingCapabilitiesForWire sn)) a = (Ok (), a1) ∧
       delivered (relayRead (rp_credentials paths)) (rp_credentials paths) clk (ho_timeoutMs options) a1 envelope a2 ∧
       importECDHPublicKey (qr_generatorPub p) = Ok gpub ∧ assertPairingCapabilitiesCompatible sn gn = Ok () ∧
       normalizePairingCapabilities (profile_value (qr_capabilities p)) = Ok gn ∧
       normalizePairingCapabilities (ho_capabilities options) = Ok sn ∧
       sealed_in envelope (deriveWrappingKey sk gpub)
         (capabilityTranscriptBytes Share (qr_handshakeId p) (qr_generatorPub p) (exportECDHPublicKey sk) gn sn) c) ∧
  (∀ r a', generator_complete sk id relayBase intent own options iv clk clk' a = (Ok r, a') →
     ∃ gn sn caps pubText spub paths hello a1, relayPaths id relayBase = Ok paths ∧
       delivered (read_hello (rp_scannerPub paths)) (rp_scannerPub paths) clk (ho_timeoutMs options) a hello a1 ∧
       parseScannerHello hello = Ok (pubText, caps) ∧ normalizePairingCapabilities (ho_capabilities options) = Ok gn ∧
       normalizePairingCapabilities caps = Ok sn ∧ assertPairingCapabilitiesCompatible gn sn = Ok () ∧
       importECDHPublicKey pubText = Ok spub ∧
       let key := deriveWrappingKey sk spub in
       let aad := capabilityTranscriptBytes intent id (exportECDHPublicKey sk) pubText gn sn in
       (intent = Share → ∃ c, r = None ∧ snapshotHandshakeCredentials own = Ok c ∧
          relayWrite (rp_credentials paths) (encryptCredentials key c aad iv) a1 = (Ok (), a')) ∧
       (intent = Join → ∀ c, r = Some c → ∃ envelope a2,
          delivered (relayRead (rp_credentials paths)) (rp_credentials paths) clk' (ho_timeoutMs options) a1 envelope a2 ∧
          sealed_in envelope key aad c)) ∧
  (∀ p gn sn, snapshotHandshakeQRPayload payload = Ok p →
     normalizePairingCapabilities (profile_value (qr_capabilities p)) = Ok gn →
     normalizePairingCapabilities (ho_capabilities options) = Ok sn →
     assertPairingCapabilitiesCompatible sn gn ≠ Ok () →
     ∃ e, runScannerHandshake sk payload own relayBase options iv clk a = (Throw e, a)).
Proof.
  split_and!; [|intros r a'; apply generator_inv|].
  - intros c a'. unfold runScannerHandshake. unfold mbind, M_bind.
    destruct (scanner_open sk payload own relayBase options a) as [[st|] a1] eqn:Eo; [|done].
    destruct (scanner_open_inv _ _ _ _ _ _ _ _ Eo) as (p & gpub & gn & sn & Hp & Hg & Hpaths & Hw & Hn & Hs & Hc & _ & Hshare & Hk & Had).
    unfold scanner_finish. destruct (sc_credentials st) as [cs|] eqn:Ecs.
    { unfold mbind, M_bind. by destruct (relayWrite _ _ a1) as [[[]|] a2]. }
    intros Hr. pose proof (proj1 Hshare eq_refl) as Hint. apply received_inv in Hr as (envelope & a2 & Hd & Hsealed).
    exists p, gpub, gn, sn, (sc_paths st), envelope, a1, a2. split_and!; try done. rewrite <- Hint, <- Had, <- Hk. exact Hsealed.
  - intros p gn sn Hp Hg Hs Hc. unfold runScannerHandshake, scanner_open, lift, mbind, M_bind. rewrite Hp.
    destruct (match qr_intent p with Share => _ | Join => _ end); [|by eexists].
    destruct (relayPaths _ _); [|by eexists]. unfold profile_value in Hg. rewrite Hg, Hs.
    destruct (assertPairingCapabilitiesCompatible sn gn) as [[]|]; [done|]. by eexists.
Qed.
End hostile.

(** ** A pairing over the in-memory adapter *)
#[local] Existing Instance toy_crypto.
#[local] Existing Instance toy_recovery.
#[local] Existing Instance octet_platform.
#[local] Existing Instance octet_view.
Lemma zip_max_agree (a b : list Z) : zip_with Z.max a b = zip_with Z.max b a.
Proof. revert b. induction a as [|x a IH]; intros [|y b]; try done. cbn. by rewrite Z.max_comm, IH. Qed.
Lemma zip_max_octets a b : octets a → octets b → octets (zip_with Z.max a b).
Proof.
  intros Ha. revert b. induction Ha as [|x a Hx _ IH]; intros b Hb; [constructor|]. destruct Hb as [|y b Hy Hb]; [constructor|].
  constructor; [|by apply IH]. unfold octet in *. lia.
Qed.
#[local] Instance toy_ecdh : Ecdh := {|
  ecdh_public sk := sk; ecdh_valid _ := true; ecdh_bits := zip_with Z.max;
  ecdh_public_valid _ _ := eq_refl; ecdh_public_octets _ Ho := Ho; ecdh_bits_octets := zip_max_octets;
  ecdh_agree := zip_max_agree |}.

Definition trial_gsk : list Z := [1; 9; 3]%Z.
Definition trial_ssk : list Z := [7; 2; 5]%Z.
Definition trial_profile : jsval := capabilities_value (mkCapabilities ["x"; "y"] (Some ["y"])).
Definition trial_qr : HandshakeQRPayload :=
  mkQR Share "a1" (exportECDHPublicKey trial_gsk) None (Some (mkCapabilities ["y"; "x"] (Some ["x"]))).
Definition trial_own : jsval := credentials_value (mkHandshakeCredentials "/m" (Some "k") None).
Definition trial_generator_clock : Clock := mkClock (A := MemoryAdapter) 0 Z.of_nat (λ _ a, a).
(** While the scanner waits for the first time, the generator runs. *)
Definition trial_generator_run : M MemoryAdapter (option HandshakeCredentials) :=
  generator_complete trial_gsk (qr_handshakeId trial_qr) "/r" Share trial_own (generator_options trial_qr 1000) toy_iv
    trial_generator_clock trial_generator_clock.
Definition trial_scanner_clock : Clock := mkClock 0 Z.of_nat (λ _ a, (trial_generator_run a).2).
Lemma trial_pairing : pairing trial_qr (qr_value trial_qr) trial_own trial_profile trial_gsk trial_ssk
  (mkNormalized ["x"; "y"] ["x"]) (mkNormalized ["x"; "y"] ["y"]) (mkHandshakeCredentials "/m" (Some "k") None).
Proof.
  split; try reflexivity; by repeat constructor.
Qed.
Lemma pairing_hands_over_the_credentials_witness : ∃ a',
  runScannerHandshake trial_ssk (qr_value trial_qr) VNull "/r" (scanner_options trial_profile 1000) toy_iv trial_scanner_clock
    (emptyAdapter "t") = (Ok (Some (mkHandshakeCredentials "/m" (Some "k") None)), a').
Proof.
  assert (octets toy_iv) as Hi by (by apply Forall_replicate).
  destruct (pairing_hands_over_the_credentials trial_qr (qr_value trial_qr) trial_own trial_profile trial_gsk trial_ssk
    (mkNormalized ["x"; "y"] ["x"]) (mkNormalized ["x"; "y"] ["y"]) (mkHandshakeCredentials "/m" (Some "k") None) "/r" 1000
    trial_pairing toy_iv trial_scanner_clock trial_generator_clock trial_generator_clock (emptyAdapter "t") Hi)
    as [Hshare _]; [constructor|].
  destruct (Hshare eq_refl) as (a1 & Hu1 & Hf1 & Hg). set (cp := rp_credentials _) in *. set (hp := rp_scannerPub _) in *.
  (* The first poll of the scanner finds nothing. *)
  destruct (up_read cp a1 Hu1) as (r & a2 & Hr & Hu2 & _). destruct (read_files cp a1 r a2 Hr) as [Hf2 Hd].
  assert (filesOf a1 !! cp = None) as Hnone by (by rewrite Hf1, lookup_insert_ne).
  assert (relayRead cp a1 = (Ok None, a2)) as Hpoll.
  { unfold relayRead, catch, mbind, M_bind. rewrite Hr. destruct r as [d|]; [|done]. by rewrite (Hd d eq_refl) in Hnone. }
  destruct (Hg a2 a2) as (b' & envelope & Hrun & Hub & Hfb & Hend).
  { split_and!; [by intros i|done|by rewrite Hf2, Hf1, lookup_insert_eq|]. exists 0%nat. split; [constructor|done]. }
  destruct (Hend b') as (b3 & He & _); [|by exists b3].
  split_and!; [by intros i|done|by rewrite Hfb, lookup_insert_eq|]. exists 1%nat. split; [|done].
  eapply waits_cons; [done|exact Hpoll|].
  assert (ck_wait trial_scanner_clock 0 a2 = b') as -> by (cbn [ck_wait trial_scanner_clock]; unfold trial_generator_run; by rewrite Hrun).
  constructor.
Defined.
Lemma credentials_cross_only_as_agreed_witness : ∃ e,
  runScannerHandshake trial_ssk (qr_value trial_qr) VNull "/r" (scanner_options (capabilities_value (mkCapabilities ["y"] None)) 1000)
    toy_iv trial_scanner_clock (emptyAdapter "t") = (Throw e, emptyAdapter "t").
Proof.
  destruct (credentials_cross_only_as_agreed trial_ssk (qr_value trial_qr) VNull "a1" "/r" Share
    (scanner_options (capabilities_value (mkCapabilities ["y"] None)) 1000) toy_iv trial_scanner_clock trial_generator_clock
    (emptyAdapter "t")) as (_ & _ & Hrefused).
  apply (Hrefused trial_qr (mkNormalized ["x"; "y"] ["x"]) (mkNormalized ["y"] [])); try reflexivity. vm_compute. discriminate.
Defined.
