(* ===== verification/QueueLoss.v ===== *)
(** * When a queued change is lost
    ([flushAndRehydrateNow], [doFlush] and [connect] of [packages/core/src/core/sync-engine.ts])

    Restoring a snapshot empties the local store, queue included, so the engine
    flushes first.  While remote access is paused a flush returns without publishing
    anything, and the restoration goes ahead. *)

From S2P Require Import Prelude JsString Hlc Values JsMap LocalStore Wire Crdt Convergence.
From S2P Require Import Observation Adapter Codec Session MergeStore Manifest Flush Pull Frame Compaction.
From S2P Require Import Rehydrate ChangeEffects LocalWrites Promises Engine Queue AutoCompact CatchUp Mesh.
From S2P Require Import Connect.
From Stdlib Require String.

Open Scope stdpp_scope.

Section loss.
Context `{Platform} {A : Type} `{HA : !StorageAdapter A} `{!DateText}.
Implicit Types e : Engine A.

(** ** Steps that neither queue, drop nor publish a change *)
Definition queue_kept (s s' : Session A) : Prop :=
  ls_outbox (ss_local s') = ls_outbox (ss_local s) ∧
  ls_pendingBatch (ss_local s') = ls_pendingBatch (ss_local s).
#[global] Instance queue_kept_preorder : PreOrder queue_kept.
Proof. split; [done|]. intros s1 s2 s3 [??] [??]. split; congruence. Qed.
Definition no_change (cfg : Config) (s s' : Session A) : Prop :=
  queue_kept s s' ∧ touches (no_change_file cfg) s s'.
#[global] Instance no_change_preorder cfg : PreOrder (no_change cfg).
Proof.
  split; [intros s; by split|]. intros s1 s2 s3 [Q1 T1] [Q2 T2].
  split; [by transitivity s2|by transitivity s2].
Qed.
Definition inert (cfg : Config) e e' : Prop := no_change cfg (en_session e) (en_session e').
#[global] Instance inert_preorder cfg : PreOrder (inert cfg).
Proof. split; [intros e; by unfold inert|]. intros e1 e2 e3. unfold inert. apply transitivity. Qed.

Lemma inert_sess {B} cfg (m : M (Session A) B) : keeps (no_change cfg) m → keeps (inert cfg) (sess m).
Proof.
  intros Hm e r e'. unfold sess. destruct (m (en_session e)) as [r0 s] eqn:E. intros [= _ <-].
  unfold inert. rewrite session_after_poison. by eapply Hm.
Qed.
Lemma inert_calm {B} cfg (m : M (Engine A) B) : calm m → keeps (inert cfg) m.
Proof.
  intros Hm e r e' E. destruct (Hm e) as (b & e1 & E1 & El & Ea & _). rewrite E in E1.
  injection E1 as _ <-. unfold inert, no_change, queue_kept.
  change (ss_local (en_session e')) with (en_local e'). rewrite El.
  split; [done|]. apply touches_same. by rewrite Ea.
Qed.
Lemma inert_rest {B} cfg (m : M (Engine A) B) : keeps (at_rest cfg) m → keeps (inert cfg) m.
Proof.
  intros Hm e r e' E. apply Hm in E as [(_ & Ho & Hp) Ht]. split; [by split|].
  intros p Hp'. apply Ht. intros Hm'. apply Hp'. intros n ->. by apply change_not_manifest in Hm'.
Qed.

Lemma inert_pull env cfg : keeps (inert cfg) (sess (pull env cfg) : M (Engine A) HLC).
Proof.
  apply inert_sess. intros s r s' E. split; [|by apply pull_changes in E].
  by apply pull_keeps_queue in E.
Qed.
(** The device record is no change file. *)
Definition but_at (p0 : string) (a a' : A) : Prop :=
  ∀ p, p ≠ p0 → filesOf a' !! p = filesOf a !! p.
#[global] Instance but_at_preorder p0 : PreOrder (but_at p0).
Proof. split; [done|]. intros a1 a2 a3 H1 H2 p Hp. by rewrite H2, H1. Qed.

Lemma upsert_but_device now root dev o :
  keeps (but_at (deviceFile root dev)) (upsertDeviceMetadata now root dev o : M A ()).
Proof.
  unfold upsertDeviceMetadata. keeps_walk ltac:(idtac; lazymatch goal with
    | |- keeps _ (readJsonIfExists _) => intros ? ? ? E p _; apply readJsonIfExists_files in E; by rewrite E
    end).
  intros a1 r1 a2 E p Hp. unfold writeJson in E.
  destruct r1 as [[]|err]; [apply write_ok in E as ->|apply write_throw in E as [-> | ->]];
    by rewrite ?lookup_insert_ne.
Qed.
Lemma device_no_change cfg dev : no_change_file cfg (deviceFile (cf_remotePath cfg) dev).
Proof.
  intros n. unfold deviceFile, changeFile, changesFolder. rewrite str_app_assoc.
  by intros ?%str_app_inj_l.
Qed.
Lemma inert_acknowledge host cfg ec : keeps (inert cfg) (acknowledgeManifest host cfg ec : M (Engine A) ()).
Proof.
  unfold acknowledgeManifest. apply keeps_bind; [apply _|apply keeps_gets, _|]. intros e.
  destruct (ss_manifest _); [|apply keeps_ret, _]. destruct (_ || _); [apply keeps_ret, _|].
  apply inert_sess. intros s r s'. unfold remote. destruct (upsertDeviceMetadata _ _ _ _ _) as [r0 a] eqn:E.
  intros [= _ <-]. split; [done|]. intros p Hp. apply upsert_but_device in E. apply E.
  intros ->. by apply Hp, device_no_change.
Qed.

Lemma inert_pull_now host cfg ec : keeps (inert cfg) (pull_changes_now host cfg ec : M (Engine A) ()).
Proof.
  unfold pull_changes_now, schedule_after_policy, requireRemotePath.
  keeps_walk ltac:(idtac; lazymatch goal with
    | |- keeps _ (sess (pull _ _)) => apply inert_pull
    | |- keeps _ (markSuccessfulRemoteSync _) => apply inert_rest, rest_mark
    | |- keeps _ (acknowledgeManifest _ _ _) => apply inert_acknowledge
    | |- keeps _ (scheduleRetentionCompactionCheck _ _ _ _) => apply inert_calm, calm_retention
    | |- keeps _ (sess (modify _)) => apply inert_calm; by apply calm_sess
    end).
Qed.
(** A writer's pull. *)
Lemma inert_writer_pull n host cfg ec : cf_reader cfg = false →
  keeps (inert cfg) (pullNow n host cfg ec : M (Engine A) ()).
Proof.
  intros Hw. rewrite pullNow_with. generalize (match n with
    | S n => rehydrate_then host cfg ec [] (pullNow n host cfg ec)
    | O => throw (JsError "pull: out of fuel") end : M (Engine A) ()). intros k.
  unfold pull_with, reader_check, requireAdapter. rewrite Hw.
  change (mret false ≫= _) with (pull_changes_now host cfg ec : M (Engine A) ()).
  keeps_walk ltac:(idtac; lazymatch goal with
    | |- keeps _ (pull_changes_now _ _ _) => apply inert_pull_now
    | |- keeps _ (setConnectionStatus _) => apply inert_calm, calm_status
    | |- keeps _ idle_if_connected => apply inert_calm, calm_idle
    | |- keeps _ (handleRemoteAccessError _ _) => apply inert_calm, calm_access
    | |- keeps _ (pull_failed _) => unfold pull_failed
    end).
Qed.

(** ** A restoration empties the queue *)
Definition queue_empty (s : Session A) : Prop :=
  ls_outbox (ss_local s) = [] ∧ ls_pendingBatch (ss_local s) = None.

Lemma replaced_empty ctx snap (s : Session A) : ∃ s2, replaceLocalState ctx snap s = (Ok (), s2) ∧
  queue_empty s2 ∧ ss_adapter s2 = ss_adapter s.
Proof.
  eexists. split; [reflexivity|]. split; [|done]. unfold queue_empty. cbn.
  rewrite put_tables_rows.
  destruct (preserve_frame (rc_preservedMeta ctx) emptyStore) as (_ & Eo & Ep).
  destruct (putRows_frame (rows_of (sn_tables snap)) (preserve_meta (rc_preservedMeta ctx) emptyStore))
    as (E1 & E2 & _).
  change (store_clearAll (ss_local s)) with emptyStore. by rewrite E1, E2, Eo, Ep.
Qed.
Lemma restore_empties cfg ctx path (s s' : Session A) x :
  restore cfg ctx path s = (Ok x, s') → queue_empty s'.
Proof.
  unfold restore. intros (data & s1 & _ & E)%bind_ok_inv. apply bind_ok_inv in E as (snap & s2 & _ & E).
  apply bind_ok_inv in E as (u & s3 & E3 & E). assert (queue_empty s3) as [Ho Hp].
  { revert E3. unfold restoreSnapshot. destruct (replaced_empty ctx snap s2) as (s4 & -> & [Ho Hp] & _).
    destruct (observe_all _ _ _); intros [= _ <-]. by split. }
  revert E. intros [= _ <-]. by split.
Qed.
Lemma rehydrate_failed_throws {B} path err (s s' : Session A) (x : B) :
  rehydrate_failed path err s ≠ (Ok x, s').
Proof.
  unfold rehydrate_failed. rewrite emit_bind. intros (p & s1 & _ & E)%bind_ok_inv.
  by rewrite emit_bind in E.
Qed.
Lemma reload_empties cfg ctx reload path (s s' : Session A) x :
  restore_or_reload cfg ctx reload path s = (Ok x, s') → queue_empty s'.
Proof.
  unfold restore_or_reload, catch. destruct (restore cfg ctx path s) as [[y|err] s1] eqn:E1.
  { intros [= <- <-]. by eapply restore_empties. }
  intros (refreshed & s2 & _ & E)%bind_ok_inv. destruct (opt_truthy _) as [path'|].
  - destruct (String.eqb path' path); [by apply rehydrate_failed_throws in E|].
    destruct (restore cfg ctx path' s2) as [[y|err'] s3] eqn:E3.
    + injection E as <- <-. by eapply restore_empties.
    + by apply rehydrate_failed_throws in E.
  - by apply rehydrate_failed_throws in E.
Qed.

(** None of this writes a change file. *)
Lemma touches_restore cfg ctx path :
  keeps (touches (no_change_file cfg)) (restore cfg ctx path : M (Session A) _).
Proof.
  unfold restore. keeps_walk ltac:(idtac; lazymatch goal with
    | |- keeps _ (loc _) => apply touches_loc
    | |- keeps _ (remote (readFile _)) => apply touches_read
    end).
  intros s r s'. unfold restoreSnapshot.
  match goal with |- context [replaceLocalState ctx ?snap] =>
    destruct (replaced_empty ctx snap s) as (s4 & -> & _ & Ea) end.
  destruct (observe_all _ _ _); intros [= _ <-]; apply touches_same; cbn; by rewrite Ea.
Qed.
Lemma touches_restore_step host cfg preserved :
  keeps (λ e e', touches (no_change_file cfg) (en_session e) (en_session e'))
    (restore_step host cfg preserved : M (Engine A) HLC).
Proof.
  unfold restore_step, requireAdapter.
  assert (PreOrder (λ e e' : Engine A, touches (no_change_file cfg) (en_session e) (en_session e'))) as Hpre.
  { split; [intros e; apply (reflexivity (R:=touches (no_change_file cfg)))|].
    intros e1 e2 e3. apply (transitivity (R:=touches (no_change_file cfg))). }
  keeps_walk ltac:(idtac; fail).
  intros e r e'. unfold sess. destruct (rehydrate _ _ _ _ _) as [r0 s] eqn:E. intros [= _ <-].
  rewrite session_after_poison. cbn [en_session with_session].
  revert r0 s E. generalize (en_session e). intros s0 r0 s E.
  enough (keeps (touches (no_change_file cfg)) (rehydrate cfg (mkRehydrate
    (codecState cfg (en_session a0)) (ss_manifest (en_session a0)) (ss_hlc (en_session a0)) preserved)
    (doLoadOrCreateManifest (h_env host) cfg "rehydrate-stale-snapshot" true
       (mkLoadOptions true (negb (cf_reader cfg))) true ≫= λ _ : bool, gets ss_manifest)
    (mret ()))) as Hk by by eapply Hk.
  clear E. unfold rehydrate, restore_or_reload, rehydrate_failed.
  assert (∀ reason force opts pc, keeps (touches (no_change_file cfg))
    (doLoadOrCreateManifest (h_env host) cfg reason force opts pc : M (Session A) bool)) as Hload.
  { intros. eapply touches_weaken; [|apply touches_doLoad]. intros p Hp n ->.
    by apply change_not_manifest in Hp. }
  keeps_walk ltac:(idtac; lazymatch goal with
    | |- keeps _ (emit _) => apply touches_emit
    | |- keeps _ (poisonRemote _ _) => apply touches_poison
    | |- keeps _ (restore _ _ _) => apply touches_restore
    | |- keeps _ (doLoadOrCreateManifest _ _ _ _ _ _) => apply Hload
    end).
Qed.

Lemma restored_queue host cfg preserved e e' hlc :
  restore_step host cfg preserved e = (Ok hlc, e') →
  is_Some (opt_truthy (ss_manifest (en_session e) ≫= λ m, m_snapshotPath (m_payload m))) →
  queue_empty (en_session e').
Proof.
  unfold restore_step. intros (u & e1 & ->%requires_nothing_more & E)%bind_ok_inv [path Hpath].
  revert E. rewrite gets_bind. cbn [id]. unfold sess.
  destruct (rehydrate _ _ _ _ _) as [r s] eqn:E. intros [= -> <-]. rewrite session_after_poison.
  revert E. unfold rehydrate. rewrite emit_bind. cbn [rc_manifest]. rewrite Hpath.
  intros ([n h] & s1 & E1%reload_empties & E)%bind_ok_inv. by revert E; intros [= _ <-].
Qed.

(** ** A paused flush *)
Definition same_gate e e' : Prop :=
  en_access e' = en_access e ∧ ss_manifest (en_session e') = ss_manifest (en_session e).
#[global] Instance same_gate_preorder : PreOrder same_gate.
Proof. split; [done|]. intros e1 e2 e3 [??] [??]. split; congruence. Qed.

Lemma gate_store {B} (m : M MemoryLocalStore B) : keeps same_gate (store m : M (Engine A) B).
Proof.
  intros e r e'. unfold store, sess, loc. destruct (m _) as [r0 l]. intros [= _ <-].
  by rewrite poison_same.
Qed.
Lemma gate_flushPending host cfg ec : keeps same_gate (flushPendingBatch host cfg ec : M (Engine A) ()).
Proof.
  unfold flushPendingBatch, clearBatchTimer, scheduleFlush, armDelayedCompactAfterChange,
    maybeEmitCompactWarning, emitChangeObservation, set_write, set_observers, set_compact.
  keeps_walk ltac:(idtac; lazymatch goal with
    | |- keeps _ (store _) => apply gate_store
    | |- keeps _ (announce _) => intros ? ? ?; rewrite announce_run; by intros [= _ <-]
    | |- keeps _ (modify _) => intros ? ? ? [= _ <-]; done
    end).
Qed.

Lemma paused_flush host cfg ec e : is_Some (en_access e) →
  ∃ e', doFlush host cfg ec e = (Ok 0, e') ∧ same_gate e e' ∧ inert cfg e e'.
Proof.
  intros Hp. unfold doFlush. rewrite gets_bind. cbn [id].
  destruct (en_adapter e); [rewrite bool_decide_true by done|]; (eexists; split; [done|]; by split).
Qed.

Lemma promoted_files host cfg ec e u e' : flushPendingBatch host cfg ec e = (Ok u, e') →
  ss_adapter (en_session e') = ss_adapter (en_session e).
Proof.
  intros E. destruct (flushPendingBatch_spec host cfg ec e) as (u' & e1 & E1 & _ & Ha & _). congruence.
Qed.
End loss.

(** ** Properties *)

(** C40: A restoration while remote access is paused erases the queue.  While the remote has denied
    access, the flush that should save the queued changes returns without
    publishing them and without an error, so [flushAndRehydrateNow] goes on to replace the local
    store: when it returns, nothing is queued any more and no change file has been
    written. *)
Theorem paused_rehydration_erases_the_queue `{Platform} {A : Type} `{!StorageAdapter A}
    `{!DateText} (fuel : nat) (host : Host) (cfg : Config) (ec : EngineConfig) (e e' : Engine A) :
  cf_reader cfg = false → is_Some (en_access e) →
  is_Some (opt_truthy (ss_manifest (en_session e) ≫= λ m, m_snapshotPath (m_payload m))) →
  flushAndRehydrateNow fuel host cfg ec e = (Ok (), e') →
  queue_empty (en_session e') ∧
  ∀ n, filesOf (ss_adapter (en_session e')) !! changeFile (cf_remotePath cfg) n =
       filesOf (ss_adapter (en_session e)) !! changeFile (cf_remotePath cfg) n.
Proof.
  intros Hw Hp Hsnap. unfold flushAndRehydrateNow. intros (u1 & e1 & E1 & E)%bind_ok_inv.
  apply promoted_files in E1 as Ha1. apply gate_flushPending in E1 as [Hg1 Hm1].
  destruct (paused_flush host cfg ec e1) as (e2 & E2 & [_ Hm2] & [_ Ht2]); [by rewrite Hg1|].
  rewrite (bind_ok _ _ _ _ _ E2), store_gets_bind in E.
  unfold rehydrateNow, rehydrate_then in E. apply bind_ok_inv in E as (hlc & e3 & E3 & E).
  assert (queue_empty (en_session e3)) as Hq3.
  { eapply restored_queue; [exact E3|]. by rewrite Hm2, Hm1. }
  apply touches_restore_step in E3 as Ht3.
  assert (inert cfg e3 e') as [[Ho Hpend] Ht].
  { revert E. apply keeps_bind; [apply _|by apply inert_writer_pull|intros _].
    apply keeps_bind; [apply _|apply inert_calm; by apply calm_sess|intros _; apply inert_acknowledge]. }
  split.
  - destruct Hq3 as [Ho3 Hp3]. split; congruence.
  - intros n. rewrite (Ht _ (change_file_is cfg n)), (Ht3 _ (change_file_is cfg n)).
    by rewrite (Ht2 _ (change_file_is cfg n)), Ha1.
Qed.

(** ** Witnesses *)
#[local] Instance test_dates : DateText := {| dateParse _ := Num 1711785600000 |}.
(** A device that was denied access with a change in its queue, while the mesh was compacted. *)
Definition lost_change : ChangeEntry :=
  sample_change "chg_0191" (stamp_at 1711785600001 0 "dev3")
    [UpsertOp "todo" "r2" [("title", mkColumn (VStr "bread") (stamp_at 1711785600001 0 "dev3"))]].
Definition paused_engine : Engine (@MemoryAdapter test_platform) :=
  let e := test_engine (ss_adapter first_compact.2) (pushOutbox lost_change
             (store_setMeta "meshId" (VStr "mesh_1") emptyStore)) in
  with_access (Some (RemoteAccessErr Forbidden 403 None))
    (with_session (set_connected false (set_manifest (Some compacted) false (en_session e))) e).
Definition lossy_connect :=
  @connect test_platform _ memory_storage test_dates 1 test_connect_env (test_config "dev3")
    default_mesh_config test_engine_config paused_engine.
Definition lossy_rehydration :=
  @flushAndRehydrateNow test_platform _ _ test_dates 1 test_host (test_config "dev3")
    test_engine_config paused_engine.
#[local] Strategy expand [lossy_connect lossy_rehydration].

(** Access is back, and the device connects: the change is gone, and the engine idle. *)
Example connect_loses_the_queue :
  queue_of (en_local paused_engine) = [lost_change] ∧
  lossy_connect.1 = Ok () ∧ en_status lossy_connect.2 = Idle ∧
  queue_of (en_local lossy_connect.2) = [] ∧ withheld (en_local lossy_connect.2) = [] ∧
  filesOf (ss_adapter (en_session lossy_connect.2)) !! changeEntryPath "/mesh" lost_change = None ∧
  en_access lossy_connect.2 = None.
Proof. split_and!; by vm_compute. Qed.

Lemma paused_rehydration_runs : lossy_rehydration = (Ok (), lossy_rehydration.2).
Proof.
  assert (lossy_rehydration.1 = Ok ()) as H by by vm_compute.
  exact (eq_trans (surjective_pairing lossy_rehydration) (f_equal (λ r, (r, lossy_rehydration.2)) H)).
Qed.
Lemma paused_rehydration_erases_the_queue_witness :
  queue_of (en_local paused_engine) = [lost_change] ∧ queue_empty (en_session lossy_rehydration.2).
Proof.
  split; [by vm_compute|].
  exact (proj1 (@paused_rehydration_erases_the_queue test_platform _ memory_storage test_dates 1 test_host
    (test_config "dev3") test_engine_config paused_engine lossy_rehydration.2 eq_refl
    (ltac:(by eexists)) (ltac:(vm_compute; by eexists)) paused_rehydration_runs)).
Defined.
