(* ===== verification/StaleCache.v ===== *)
(** * Cached queries after a snapshot
    ([emit] and the caches of [packages/core/src/core/sync-engine.ts], with [rehydrate] of
     [packages/core/src/core/compaction.ts])

    The caches learn of a change only through the events about rows.  Restoring a snapshot
    replaces every row of the store and announces none of them, so the answers cached
    before it stay. *)

From S2P Require Import Prelude JsString Hlc Values JsMap LocalStore Wire Crdt Convergence.
From S2P Require Import Observation Adapter Codec Session QueryCache MergeStore Manifest Flush Pull Frame Compaction.
From S2P Require Import Rehydrate ChangeEffects LocalWrites Promises Engine Queue AutoCompact CatchUp Mesh Connect.
From Stdlib Require String.

Open Scope stdpp_scope.

(** ** Steps that announce no row *)
Section silent.
Context `{Platform} {A : Type} `{HA : !StorageAdapter A} `{!Coercion}.

(** The events of a step leave the caches as they are. *)
Definition unannounced (s s' : Session A) : Prop :=
  ∃ events, ss_events s' = ss_events s ++ events ∧ ∀ c : Caches, caches_after events c = c.
#[global] Instance unannounced_preorder : PreOrder unannounced.
Proof.
  split; [by exists []; rewrite app_nil_r|].
  intros s1 s2 s3 (ev1 & E1 & H1) (ev2 & E2 & H2). exists (ev1 ++ ev2).
  split; [by rewrite E2, E1, app_assoc|]. intros c. unfold caches_after in *. by rewrite foldl_app, H1, H2.
Qed.

Lemma unannounced_events {B} (m : M (Session A) B) :
  (∀ s r s', m s = (r, s') → ss_events s' = ss_events s) → keeps unannounced m.
Proof. intros Hm s r s' E. exists []. rewrite app_nil_r. split; [by eapply Hm|done]. Qed.
Lemma unannounced_emit ev : event_table ev = None → keeps unannounced (emit ev : M (Session A) ()).
Proof.
  intros Hev s r s' [= _ <-]. exists [ev]. split; [done|]. intros c. unfold caches_after. simpl.
  unfold emit_caches. by rewrite Hev.
Qed.
Lemma unannounced_loc {B} (m : M MemoryLocalStore B) : keeps unannounced (loc m : M (Session A) B).
Proof.
  apply unannounced_events. intros s r s'. unfold loc. destruct (m (ss_local s)). by intros [= _ <-].
Qed.
Lemma unannounced_remote {B} (m : M A B) : keeps unannounced (remote m).
Proof.
  apply unannounced_events. intros s r s'. unfold remote. destruct (m (ss_adapter s)). by intros [= _ <-].
Qed.
Lemma unannounced_modify f : (∀ s, ss_events (f s) = ss_events s) →
  keeps unannounced (modify f : M (Session A) ()).
Proof. intros Hf. apply unannounced_events. intros s r s' [= _ <-]. apply Hf. Qed.

Ltac unannounced_leaf := idtac; lazymatch goal with
  | |- keeps _ (emit _) => by apply unannounced_emit
  | |- keeps _ (loc _) => apply unannounced_loc
  | |- keeps _ (remote _) => apply unannounced_remote
  | |- keeps _ (modify _) => by apply unannounced_modify
  end.

Lemma unannounced_poison err p : keeps unannounced (poisonRemote err p : M (Session A) error).
Proof. unfold poisonRemote. keeps_walk unannounced_leaf. Qed.
Lemma unannounced_check cfg m : keeps unannounced (check_manifest cfg m : M (Session A) ()).
Proof. unfold check_manifest. keeps_walk unannounced_leaf. Qed.
Lemma unannounced_doLoad env cfg reason force opts pc :
  keeps unannounced (doLoadOrCreateManifest env cfg reason force opts pc : M (Session A) bool).
Proof.
  unfold doLoadOrCreateManifest, loadOrCreateManifest, obtain_manifest, createBootstrapManifest.
  keeps_walk ltac:(first [unannounced_leaf | apply unannounced_check]).
Qed.
Lemma replaced_events ctx snap (s : Session A) :
  ∃ s2, replaceLocalState ctx snap s = (Ok (), s2) ∧ ss_events s2 = ss_events s.
Proof. by eexists. Qed.
Lemma unannounced_restore cfg ctx path : keeps unannounced (restore cfg ctx path : M (Session A) _).
Proof.
  unfold restore. keeps_walk unannounced_leaf. apply unannounced_events. intros s r s'.
  unfold restoreSnapshot. match goal with |- context [replaceLocalState ctx ?snap] =>
    destruct (replaced_events ctx snap s) as (s4 & -> & Ea) end.
  by destruct (observe_all _ _ _); intros [= _ <-].
Qed.
Lemma unannounced_rehydrate cfg ctx reload : keeps unannounced reload →
  keeps unannounced (rehydrate cfg ctx reload (mret ()) : M (Session A) HLC).
Proof.
  intros Hreload. unfold rehydrate, restore_or_reload, rehydrate_failed.
  keeps_walk ltac:(first [unannounced_leaf | apply unannounced_poison | apply unannounced_restore | apply Hreload]).
Qed.
End silent.

(** ** Properties *)

(** Restoring a snapshot announces no row.  Whatever the snapshot replaces, no event of the
    restoration reaches the query and row caches: an answer cached before is served after
    it, although the rows it lists may be gone and others may have come. *)
Theorem restoration_is_unannounced `{Platform} {A : Type} `{!StorageAdapter A} `{!Coercion}
    (host : Host) (cfg : Config) (preserved : list (string * jsval)) (e e' : Engine A) (hlc : HLC) :
  restore_step host cfg preserved e = (Ok hlc, e') → unannounced (en_session e) (en_session e').
Proof.
  unfold restore_step. intros (u & e1 & ->%requires_nothing_more & E)%bind_ok_inv.
  revert E. rewrite gets_bind. cbn [id]. unfold sess.
  destruct (rehydrate _ _ _ _ _) as [r s] eqn:E. intros [= -> <-]. rewrite session_after_poison.
  eapply unannounced_rehydrate; [|exact E].
  apply keeps_bind; [apply _|apply unannounced_doLoad|intros _]. apply keeps_gets; apply _.
Qed.

(** ** Witnesses *)
#[local] Instance test_coercion : Coercion :=
  {| stringToNumber _ := NaN; objectToString _ := "[object Object]" |}.
(** A device asks for all the rows of a table before it has connected. *)
Definition all_todos : QueryDescriptor := mkQuery "todo" None None.
Definition asked_before (l : MemoryLocalStore) : Caches :=
  mkCaches (settle 0 (resolve 0 (Ok (answer all_todos l)) (load_cached false all_todos emptyCache).2)) emptyCache.
#[local] Strategy expand [reader_asks reader_restores].
Definition asked : Caches := asked_before (en_local reader_engine).

Lemma reader_restores_ok : ∃ hlc, reader_restores = (Ok hlc, reader_restores.2).
Proof.
  assert (is_ok reader_restores.1 = true) as H by exact reader_restored.
  destruct (reader_restores.1) as [hlc|] eqn:E; [|done]. exists hlc.
  exact (eq_trans (surjective_pairing reader_restores) (f_equal (λ r, (r, reader_restores.2)) E)).
Qed.
Lemma asked_answer : load_cached false all_todos (cs_queries asked) = (Answers [], cs_queries asked).
Proof. reflexivity. Qed.
Lemma restored_answer : length (answer all_todos (en_local reader_restores.2)) = 1.
Proof. by vm_compute. Qed.

(** The reader asked before it restored: it is still told that there are no rows, and there is one. *)
Lemma restoration_is_unannounced_witness :
  length (answer all_todos (en_local reader_restores.2)) = 1 ∧
  ∃ events, ss_events (en_session reader_restores.2) =
              ss_events (en_session (with_fresh true reader_asks.2)) ++ events ∧
    load_cached false all_todos (cs_queries (caches_after events asked)) = (Answers [], cs_queries asked).
Proof.
  split; [exact restored_answer|]. destruct reader_restores_ok as [hlc E].
  destruct (@restoration_is_unannounced test_platform _ memory_storage test_coercion test_host
    reader_config [] (with_fresh true reader_asks.2) reader_restores.2 hlc E) as (events & Ev & Hc).
  exists events. split; [exact Ev|]. rewrite (Hc asked). exact asked_answer.
Defined.
